(* ===== verification/_CoqProject ===== *)
-Q . S2P
Prelude.v
Scalar.v
Tensor.v
Externals.v
Toy.v
DataLoader.v
Gan.v
OpsData.v
ImportData.v
Listing.v
Training.v
Counters.v
Refinement.v
Pipeline.v
Adam.v
Drift.v
