(* ===== verification/Prelude.v ===== *)
(** * CanWeFixIt: a verification development for the GAN inpainting trainer

    ** The program

    The repository trains and applies a generative adversarial inpainting
    model on top of PyTorch.  Two source files are verified here:

    - [src/gan.py]: class [GAN].  [__init__] fixes the hyperparameters and
      builds the two networks and their Adam optimizers; [train_gan] is the
      training loop (per batch: draw a mask, erase the masked pixels, run
      the generator, composite its output with the known pixels, score
      real and fake images with the discriminator, update the
      discriminator on the hinge loss, then update the generator on the
      adversarial loss plus an L1 reconstruction loss); [inpaint_image]
      applies the generator to an image and a mask.
    - [src/ops_data.py]: [import_data], [preprocess] (the transform
      pipeline RandomCrop, ToTensor, Normalize), [export_model] and
      [import_model] (saving and loading the generator's parameters).

    Everything else the two files call is outside [src/]: the network
    architectures ([generator], [discriminator]), the mask geometry and the
    hinge loss ([util_ops]), plotting ([visual_ops]), the configuration
    module ([params]), PyTorch and torchvision.  The networks, autograd,
    the optimizer, [util_ops] and the random number generators are
    interfaces here (type classes whose fields are the operations and
    whose laws are the shape contracts the training loop relies on);
    tensors, the data loader and the torchvision transforms are modelled
    from their documented behaviour, and so is Adam, as one instance of
    the optimizer's interface.  Every theorem with a hypothesis is
    also applied to a concrete instance, so no law or hypothesis is
    vacuous.

    ** Files, in dependency order

    - [Prelude] (this file): Python exceptions as the type [exn], the
      error monad [result], the state-and-exception monad [stx] in which a
      raised exception keeps the state reached so far (a Python object
      mutated before the exception stays mutated), [for_] loops over
      lists, run lemmas for symbolic execution (rewrite database
      [stx_rw]), total Hoare triples [hoare] and [hoare_raises] with
      their loop rules, [ok_or_raises] for computations that return or
      raise one exception, [preserves] for relations that hold however
      a computation ends, the triples [ends] with one postcondition for
      returning and one for raising, and the list lemmas the
      components share (chunking, repeated concatenation, products of
      dimensions).
    - [Scalar]: the element type of tensors as the class [Scalar], the
      laws [MaskLaws] that masking needs, and two instances: integers and
      rationals in canonical form.
    - [Tensor]: tensors as a shape, row-major data and a device;
      broadcasting, elementwise arithmetic, [cat], [split], [stack],
      [mean], [item], [to], with the checks PyTorch makes (shapes,
      devices); well-formedness [wf] and its preservation.
    - [Externals]: the classes [Random], [Models], [Autograd], [UtilOps]
      and their contracts [RandomOk], [ModelsOk], [AutogradOk],
      [UtilOpsOk].
    - [Toy]: executable instances of those classes over any scalar type
      and image size, fixed to integers and two-pixel images in module
      [Toy] and to rationals and RGB images in module [ToyRgb].
    - [DataLoader]: [torch.utils.data.DataLoader] as line 39 of [gan.py]
      uses it: a fresh permutation per pass, batches of [batch_size] with
      a shorter last batch, collation by stacking; [is_pass] says what
      the batches of one pass are, [sample_ok] and [sample_raises] what
      fetching one sample does.
    - [Gan]: [src/gan.py].  The object is the record [GAN] (built by
      [GAN_init], lines 14-35); the locals of [train_gan] that outlive an
      iteration are the record [frame]; [world] holds both with the
      random number generator, the state of the autograd graph ([tape])
      and what was printed ([event]).  [train_gan], [train_epoch],
      [train_batch], [discriminator_step] and [generator_step] follow
      lines 37-91 statement by statement, in [stx world];
      [inpaint_image] is lines 94-97.  The forward computations of an
      iteration ([erase], [call_gen], [composite], [mix], [call_dis],
      [dis_loss], [l1], [adv_loss]) are functions into [result].
      Gradients are functional: [backward] adds [derive] of the loss, kept
      as a function of both parameter sets ([d_loss_fn], [g_loss_fn]), to
      the [.grad] buffers.  The theorems of the file are about the
      forward computations: what [erase] and [composite] compute
      element by element, what [mix] hands to the discriminator image
      by image and when it raises, and what [inpaint_image] returns and
      ignores.  The equivalences [≡c] (same configuration)
      and [≡f] (same configuration and parameters) come with [Proper]
      instances for every forward computation.
    - [OpsData]: [src/ops_data.py] but [import_data].  [preprocess]
      (lines 14-19) installs [the_transform] on an [image_folder], whose
      samples are a class index and what the loader decodes from the
      file, a picture or nothing; [RandomCrop], [ToTensor] and
      [Normalize] act on decoded RGB images ([pil_image]);
      [export_model] and [import_model] (lines 22-28) write and read a
      [file_system], a finite map from paths to state dictionaries
      ([state_dict]: the parameters of a generator or of a
      discriminator and the device they were saved from);
      [export_model] takes either network ([model]), [torch_load]
      restores the tensors to their device, which the machine has to
      have, and [import_model] loads into a new generator.  Theorems:
      the fetched samples have the shape of the crop, small images raise
      [ValueError], every element lies in [-1, 1] (over the rationals),
      import after export returns the exported parameters and nothing
      else of the model exactly when the model is a generator and its
      device exists on the machine, and what [import_model] raises in
      every other case.
    - [ImportData]: [import_data] (lines 10-11 of [src/ops_data.py]),
      the call of [datasets.ImageFolder].  The disk maps a root to a
      tree ([node]) of directories, which list their entries in any
      order, and files; [find_classes], [walk], [class_instances],
      [make_dataset] and [ImageFolder_init] follow torchvision and
      [os.walk], with [sorted] on names, [path_join] and the test of
      the extension [is_image_file] on strings.  [resolve] reads the
      tree as a map from paths to nodes and is the specification the
      samples are compared with, [count_images] counts the files
      with an image extension by recursion on the tree.  Theorems:
      when [import_data] returns and when it raises, that the targets
      are sorted and cover the classes, that the samples are the files
      with an image extension below the class folders, and that there
      are as many samples as such files.
    - [Listing]: [import_data] and the order of the listings.
      [canon] sorts every listing of a tree and [same_tree] relates
      the trees that differ in the order of their listings only.  The
      paths of the directories [os.walk] meets below a path that is
      not empty are distinct (names hold no separator), so sorting
      them has one result.  Theorem: on the same trees [import_data]
      returns the same folder or raises the same exception.
    - [Training]: what the loops of [train_gan] do.  [trainer] is the
      abstract state (two parameter sets, two optimizer states) and
      [alternating_step] the update an iteration is meant to perform;
      [iteration] records what an iteration computes.  The lemmas run an
      iteration symbolically ([train_batch_run] on a full batch,
      [train_batch_short_run] on any other), and carry an invariant
      through the loops over batches and epochs, for any invariant the
      iterations keep (section [loops]), or to the first batch with a
      sample that cannot be fetched.  Theorems: an iteration
      refines [alternating_step] and records the losses it does; an
      iteration on a batch of the wrong size raises; [train_gan]
      completes when the batch size divides the length of the dataset
      and raises in its first epoch otherwise; a second backward pass
      needs the graph retained; the configuration of the object never
      changes, however an iteration or the loop ends.
    - [Counters]: the lists, the counter and the output of
      [train_gan], on every path.  [counters] says how far an
      iteration has come ([D_losses] appended, [G_losses] appended,
      line printed, [iters] incremented) and [ragged] what holds of
      the state an exception leaves; the rules of [ends] carry both
      through every statement of the loop without any assumption on
      the dataset or the networks.  [progress_lines] is what a
      complete run prints.  Theorems: the counts agree when
      [train_gan] returns and are off by at most one iteration when
      it raises; the lines printed, with their epoch and iteration
      numbers.
    - [Refinement]: the whole of a run.  [trained] is alternating
      gradient descent as an inductive relation on [trainer], one
      update per batch of samples; the theorem shows that a call of
      [train_gan] is a derivation of it over [num_epochs] passes, each
      of which uses every sample once, with [G_losses] and [D_losses]
      as the losses of its updates; that every sample is trained on in
      every epoch; and that a second call continues the run of the
      first.
    - [Pipeline]: the functions one after the other: [train_gan] on a
      folder that went through [preprocess], with and without an image
      that is too small; [train_gan] on what [import_data] read from
      the disk, after [preprocess], without it, and with a file that
      is not a picture; [inpaint_image] after [train_gan];
      [inpaint_image] with a generator that went through
      [export_model] and [import_model]; and [train_gan] with a batch
      size of zero.
    - [Adam]: [torch.optim.Adam] as lines 34-35 of [gan.py] build it and
      lines 70 and 85 step it, over the real numbers: the record [adam]
      (hyperparameters, step count, the two running averages of every
      element), [adam_init], and [adam_update], one step on the
      parameters as a vector ([Flat]), made of [adam_moment] and
      [adam_delta]; [adam_autograd] is the instance of [Autograd].
      Lemmas: the averages keep the invariant [moment_ok], so a step
      moves no element by more than [B] when [step_bound] holds of [B],
      whatever the gradients are.
    - [Drift]: how far [train_gan] moves the parameters.  The class
      [StepBounded] is what the loop needs of an optimizer (a good state
      that steps keep, and a distance counted in steps); [drift] says
      how many losses are on the lists and how many steps the networks
      are away from where they started.  Theorems: however [train_gan]
      ends, the parameters of a network are at most as many steps away
      as its list holds losses; Adam is an instance of [StepBounded];
      for the optimizers of [GAN.__init__] every element stays within
      [0.0037] times the length of the list.

    ** Conventions, bounds and fuel

    Tensor elements are an abstract type with the arithmetic the code
    uses; rounding of 32-bit floats is not modelled.  The laws assumed of
    that arithmetic are stated where they are used and hold of IEEE
    arithmetic on finite values up to the sign of zero.  The bound on
    normalised pixels is proved over the rationals.  The optimizer of
    [Adam] computes with real numbers (the square root is the one of the
    standard library's [Reals], whose axioms the files [Adam] and
    [Drift] rely on); its bounds are written without roots and
    divisions, as inequalities between products.

    Integers of the program (sizes, counters, indices) are Python
    integers, which do not overflow: they are [nat].

    No definition uses fuel: every loop of the program iterates over a
    finite list ([range(num_epochs)], the batches of a finite dataset),
    so the loops are structural recursions and total by construction.
    Every theorem that says a call returns or raises exhibits the
    result.

    ** Not modelled

    - Of the disk [import_data] reads: symbolic links, the expansion
      of [~] in the root, permissions, and changes between the call and
      the fetches.  A file holds the picture the loader decodes from it
      or nothing; the image formats are not modelled.  File names are
      byte strings and [str.lower] acts on their ASCII letters, which
      is all the test of the extension depends on.  The constructor
      follows the releases of torchvision that raise
      [FileNotFoundError] for a class without a valid file.
    - The byte format of [torch.save] and [torch.load]: a saved file is
      the state dictionary itself, and every file holds the state
      dictionary of a generator or of a discriminator.  The two
      networks name their parameters differently, so that
      [load_state_dict] refuses the state of a discriminator; a file
      with some of the keys of a generator only is not modelled.
      [params.device] is a device of the machine.
    - The networks, how gradients are computed, the mask geometry and
      the hinge loss: code outside [src/], kept abstract behind the
      classes of [Externals].  Of Adam, the options the program leaves
      at their defaults other than [eps] (weight decay, AMSGrad,
      [maximize], the fused and multi-tensor implementations) and the
      rounding of its arithmetic.
    - [plot_losses] and [print]: recorded as events, not executed.
    - Floating-point rounding, dtype promotion, strides and memory
      sharing of tensors; data-loader workers and pinned memory. *)

From stdpp Require Import base tactics option list numbers.

(** ** Python exceptions

    The exceptions the modelled code can raise, by their Python class.
    PyTorch reports shape, device and autograd misuse as [RuntimeError];
    the reason is kept so that theorems can say which check failed. *)

Inductive runtime_reason : Type :=
  | SizeMismatch      (* operands cannot be broadcast / concatenated *)
  | DeviceMismatch    (* operands live on different devices *)
  | FreedGraph        (* backward through a graph that was freed *)
  | NoGradFn          (* backward on a value that no graph produced *)
  | NotScalar         (* .item() or backward() on a non one-element tensor *)
  | BadSplit          (* split_size 0 on a non-empty dimension *)
  | EmptyCat          (* torch.cat of an empty sequence *)
  | NoSuchDevice      (* deserializing a tensor of a device the machine lacks *)
  | StateDictKeys     (* load_state_dict: missing or unexpected keys *)
  | External (code : nat). (* raised inside code outside src/ *)

Inductive exn : Type :=
  | RuntimeError (why : runtime_reason)
  | ValueError         (* tuple unpacking of the wrong arity, bad argument *)
  | IndexError         (* subscript out of range *)
  | TypeError          (* a value of a type the callee does not accept *)
  | FileNotFoundError  (* no file at the path, no folder of a class *)
  | NotADirectoryError (* a directory is listed at the path of a file *)
  | UnidentifiedImageError. (* PIL cannot decode the file *)

#[export] Instance runtime_reason_eq_dec : EqDecision runtime_reason.
Proof. solve_decision. Defined.

#[export] Instance exn_eq_dec : EqDecision exn.
Proof. solve_decision. Defined.

(** ** The error monad *)

Inductive result (A : Type) : Type :=
  | Ok (a : A)
  | Err (e : exn).
Arguments Ok {A} a.
Arguments Err {A} e.

#[export] Instance result_eq_dec `{EqDecision A} : EqDecision (result A).
Proof. solve_decision. Defined.

#[export] Instance result_ret : MRet result := fun _ a => Ok a.

#[export] Instance result_bind : MBind result := fun _ _ f m =>
  match m with Ok a => f a | Err e => Err e end.

#[export] Instance result_fmap : FMap result := fun _ _ f m =>
  match m with Ok a => Ok (f a) | Err e => Err e end.

Definition is_Ok {A} (m : result A) : Prop := ∃ a, m = Ok a.

Definition is_okb {A} (m : result A) : bool :=
  match m with Ok _ => true | Err _ => false end.

(** [guard_ok b e] is the Python idiom "if not b: raise e". *)
Definition guard_ok (b : bool) (e : exn) : result unit :=
  if b then Ok tt else Err e.

(** [of_option o e] turns a missing value into the exception [e]. *)
Definition of_option {A} (o : option A) (e : exn) : result A :=
  match o with Some a => Ok a | None => Err e end.

(** [mapR f l] runs [f] on every element, left to right, and stops at the
    first exception. *)
Fixpoint mapR {A B} (f : A → result B) (l : list A) : result (list B) :=
  match l with
  | [] => Ok []
  | x :: l' => y ← f x; ys ← mapR f l'; mret (y :: ys)
  end.

(** ** The state-and-exception monad

    A computation takes the state and returns a value or an exception,
    together with the state reached.  The state survives an exception. *)

Definition stx (S A : Type) : Type := S → result A * S.

#[export] Instance stx_ret {S} : MRet (stx S) := fun _ a s => (Ok a, s).

#[export] Instance stx_bind {S} : MBind (stx S) := fun _ _ f m s =>
  match m s with
  | (Ok a, s') => f a s'
  | (Err e, s') => (Err e, s')
  end.

Definition get {S} : stx S S := fun s => (Ok s, s).
Definition gets {S A} (f : S → A) : stx S A := fun s => (Ok (f s), s).
Definition put {S} (s : S) : stx S unit := fun _ => (Ok tt, s).
Definition modify {S} (f : S → S) : stx S unit := fun s => (Ok tt, f s).
Definition raise {S A} (e : exn) : stx S A := fun s => (Err e, s).
Definition lift {S A} (r : result A) : stx S A := fun s => (r, s).

(** A state transformer that cannot fail. *)
Definition pure_st {S A} (f : S → A * S) : stx S A :=
  fun s => let '(a, s') := f s in (Ok a, s').

(** [for_ l body] is the Python loop [for x in l: body(x)]. *)
Fixpoint for_ {S A} (l : list A) (body : A → stx S unit) : stx S unit :=
  match l with
  | [] => mret tt
  | x :: l' => _ ← body x; for_ l' body
  end.

(** [mapS f l] runs [f] on every element, left to right, threading the
    state, and stops at the first exception. *)
Fixpoint mapS {S A B} (f : A → stx S B) (l : list A) : stx S (list B) :=
  match l with
  | [] => mret []
  | x :: l' => y ← f x; ys ← mapS f l'; mret (y :: ys)
  end.

(** [zoom proj upd m] runs [m], a computation on a part of the state,
    on the whole state: [proj] reads the part and [upd] writes it back. *)
Definition zoom {S T A} (proj : S → T) (upd : T → S → S) (m : stx T A) : stx S A :=
  fun s => let '(r, t') := m (proj s) in (r, upd t' s).

(** ** Hoare triples for [stx]

    [hoare P m Q]: from a state satisfying [P], [m] returns normally and
    the value and final state satisfy [Q].  [hoare_raises P m e Q]: from
    [P], [m] raises [e] in a state satisfying [Q]. *)

Definition hoare {S A} (P : S → Prop) (m : stx S A) (Q : A → S → Prop) : Prop :=
  ∀ s, P s → ∃ a s', m s = (Ok a, s') ∧ Q a s'.

Definition hoare_raises {S A} (P : S → Prop) (m : stx S A) (e : exn)
    (Q : S → Prop) : Prop :=
  ∀ s, P s → ∃ s', m s = (Err e, s') ∧ Q s'.

(** [ok_or_raises P m e Q]: from a state in [P], [m] returns in [Q] or
    raises [e]. *)
Definition ok_or_raises {S A} (P : S → Prop) (m : stx S A) (e : exn)
    (Q : A → S → Prop) : Prop :=
  ∀ s, P s → (∃ a s', m s = (Ok a, s') ∧ Q a s') ∨ (∃ s', m s = (Err e, s')).

(** [preserves I m]: however [m] ends, by returning or by raising, the
    state it leaves is related by [I] to the state it started from. *)
(** [ends P m Q X]: from a state in [P], [m] ends in [Q] when it
    returns and in [X] when it raises, whatever it raises.  A safety
    statement: it makes no claim that [m] returns. *)
Definition ends {S A} (P : S → Prop) (m : stx S A) (Q : A → S → Prop)
    (X : S → Prop) : Prop :=
  ∀ s, P s → match m s with
             | (Ok a, s') => Q a s'
             | (Err _, s') => X s'
             end.

Definition preserves {S A} (I : S → S → Prop) (m : stx S A) : Prop :=
  ∀ s r s', m s = (r, s') → I s s'.

(** ** Dimensions and chunking *)

(** The number of elements of a shape: the product of its dimensions. *)
Definition numel (sh : list nat) : nat := foldr Nat.mul 1 sh.
Arguments numel : simpl never.

(** The sizes of the pieces when [n] items are cut into pieces of [size]:
    [n / size] full pieces and, when [size] does not divide [n], a last
    shorter one.  This is the rule of both [torch.split] and the batches
    of a [DataLoader] that keeps the last batch. *)
Definition chunk_sizes (n size : nat) : list nat :=
  replicate (n / size) size ++ (if n `mod` size =? 0 then [] else [n `mod` size]).

Definition chunks {A} (size : nat) (l : list A) : list (list A) :=
  reshape (chunk_sizes (length l) size) l.

(** [tile n d] is [d] repeated [n] times. *)
Definition tile {A} (n : nat) (d : list A) : list A := mjoin (replicate n d).

(** ** Tactics and hint databases *)

Create HintDb gan discriminated.
Create Rewrite HintDb gan_rw.
Create Rewrite HintDb stx_rw.

(** Case analysis on the first [result] scrutinised in the goal. *)
Ltac case_result :=
  match goal with
  | |- context [mbind _ ?m] =>
      let E := fresh "E" in destruct m eqn:E; simpl
  end.

(** Invert successful runs of binds in hypotheses. *)
(** Closes the two directions of the inversion lemmas on [result]. *)
Ltac ok_solver :=
  intros;
  repeat match goal with
  | H : ∃ _, _ |- _ => destruct H
  | H : _ ∧ _ |- _ => destruct H
  | H : _ ∨ _ |- _ => destruct H
  end;
  simplify_eq; eauto.

Ltac inv_ok :=
  repeat match goal with
  | H : Ok _ = Ok _ |- _ => injection H as H; subst
  | H : Err _ = Ok _ |- _ => discriminate H
  | H : Ok _ = Err _ |- _ => discriminate H
  | H : (_, _) = (_, _) |- _ => injection H as ? ?; subst
  end.

(** ** Lemmas on [result] *)

Section result_lemmas.
Context {A B : Type}.
Implicit Types (m : result A) (f : A → result B).

Lemma bind_Ok m f b :
  m ≫= f = Ok b ↔ ∃ a, m = Ok a ∧ f a = Ok b.
Proof. destruct m; simpl; split; ok_solver. Qed.

Lemma bind_Err m f e :
  m ≫= f = Err e ↔ m = Err e ∨ ∃ a, m = Ok a ∧ f a = Err e.
Proof. destruct m; simpl; split; ok_solver. Qed.

Lemma fmap_Ok (g : A → B) m b :
  g <$> m = Ok b ↔ ∃ a, m = Ok a ∧ b = g a.
Proof. destruct m; simpl; split; ok_solver. Qed.

Lemma is_Ok_okb m : is_Ok m ↔ is_okb m = true.
Proof. destruct m; unfold is_Ok; simpl; split; ok_solver. Qed.

Lemma guard_ok_Ok b e : guard_ok b e = Ok tt ↔ b = true.
Proof. destruct b; simpl; split; ok_solver. Qed.

Lemma of_option_Ok (o : option A) e a : of_option o e = Ok a ↔ o = Some a.
Proof. destruct o; simpl; split; ok_solver. Qed.
End result_lemmas.

Section mapR_lemmas.
Context {A B : Type} (f : A → result B).

Lemma mapR_Ok_length l ys : mapR f l = Ok ys → length ys = length l.
Proof.
  revert ys. induction l as [|x l IH]; intros ys; simpl.
  - by intros [= <-].
  - intros (y & _ & (ys' & Hys & [= <-])%bind_Ok)%bind_Ok.
    simpl. by rewrite (IH ys').
Qed.

Lemma mapR_Ok_lookup l ys i x :
  mapR f l = Ok ys → l !! i = Some x → ∃ y, f x = Ok y ∧ ys !! i = Some y.
Proof.
  revert ys i. induction l as [|x' l IH]; intros ys i; simpl; [done|].
  intros (y & Hy & (ys' & Hys & [= <-])%bind_Ok)%bind_Ok.
  destruct i as [|i]; simpl.
  - intros [= ->]. eauto.
  - eauto.
Qed.

Lemma mapR_all_Ok l (g : A → B) :
  (∀ x, x ∈ l → f x = Ok (g x)) → mapR f l = Ok (g <$> l).
Proof.
  induction l as [|x l IH]; intros Hf; simpl; [done|].
  rewrite Hf by left. simpl. rewrite IH; [done|].
  intros y Hy. apply Hf. by right.
Qed.
End mapR_lemmas.

(** ** Lemmas on [stx] and the Hoare logic *)

Section stx_lemmas.
Context {S : Type}.

Lemma run_bind {A B} (m : stx S A) (f : A → stx S B) s :
  (m ≫= f) s = match m s with
               | (Ok a, s') => f a s'
               | (Err e, s') => (Err e, s')
               end.
Proof. done. Qed.

Lemma run_bind_Ok {A B} (m : stx S A) (f : A → stx S B) s a s' :
  m s = (Ok a, s') → (m ≫= f) s = f a s'.
Proof. intros H. by rewrite run_bind, H. Qed.

Lemma run_bind_Err {A B} (m : stx S A) (f : A → stx S B) s e s' :
  m s = (Err e, s') → (m ≫= f) s = (Err e, s').
Proof. intros H. by rewrite run_bind, H. Qed.

Lemma run_lift_bind {A B} (r : result A) (f : A → stx S B) s :
  (lift r ≫= f) s = match r with Ok a => f a s | Err e => (Err e, s) end.
Proof. by destruct r. Qed.

(** Running a primitive followed by its continuation. *)
Lemma run_gets_bind {A B} (f : S → A) (k : A → stx S B) s :
  (gets f ≫= k) s = k (f s) s.
Proof. done. Qed.

Lemma run_get_bind {B} (k : S → stx S B) s : (get ≫= k) s = k s s.
Proof. done. Qed.

Lemma run_modify_bind {B} (f : S → S) (k : unit → stx S B) s :
  (modify f ≫= k) s = k tt (f s).
Proof. done. Qed.

Lemma run_put_bind {B} (s' : S) (k : unit → stx S B) s : (put s' ≫= k) s = k tt s'.
Proof. done. Qed.

Lemma run_raise_bind {A B} e (k : A → stx S B) s :
  (raise e ≫= k) s = (Err e, s).
Proof. done. Qed.

Lemma run_ret_bind {A B} (a : A) (k : A → stx S B) s : (mret a ≫= k) s = k a s.
Proof. done. Qed.

Lemma run_lift_Ok_bind {A B} (a : A) (k : A → stx S B) s :
  (lift (Ok a) ≫= k) s = k a s.
Proof. done. Qed.

Lemma run_lift_Err_bind {A B} e (k : A → stx S B) s :
  (lift (Err e) ≫= k) s = (Err e, s).
Proof. done. Qed.

Lemma hoare_ret {A} (P : S → Prop) (a : A) : hoare P (mret a) (λ b s, b = a ∧ P s).
Proof. intros s HP. by exists a, s. Qed.

Lemma hoare_bind {A B} (P : S → Prop) (m : stx S A) (Q : A → S → Prop)
    (f : A → stx S B) (R : B → S → Prop) :
  hoare P m Q → (∀ a, hoare (Q a) (f a) R) → hoare P (m ≫= f) R.
Proof.
  intros Hm Hf s HP. destruct (Hm s HP) as (a & s' & Hrun & HQ).
  rewrite (run_bind_Ok _ _ _ _ _ Hrun). by apply (Hf a).
Qed.

Lemma hoare_consequence {A} (P P' : S → Prop) (m : stx S A) (Q Q' : A → S → Prop) :
  hoare P' m Q' → (∀ s, P s → P' s) → (∀ a s, Q' a s → Q a s) → hoare P m Q.
Proof.
  intros Hm HP HQ s Hs. destruct (Hm s (HP s Hs)) as (a & s' & ? & ?).
  exists a, s'. eauto.
Qed.

Lemma hoare_raises_bind_l {A B} (P : S → Prop) (m : stx S A) e (Q : S → Prop)
    (f : A → stx S B) :
  hoare_raises P m e Q → hoare_raises P (m ≫= f) e Q.
Proof.
  intros Hm s HP. destruct (Hm s HP) as (s' & Hrun & HQ).
  exists s'. by rewrite (run_bind_Err _ _ _ _ _ Hrun).
Qed.

Lemma hoare_raises_bind_r {A B} (P : S → Prop) (m : stx S A) (Q : A → S → Prop)
    (f : A → stx S B) e (R : S → Prop) :
  hoare P m Q → (∀ a, hoare_raises (Q a) (f a) e R) →
  hoare_raises P (m ≫= f) e R.
Proof.
  intros Hm Hf s HP. destruct (Hm s HP) as (a & s' & Hrun & HQ).
  rewrite (run_bind_Ok _ _ _ _ _ Hrun). by apply (Hf a).
Qed.

Lemma hoare_lift_Ok {A} (P : S → Prop) (r : result A) a :
  r = Ok a → hoare P (lift r) (λ b s, b = a ∧ P s).
Proof. intros -> s HP. by exists a, s. Qed.

Lemma run_pure_st {A} (f : S → A * S) s : pure_st f s = (Ok (f s).1, (f s).2).
Proof. unfold pure_st. by destruct (f s). Qed.

Lemma hoare_gets {A} (P : S → Prop) (f : S → A) :
  hoare P (gets f) (λ a s, a = f s ∧ P s).
Proof. intros s HP. by exists (f s), s. Qed.

Lemma hoare_modify (P : S → Prop) (f : S → S) :
  hoare P (modify f) (λ _ s, ∃ s0, s = f s0 ∧ P s0).
Proof. intros s HP. exists tt, (f s). eauto. Qed.

Lemma hoare_raises_lift {A} (P : S → Prop) (r : result A) e :
  r = Err e → hoare_raises P (lift r) e P.
Proof. intros -> s HP. by exists s. Qed.

Lemma hoare_zoom {T A} (proj : S → T) (upd : T → S → S) (m : stx T A)
    (P : T → Prop) (Q : A → T → Prop) (F : S → Prop) :
  hoare P m Q →
  hoare (λ s, P (proj s) ∧ F s) (zoom proj upd m)
        (λ a s, ∃ s0 t, s = upd t s0 ∧ Q a t ∧ F s0).
Proof.
  intros Hm s [HP HF]. destruct (Hm _ HP) as (a & t & Hrun & HQ).
  exists a, (upd t s). unfold zoom. rewrite Hrun. eauto 6.
Qed.

(** [mapS] under a state invariant [P]: the results are related to the
    inputs element by element. *)
Lemma hoare_mapS {A B} (P : S → Prop) (Q : A → B → Prop)
    (f : A → stx S B) (l : list A) :
  (∀ x, x ∈ l → hoare P (f x) (λ y s, Q x y ∧ P s)) →
  hoare P (mapS f l) (λ ys s, Forall2 Q l ys ∧ P s).
Proof.
  induction l as [|x l IH]; intros Hf; simpl.
  - intros s HP. exists [], s. split; [done|]. split; [constructor|done].
  - eapply hoare_bind; [apply Hf; by left|]. intros y. simpl.
    intros s [HQ HP]. destruct (IH (λ z Hz, Hf z (list_elem_of_further _ _ _ Hz)) s HP)
      as (ys & s' & Hrun & HQs & HP').
    exists (y :: ys), s'. rewrite (run_bind_Ok _ _ _ _ _ Hrun).
    split; [done|]. split; [by constructor|done].
Qed.

(** The loop rule: an invariant indexed by the number of iterations
    already done. *)
Lemma hoare_for {A} (I : nat → S → Prop) (l : list A) (body : A → stx S unit) :
  (∀ i x, l !! i = Some x → hoare (I i) (body x) (λ _, I (Datatypes.S i))) →
  hoare (I 0) (for_ l body) (λ _, I (length l)).
Proof.
  revert I. induction l as [|x l IH]; intros I Hbody; simpl.
  - intros s Hs. by exists tt, s.
  - eapply hoare_bind; [apply (Hbody 0 x); done|].
    intros ?. apply (IH (λ i, I (Datatypes.S i))).
    intros i y Hy. by apply (Hbody (Datatypes.S i)).
Qed.

(** A loop whose body raises at index [k], after [k] good iterations,
    raises, and the state is the one the failing iteration left. *)
Lemma hoare_for_raises {A} (I : nat → S → Prop) (l : list A)
    (body : A → stx S unit) k xk e (Q : S → Prop) :
  l !! k = Some xk →
  (∀ i x, i < k → l !! i = Some x →
     hoare (I i) (body x) (λ _, I (Datatypes.S i))) →
  hoare_raises (I k) (body xk) e Q →
  hoare_raises (I 0) (for_ l body) e Q.
Proof.
  revert I k. induction l as [|x l IH]; intros I k Hk Hgood Hbad; [done|].
  destruct k as [|k]; simpl in *.
  - injection Hk as ->. by apply hoare_raises_bind_l.
  - eapply hoare_raises_bind_r; [apply (Hgood 0 x); [lia|done]|].
    intros ?. apply (IH (λ i, I (Datatypes.S i)) k); [done| |done].
    intros i y Hi Hy. apply (Hgood (Datatypes.S i)); [lia|done].
Qed.

(** *** Computations that may raise one exception *)

Lemma hoare_ok_or_raises {A} (P : S → Prop) (m : stx S A) e (Q : A → S → Prop) :
  hoare P m Q → ok_or_raises P m e Q.
Proof. intros Hm s HP. left. by apply Hm. Qed.

Lemma hoare_raises_ok_or_raises {A} (P : S → Prop) (m : stx S A) e
    (Q : A → S → Prop) (Q' : S → Prop) :
  hoare_raises P m e Q' → ok_or_raises P m e Q.
Proof. intros Hm s HP. right. destruct (Hm s HP) as (s' & ? & _). by exists s'. Qed.

(** [mapS] raises when one element does, if the elements before it
    return or raise the same exception. *)
Lemma mapS_raises {A B} (P : S → Prop) (f : A → stx S B) (l : list A) e :
  (∀ x, x ∈ l → ok_or_raises P (f x) e (λ _, P)) →
  (∃ x, x ∈ l ∧ hoare_raises P (f x) e (λ _, True)) →
  hoare_raises P (mapS f l) e (λ _, True).
Proof.
  induction l as [|x l IH]; intros Hall (z & Hz & Hbad) s HP.
  { by apply elem_of_nil in Hz. }
  simpl. destruct (Hall x (list_elem_of_here _ _) s HP)
    as [(y & s1 & Hrun & HP1)|(s1 & Hrun)].
  - rewrite (run_bind_Ok _ _ _ _ _ Hrun).
    apply elem_of_cons in Hz as [->|Hz].
    { destruct (Hbad s HP) as (s2 & Hrun' & _). congruence. }
    destruct (IH (λ u Hu, Hall u (list_elem_of_further _ _ _ Hu))
                (ex_intro _ z (conj Hz Hbad)) s1 HP1) as (s2 & Hrun2 & _).
    exists s2. by rewrite (run_bind_Err _ _ _ _ _ Hrun2).
  - exists s1. by rewrite (run_bind_Err _ _ _ _ _ Hrun).
Qed.

(** A loop raises when the body at index [k] does, if the bodies
    before it return or raise the same exception. *)
Lemma for_raises_at {A} (I : S → Prop) (l : list A) (body : A → stx S unit)
    k xk e :
  l !! k = Some xk →
  (∀ i x, i < k → l !! i = Some x → ok_or_raises I (body x) e (λ _, I)) →
  hoare_raises I (body xk) e (λ _, True) →
  hoare_raises I (for_ l body) e (λ _, True).
Proof.
  revert k. induction l as [|x l IH]; intros k Hk Hgood Hbad s HI; [done|].
  destruct k as [|k]; simpl in *.
  { injection Hk as ->. by apply (hoare_raises_bind_l I _ e _ _ Hbad). }
  destruct (Hgood 0 x ltac:(lia) eq_refl s HI) as [([] & s1 & Hrun & HI1)|(s1 & Hrun)].
  - rewrite (run_bind_Ok _ _ _ _ _ Hrun).
    apply (IH k); [done| |done..].
    intros i y Hi Hy. apply (Hgood (Datatypes.S i)); [lia|done].
  - exists s1. by rewrite (run_bind_Err _ _ _ _ _ Hrun).
Qed.
End stx_lemmas.

(** ** Safety triples *)

Section ends_lemmas.
Context {S : Type}.
Implicit Types (P X : S → Prop).

Lemma ends_consequence {A} P P' (m : stx S A) (Q Q' : A → S → Prop) X X' :
  (∀ s, P' s → P s) → (∀ a s, Q a s → Q' a s) → (∀ s, X s → X' s) →
  ends P m Q X → ends P' m Q' X'.
Proof.
  intros HP HQ HX Hm s Hs. specialize (Hm s (HP s Hs)).
  destruct (m s) as [[a|e] s']; auto.
Qed.

Lemma ends_ret {A} P (a : A) X : ends P (mret a) (λ _, P) X.
Proof. by intros s Hs. Qed.

Lemma ends_bind {A B} P (m : stx S A) (Q : A → S → Prop) (k : A → stx S B)
    (Q' : B → S → Prop) X :
  ends P m Q X → (∀ a, ends (Q a) (k a) Q' X) → ends P (m ≫= k) Q' X.
Proof.
  intros Hm Hk s Hs. specialize (Hm s Hs). rewrite run_bind.
  destruct (m s) as [[a|e] s1]; [by apply Hk|done].
Qed.

(** A computation that does not write keeps what holds. *)
Lemma ends_lift {A} P (r : result A) : ends P (lift r) (λ _, P) P.
Proof. intros s Hs. unfold lift. by destruct r. Qed.

Lemma ends_exists {A B} (P : B → S → Prop) (m : stx S A) Q X :
  (∀ b, ends (P b) m Q X) → ends (λ s, ∃ b, P b s) m Q X.
Proof. intros Hm s [b Hs]. by apply (Hm b). Qed.

Lemma ends_gets {A} P (f : S → A) X : ends P (gets f) (λ _, P) X.
Proof. by intros s Hs. Qed.

Lemma ends_gets_eq {A} P (f : S → A) X :
  ends P (gets f) (λ a s, P s ∧ a = f s) X.
Proof. by intros s Hs. Qed.

Lemma ends_modify P (f : S → S) (Q : S → Prop) X :
  (∀ s, P s → Q (f s)) → ends P (modify f) (λ _, Q) X.
Proof. intros Hf s Hs. by apply Hf. Qed.

(** What a computation preserves holds however it ends. *)
Lemma ends_preserves {A} (I : relation S) P (Q : S → Prop) X (m : stx S A) :
  preserves I m →
  (∀ s s', P s → I s s' → Q s') → (∀ s s', P s → I s s' → X s') →
  ends P m (λ _, Q) X.
Proof.
  intros Hm HQ HX s Hs. specialize (Hm s). specialize (HQ s). specialize (HX s).
  destruct (m s) as [[a|e] s']; eauto.
Qed.

(** The loop rule: the invariant counts the iterations done. *)
Lemma ends_for {A} (I : nat → S → Prop) (l : list A) (body : A → stx S unit) X :
  (∀ i x, l !! i = Some x → ends (I i) (body x) (λ _, I (Datatypes.S i)) X) →
  ends (I 0) (for_ l body) (λ _, I (length l)) X.
Proof.
  revert I. induction l as [|x l IH]; intros I Hbody; simpl.
  - by intros s Hs.
  - eapply ends_bind; [apply (Hbody 0 x); done|].
    intros ?. apply (IH (λ i, I (Datatypes.S i))).
    intros i y Hy. by apply (Hbody (Datatypes.S i)).
Qed.
End ends_lemmas.

(** ** What a computation preserves, exceptions included *)

Section preserves_lemmas.
Context {S : Type} (I : relation S) `{!PreOrder I}.

Lemma preserves_mono {A} (J : relation S) (m : stx S A) :
  (∀ s s', J s s' → I s s') → preserves J m → preserves I m.
Proof. intros HJ Hm s r s' Hrun. by eapply HJ, Hm. Qed.

Lemma preserves_run {A} (m : stx S A) s : preserves I m → I s (m s).2.
Proof. intros Hm. apply (Hm s (m s).1). by destruct (m s). Qed.

Lemma preserves_ret {A} (a : A) : preserves I (mret a).
Proof. by intros s r s' [= <- <-]. Qed.

Lemma preserves_lift {A} (r : result A) : preserves I (lift r).
Proof. by intros s r' s' [= <- <-]. Qed.

Lemma preserves_raise {A} e : preserves I (raise e : stx S A).
Proof. by intros s r' s' [= <- <-]. Qed.

Lemma preserves_gets {A} (f : S → A) : preserves I (gets f).
Proof. by intros s r' s' [= <- <-]. Qed.

Lemma preserves_get : preserves I get.
Proof. by intros s r' s' [= <- <-]. Qed.

Lemma preserves_modify (f : S → S) : (∀ s, I s (f s)) → preserves I (modify f).
Proof. intros Hf s r' s' [= <- <-]. apply Hf. Qed.

Lemma preserves_bind {A B} (m : stx S A) (k : A → stx S B) :
  preserves I m → (∀ a, preserves I (k a)) → preserves I (m ≫= k).
Proof.
  intros Hm Hk s r s'. rewrite run_bind.
  destruct (m s) as [[a|e] s1] eqn:Hrun.
  - intros Hrun'. etrans; [by eapply Hm|by eapply Hk].
  - intros [= <- <-]. by eapply Hm.
Qed.

Lemma preserves_for {A} (l : list A) (body : A → stx S unit) :
  (∀ x, x ∈ l → preserves I (body x)) → preserves I (for_ l body).
Proof.
  induction l as [|x l IH]; intros Hbody; simpl; [apply preserves_ret|].
  apply preserves_bind; [apply Hbody; left|].
  intros _. apply IH. intros y Hy. apply Hbody. by right.
Qed.

Lemma preserves_zoom {T A} (proj : S → T) (upd : T → S → S) (m : stx T A) :
  (∀ t s, I s (upd t s)) → preserves I (zoom proj upd m).
Proof.
  intros Hupd s r s'. unfold zoom. destruct (m (proj s)) as [r' t].
  intros [= <- <-]. apply Hupd.
Qed.
End preserves_lemmas.

(** ** Lemmas on boolean checks over lists *)

Lemma Forall_two {A} (P : A → Prop) (a b : A) : P a → P b → Forall P [a; b].
Proof. intros. by repeat (apply Forall_cons_2 || apply Forall_nil_2). Qed.

#[export] Instance from_option_dec {A} (P : A → Prop) (Q : Prop)
    `{!∀ x, Decision (P x), !Decision Q} (o : option A) :
  Decision (from_option P Q o).
Proof. destruct o; apply _. Defined.

Lemma filter_eq_nil {A} (P : A → Prop) `{!∀ x, Decision (P x)} (l : list A) :
  filter P l = [] ↔ Forall (λ x, ¬ P x) l.
Proof.
  induction l as [|x l IH]; [by split|].
  rewrite list.Forall_cons, <-IH, filter_cons.
  case_decide; [split; [done|by intros []]|tauto].
Qed.

Section forallb_lemmas.
Context {A : Type} (f : A → bool).

Lemma forallb_true_Forall l : forallb f l = true ↔ Forall (λ x, f x = true) l.
Proof.
  induction l as [|x l IH]; simpl; [by split; [constructor|]|].
  split.
  - intros Hb. apply andb_true_iff in Hb as [? ?].
    constructor; [done|by apply IH].
  - intros Hall. inversion_clear Hall.
    apply andb_true_iff. split; [done|by apply IH].
Qed.

Lemma forallb_false_elem l x : x ∈ l → f x = false → forallb f l = false.
Proof.
  intros Hx Hf. destruct (forallb f l) eqn:Hall; [|done].
  apply forallb_true_Forall in Hall.
  induction Hx as [x l|x y l _ IH]; inversion_clear Hall; [congruence|auto].
Qed.
End forallb_lemmas.

(** ** Lemmas on dimensions, chunks and tiles *)

Lemma numel_nil : numel [] = 1.
Proof. done. Qed.

Lemma numel_cons n sh : numel (n :: sh) = n * numel sh.
Proof. done. Qed.

Lemma numel_app sh1 sh2 : numel (sh1 ++ sh2) = numel sh1 * numel sh2.
Proof.
  induction sh1 as [|n sh1 IH]; [unfold numel; simpl; lia|].
  rewrite <-app_comm_cons, !numel_cons, IH. lia.
Qed.

Lemma numel_replicate_1 k : numel (replicate k 1) = 1.
Proof. induction k as [|k IH]; [done|]. cbn [replicate]. rewrite numel_cons, IH. lia. Qed.

#[export] Hint Rewrite @run_gets_bind @run_get_bind @run_modify_bind
  @run_put_bind @run_raise_bind @run_ret_bind @run_lift_Ok_bind
  @run_lift_Err_bind : stx_rw.

#[export] Hint Rewrite numel_nil numel_cons numel_app numel_replicate_1 : gan_rw.

Section chunk_lemmas.
Context {A : Type}.
Implicit Types (l d : list A).

Lemma Forall_reshape (P : A → Prop) szs l :
  Forall P l → Forall (Forall P) (reshape szs l).
Proof.
  revert l. induction szs as [|sz szs IH]; intros l Hl; simpl; constructor.
  - by apply Forall_take.
  - by apply IH, Forall_drop.
Qed.

Lemma Forall_zip_with {B C} (f : A → B → C) (P : C → Prop) l (k : list B) :
  (∀ i x y, l !! i = Some x → k !! i = Some y → P (f x y)) →
  Forall P (zip_with f l k).
Proof.
  intros Hf. apply Forall_lookup_2. intros i z. rewrite lookup_zip_with.
  destruct (l !! i) as [x|] eqn:Hx; [|done].
  destruct (k !! i) as [y|] eqn:Hy; [|done].
  intros [= <-]. by eapply Hf.
Qed.

Lemma Forall_join (P : A → Prop) (ls : list (list A)) :
  Forall (Forall P) ls → Forall P (mjoin ls).
Proof. induction 1; simpl; [done|]. by apply Forall_app. Qed.

Lemma sum_chunk_sizes n size : 0 < size → sum_list (chunk_sizes n size) = n.
Proof.
  intros Hsz. unfold chunk_sizes.
  rewrite sum_list_with_app, sum_list_replicate.
  pose proof (Nat.div_mod_eq n size).
  destruct (Nat.eqb_spec (n `mod` size) 0); simpl; lia.
Qed.

Lemma chunk_sizes_exact k size :
  0 < size → chunk_sizes (k * size) size = replicate k size.
Proof.
  intros Hsz. unfold chunk_sizes.
  rewrite Nat.div_mul, Nat.Div0.mod_mul by lia. simpl. by rewrite app_nil_r.
Qed.

Lemma join_chunks size l : 0 < size → mjoin (chunks size l) = l.
Proof. intros. apply join_reshape. by apply sum_chunk_sizes. Qed.

Lemma length_chunks_exact k size l :
  0 < size → length l = k * size → length (chunks size l) = k.
Proof.
  intros Hsz Hl. unfold chunks.
  by rewrite length_reshape, Hl, chunk_sizes_exact, length_replicate.
Qed.

Lemma length_chunks size l :
  0 < size →
  length (chunks size l) =
    length l / size + (if length l `mod` size =? 0 then 0 else 1).
Proof.
  intros Hsz. unfold chunks, chunk_sizes.
  rewrite length_reshape, length_app, length_replicate.
  by destruct (Nat.eqb_spec (length l `mod` size) 0).
Qed.

Lemma length_reshape_lookup szs l i c :
  sum_list szs ≤ length l → reshape szs l !! i = Some c →
  szs !! i = Some (length c).
Proof.
  revert l i. induction szs as [|sz szs IH]; intros l i Hlen; simpl; [done|].
  simpl in Hlen. destruct i as [|i]; simpl.
  - intros [= <-]. rewrite length_take. f_equal. lia.
  - apply IH. rewrite length_drop. lia.
Qed.

(** Every batch but a possible last one is full. *)
Lemma chunks_lookup_full size l i c :
  0 < size → chunks size l !! i = Some c → i < length l / size →
  length c = size.
Proof.
  intros Hsz Hc Hi.
  apply length_reshape_lookup in Hc; [|by rewrite sum_chunk_sizes].
  unfold chunk_sizes in Hc.
  rewrite lookup_app_l, lookup_replicate in Hc by (by rewrite length_replicate).
  by destruct Hc as [-> _].
Qed.

(** When [size] does not divide the length, the last batch is short. *)
Lemma chunks_lookup_last size l c :
  0 < size → length l `mod` size ≠ 0 →
  chunks size l !! (length l / size) = Some c →
  length c = length l `mod` size.
Proof.
  intros Hsz Hmod Hc.
  apply length_reshape_lookup in Hc; [|by rewrite sum_chunk_sizes].
  unfold chunk_sizes in Hc.
  rewrite lookup_app_r, length_replicate, Nat.sub_diag in Hc
    by (by rewrite length_replicate).
  destruct (Nat.eqb_spec (length l `mod` size) 0); [done|].
  by injection Hc.
Qed.

Lemma chunks_lookup_is_Some size l i :
  0 < size → i < length (chunks size l) → is_Some (chunks size l !! i).
Proof. intros _ Hi. by apply lookup_lt_is_Some. Qed.

Lemma length_tile n d : length (tile n d) = n * length d.
Proof.
  unfold tile. induction n as [|n IH]; simpl; [done|].
  rewrite length_app, IH. lia.
Qed.

Lemma tile_0 d : tile 0 d = [].
Proof. done. Qed.

Lemma tile_S n d : tile (Datatypes.S n) d = d ++ tile n d.
Proof. done. Qed.

Lemma tile_1 d : tile 1 d = d.
Proof. unfold tile. simpl. by rewrite app_nil_r. Qed.

Lemma tile_mul n m d : tile n (tile m d) = tile (n * m) d.
Proof.
  unfold tile. induction n as [|n IH]; simpl; [done|].
  rewrite IH, replicate_add, join_app. done.
Qed.

Lemma tile_singleton n (x : A) : tile n [x] = replicate n x.
Proof. unfold tile. induction n as [|n IH]; simpl; [done|]. by rewrite IH. Qed.

(** Reading a tiled list wraps around the period. *)
Lemma lookup_tile n d i :
  i < n * length d → tile n d !! i = d !! (i `mod` length d).
Proof.
  revert i. induction n as [|n IH]; intros i Hi; [lia|].
  rewrite tile_S. destruct (decide (i < length d)) as [Hlt|Hge].
  - by rewrite lookup_app_l, Nat.mod_small.
  - rewrite lookup_app_r, IH by lia. f_equal.
    replace i with ((i - length d) + 1 * length d) at 2 by lia.
    by rewrite Nat.Div0.mod_add.
Qed.
End chunk_lemmas.

#[export] Hint Rewrite @length_tile @tile_1 @tile_mul @tile_singleton : gan_rw.
