(* ===== verification/Scalar.v ===== *)
(** * Scalar: the element type of tensors

    PyTorch tensors of [self.dtype = torch.float32] hold floats.  The
    training code only combines them with [+], [-], [*], unary minus,
    [abs] and the division inside [torch.mean]; the class [Scalar] names
    exactly these operations.  [MaskLaws] lists the identities on [0] and
    [1] that the masking arithmetic of [train_gan] needs; they hold of
    IEEE arithmetic on finite values up to the sign of zero.

    Two instances make the models executable: the integers (division
    rounds down) and the rationals in canonical form (exact). *)

From stdpp Require Import base tactics numbers.
From Stdlib Require Import QArith Qcanon Qcabs.
From S2P Require Import Prelude.

Declare Scope sc_scope.
Delimit Scope sc_scope with sc.

Class Scalar (R : Type) : Type := {
  sc_eq_dec :: EqDecision R;
  sc_zero : R;
  sc_one : R;
  sc_add : R → R → R;
  sc_sub : R → R → R;
  sc_mul : R → R → R;
  sc_div : R → R → R;
  sc_neg : R → R;
  sc_abs : R → R;
  sc_max : R → R → R;
  (** the conversion of a Python [int] (an element count, a label) *)
  sc_of_nat : nat → R;
}.

Notation "0" := sc_zero : sc_scope.
Notation "1" := sc_one : sc_scope.
Infix "+" := sc_add : sc_scope.
Infix "-" := sc_sub : sc_scope.
Infix "*" := sc_mul : sc_scope.
Infix "/" := sc_div : sc_scope.
Notation "- x" := (sc_neg x) : sc_scope.

Class MaskLaws (R : Type) `{Scalar R} : Prop := {
  sc_sub_1_0 : (1 - 0 = 1)%sc;
  sc_sub_1_1 : (1 - 1 = 0)%sc;
  sc_mul_1_r (x : R) : (x * 1 = x)%sc;
  sc_mul_0_r (x : R) : (x * 0 = 0)%sc;
  sc_add_0_l (x : R) : (0 + x = x)%sc;
  sc_add_0_r (x : R) : (x + 0 = x)%sc;
  sc_one_neq_zero : (1 : R)%sc ≠ 0%sc;
}.

#[export] Hint Rewrite @sc_sub_1_0 @sc_sub_1_1 @sc_mul_1_r @sc_mul_0_r
  @sc_add_0_l @sc_add_0_r using (typeclasses eauto) : gan_rw.

(** [sc_sum l] is the left-to-right sum, the order of a sequential
    reduction. *)
Definition sc_sum `{Scalar R} (l : list R) : R := fold_left sc_add l 0%sc.

(** A value is binary when it is [0] or [1]: the values of a mask. *)
Definition is_binary `{Scalar R} (x : R) : Prop := x = 0%sc ∨ x = 1%sc.

#[export] Instance is_binary_dec `{Scalar R} (x : R) : Decision (is_binary x).
Proof. unfold is_binary. apply _. Defined.

(** ** The integers *)

#[export] Instance Z_scalar : Scalar Z := {|
  sc_zero := 0%Z;
  sc_one := 1%Z;
  sc_add := Z.add;
  sc_sub := Z.sub;
  sc_mul := Z.mul;
  sc_div := Z.div;
  sc_neg := Z.opp;
  sc_abs := Z.abs;
  sc_max := Z.max;
  sc_of_nat := Z.of_nat;
|}.

#[export] Instance Z_mask_laws : MaskLaws Z.
Proof. split; simpl; intros; lia. Qed.

(** ** The rationals *)

#[export] Instance Qc_eq_dec : EqDecision Qc := Qc_eq_dec.

#[export] Instance Qc_scalar : Scalar Qc := {|
  sc_zero := 0%Qc;
  sc_one := 1%Qc;
  sc_add := Qcplus;
  sc_sub := Qcminus;
  sc_mul := Qcmult;
  sc_div := Qcdiv;
  sc_neg := Qcopp;
  sc_abs := Qcabs;
  sc_max := fun x y => if Qclt_le_dec x y then y else x;
  sc_of_nat := fun n => Q2Qc (inject_Z (Z.of_nat n));
|}.

#[export] Instance Qc_mask_laws : MaskLaws Qc.
Proof. split; simpl; intros; try ring. discriminate. Qed.

(** ** Lemmas *)

Section scalar_lemmas.
Context `{MaskLaws R}.

(** The complement [1 - m] of a binary value is binary. *)
Lemma is_binary_complement (m : R) : is_binary m → is_binary (1 - m)%sc.
Proof.
  intros [-> | ->]; [right; apply sc_sub_1_0 | left; apply sc_sub_1_1].
Qed.

(** The blend [p * m + (x * (1 - m)) * (1 - m)] of line 60 of
    [gan.py] selects [p] where the mask is [1] and [x] where it is [0]. *)
Lemma blend_binary (p x m : R) :
  is_binary m →
  (p * m + (x * (1 - m)) * (1 - m))%sc = if decide (m = 1%sc) then p else x.
Proof.
  intros [-> | ->].
  - rewrite decide_False by (intros E; by apply sc_one_neq_zero).
    by rewrite sc_sub_1_0, !sc_mul_1_r, sc_mul_0_r, sc_add_0_l.
  - rewrite decide_True by done.
    by rewrite sc_sub_1_1, sc_mul_1_r, !sc_mul_0_r, sc_add_0_r.
Qed.

(** The blend [p * m + x * (1 - m)] selects [p] where the mask is [1]
    and [x] where it is [0]. *)
Lemma select_binary (p x m : R) :
  is_binary m →
  (p * m + x * (1 - m))%sc = if decide (m = 1%sc) then p else x.
Proof.
  intros [-> | ->].
  - rewrite decide_False by (intros E; by apply sc_one_neq_zero).
    by rewrite sc_sub_1_0, sc_mul_1_r, sc_mul_0_r, sc_add_0_l.
  - rewrite decide_True by done.
    by rewrite sc_sub_1_1, sc_mul_1_r, sc_mul_0_r, sc_add_0_r.
Qed.

(** Erasing, [x * (1 - m)], keeps [x] off the mask and gives [0] on it. *)
Lemma erase_binary (x m : R) :
  is_binary m →
  (x * (1 - m))%sc = if decide (m = 1%sc) then 0%sc else x.
Proof.
  intros [-> | ->].
  - rewrite decide_False by (intros E; by apply sc_one_neq_zero).
    by rewrite sc_sub_1_0, sc_mul_1_r.
  - rewrite decide_True by done. by rewrite sc_sub_1_1, sc_mul_0_r.
Qed.
End scalar_lemmas.
