(* ===== verification/Tensor.v ===== *)
(** * Tensor: the PyTorch tensors of [gan.py]

    A tensor is a shape, its elements in row-major order (the layout of a
    contiguous PyTorch tensor) and the device that holds it.  The
    operations are the ones [train_gan] and [inpaint_image] call, with
    the checks PyTorch makes before computing: shapes must broadcast
    (elementwise arithmetic) or agree off the concatenation dimension
    ([torch.cat]); operands must be on one device, except that a CPU
    tensor with no dimension counts as a number.  A failed check is the
    [RuntimeError] PyTorch raises.

    A tensor is well formed ([wf]) when its data has as many elements as
    its shape says; every operation preserves this. *)

From stdpp Require Import base tactics option list numbers.
From S2P Require Import Prelude Scalar.

(** ** Data *)

Inductive torch_device : Type :=
  | Cpu
  | Cuda (index : nat).

#[export] Instance torch_device_eq_dec : EqDecision torch_device.
Proof. solve_decision. Defined.

Record tensor (R : Type) : Type := Tensor {
  shape : list nat;
  data : list R;
  dev : torch_device;
}.
Arguments Tensor {R} shape data dev.
Arguments shape {R} t.
Arguments data {R} t.
Arguments dev {R} t.

#[export] Instance tensor_eq_dec `{EqDecision R} : EqDecision (tensor R).
Proof. solve_decision. Defined.

Section tensor_ops.
Context `{Scalar R}.
Implicit Types (t : tensor R) (d : list R) (sh : list nat).

Definition wf t : Prop := length (data t) = numel (shape t).

#[export] Instance wf_dec t : Decision (wf t).
Proof. unfold wf. apply _. Defined.

(** [torch.tensor(x)] and [torch.tensor(x, device=dv)]: a tensor with
    no dimension. *)
Definition scalar_tensor (x : R) (dv : torch_device) : tensor R := Tensor [] [x] dv.

(** [t.to(dv)] *)
Definition to (dv : torch_device) t : tensor R := Tensor (shape t) (data t) dv.

(** ** Broadcasting *)

(** Two dimensions are compatible when they are equal or one is 1. *)
Definition broadcast_dim (a b : nat) : option nat :=
  if decide (a = b) then Some a
  else if decide (a = 1) then Some b
  else if decide (b = 1) then Some a
  else None.

(** Shapes are aligned on their last dimension: the shorter one is
    extended with leading 1s. *)
Definition pad_shape (rank : nat) sh : list nat :=
  replicate (rank - length sh) 1 ++ sh.

Fixpoint broadcast_zip (s1 s2 : list nat) : option (list nat) :=
  match s1, s2 with
  | a :: s1', b :: s2' =>
      d ← broadcast_dim a b; r ← broadcast_zip s1' s2'; Some (d :: r)
  | _, _ => Some []
  end.

Definition broadcast_shapes (s1 s2 : list nat) : option (list nat) :=
  let rank := length s1 `max` length s2 in
  broadcast_zip (pad_shape rank s1) (pad_shape rank s2).

(** [expand from to d]: the data of a tensor of shape [from] viewed at
    shape [to] (same rank): a dimension of size 1 is repeated. *)
Fixpoint expand (from to : list nat) d : list R :=
  match from, to with
  | f :: fs, t :: ts =>
      if decide (f = t)
      then mjoin (expand fs ts <$> reshape (replicate f (numel fs)) d)
      else tile t (expand fs ts d)
  | _, _ => d
  end.

(** A CPU tensor without dimensions combines with a tensor on any
    device; otherwise the devices must agree. *)
Definition is_cpu_scalar t : bool :=
  bool_decide (shape t = [] ∧ dev t = Cpu).

Definition result_device t1 t2 : result torch_device :=
  if decide (dev t1 = dev t2) then Ok (dev t1)
  else if is_cpu_scalar t1 then Ok (dev t2)
  else if is_cpu_scalar t2 then Ok (dev t1)
  else Err (RuntimeError DeviceMismatch).

(** Elementwise binary operation with broadcasting. *)
Definition binop (f : R → R → R) t1 t2 : result (tensor R) :=
  sh ← of_option (broadcast_shapes (shape t1) (shape t2))
                 (RuntimeError SizeMismatch);
  dv ← result_device t1 t2;
  let rank := length sh in
  Ok (Tensor sh
        (zip_with f (expand (pad_shape rank (shape t1)) sh (data t1))
                    (expand (pad_shape rank (shape t2)) sh (data t2)))
        dv).

Definition add := binop sc_add.
Definition sub := binop sc_sub.
Definition mul := binop sc_mul.

Definition unop (f : R → R) t : tensor R :=
  Tensor (shape t) (f <$> data t) (dev t).

(** [-t], [torch.abs(t)], and [k * t] for a Python number [k] *)
Definition neg := unop sc_neg.
Definition abs := unop sc_abs.
Definition smul (k : R) := unop (sc_mul k).

(** [torch.mean(t)]: a tensor with no dimension. *)
Definition mean t : tensor R :=
  Tensor [] [(sc_sum (data t) / sc_of_nat (length (data t)))%sc] (dev t).

(** [t.item()] *)
Definition item t : result R :=
  match data t with
  | [x] => Ok x
  | _ => Err (RuntimeError NotScalar)
  end.

(** [t.shape[0]] *)
Definition size0 t : result nat := of_option (shape t !! 0) IndexError.

(** ** Concatenation and splitting *)

(** The [o]-th block of [len] elements. *)
Definition slab (o len : nat) d : list R := take len (drop (o * len) d).

(** The tensors agree with [t0] off dimension [dim]. *)
Definition cat_compatible (dim : nat) t0 t : bool :=
  bool_decide (take dim (shape t) = take dim (shape t0)
               ∧ drop (S dim) (shape t) = drop (S dim) (shape t0)
               ∧ dim < length (shape t)).

Definition dim_size (dim : nat) t : nat := default 0 (shape t !! dim).

(** For each index of the dimensions before [dim], the blocks of the
    tensors one after the other; a block of [t] holds
    [dim_size dim t * inner] elements. *)
Definition cat_data (dim outer inner : nat) (ts : list (tensor R)) : list R :=
  o ← seq 0 outer; t ← ts; slab o (dim_size dim t * inner) (data t).

(** [torch.cat(ts, dim)] *)
Definition cat (ts : list (tensor R)) (dim : nat) : result (tensor R) :=
  match ts with
  | [] => Err (RuntimeError EmptyCat)
  | t0 :: _ =>
      _ ← guard_ok (bool_decide (dim < length (shape t0))) IndexError;
      _ ← guard_ok (forallb (cat_compatible dim t0) ts)
                   (RuntimeError SizeMismatch);
      _ ← guard_ok (forallb (λ t, bool_decide (dev t = dev t0)) ts)
                   (RuntimeError DeviceMismatch);
      let pre := take dim (shape t0) in
      let post := drop (S dim) (shape t0) in
      Ok (Tensor (pre ++ sum_list (dim_size dim <$> ts) :: post)
                 (cat_data dim (numel pre) (numel post) ts)
                 (dev t0))
  end.

(** The sizes along dimension 0 of the pieces of [torch.split]: an
    empty dimension still gives one (empty) piece. *)
Definition split_sizes (n size : nat) : list nat :=
  if decide (n = 0) then [0] else chunk_sizes n size.

(** [torch.split(t, size)] (along dimension 0) *)
Definition split t (size : nat) : result (list (tensor R)) :=
  match shape t with
  | [] => Err (RuntimeError SizeMismatch)
  | n :: rest =>
      _ ← guard_ok (bool_decide (size ≠ 0 ∨ n = 0)) (RuntimeError BadSplit);
      let szs := split_sizes n size in
      Ok (zip_with (λ k d, Tensor (k :: rest) d (dev t)) szs
            (reshape ((λ k, k * numel rest) <$> szs) (data t)))
  end.

(** [torch.stack(ts)] (along a new dimension 0), the collation of the
    samples of a batch. *)
Definition stack (ts : list (tensor R)) : result (tensor R) :=
  match ts with
  | [] => Err (RuntimeError EmptyCat)
  | t0 :: _ =>
      _ ← guard_ok (forallb (λ t, bool_decide (shape t = shape t0)) ts)
                   (RuntimeError SizeMismatch);
      _ ← guard_ok (forallb (λ t, bool_decide (dev t = dev t0)) ts)
                   (RuntimeError DeviceMismatch);
      Ok (Tensor (length ts :: shape t0) (ts ≫= data) (dev t0))
  end.
End tensor_ops.

(** The operations are unfolded by name, not by [simpl]: statements stay
    in terms of [cat], [split] and the arithmetic. *)
Arguments binop : simpl never.
Arguments add : simpl never.
Arguments sub : simpl never.
Arguments mul : simpl never.
Arguments cat : simpl never.
Arguments split : simpl never.
Arguments stack : simpl never.

(** ** Lemmas: broadcasting *)

(** [expandable from to]: [from] can be viewed at shape [to]. *)
Definition expandable (from to : list nat) : Prop :=
  Forall2 (λ f t, f = t ∨ f = 1) from to.

Section broadcast_lemmas.
Context `{Scalar R}.
Implicit Types (t : tensor R) (d : list R) (sh : list nat).

Lemma broadcast_dim_same a : broadcast_dim a a = Some a.
Proof. unfold broadcast_dim. by rewrite decide_True. Qed.

Lemma broadcast_dim_1_r a : broadcast_dim a 1 = Some a.
Proof. unfold broadcast_dim. repeat case_decide; congruence. Qed.

Lemma broadcast_dim_1_l a : broadcast_dim 1 a = Some a.
Proof. unfold broadcast_dim. repeat case_decide; congruence. Qed.

Lemma broadcast_dim_Some a b c :
  broadcast_dim a b = Some c → (a = c ∨ a = 1) ∧ (b = c ∨ b = 1).
Proof. unfold broadcast_dim. repeat case_decide; intros; simplify_eq; lia. Qed.

Lemma broadcast_dim_None a b :
  broadcast_dim a b = None ↔ a ≠ b ∧ a ≠ 1 ∧ b ≠ 1.
Proof. unfold broadcast_dim. repeat case_decide; intuition congruence. Qed.

Lemma length_pad_shape rank sh :
  length sh ≤ rank → length (pad_shape rank sh) = rank.
Proof. intros. unfold pad_shape. rewrite length_app, length_replicate. lia. Qed.

Lemma pad_shape_full sh : pad_shape (length sh) sh = sh.
Proof. unfold pad_shape. by rewrite Nat.sub_diag. Qed.

Lemma numel_pad_shape rank sh : numel (pad_shape rank sh) = numel sh.
Proof. unfold pad_shape. rewrite numel_app, numel_replicate_1. lia. Qed.

Lemma broadcast_zip_Some s1 s2 sh :
  length s1 = length s2 → broadcast_zip s1 s2 = Some sh →
  expandable s1 sh ∧ expandable s2 sh.
Proof.
  revert s2 sh. induction s1 as [|a s1 IH]; intros [|b s2] sh Hlen Hz;
    simplify_eq/=; [by split; constructor|].
  destruct (broadcast_dim a b) as [c|] eqn:Hd; simplify_eq/=.
  destruct (broadcast_zip s1 s2) as [r|] eqn:Hr; simplify_eq/=.
  destruct (IH s2 r) as [? ?]; [done..|].
  apply broadcast_dim_Some in Hd as [? ?]. by split; constructor.
Qed.

Lemma broadcast_zip_same sh : broadcast_zip sh sh = Some sh.
Proof.
  induction sh as [|a sh IH]; [done|].
  simpl. by rewrite broadcast_dim_same, IH.
Qed.

Lemma broadcast_zip_ones sh : broadcast_zip (replicate (length sh) 1) sh = Some sh.
Proof.
  induction sh as [|a sh IH]; [done|].
  simpl. by rewrite broadcast_dim_1_l, IH.
Qed.

Lemma broadcast_zip_app s1 s1' s2 s2' r r' :
  length s1 = length s2 →
  broadcast_zip s1 s2 = Some r → broadcast_zip s1' s2' = Some r' →
  broadcast_zip (s1 ++ s1') (s2 ++ s2') = Some (r ++ r').
Proof.
  revert s2 r. induction s1 as [|a s1 IH]; intros [|b s2] r Hlen Hz Hz';
    simplify_eq/=; [done|].
  destruct (broadcast_dim a b) as [c|]; simplify_eq/=.
  destruct (broadcast_zip s1 s2) as [r0|] eqn:Hr; simplify_eq/=.
  by rewrite (IH s2 r0).
Qed.

Lemma broadcast_shapes_Some s1 s2 sh :
  broadcast_shapes s1 s2 = Some sh →
  length sh = length s1 `max` length s2
  ∧ expandable (pad_shape (length sh) s1) sh
  ∧ expandable (pad_shape (length sh) s2) sh.
Proof.
  unfold broadcast_shapes. intros Hz.
  apply broadcast_zip_Some in Hz as [H1 H2];
    [|by rewrite !length_pad_shape by lia].
  assert (length sh = length s1 `max` length s2) as Hlen.
  { apply Forall2_length in H1. rewrite length_pad_shape in H1 by lia. done. }
  by rewrite Hlen.
Qed.

Lemma broadcast_shapes_same sh : broadcast_shapes sh sh = Some sh.
Proof.
  unfold broadcast_shapes. rewrite Nat.max_id, pad_shape_full.
  apply broadcast_zip_same.
Qed.

(** A tensor without dimensions broadcasts to any shape. *)
Lemma broadcast_shapes_nil_l sh : broadcast_shapes [] sh = Some sh.
Proof.
  unfold broadcast_shapes. simpl. rewrite pad_shape_full.
  unfold pad_shape. simpl. rewrite Nat.sub_0_r, app_nil_r.
  apply broadcast_zip_ones.
Qed.

(** A mask whose leading dimensions are 1 broadcasts over them. *)
Lemma broadcast_shapes_leading pre s :
  broadcast_shapes (pre ++ s) (replicate (length pre) 1 ++ s) = Some (pre ++ s).
Proof.
  unfold broadcast_shapes.
  rewrite !length_app, length_replicate, Nat.max_id.
  rewrite <-(length_app pre s), pad_shape_full.
  replace (length (pre ++ s)) with (length (replicate (length pre) 1 ++ s))
    by (by rewrite !length_app, length_replicate).
  rewrite pad_shape_full.
  apply broadcast_zip_app; [by rewrite length_replicate| |apply broadcast_zip_same].
  induction pre as [|a pre IH]; [done|].
  simpl. by rewrite broadcast_dim_1_r, IH.
Qed.

Lemma broadcast_shapes_leading_l pre s :
  broadcast_shapes (replicate (length pre) 1 ++ s) (pre ++ s) = Some (pre ++ s).
Proof.
  unfold broadcast_shapes.
  rewrite !length_app, length_replicate, Nat.max_id.
  rewrite <-(length_app pre s), pad_shape_full.
  replace (length (pre ++ s)) with (length (replicate (length pre) 1 ++ s))
    by (by rewrite !length_app, length_replicate).
  rewrite pad_shape_full.
  apply broadcast_zip_app; [by rewrite length_replicate| |apply broadcast_zip_same].
  apply broadcast_zip_ones.
Qed.

(** *** The data of an expanded tensor *)

Lemma length_join_const {A} (ls : list (list A)) n :
  Forall (λ l, length l = n) ls → length (mjoin ls) = length ls * n.
Proof.
  induction 1 as [|l ls Hl _ IH]; [done|].
  simpl. rewrite length_app, IH. lia.
Qed.

Lemma Forall_reshape_length d n k :
  length d = k * n → Forall (λ c, length c = n) (reshape (replicate k n) d).
Proof.
  revert d. induction k as [|k IH]; intros d Hd; simpl; constructor.
  - rewrite length_take. lia.
  - apply IH. rewrite length_drop. lia.
Qed.

Lemma length_expand from to d :
  expandable from to → length d = numel from → length (expand from to d) = numel to.
Proof.
  intros Hex. revert d.
  induction Hex as [|f t fs ts Hft _ IH]; intros d Hd; [done|].
  simpl. rewrite numel_cons in *. case_decide as Hdec.
  - subst t. rewrite (length_join_const _ (numel ts)).
    + by rewrite length_fmap, length_reshape, length_replicate.
    + apply Forall_fmap.
      eapply Forall_impl; [|by apply Forall_reshape_length].
      intros c Hc. by apply IH.
  - destruct Hft as [?| ->]; [done|].
    rewrite length_tile, IH; [done|lia].
Qed.

(** Viewing a tensor at its own shape changes nothing. *)
Lemma expand_same sh d : length d = numel sh → expand sh sh d = d.
Proof.
  revert d. induction sh as [|n sh IH]; intros d Hd; [done|].
  simpl. rewrite decide_True by done. rewrite numel_cons in Hd.
  rewrite <-(join_reshape (replicate n (numel sh)) d) at 2
    by (by rewrite sum_list_replicate).
  f_equal. rewrite <-(list_fmap_id (reshape _ d)) at 2.
  apply Forall_fmap_ext.
  eapply Forall_impl; [|by apply Forall_reshape_length].
  intros c Hc. by apply IH.
Qed.

(** Leading dimensions of size 1 are repeated: the data is tiled. *)
Lemma expand_leading pre s d :
  length d = numel s →
  expand (replicate (length pre) 1 ++ s) (pre ++ s) d = tile (numel pre) d.
Proof.
  intros Hd. induction pre as [|n pre IH]; simpl.
  - rewrite expand_same by done. by rewrite numel_nil, tile_1.
  - rewrite numel_cons, <-tile_mul, <-IH. case_decide as Hdec; [|done].
    subst n. rewrite tile_1. simpl. rewrite app_nil_r, take_ge; [done|].
    rewrite numel_app, numel_replicate_1. lia.
Qed.

Lemma expand_scalar sh (x : R) :
  expand (replicate (length sh) 1) sh [x] = replicate (numel sh) x.
Proof.
  pose proof (expand_leading sh [] [x] eq_refl) as Hex.
  rewrite !app_nil_r in Hex. by rewrite Hex, tile_singleton.
Qed.
End broadcast_lemmas.

(** ** Lemmas: elementwise operations *)

Section binop_lemmas.
Context `{Scalar R}.
Implicit Types (t m r : tensor R) (d : list R) (sh : list nat) (f : R → R → R).
Implicit Types (x y : R) (dv : torch_device).

Lemma result_device_same t1 t2 :
  dev t1 = dev t2 → result_device t1 t2 = Ok (dev t1).
Proof. intros. unfold result_device. by rewrite decide_True. Qed.

(** A number written [torch.tensor(x)] takes the device of the other
    operand. *)
Lemma result_device_scalar_l x dv t :
  dv = Cpu ∨ dv = dev t → result_device (scalar_tensor x dv) t = Ok (dev t).
Proof.
  unfold result_device. simpl. intros [-> | ->].
  - case_decide as Hd; [by rewrite Hd|done].
  - by rewrite decide_True.
Qed.

Lemma result_device_Err t1 t2 :
  dev t1 ≠ dev t2 → is_cpu_scalar t1 = false → is_cpu_scalar t2 = false →
  result_device t1 t2 = Err (RuntimeError DeviceMismatch).
Proof.
  intros Hne H1 H2. unfold result_device.
  by rewrite decide_False, H1, H2.
Qed.

Lemma binop_Ok f t1 t2 r :
  binop f t1 t2 = Ok r →
  broadcast_shapes (shape t1) (shape t2) = Some (shape r)
  ∧ result_device t1 t2 = Ok (dev r).
Proof.
  unfold binop.
  intros (sh & Hsh%of_option_Ok & (dv & Hdv & [= <-])%bind_Ok)%bind_Ok.
  done.
Qed.

(** The result of an elementwise operation is well formed. *)
Lemma binop_wf f t1 t2 r : wf t1 → wf t2 → binop f t1 t2 = Ok r → wf r.
Proof.
  unfold binop, wf.
  intros Hw1 Hw2 (sh & Hsh%of_option_Ok & (dv & Hdv & [= <-])%bind_Ok)%bind_Ok.
  apply broadcast_shapes_Some in Hsh as (_ & He1 & He2). simpl.
  rewrite length_zip_with, !length_expand; auto using numel_pad_shape;
    rewrite ?numel_pad_shape; [lia|done..].
Qed.

Lemma binop_size_mismatch f t1 t2 :
  broadcast_shapes (shape t1) (shape t2) = None →
  binop f t1 t2 = Err (RuntimeError SizeMismatch).
Proof. unfold binop. by intros ->. Qed.

Lemma binop_device_mismatch f t1 t2 :
  is_Some (broadcast_shapes (shape t1) (shape t2)) →
  result_device t1 t2 = Err (RuntimeError DeviceMismatch) →
  binop f t1 t2 = Err (RuntimeError DeviceMismatch).
Proof. unfold binop. by intros [sh ->] ->. Qed.

(** Operands of one shape: the operation is applied position by
    position. *)
Lemma binop_same_shape f t1 t2 :
  wf t1 → wf t2 → shape t1 = shape t2 → dev t1 = dev t2 →
  binop f t1 t2 =
    Ok (Tensor (shape t1) (zip_with f (data t1) (data t2)) (dev t1)).
Proof.
  unfold binop, wf. intros Hw1 Hw2 Hsh Hdv.
  rewrite <-Hsh, broadcast_shapes_same, result_device_same by done. simpl.
  rewrite pad_shape_full, !expand_same by congruence. done.
Qed.

(** A right operand whose leading dimensions are 1 (a mask of shape
    [1; 1; h; w] against a batch of shape [b; c; h; w]) is repeated
    along them. *)
Lemma binop_leading_r f t m pre s :
  wf t → wf m → shape t = pre ++ s → shape m = replicate (length pre) 1 ++ s →
  dev t = dev m →
  binop f t m =
    Ok (Tensor (shape t)
          (zip_with f (data t) (tile (numel pre) (data m))) (dev t)).
Proof.
  unfold binop, wf. intros Hw1 Hw2 Hs1 Hs2 Hdv.
  rewrite Hs1, Hs2, broadcast_shapes_leading, result_device_same by done.
  simpl. rewrite pad_shape_full.
  replace (length (pre ++ s)) with (length (replicate (length pre) 1 ++ s))
    by (by rewrite !length_app, length_replicate).
  rewrite pad_shape_full, expand_same, expand_leading; [done|..].
  - by rewrite Hw2, Hs2, numel_app, numel_replicate_1, Nat.mul_1_l.
  - by rewrite Hw1, Hs1.
Qed.

Lemma binop_leading_l f t m pre s :
  wf t → wf m → shape t = pre ++ s → shape m = replicate (length pre) 1 ++ s →
  dev t = dev m →
  binop f m t =
    Ok (Tensor (shape t)
          (zip_with f (tile (numel pre) (data m)) (data t)) (dev t)).
Proof.
  unfold binop, wf. intros Hw1 Hw2 Hs1 Hs2 Hdv.
  rewrite Hs1, Hs2, broadcast_shapes_leading_l, result_device_same by done.
  simpl. rewrite pad_shape_full.
  replace (length (pre ++ s)) with (length (replicate (length pre) 1 ++ s))
    by (by rewrite !length_app, length_replicate).
  rewrite pad_shape_full, expand_same, expand_leading; [by rewrite Hdv|..].
  - by rewrite Hw2, Hs2, numel_app, numel_replicate_1, Nat.mul_1_l.
  - by rewrite Hw1, Hs1.
Qed.

(** A number on the left ([torch.tensor(1.) - mask]) is applied to
    every element. *)
Lemma binop_scalar_l f x dv t :
  wf t → dv = Cpu ∨ dv = dev t →
  binop f (scalar_tensor x dv) t =
    Ok (Tensor (shape t) (f x <$> data t) (dev t)).
Proof.
  unfold binop, wf. intros Hw Hdv. simpl.
  rewrite broadcast_shapes_nil_l, result_device_scalar_l by done. simpl.
  rewrite pad_shape_full. unfold pad_shape. simpl.
  rewrite Nat.sub_0_r, app_nil_r, expand_scalar, expand_same by done.
  by rewrite zip_with_replicate_l by lia.
Qed.

Lemma unop_wf (g : R → R) t : wf t → wf (unop g t).
Proof. unfold wf, unop. simpl. by rewrite length_fmap. Qed.

Lemma to_wf dv t : wf t → wf (to dv t).
Proof. done. Qed.

Lemma mean_wf t : wf (mean t).
Proof. done. Qed.

Lemma scalar_tensor_wf x dv : wf (scalar_tensor x dv).
Proof. done. Qed.

(** [torch.mean(t).item()] never fails. *)
Lemma item_mean t :
  item (mean t) = Ok (sc_sum (data t) / sc_of_nat (length (data t)))%sc.
Proof. done. Qed.

Lemma item_Ok t x : item t = Ok x ↔ data t = [x].
Proof.
  unfold item. destruct (data t) as [|y [|z d]]; split; intros; simplify_eq; done.
Qed.

(** Operations on tensors without dimension (the losses). *)
Lemma binop_scalars f x y dv :
  binop f (Tensor [] [x] dv) (Tensor [] [y] dv) = Ok (Tensor [] [f x y] dv).
Proof. unfold binop. simpl. by rewrite result_device_same. Qed.
End binop_lemmas.

(** ** Lemmas: concatenation, splitting, stacking *)

Section cat_lemmas.
Context `{Scalar R}.
Implicit Types (t a b : tensor R) (ts : list (tensor R)) (d : list R).
Implicit Types (sh pre post rest : list nat) (dv : torch_device).

Lemma length_bind_const {A B} (f : A → list B) (l : list A) k :
  (∀ x, x ∈ l → length (f x) = k) → length (l ≫= f) = length l * k.
Proof.
  induction l as [|x l IH]; intros Hf; [done|].
  rewrite bind_cons, length_app, Hf, IH; [simpl; lia| |by left].
  intros y Hy. apply Hf. by right.
Qed.

Lemma bind_ext_elem {A B} (f g : A → list B) (l : list A) :
  (∀ x, x ∈ l → f x = g x) → l ≫= f = l ≫= g.
Proof.
  induction l as [|x l IH]; intros Hfg; [done|].
  rewrite !bind_cons, Hfg, IH; [done| |by left].
  intros y Hy. apply Hfg. by right.
Qed.

Lemma length_bind_sum {A B} (f : A → list B) (l : list A) :
  length (l ≫= f) = sum_list ((length ∘ f) <$> l).
Proof.
  induction l as [|x l IH]; [done|].
  by rewrite bind_cons, length_app, IH.
Qed.

Lemma length_slab o len d :
  (o + 1) * len ≤ length d → length (slab o len d) = len.
Proof. intros. unfold slab. rewrite length_take, length_drop. lia. Qed.

(** [cat_shaped pre post dv t]: [t] has shape [pre ++ n :: post] for
    some [n], lives on [dv] and is well formed. *)
Definition cat_shaped pre post dv t : Prop :=
  ∃ n, shape t = pre ++ n :: post ∧ dev t = dv ∧ wf t.

Lemma cat_shaped_dim_size pre post dv t n :
  shape t = pre ++ n :: post → dim_size (length pre) t = n.
Proof.
  intros Hs. unfold dim_size. by rewrite Hs, list_lookup_middle.
Qed.

Lemma drop_middle {A} (l : list A) x k : drop (S (length l)) (l ++ x :: k) = k.
Proof.
  rewrite cons_middle, app_assoc.
  apply drop_app_length'. rewrite length_app. simpl. lia.
Qed.

Lemma cat_shaped_compatible pre post dv t0 t :
  cat_shaped pre post dv t0 → cat_shaped pre post dv t →
  cat_compatible (length pre) t0 t = true ∧ dev t = dev t0.
Proof.
  intros (n0 & Hs0 & Hd0 & _) (n & Hs & Hd & _). split; [|congruence].
  apply bool_decide_eq_true. rewrite Hs0, Hs.
  rewrite !take_app_length, !drop_middle, length_app. simpl.
  repeat split. lia.
Qed.

Lemma length_cat_row pre post dv ts o :
  Forall (cat_shaped pre post dv) ts → o < numel pre →
  length (ts ≫= λ t, slab o (dim_size (length pre) t * numel post) (data t)) =
    sum_list (dim_size (length pre) <$> ts) * numel post.
Proof.
  intros Hts Ho. induction Hts as [|t ts (n & Hs & _ & Hw) _ IH]; [done|].
  rewrite bind_cons, length_app, IH, fmap_cons. simpl.
  rewrite length_slab; [lia|].
  rewrite Hw, Hs, numel_app, numel_cons, (cat_shaped_dim_size _ _ dv _ _ Hs).
  apply Nat.mul_le_mono_r. lia.
Qed.

Lemma length_cat_data pre post dv ts :
  Forall (cat_shaped pre post dv) ts →
  length (cat_data (length pre) (numel pre) (numel post) ts) =
    numel (pre ++ sum_list (dim_size (length pre) <$> ts) :: post).
Proof.
  intros Hts. unfold cat_data.
  rewrite (length_bind_const _ _
    (sum_list (dim_size (length pre) <$> ts) * numel post)).
  - by rewrite length_seq, numel_app, numel_cons.
  - intros o Ho%elem_of_seq. apply (length_cat_row pre post dv); [done|lia].
Qed.

(** [torch.cat] of tensors that agree off the concatenation
    dimension succeeds; the sizes along that dimension add up. *)
Lemma cat_Ok pre post dv t0 ts :
  Forall (cat_shaped pre post dv) (t0 :: ts) →
  cat (t0 :: ts) (length pre) =
    Ok (Tensor (pre ++ sum_list (dim_size (length pre) <$> t0 :: ts) :: post)
          (cat_data (length pre) (numel pre) (numel post) (t0 :: ts)) dv).
Proof.
  intros Hall. pose proof (Forall_inv Hall) as Ht0.
  destruct Ht0 as (n0 & Hs0 & Hd0 & Hw0).
  assert (forallb (cat_compatible (length pre) t0) (t0 :: ts) = true) as Hc.
  { apply forallb_true_Forall. eapply Forall_impl; [|exact Hall].
    intros t Ht. simpl in Ht.
    eapply cat_shaped_compatible; [|exact Ht]. by exists n0. }
  assert (forallb (λ t, bool_decide (dev t = dev t0)) (t0 :: ts) = true) as Hd.
  { apply forallb_true_Forall. eapply Forall_impl; [|exact Hall].
    intros t Ht. simpl in Ht. apply bool_decide_eq_true.
    eapply cat_shaped_compatible; [|exact Ht]. by exists n0. }
  unfold cat. rewrite Hc, Hd, bool_decide_eq_true_2
    by (rewrite Hs0, length_app; simpl; lia).
  simpl. by rewrite Hs0, take_app_length, drop_middle, Hd0.
Qed.

Lemma cat_wf pre post dv ts r :
  Forall (cat_shaped pre post dv) ts → cat ts (length pre) = Ok r → wf r.
Proof.
  destruct ts as [|t0 ts]; [done|]. intros Hall.
  rewrite (cat_Ok pre post dv) by done. intros [= <-].
  unfold wf. simpl. by apply (length_cat_data pre post dv).
Qed.

(** One tensor that disagrees off the concatenation dimension makes
    [torch.cat] raise. *)
Lemma cat_size_mismatch t0 ts dim t :
  dim < length (shape t0) → t ∈ t0 :: ts → cat_compatible dim t0 t = false →
  cat (t0 :: ts) dim = Err (RuntimeError SizeMismatch).
Proof.
  intros Hdim Ht Hbad. unfold cat.
  rewrite bool_decide_eq_true_2 by done.
  by rewrite (forallb_false_elem (cat_compatible dim t0) _ t).
Qed.

(** Along dimension 0 the data are laid one after the other. *)
Lemma cat_data_dim0 post dv ts :
  Forall (cat_shaped [] post dv) ts →
  cat_data 0 1 (numel post) ts = ts ≫= data.
Proof.
  intros Hts. unfold cat_data. simpl. rewrite app_nil_r.
  induction Hts as [|t ts (n & Hs & _ & Hw) _ IH]; [done|].
  rewrite !bind_cons, IH. f_equal. unfold slab. simpl.
  apply take_ge. simpl in Hs. unfold dim_size.
  by rewrite Hw, Hs, numel_cons.
Qed.

Lemma cat_dim0 rest dv t0 ts :
  Forall (cat_shaped [] rest dv) (t0 :: ts) →
  cat (t0 :: ts) 0 =
    Ok (Tensor (sum_list (dim_size 0 <$> t0 :: ts) :: rest)
          ((t0 :: ts) ≫= data) dv).
Proof.
  intros Hall. pose proof (cat_Ok [] rest dv t0 ts Hall) as Hc.
  change (length []) with 0 in Hc. rewrite numel_nil in Hc.
  by rewrite (cat_data_dim0 rest dv) in Hc.
Qed.

Lemma bind_replicate {A B} (f : A → list B) n (x : A) :
  replicate n x ≫= f = tile n (f x).
Proof.
  induction n as [|n IH]; [done|].
  cbn [replicate]. by rewrite bind_cons, IH, tile_S.
Qed.

(** [torch.cat((t,) * n)]: [n] copies of [t] along dimension 0. *)
Lemma cat_replicate_dim0 n k rest t :
  0 < n → shape t = k :: rest → wf t →
  cat (replicate n t) 0 =
    Ok (Tensor (n * k :: rest) (tile n (data t)) (dev t)).
Proof.
  intros Hn Hs Hw. destruct n as [|n]; [lia|].
  assert (Forall (cat_shaped [] rest (dev t)) (replicate (S n) t)) as Hall.
  { apply Forall_replicate. by exists k. }
  change (replicate (S n) t) with (t :: replicate n t) in *.
  rewrite (cat_dim0 rest (dev t)) by done.
  change (t :: replicate n t) with (replicate (S n) t).
  rewrite bind_replicate, fmap_replicate, sum_list_replicate.
  unfold dim_size. by rewrite Hs.
Qed.

(** Two tensors along dimension 0. *)
Lemma cat_pair_dim0 n1 n2 rest dv a b :
  shape a = n1 :: rest → shape b = n2 :: rest → dev a = dv → dev b = dv →
  wf a → wf b →
  cat [a; b] 0 = Ok (Tensor (n1 + n2 :: rest) (data a ++ data b) dv).
Proof.
  intros Ha Hb Hda Hdb Hwa Hwb.
  rewrite (cat_dim0 rest dv) by (apply Forall_two; by eexists).
  simpl. unfold dim_size. rewrite Ha, Hb. simpl.
  by rewrite app_nil_r, Nat.add_0_r.
Qed.

Lemma wf_cat_pair_dim0 n1 n2 rest dv a b :
  shape a = n1 :: rest → shape b = n2 :: rest → wf a → wf b →
  wf (Tensor (n1 + n2 :: rest) (data a ++ data b) dv).
Proof.
  unfold wf. intros Ha Hb Hwa Hwb. simpl.
  rewrite length_app, Hwa, Hwb, Ha, Hb, !numel_cons. lia.
Qed.

Lemma wf_tile n k rest dv t :
  shape t = k :: rest → wf t → wf (Tensor (n * k :: rest) (tile n (data t)) dv).
Proof.
  unfold wf. intros Hs Hw. simpl.
  rewrite length_tile, Hw, Hs, !numel_cons. lia.
Qed.

(** Two tensors along dimension 1 (the channels of a batch): they must
    have the same number of rows. *)
Lemma cat_pair_dim1 n c1 c2 post dv a b :
  shape a = n :: c1 :: post → shape b = n :: c2 :: post →
  dev a = dv → dev b = dv → wf a → wf b →
  ∃ r, cat [a; b] 1 = Ok r
       ∧ shape r = n :: c1 + c2 :: post ∧ dev r = dv ∧ wf r.
Proof.
  intros Ha Hb Hda Hdb Hwa Hwb.
  assert (Forall (cat_shaped [n] post dv) [a; b]) as Hall
    by (apply Forall_two; [by exists c1|by exists c2]).
  pose proof (cat_Ok [n] post dv a [b] Hall) as Hc.
  pose proof (cat_wf [n] post dv [a; b] _ Hall Hc) as Hw.
  eexists. split; [exact Hc|]. split; [|done]. simpl.
  unfold dim_size. rewrite Ha, Hb. simpl. by rewrite Nat.add_0_r.
Qed.

(** The data of two tensors joined along dimension 1: for each row,
    the block of the first, then the block of the second. *)
Lemma cat_pair_dim1_data n c1 c2 post dv a b r :
  shape a = n :: c1 :: post → shape b = n :: c2 :: post →
  dev a = dv → dev b = dv → wf a → wf b →
  cat [a; b] 1 = Ok r →
  data r = o ← seq 0 n;
           slab o (c1 * numel post) (data a) ++ slab o (c2 * numel post) (data b).
Proof.
  intros Ha Hb Hda Hdb Hwa Hwb.
  assert (Forall (cat_shaped [n] post dv) [a; b]) as Hall
    by (apply Forall_two; [by exists c1|by exists c2]).
  pose proof (cat_Ok [n] post dv a [b] Hall) as Hc.
  change (length [n]) with 1 in Hc. rewrite Hc. intros [= <-]. cbn [data].
  unfold cat_data, dim_size. rewrite numel_cons, numel_nil, Nat.mul_1_r.
  apply list_bind_ext; [|done]. intros o.
  rewrite !bind_cons, Ha, Hb. simpl. by rewrite app_nil_r.
Qed.

(** The blocks of a list built block by block. *)
Lemma slab_bind_seq (f : nat → list R) n k len :
  (∀ o, o < n → length (f o) = len) → k < n →
  slab k len (seq 0 n ≫= f) = f k.
Proof.
  intros Hf Hk. unfold slab.
  replace n with (k + S (n - S k)) by lia.
  rewrite seq_app, bind_app. cbn [seq Nat.add]. rewrite bind_cons.
  rewrite drop_app_length'.
  - rewrite take_app_length'; [done|]. symmetry. apply Hf. lia.
  - rewrite (length_bind_const _ _ len), length_seq; [lia|].
    intros o Ho%elem_of_seq. apply Hf. lia.
Qed.

Lemma slab_app_l k len d d' :
  (k + 1) * len ≤ length d → slab k len (d ++ d') = slab k len d.
Proof.
  intros Hle. unfold slab. rewrite drop_app_le by lia.
  apply take_app_le. rewrite length_drop. lia.
Qed.

Lemma slab_app_r k m len d d' :
  length d = m * len → slab (m + k) len (d ++ d') = slab k len d'.
Proof.
  intros Hlen. unfold slab. rewrite drop_app_ge by lia.
  do 2 f_equal. lia.
Qed.

Lemma slab_tile n k d : k < n → slab k (length d) (tile n d) = d.
Proof.
  revert n. induction k as [|k IH]; intros [|n] Hk; try lia; rewrite tile_S.
  - unfold slab. by rewrite Nat.mul_0_l, drop_0, take_app_length.
  - rewrite (slab_app_r k 1) by lia. apply IH. lia.
Qed.

Lemma cat_pair_dim1_mismatch n1 n2 rest1 rest2 a b :
  shape a = n1 :: rest1 → rest1 ≠ [] → shape b = n2 :: rest2 → n1 ≠ n2 →
  cat [a; b] 1 = Err (RuntimeError SizeMismatch).
Proof.
  intros Ha Hr Hb Hne. apply (cat_size_mismatch a [b] 1 b).
  - rewrite Ha. destruct rest1; [done|]. simpl. lia.
  - right. left.
  - apply bool_decide_eq_false. rewrite Ha, Hb. simpl.
    intros ([= ?] & _). done.
Qed.

(** *** Splitting *)

Lemma split_sizes_exact k size :
  0 < k → 0 < size → split_sizes (k * size) size = replicate k size.
Proof.
  intros Hk Hsz. unfold split_sizes.
  rewrite decide_False by lia. by apply chunk_sizes_exact.
Qed.

(** A tensor of [2 * n] rows splits into its two halves. *)
Lemma split_halves n rest d dv :
  0 < n → length d = numel (2 * n :: rest) →
  split (Tensor (2 * n :: rest) d dv) n =
    Ok [Tensor (n :: rest) (take (n * numel rest) d) dv;
        Tensor (n :: rest) (drop (n * numel rest) d) dv].
Proof.
  intros Hn Hd. unfold split. cbn -[Nat.mul].
  rewrite bool_decide_eq_true_2 by lia. cbn -[Nat.mul].
  rewrite split_sizes_exact by lia. cbn -[Nat.mul].
  rewrite (take_ge (drop _ d)); [done|].
  rewrite length_drop, Hd, numel_cons. lia.
Qed.

(** Concatenating two tensors of [n] rows and splitting by [n] gives
    them back. *)
Lemma split_cat n rest dv a b :
  0 < n → shape a = n :: rest → shape b = n :: rest →
  dev a = dv → dev b = dv → wf a → wf b →
  cat [a; b] 0 ≫= (λ t, split t n) = Ok [a; b].
Proof.
  intros Hn Ha Hb Hda Hdb Hwa Hwb.
  assert (Forall (cat_shaped [] rest dv) [a; b]) as Hall
    by (apply Forall_two; by eexists).
  rewrite (cat_dim0 rest dv) by done. simpl.
  unfold dim_size. rewrite Ha, Hb. simpl.
  rewrite app_nil_r. replace (n + (n + 0)) with (2 * n) by lia.
  rewrite split_halves; [|done|].
  - unfold wf in *. rewrite Ha, Hb, numel_cons in *.
    rewrite take_app_length', drop_app_length' by done.
    destruct a, b. simpl in *. by subst.
  - unfold wf in *. rewrite length_app, Hwa, Hwb, Ha, Hb, !numel_cons. lia.
Qed.

(** *** Stacking *)

Lemma stack_Ok sh dv t0 ts :
  Forall (λ t, shape t = sh ∧ dev t = dv) (t0 :: ts) →
  stack (t0 :: ts) =
    Ok (Tensor (S (length ts) :: sh) ((t0 :: ts) ≫= data) dv).
Proof.
  intros Hall. pose proof (Forall_inv Hall) as [Hs0 Hd0].
  assert (forallb (λ t, bool_decide (shape t = shape t0)) (t0 :: ts) = true) as Hc.
  { apply forallb_true_Forall. eapply Forall_impl; [|exact Hall].
    intros t [Ht _]. simpl. apply bool_decide_eq_true. congruence. }
  assert (forallb (λ t, bool_decide (dev t = dev t0)) (t0 :: ts) = true) as Hd.
  { apply forallb_true_Forall. eapply Forall_impl; [|exact Hall].
    intros t [_ Ht]. simpl. apply bool_decide_eq_true. congruence. }
  unfold stack. rewrite Hc, Hd. simpl. by rewrite Hs0, Hd0.
Qed.

Lemma stack_wf sh dv ts r :
  Forall (λ t, shape t = sh ∧ dev t = dv ∧ wf t) ts → stack ts = Ok r → wf r.
Proof.
  destruct ts as [|t0 ts]; [done|]. intros Hall.
  rewrite (stack_Ok sh dv).
  - intros [= <-]. unfold wf. cbn [data shape].
    change (data t0 ++ _) with ((t0 :: ts) ≫= data).
    rewrite numel_cons, (length_bind_const _ _ (numel sh)); [done|].
    intros t Ht%list_elem_of_In. rewrite Forall_forall in Hall.
    destruct (Hall t Ht) as (Hs & _ & Hw). by rewrite Hw, Hs.
  - eapply Forall_impl; [|exact Hall]. by intros t (? & ? & _).
Qed.

Lemma stack_shape_mismatch t0 ts t :
  t ∈ t0 :: ts → shape t ≠ shape t0 →
  stack (t0 :: ts) = Err (RuntimeError SizeMismatch).
Proof.
  intros Ht Hne. unfold stack.
  rewrite (forallb_false_elem (λ t, bool_decide (shape t = shape t0)) _ t);
    [done..|].
  by apply bool_decide_eq_false.
Qed.
End cat_lemmas.
