(* ===== verification/Externals.v ===== *)
(** * Externals: the code [gan.py] calls that is not under [src/]

    [train_gan] drives five things it does not define: the two networks
    ([generator.Generator], [discriminator.Discriminator]), PyTorch's
    reverse-mode differentiation and its Adam optimizer, the helpers of
    [util_ops] (mask geometry and the hinge loss), and random number
    generators (Python's [random], PyTorch's sampler).  Each is a class
    of operations here, with a second class for the contract the training
    loop relies on.  The contracts are about shapes, devices and
    well-formedness only: nothing is assumed about what a network
    computes.

    The file [Toy] instantiates every class, so that the training loop
    runs by computation and no contract is vacuous. *)

From stdpp Require Import base tactics option list numbers.
From Stdlib Require Import QArith.
From S2P Require Import Prelude Scalar Tensor.
Close Scope Q_scope.

(** ** Random number generators *)

Class Random (Rng : Type) : Type := {
  (** the index drawn by [random.choice] among [n] items *)
  rand_below : nat → Rng → nat * Rng;
  (** the order in which a shuffling [DataLoader] visits [n] samples *)
  randperm : nat → Rng → list nat * Rng;
}.

Class RandomOk (Rng : Type) `{Random Rng} : Prop := {
  rand_below_lt n g : 0 < n → (rand_below n g).1 < n;
  randperm_perm n g : (randperm n g).1 ≡ₚ seq 0 n;
}.

(** ** The networks *)

Class Models (R : Type) : Type := {
  gen_params : Type;
  dis_params : Type;
  (** the number of channels of an image, and its height and width
      (module [params]) *)
  img_channels : nat;
  img_h : nat;
  img_w : nat;
  (** the shape of the discriminator's score for one image *)
  dis_out : list nat;
  (** [Generator.forward(xin, mask)] in training or evaluation mode: the
      coarse result, the refined result and a third value the trainer
      ignores *)
  gen_forward : bool → gen_params → tensor R → tensor R →
                result (tensor R * tensor R * tensor R);
  (** [Discriminator.forward(x)] *)
  dis_forward : bool → dis_params → tensor R → result (tensor R);
}.

(** [like a b]: [b] has the shape and device of [a] and is well formed. *)
Definition like {R} (a b : tensor R) : Prop :=
  shape b = shape a ∧ dev b = dev a ∧ wf b.

Class ModelsOk (R : Type) `{Models R} : Prop := {
  (** On a batch of images with a mask of the image size the generator
      returns two images per input image. *)
  gen_forward_ok tr θ xin mask n :
    shape xin = [n; img_channels; img_h; img_w] → wf xin →
    shape mask = [1; 1; img_h; img_w] → wf mask → dev mask = dev xin →
    ∃ x1 x2 x3, gen_forward tr θ xin mask = Ok (x1, x2, x3)
                ∧ like xin x1 ∧ like xin x2;
  (** On a batch of images with their mask as an extra channel the
      discriminator returns one score per image. *)
  dis_forward_ok tr θ x n :
    shape x = [n; S img_channels; img_h; img_w] → wf x →
    ∃ y, dis_forward tr θ x = Ok y
         ∧ shape y = n :: dis_out ∧ dev y = dev x ∧ wf y;
}.

(** ** Differentiation and optimisation

    [derive L θ] is the gradient at [θ] of the loss [L], a function of
    the parameters: what [loss.backward()] adds to the [.grad] buffers.
    [adam_step] is [optimizer.step()]. *)

Class Autograd (R Θ : Type) : Type := {
  grad_t : Type;
  grad_add : grad_t → grad_t → grad_t;
  derive : (Θ → result R) → Θ → grad_t;
  opt_t : Type;
  (** [optim.Adam(params, lr=lr, betas=(b1, b2))] *)
  adam_new : Q → Q * Q → opt_t;
  adam_step : opt_t → Θ → grad_t → opt_t * Θ;
}.

(** The gradient depends on the loss as a function, not on how it is
    written. *)
Class AutogradOk (R Θ : Type) `{Autograd R Θ} : Prop := {
  derive_ext (L L' : Θ → result R) θ :
    (∀ θ', L θ' = L' θ') → derive L θ = derive L' θ;
}.

(** ** [util_ops] *)

Class UtilOps (R Rng : Type) : Type := {
  bbox : Type;
  random_bbox : Rng → bbox * Rng;
  bbox2mask : bbox → tensor R;
  brush_stroke_mask : Rng → tensor R * Rng;
  (** [gan_hinge_loss(pos, neg, device)]: the generator's and the
      discriminator's loss *)
  gan_hinge_loss : tensor R → tensor R → torch_device → result (tensor R * tensor R);
}.

(** A mask for images of height [h] and width [w]: one channel, one
    image, every value [0] (keep) or [1] (fill). *)
Definition is_mask `{Scalar R} (h w : nat) (m : tensor R) : Prop :=
  shape m = [1; 1; h; w] ∧ wf m ∧ Forall is_binary (data m).

#[export] Instance is_mask_dec `{Scalar R} h w (m : tensor R) : Decision (is_mask h w m).
Proof. unfold is_mask. apply _. Defined.

(** A loss: a well-formed tensor without dimensions on [dv]. *)
Definition is_loss `{Scalar R} (dv : torch_device) (l : tensor R) : Prop :=
  shape l = [] ∧ wf l ∧ dev l = dv.

Class UtilOpsOk (R Rng : Type) `{Scalar R, Models R, UtilOps R Rng} : Prop := {
  bbox2mask_ok b : is_mask img_h img_w (bbox2mask b);
  brush_stroke_mask_ok g : is_mask img_h img_w (brush_stroke_mask g).1;
  gan_hinge_loss_ok pos neg dv :
    wf pos → wf neg → shape pos = shape neg → dev pos = dv → dev neg = dv →
    ∃ gl dl, gan_hinge_loss pos neg dv = Ok (gl, dl)
             ∧ is_loss dv gl ∧ is_loss dv dl;
}.

(** ** Lemmas *)

Section like_lemmas.
Context `{Scalar R}.
Implicit Types (a b c : tensor R).

Lemma like_refl a : wf a → like a a.
Proof. by intros; repeat split. Qed.

Lemma like_trans a b c : like a b → like b c → like a c.
Proof. intros (? & ? & ?) (? & ? & ?). repeat split; congruence. Qed.

Lemma like_to dv a : wf a → dev a = dv → like a (to dv a).
Proof. by intros; repeat split. Qed.

Lemma is_loss_item dv (l : tensor R) : is_loss dv l → ∃ x, data l = [x].
Proof.
  intros (Hs & Hw & _). unfold wf in Hw. rewrite Hs, numel_nil in Hw.
  destruct (data l) as [|x [|y d]]; simplify_eq/=. by exists x.
Qed.

Lemma is_loss_eq dv (l : tensor R) : is_loss dv l → ∃ x, l = Tensor [] [x] dv.
Proof.
  intros Hl. destruct (is_loss_item dv l Hl) as [x Hx].
  destruct l as [sh d dv'], Hl as (? & _ & ?). simplify_eq/=. by exists x.
Qed.

Lemma is_mask_length h w (m : tensor R) : is_mask h w m → length (data m) = h * w.
Proof.
  intros (Hs & Hw & _). unfold wf in Hw.
  rewrite Hw, Hs, !numel_cons, numel_nil. lia.
Qed.

Lemma is_mask_to h w dv (m : tensor R) : is_mask h w m → is_mask h w (to dv m).
Proof. done. Qed.
End like_lemmas.
