(* ===== verification/Toy.v ===== *)
(** * Toy: executable instances of the external interfaces

    Small stand-ins for the parts outside [src/], over any scalar type
    and any image size: networks with one parameter each, a
    finite-difference [derive], an optimizer that subtracts the
    gradient, two box masks and a full mask, and a counter as random
    number generator.  They satisfy the contracts of [Externals], which
    shows the contracts consistent, and they make [train_gan] run by
    computation at the concrete inputs the theorems are applied to:
    [Toy] fixes integers and images of one channel, one row and two
    columns, [ToyRgb] rationals and RGB images of two rows and two
    columns, the images [ops_data.preprocess] produces. *)

From stdpp Require Import base tactics option list numbers.
From Stdlib Require Import QArith Qcanon.
From S2P Require Import Prelude Scalar Tensor Externals.
Close Scope Q_scope.
Close Scope Qc_scope.

(** ** The stand-ins, for any scalar type and image size *)

Section small.
Context {R : Type} `{MaskLaws R}.
Variables (c h w : nat).

(** One score per image: the parameter times the sum of its elements. *)
Definition small_dis (θ : R) (x : tensor R) : result (tensor R) :=
  match shape x with
  | n :: rest =>
      Ok (Tensor [n; 1]
            ((λ ch, θ * sc_sum ch)%sc <$> reshape (replicate n (numel rest)) (data x))
            (dev x))
  | [] => Err (RuntimeError (External 0))
  end.

(** The coarse result shifts the input by the parameter, the refined
    result scales it. *)
Definition small_gen (θ : R) (xin mask : tensor R) :
    result (tensor R * tensor R * tensor R) :=
  Ok (unop (λ x, x + θ)%sc xin, unop (λ x, θ * x + 1)%sc xin, mask).

Definition small_models : Models R := {|
  gen_params := R;
  dis_params := R;
  img_channels := c;
  img_h := h;
  img_w := w;
  dis_out := [1];
  gen_forward := λ _, small_gen;
  dis_forward := λ _, small_dis;
|}.

(** Differentiation by finite differences, descent by subtraction. *)
Definition small_derive (L : R → result R) (θ : R) : R :=
  match L (θ + 1)%sc, L θ with
  | Ok a, Ok b => (a - b)%sc
  | _, _ => 0%sc
  end.

Definition small_autograd : Autograd R R := {|
  grad_t := R;
  grad_add := sc_add;
  derive := small_derive;
  opt_t := nat;
  adam_new := λ _ _, 0;
  adam_step := λ o θ g, (S o, (θ - g)%sc);
|}.

(** Box [b] fills the pixels whose position has the parity of [b]. *)
Definition small_bbox2mask (b : nat) : tensor R :=
  Tensor [1; 1; h; w]
    ((λ k, if decide (k `mod` 2 = b) then 1%sc else 0%sc) <$> seq 0 (h * w)) Cpu.

Definition small_brush : tensor R := Tensor [1; 1; h; w] (replicate (h * w) 1%sc) Cpu.

Definition small_hinge (pos neg : tensor R) (dv : torch_device) :
    result (tensor R * tensor R) :=
  let hinge_pos := mean (unop (λ x, sc_max 0 (1 - x))%sc pos) in
  let hinge_neg := mean (unop (λ x, sc_max 0 (1 + x))%sc neg) in
  d_loss ← add (to dv hinge_pos) (to dv hinge_neg);
  Ok (to dv (Tensor.neg (mean neg)), d_loss).

Definition small_util : UtilOps R nat := {|
  bbox := nat;
  random_bbox := λ g, (g `mod` 2, S g);
  bbox2mask := small_bbox2mask;
  brush_stroke_mask := λ g, (small_brush, S g);
  gan_hinge_loss := small_hinge;
|}.

(** *** The contracts hold *)

Lemma small_autograd_ok : @AutogradOk R R small_autograd.
Proof. split. intros L L' θ HL. simpl. unfold small_derive. by rewrite !HL. Qed.

Lemma small_dis_ok θ (x : tensor R) n rest :
  shape x = n :: rest → wf x →
  ∃ y, small_dis θ x = Ok y ∧ shape y = [n; 1] ∧ dev y = dev x ∧ wf y.
Proof.
  intros Hs Hw. unfold small_dis. rewrite Hs. eexists. split; [done|].
  repeat split. unfold wf. simpl.
  rewrite length_fmap, length_reshape, length_replicate.
  rewrite !numel_cons, numel_nil. lia.
Qed.

Lemma small_models_ok : @ModelsOk R small_models.
Proof.
  split; simpl.
  - intros _ θ xin mask n Hs Hw _ _ _. eexists _, _, _. split; [done|].
    split; repeat split; by apply unop_wf.
  - intros _ θ x n Hs Hw.
    destruct (small_dis_ok θ x n [S c; h; w] Hs Hw) as (y & ? & ? & ? & ?).
    by exists y.
Qed.

Lemma small_bbox2mask_ok b : is_mask h w (small_bbox2mask b).
Proof.
  split; [done|]. split.
  - unfold wf. cbn [data shape small_bbox2mask].
    rewrite length_fmap, length_seq, !numel_cons, numel_nil. lia.
  - simpl. apply Forall_fmap, Forall_true. intros k. simpl.
    case_decide; [by right|by left].
Qed.

Lemma small_brush_ok : is_mask h w small_brush.
Proof.
  split; [done|]. split.
  - unfold wf. cbn [data shape small_brush].
    rewrite length_replicate, !numel_cons, numel_nil. lia.
  - simpl. apply Forall_replicate. by right.
Qed.

Lemma small_util_ok : @UtilOpsOk R nat _ small_models small_util.
Proof.
  split; simpl.
  - apply small_bbox2mask_ok.
  - intros _. apply small_brush_ok.
  - intros pos neg dv _ _ _ _ _. unfold small_hinge, add.
    unfold to, mean, unop. simpl. rewrite binop_scalars. simpl.
    eexists _, _. split; [done|]. by split.
Qed.
End small.

(** ** Integers, one channel, one row, two columns *)

Module Toy.

(** Random numbers: a counter. *)
#[export] Instance toy_random : Random nat := {|
  rand_below := λ n g, (g `mod` n, S g);
  randperm := λ n g, (if Nat.even g then seq 0 n else reverse (seq 0 n), S g);
|}.

#[export] Instance toy_random_ok : RandomOk nat.
Proof.
  split; simpl.
  - intros n g Hn. apply Nat.mod_upper_bound. lia.
  - intros n g. destruct (Nat.even g); [done|]. apply reverse_Permutation.
Qed.

#[export] Instance toy_models : Models Z := small_models 1 1 2.
#[export] Instance toy_autograd : Autograd Z Z := small_autograd.
#[export] Instance toy_util : UtilOps Z nat := small_util 1 2.
#[export] Instance toy_autograd_ok : AutogradOk Z Z := small_autograd_ok.
#[export] Instance toy_models_ok : ModelsOk Z := small_models_ok 1 1 2.
#[export] Instance toy_util_ok : UtilOpsOk Z nat := small_util_ok 1 1 2.
End Toy.

(** ** Rationals, three channels, two rows, two columns *)

Module ToyRgb.
#[export] Instance rgb_models : Models Qc := small_models 3 2 2.
#[export] Instance rgb_autograd : Autograd Qc Qc := small_autograd.
#[export] Instance rgb_util : UtilOps Qc nat := small_util 2 2.
#[export] Instance rgb_autograd_ok : AutogradOk Qc Qc := small_autograd_ok.
#[export] Instance rgb_models_ok : ModelsOk Qc := small_models_ok 3 2 2.
#[export] Instance rgb_util_ok : UtilOpsOk Qc nat := small_util_ok 3 2 2.
End ToyRgb.
