(* ===== verification/DataLoader.v ===== *)
(** * DataLoader: the batches [train_gan] iterates over

    Line 39 of [gan.py] builds
    [DataLoader(dataset, batch_size=self.batch_size, shuffle=True)] and
    line 46 iterates it once per epoch.  What the loop sees is modelled
    here: a dataset is a length and an indexing function (which may draw
    random numbers, as a dataset with a random transform does); starting
    an iteration draws a fresh order of the indices and cuts it into
    batches of [batch_size], the last one shorter when the size does not
    divide the length ([drop_last] is left at its default); fetching a
    batch indexes the dataset and collates the samples into the list
    [[images; labels]] with the images stacked along a new first
    dimension. *)

From stdpp Require Import base tactics option list numbers.
From S2P Require Import Prelude Scalar Tensor Externals.

Section dataloader.
Context {R Rng : Type} `{Scalar R, Random Rng}.

(** ** Data *)

(** A sample is an image and its class label. *)
Definition sample : Type := tensor R * nat.

Record dataset : Type := Dataset {
  ds_len : nat;
  ds_getitem : nat → stx Rng sample;
}.

Record dataloader : Type := MkDataLoader {
  dl_dataset : dataset;
  dl_batch_size : nat;
  dl_shuffle : bool;
}.

(** ** Operations *)

(** A dataset held in memory: indexing never draws random numbers. *)
Definition list_dataset (l : list sample) : dataset :=
  Dataset (length l) (λ i, lift (of_option (l !! i) IndexError)).

(** [DataLoader(ds, batch_size=bs, shuffle=sh)]; a batch size of zero
    is refused. *)
Definition DataLoader (ds : dataset) (bs : nat) (sh : bool) : result dataloader :=
  _ ← guard_ok (bool_decide (0 < bs)) ValueError;
  Ok (MkDataLoader ds bs sh).

(** The order of the indices for one pass. *)
Definition sampler (dl : dataloader) : stx Rng (list nat) :=
  if dl_shuffle dl then pure_st (randperm (ds_len (dl_dataset dl)))
  else mret (seq 0 (ds_len (dl_dataset dl))).

(** [iter(dl)]: the index lists of the batches of one pass. *)
Definition dl_iter (dl : dataloader) : stx Rng (list (list nat)) :=
  order ← sampler dl; mret (chunks (dl_batch_size dl) order).

(** The default collation of samples [(image, label)]. *)
Definition default_collate (samples : list sample) : result (list (tensor R)) :=
  images ← stack (samples.*1);
  Ok [images;
      Tensor [length samples] (sc_of_nat <$> samples.*2) Cpu].

(** Fetching one batch. *)
Definition dl_fetch (dl : dataloader) (idxs : list nat) : stx Rng (list (tensor R)) :=
  samples ← mapS (ds_getitem (dl_dataset dl)) idxs;
  lift (default_collate samples).

(** ** Specifications *)

(** Fetching sample [i] gives a well-formed CPU image of shape [sh],
    whatever the state of the random number generator. *)
Definition sample_ok (sh : list nat) (ds : dataset) (i : nat) : Prop :=
  ∀ g, ∃ img lbl g', ds_getitem ds i g = (Ok (img, lbl), g')
                     ∧ shape img = sh ∧ dev img = Cpu ∧ wf img.

(** Fetching sample [i] raises [e]. *)
Definition sample_raises (ds : dataset) (e : exn) (i : nat) : Prop :=
  ∀ g, ∃ g', ds_getitem ds i g = (Err e, g').

(** Every sample of [ds] is a well-formed CPU image of shape [sh]. *)
Definition dataset_ok (sh : list nat) (ds : dataset) : Prop :=
  ∀ i g, i < ds_len ds →
    ∃ img lbl g', ds_getitem ds i g = (Ok (img, lbl), g')
                  ∧ shape img = sh ∧ dev img = Cpu ∧ wf img.

(** The batches of one pass over a dataset the batch size divides:
    put end to end they are a permutation of the indices of the
    dataset, and each holds [batch_size] indices. *)
Definition is_pass (dl : dataloader) (batches : list (list nat)) : Prop :=
  mjoin batches ≡ₚ seq 0 (ds_len (dl_dataset dl))
  ∧ Forall (λ idxs, length idxs = dl_batch_size dl) batches.

(** [images] is the collation of the samples at [idxs], for some state
    of the random number generator. *)
Definition fetched (dl : dataloader) (idxs : list nat) (images : tensor R) : Prop :=
  ∃ g labels g', dl_fetch dl idxs g = (Ok [images; labels], g').

(** A batch of [b] images of shape [sh]. *)
Definition is_batch (b : nat) (sh : list nat) (batch_data : list (tensor R)) : Prop :=
  ∃ images labels, batch_data = [images; labels]
                   ∧ shape images = b :: sh ∧ dev images = Cpu ∧ wf images.
End dataloader.

Arguments dataset : clear implicits.
Arguments dataloader : clear implicits.
Arguments sample : clear implicits.

(** ** Lemmas *)

Section dataloader_lemmas.
Context {R Rng : Type} `{Scalar R, Random Rng, !RandomOk Rng}.
Implicit Types (ds : dataset R Rng) (dl : dataloader R Rng) (g : Rng).

Lemma DataLoader_Ok ds bs sh :
  0 < bs → DataLoader ds bs sh = Ok (MkDataLoader ds bs sh).
Proof. intros. unfold DataLoader. by rewrite bool_decide_eq_true_2. Qed.

Lemma DataLoader_zero ds sh : DataLoader ds 0 sh = Err ValueError.
Proof. done. Qed.

(** One pass visits every index exactly once, in some order. *)
Lemma sampler_perm dl g :
  ∃ order g', sampler dl g = (Ok order, g')
              ∧ order ≡ₚ seq 0 (ds_len (dl_dataset dl)).
Proof.
  unfold sampler. destruct (dl_shuffle dl).
  - rewrite run_pure_st. eexists _, _. split; [done|]. apply randperm_perm.
  - by eexists _, _.
Qed.

(** The batches of one pass, put end to end, are a permutation of the
    indices of the dataset: every sample is used exactly once. *)
Lemma dl_iter_perm dl g :
  0 < dl_batch_size dl →
  ∃ batches g', dl_iter dl g = (Ok batches, g')
                ∧ mjoin batches ≡ₚ seq 0 (ds_len (dl_dataset dl)).
Proof.
  intros Hbs. destruct (sampler_perm dl g) as (order & g' & Hs & Hp).
  exists (chunks (dl_batch_size dl) order), g'. unfold dl_iter.
  rewrite (run_bind_Ok _ _ _ _ _ Hs). split; [done|].
  by rewrite join_chunks.
Qed.

(** The number of batches of one pass. *)
Lemma dl_iter_length dl g batches g' :
  0 < dl_batch_size dl → dl_iter dl g = (Ok batches, g') →
  length batches =
    ds_len (dl_dataset dl) / dl_batch_size dl
    + (if ds_len (dl_dataset dl) `mod` dl_batch_size dl =? 0 then 0 else 1).
Proof.
  intros Hbs. destruct (sampler_perm dl g) as (order & g1 & Hs & Hp).
  unfold dl_iter. rewrite (run_bind_Ok _ _ _ _ _ Hs). intros [= <- <-].
  rewrite length_chunks by done.
  apply Permutation_length in Hp. rewrite length_seq in Hp. by rewrite Hp.
Qed.

(** Every index of a batch is an index of the dataset. *)
Lemma dl_iter_bound dl g batches g' idxs i :
  0 < dl_batch_size dl → dl_iter dl g = (Ok batches, g') →
  idxs ∈ batches → i ∈ idxs → i < ds_len (dl_dataset dl).
Proof.
  intros Hbs Hit Hidxs Hi.
  destruct (dl_iter_perm dl g Hbs) as (batches' & g'' & Hit' & Hp).
  rewrite Hit in Hit'. injection Hit' as <- <-.
  assert (i ∈ mjoin batches) as Hin by (apply list_elem_of_join; eauto).
  rewrite Hp in Hin. apply elem_of_seq in Hin. lia.
Qed.

(** When the batch size divides the length of the dataset every batch
    is full. *)
Lemma dl_iter_full dl g batches g' idxs :
  0 < dl_batch_size dl →
  ds_len (dl_dataset dl) `mod` dl_batch_size dl = 0 →
  dl_iter dl g = (Ok batches, g') → idxs ∈ batches →
  length idxs = dl_batch_size dl.
Proof.
  intros Hbs Hmod. destruct (sampler_perm dl g) as (order & g1 & Hs & Hp).
  unfold dl_iter. rewrite (run_bind_Ok _ _ _ _ _ Hs). intros [= <- <-].
  intros (i & Hi)%list_elem_of_lookup.
  apply Permutation_length in Hp. rewrite length_seq in Hp.
  apply (chunks_lookup_full _ order i); [done..|].
  apply lookup_lt_Some in Hi. rewrite length_chunks in Hi by done.
  rewrite Hp in *. rewrite Hmod in Hi. simpl in Hi. lia.
Qed.

(** The batches of [iter(dl)] are a pass. *)
Lemma dl_iter_pass dl g batches g' :
  0 < dl_batch_size dl →
  ds_len (dl_dataset dl) `mod` dl_batch_size dl = 0 →
  dl_iter dl g = (Ok batches, g') → is_pass dl batches.
Proof.
  intros Hbs Hmod Hit. split.
  - destruct (dl_iter_perm dl g Hbs) as (batches' & g'' & Hit' & Hp).
    rewrite Hit in Hit'. by injection Hit' as <- <-.
  - apply list.Forall_forall. intros idxs Hin. by eapply dl_iter_full.
Qed.

(** A pass has [len / batch_size] batches. *)
Lemma is_pass_length dl batches :
  0 < dl_batch_size dl → is_pass dl batches →
  length batches = ds_len (dl_dataset dl) / dl_batch_size dl.
Proof.
  intros Hbs [Hp Hfull]. apply Permutation_length in Hp.
  rewrite length_seq, (length_join_const _ _ Hfull) in Hp.
  by rewrite <-Hp, Nat.div_mul by lia.
Qed.

Lemma length_join_passes dl passes :
  0 < dl_batch_size dl → Forall (is_pass dl) passes →
  length (mjoin passes)
  = length passes * (ds_len (dl_dataset dl) / dl_batch_size dl).
Proof.
  intros Hbs Hall. apply length_join_const.
  eapply list.Forall_impl; [exact Hall|]. intros batches. by apply is_pass_length.
Qed.

(** In general the first [len / batch_size] batches are full. *)
Lemma dl_iter_lookup_full dl g batches g' i idxs :
  0 < dl_batch_size dl → dl_iter dl g = (Ok batches, g') →
  batches !! i = Some idxs → i < ds_len (dl_dataset dl) / dl_batch_size dl →
  length idxs = dl_batch_size dl.
Proof.
  intros Hbs. destruct (sampler_perm dl g) as (order & g1 & Hs & Hp).
  unfold dl_iter. rewrite (run_bind_Ok _ _ _ _ _ Hs). intros [= <- <-] Hi Hlt.
  apply Permutation_length in Hp. rewrite length_seq in Hp.
  apply (chunks_lookup_full _ order i); [done..|by rewrite Hp].
Qed.

(** Otherwise the last batch holds the remainder. *)
Lemma dl_iter_last dl g batches g' :
  0 < dl_batch_size dl →
  ds_len (dl_dataset dl) `mod` dl_batch_size dl ≠ 0 →
  dl_iter dl g = (Ok batches, g') →
  ∃ idxs, batches !! (ds_len (dl_dataset dl) / dl_batch_size dl) = Some idxs
          ∧ length idxs = ds_len (dl_dataset dl) `mod` dl_batch_size dl.
Proof.
  intros Hbs Hmod. destruct (sampler_perm dl g) as (order & g1 & Hs & Hp).
  unfold dl_iter. rewrite (run_bind_Ok _ _ _ _ _ Hs). intros [= <- <-].
  apply Permutation_length in Hp. rewrite length_seq in Hp. rewrite <-Hp in *.
  destruct (chunks_lookup_is_Some (dl_batch_size dl) order
              (length order / dl_batch_size dl)) as [idxs Hidxs]; [done| |].
  - rewrite length_chunks by done.
    destruct (Nat.eqb_spec (length order `mod` dl_batch_size dl) 0); lia.
  - exists idxs. split; [done|]. by apply chunks_lookup_last.
Qed.

(** A list of well-formed CPU images of one shape is a dataset of
    that shape. *)
Lemma list_dataset_ok sh (l : list (sample R)) :
  Forall (λ s : sample R, shape s.1 = sh ∧ dev s.1 = Cpu ∧ wf s.1) l →
  dataset_ok sh (list_dataset (Rng := Rng) l).
Proof.
  intros Hall i g Hi. simpl in Hi.
  destruct (lookup_lt_is_Some_2 l i Hi) as [[img lbl] Hl].
  exists img, lbl, g. unfold list_dataset, lift. simpl. rewrite Hl.
  split; [done|]. by apply (Forall_lookup_1 _ _ _ _ Hall Hl).
Qed.

(** *** Collation *)

Lemma default_collate_batch sh (samples : list (sample R)) :
  samples ≠ [] →
  Forall (λ s : sample R, shape s.1 = sh ∧ dev s.1 = Cpu ∧ wf s.1) samples →
  ∃ batch_data, default_collate samples = Ok batch_data
                ∧ is_batch (length samples) sh batch_data.
Proof.
  intros Hne Hall. destruct samples as [|s0 samples]; [done|].
  assert (Forall (λ t : tensor R, shape t = sh ∧ dev t = Cpu ∧ wf t)
            ((s0 :: samples).*1)) as Hall'.
  { apply Forall_fmap. eapply Forall_impl; [|exact Hall]. by intros s. }
  assert (stack ((s0 :: samples).*1) =
            Ok (Tensor (S (length (samples.*1)) :: sh)
                  ((s0 :: samples).*1 ≫= data) Cpu)) as Hst.
  { rewrite fmap_cons. apply stack_Ok. rewrite <-fmap_cons.
    eapply Forall_impl; [|exact Hall']. by intros t (? & ? & _). }
  pose proof (stack_wf sh Cpu _ _ Hall' Hst) as Hw.
  unfold default_collate. rewrite Hst. eexists. split; [done|].
  eexists _, _. split; [done|]. cbn [shape dev length].
  by rewrite length_fmap in *.
Qed.

Lemma dataset_ok_sample sh ds i :
  dataset_ok sh ds → i < ds_len ds → sample_ok sh ds i.
Proof. intros Hds Hi g. by apply Hds. Qed.

Lemma dataset_ok_samples sh ds idxs :
  dataset_ok sh ds → Forall (λ i, i < ds_len ds) idxs →
  Forall (sample_ok sh ds) idxs.
Proof.
  intros Hds Hidx. eapply list.Forall_impl; [exact Hidx|].
  intros i. by apply dataset_ok_sample.
Qed.

(** Fetching a non-empty batch of samples that are images of shape
    [sh] gives a batch of that many images. *)
Lemma dl_fetch_samples sh dl idxs g :
  idxs ≠ [] → Forall (sample_ok sh (dl_dataset dl)) idxs →
  ∃ batch_data g', dl_fetch dl idxs g = (Ok batch_data, g')
                   ∧ is_batch (length idxs) sh batch_data.
Proof.
  intros Hne Hidx.
  destruct (hoare_mapS (λ _, True)
    (λ (i : nat) (s : sample R), shape s.1 = sh ∧ dev s.1 = Cpu ∧ wf s.1)
    (ds_getitem (dl_dataset dl)) idxs) with (s := g)
    as (samples & g' & Hrun & Hall & _); [|done|].
  { intros i Hi g0 _. rewrite Forall_forall in Hidx.
    destruct (Hidx i (proj1 (list_elem_of_In _ _) Hi) g0)
      as (img & lbl & g1 & Hget & ?).
    by exists (img, lbl), g1. }
  pose proof (Forall2_length Hall) as Hlen.
  destruct (default_collate_batch sh samples) as (batch_data & Hc & Hb).
  { intros ->. by destruct idxs. }
  { eapply Forall2_Forall_r; [exact Hall|]. by apply Forall_true. }
  exists batch_data, g'. unfold dl_fetch.
  rewrite (run_bind_Ok _ _ _ _ _ Hrun). unfold lift. rewrite Hc, Hlen.
  done.
Qed.

Lemma dl_fetch_batch sh dl idxs g :
  dataset_ok sh (dl_dataset dl) → idxs ≠ [] →
  Forall (λ i, i < ds_len (dl_dataset dl)) idxs →
  ∃ batch_data g', dl_fetch dl idxs g = (Ok batch_data, g')
                   ∧ is_batch (length idxs) sh batch_data.
Proof. intros Hds Hne Hidx. by apply dl_fetch_samples, dataset_ok_samples. Qed.

(** Fetching a batch raises when fetching one of its samples does and
    the others are fine or raise the same exception. *)
Lemma dl_fetch_raises sh dl idxs e g :
  Forall (λ i, sample_ok sh (dl_dataset dl) i
               ∨ sample_raises (dl_dataset dl) e i) idxs →
  Exists (sample_raises (dl_dataset dl) e) idxs →
  ∃ g', dl_fetch dl idxs g = (Err e, g').
Proof.
  intros Hall Hbad.
  destruct (mapS_raises (λ _, True) (ds_getitem (dl_dataset dl)) idxs e)
    with (s := g) as (g' & Hrun & _); [| |done|].
  - intros i Hi g0 _. rewrite Forall_forall in Hall.
    destruct (Hall i (proj1 (list_elem_of_In _ _) Hi)) as [Hok|Hraise].
    + left. destruct (Hok g0) as (img & lbl & g1 & Hget & _).
      by exists (img, lbl), g1.
    + right. apply Hraise.
  - apply Exists_exists in Hbad as (i & Hi & Hraise).
    exists i. split; [by apply list_elem_of_In|].
    intros g0 _. destruct (Hraise g0) as [g1 Hget]. by exists g1.
  - exists g'. unfold dl_fetch. by rewrite (run_bind_Err _ _ _ _ _ Hrun).
Qed.

(** Indices that are each fine or raising are all fine, or one of them
    raises. *)
Lemma samples_ok_or_raise sh ds e idxs :
  Forall (λ i, sample_ok sh ds i ∨ sample_raises ds e i) idxs →
  Forall (sample_ok sh ds) idxs ∨ Exists (sample_raises ds e) idxs.
Proof.
  induction 1 as [|i idxs [Hok|Hbad] _ [IH|IH]];
    [by left|left; by constructor|right; by constructor..].
Qed.
End dataloader_lemmas.
