(* ===== verification/Gan.v ===== *)
(** * Gan: the class [GAN] of [src/gan.py]

    The state of the object ([self.gen], [self.dis], the hyperparameters,
    the two optimizers) is the record [GAN]; the locals of [train_gan]
    that outlive an iteration ([G_losses], [D_losses], [iters]) are the
    record [frame]; both live in [world] with the random number
    generator, the state of the autograd graph and what was printed.
    Methods are computations in [stx world]: an exception ends the method
    and leaves the object as mutated so far.

    The body of the batch loop is cut into the pieces below, one per
    group of source lines, and [train_batch] chains them in the order of
    the source.  Gradients are modelled functionally: the loss of an
    iteration is also kept as a function of the two parameter sets, and
    [loss.backward()] adds [derive] of that function to the [.grad]
    buffer of every network the loss depends on.  [zero_grad()] empties a
    buffer (the default [set_to_none=True]) and [optimizer.step()] skips a
    network whose buffer is empty. *)

From stdpp Require Import base tactics option list numbers.
From Stdlib Require Import QArith.
From S2P Require Import Prelude Scalar Tensor Externals Toy DataLoader.
Close Scope Q_scope.

(** ** Data *)

Inductive torch_dtype : Type := Float32.

(** An [nn.Module]: its parameters, their [.grad] buffers (empty until a
    backward pass fills them), the training flag and the device. *)
Record nn_module (Θ G : Type) : Type := NnModule {
  params : Θ;
  grads : option G;
  training : bool;
  mdev : torch_device;
}.
Arguments NnModule {Θ G} params grads training mdev.
Arguments params {Θ G} _.
Arguments grads {Θ G} _.
Arguments training {Θ G} _.
Arguments mdev {Θ G} _.

(** The state of the autograd graph built by the generator's forward
    pass of the current iteration. *)
Inductive tape : Type := NoGraph | Live | Freed.

#[export] Instance tape_eq_dec : EqDecision tape.
Proof. solve_decision. Defined.

Section gan.
Context {R Rng : Type} `{Scalar R, Random Rng, Models R, UtilOps R Rng}.
Context {AG : Autograd R gen_params} {AD : Autograd R dis_params}.

Abbreviation gen_grad := (@grad_t R gen_params AG).
Abbreviation dis_grad := (@grad_t R dis_params AD).
Abbreviation gen_opt := (@opt_t R gen_params AG).
Abbreviation dis_opt := (@opt_t R dis_params AD).

Record GAN : Type := MkGAN {
  device : torch_device;
  dtype : torch_dtype;
  gen : nn_module gen_params gen_grad;
  dis : nn_module dis_params dis_grad;
  num_epochs : nat;
  batch_size : nat;
  lr : Q;
  beta1 : Q;
  beta2 : Q;
  l1_loss_alpha : nat;
  real_label : Z;
  fake_label : Z;
  optimizerD : dis_opt;
  optimizerG : gen_opt;
}.

(** What [train_gan] writes to the terminal and hands to
    [visual_ops.plot_losses]. *)
Inductive event : Type :=
  | Print (epoch total_epochs iteration : nat) (g_loss d_loss : R)
  | PlotLosses (G_losses D_losses : list R).

Record frame : Type := Frame {
  G_losses : list R;
  D_losses : list R;
  iters : nat;
}.

Record world : Type := World {
  self : GAN;
  locals : frame;
  rng : Rng;
  graph : tape;
  stdout : list event;
}.

(** *** Field updates *)

Definition set_grads {Θ G} (g : option G) (m : nn_module Θ G) : nn_module Θ G :=
  NnModule (params m) g (training m) (mdev m).
Definition set_params {Θ G} (θ : Θ) (m : nn_module Θ G) : nn_module Θ G :=
  NnModule θ (grads m) (training m) (mdev m).
Definition set_training {Θ G} (b : bool) (m : nn_module Θ G) : nn_module Θ G :=
  NnModule (params m) (grads m) b (mdev m).

Definition set_gen (m : nn_module gen_params gen_grad) (s : GAN) : GAN :=
  MkGAN (device s) (dtype s) m (dis s) (num_epochs s) (batch_size s) (lr s)
    (beta1 s) (beta2 s) (l1_loss_alpha s) (real_label s) (fake_label s)
    (optimizerD s) (optimizerG s).
Definition set_dis (m : nn_module dis_params dis_grad) (s : GAN) : GAN :=
  MkGAN (device s) (dtype s) (gen s) m (num_epochs s) (batch_size s) (lr s)
    (beta1 s) (beta2 s) (l1_loss_alpha s) (real_label s) (fake_label s)
    (optimizerD s) (optimizerG s).
Definition set_optimizerD (o : dis_opt) (s : GAN) : GAN :=
  MkGAN (device s) (dtype s) (gen s) (dis s) (num_epochs s) (batch_size s)
    (lr s) (beta1 s) (beta2 s) (l1_loss_alpha s) (real_label s)
    (fake_label s) o (optimizerG s).
Definition set_optimizerG (o : gen_opt) (s : GAN) : GAN :=
  MkGAN (device s) (dtype s) (gen s) (dis s) (num_epochs s) (batch_size s)
    (lr s) (beta1 s) (beta2 s) (l1_loss_alpha s) (real_label s)
    (fake_label s) (optimizerD s) o.

Definition set_self (s : GAN) (w : world) : world :=
  World s (locals w) (rng w) (graph w) (stdout w).
Definition set_locals (l : frame) (w : world) : world :=
  World (self w) l (rng w) (graph w) (stdout w).
Definition set_rng (g : Rng) (w : world) : world :=
  World (self w) (locals w) g (graph w) (stdout w).
Definition set_graph (t : tape) (w : world) : world :=
  World (self w) (locals w) (rng w) t (stdout w).
Definition emit (e : event) : stx world unit :=
  modify (λ w, World (self w) (locals w) (rng w) (graph w) (stdout w ++ [e])).

(** A computation on the random number generator, run in the world. *)
Definition with_rng {A} (m : stx Rng A) : stx world A := zoom rng set_rng m.

(** ** [GAN.__init__] (lines 14-35)

    [θg] and [θd] are the parameters [Generator()] and
    [Discriminator()] start from. *)
Definition GAN_init (dv : torch_device) (θg : gen_params) (θd : dis_params) : GAN :=
  let lr := (1 # 10000)%Q in
  let beta1 := (1 # 2)%Q in
  let beta2 := (999 # 1000)%Q in
  {| device := dv;
     dtype := Float32;
     gen := NnModule θg None true dv;
     dis := NnModule θd None true dv;
     num_epochs := 10;
     batch_size := 4;
     lr := lr;
     beta1 := beta1;
     beta2 := beta2;
     l1_loss_alpha := 1;
     real_label := 1;
     fake_label := -1;
     optimizerD := adam_new lr (beta1, beta2);
     optimizerG := adam_new lr (beta1, beta2) |}.

(** ** The forward computations of one iteration *)

(** [self.gen(xin, mask)]: the inputs must be on the module's device. *)
Definition call_gen (s : GAN) (xin mask : tensor R) :
    result (tensor R * tensor R * tensor R) :=
  _ ← guard_ok (bool_decide (dev xin = mdev (gen s) ∧ dev mask = mdev (gen s)))
               (RuntimeError DeviceMismatch);
  gen_forward (training (gen s)) (params (gen s)) xin mask.

(** [self.dis(x)] *)
Definition call_dis (s : GAN) (x : tensor R) : result (tensor R) :=
  _ ← guard_ok (bool_decide (dev x = mdev (dis s)))
               (RuntimeError DeviceMismatch);
  dis_forward (training (dis s)) (params (dis s)) x.

(** Line 53: [(batch_real * (torch.tensor(1., device=self.device) -
    mask)).to(self.device)] *)
Definition erase (s : GAN) (batch_real mask : tensor R) : result (tensor R) :=
  keep ← sub (scalar_tensor 1%sc (device s)) mask;
  batch_incomplete ← mul batch_real keep;
  Ok (to (device s) batch_incomplete).

(** Line 60: [(batch_predicted * mask + batch_incomplete *
    (torch.tensor(1.) - mask)).to(self.device)] *)
Definition composite (s : GAN) (batch_predicted mask batch_incomplete : tensor R) :
    result (tensor R) :=
  filled ← mul batch_predicted mask;
  keep ← sub (scalar_tensor 1%sc Cpu) mask;
  known ← mul batch_incomplete keep;
  batch_fake ← add filled known;
  Ok (to (device s) batch_fake).

(** Lines 61-62: the real and the fake images, one after the other,
    each with the mask as an extra channel. *)
Definition mix (s : GAN) (batch_real batch_fake mask : tensor R) : result (tensor R) :=
  batch_mixed ← cat [batch_real; batch_fake] 0;
  let batch_mixed := to (device s) batch_mixed in
  masks ← cat (replicate (batch_size s * 2) mask) 0;
  batch_mixed ← cat [batch_mixed; masks] 1;
  Ok (to (device s) batch_mixed).

(** Tuple unpacking [a, b = parts]. *)
Definition unpack2 {A} (parts : list A) : result (A * A) :=
  match parts with
  | [a; b] => Ok (a, b)
  | _ => Err ValueError
  end.

(** Lines 64-66: the discriminator's hinge loss. *)
Definition dis_loss (s : GAN) (batch_mixed : tensor R) : result (tensor R) :=
  labels_mixed ← call_dis s batch_mixed;
  n ← size0 labels_mixed;
  parts ← split labels_mixed (n / 2);
  '(labels_pos, labels_neg) ← unpack2 parts;
  '(_, d_loss) ← gan_hinge_loss labels_pos labels_neg (device s);
  Ok d_loss.

(** Lines 73-74: the L1 reconstruction loss of both generator stages. *)
Definition l1 (s : GAN) (batch_real x1 x2 : tensor R) : result (tensor R) :=
  d1 ← sub batch_real x1;
  d2 ← sub batch_real x2;
  both ← add (mean (abs d1)) (mean (abs d2));
  Ok (smul (sc_of_nat (l1_loss_alpha s)) both).

(** Lines 77-79: the generator's adversarial loss, from the
    discriminator's scores of the fake images alone. *)
Definition adv_loss (s : GAN) (batch_fake mask : tensor R) : result (tensor R) :=
  masks ← cat (replicate (batch_size s) mask) 0;
  batch_fake ← cat [batch_fake; masks] 1;
  labels_neg ← call_dis s batch_fake;
  Ok (neg (mean labels_neg)).

(** *** The losses as functions of the parameters

    [with_params s θg θd] is the object with other parameters;
    [d_loss_of] and [g_loss_of] are the forward computations of lines
    58-66 and 58-83 from the erased batch to the number that is
    differentiated, and [d_loss_fn] and [g_loss_fn] are these as
    functions of the two parameter sets. *)
Definition with_params (s : GAN) (θg : gen_params) (θd : dis_params) : GAN :=
  set_gen (set_params θg (gen s)) (set_dis (set_params θd (dis s)) s).

Definition d_loss_of (s : GAN) (batch_real mask xin : tensor R) : result R :=
  '(_, x2, _) ← call_gen s xin mask;
  batch_fake ← composite s x2 mask xin;
  batch_mixed ← mix s batch_real batch_fake mask;
  d_loss ← dis_loss s batch_mixed;
  item d_loss.

Definition g_loss_of (s : GAN) (batch_real mask xin : tensor R) : result R :=
  '(x1, x2, _) ← call_gen s xin mask;
  batch_fake ← composite s x2 mask xin;
  l1_loss ← l1 s batch_real x1 x2;
  g_loss ← adv_loss s batch_fake mask;
  total ← add (to (device s) g_loss) l1_loss;
  item total.

Definition d_loss_fn (s : GAN) (batch_real mask xin : tensor R)
    (θg : gen_params) (θd : dis_params) : result R :=
  d_loss_of (with_params s θg θd) batch_real mask xin.

Definition g_loss_fn (s : GAN) (batch_real mask xin : tensor R)
    (θg : gen_params) (θd : dis_params) : result R :=
  g_loss_of (with_params s θg θd) batch_real mask xin.

(** ** The state-changing operations *)

(** A method that only changes the object. *)
Definition modify_self (f : GAN → GAN) : stx world unit :=
  modify (λ w, set_self (f (self w)) w).

(** [self.dis.zero_grad()], [self.gen.zero_grad()] *)
Definition zero_dis (s : GAN) : GAN := set_dis (set_grads None (dis s)) s.
Definition zero_gen (s : GAN) : GAN := set_gen (set_grads None (gen s)) s.
Definition dis_zero_grad : stx world unit := modify_self zero_dis.
Definition gen_zero_grad : stx world unit := modify_self zero_gen.

(** [self.gen.train()], [self.dis.train()] *)
Definition gen_train : stx world unit :=
  modify_self (λ s, set_gen (set_training true (gen s)) s).
Definition dis_train : stx world unit :=
  modify_self (λ s, set_dis (set_training true (dis s)) s).

(** Adding a gradient to a [.grad] buffer. *)
Definition accumulate {Θ} `{Autograd R Θ} (g : grad_t) (old : option grad_t) :
    option grad_t :=
  match old with
  | None => Some g
  | Some a => Some (grad_add a g)
  end.

(** What [loss.backward()] does to the object for the loss [L]: both
    networks receive the gradient of [L] at the current parameters. *)
Definition accumulate_grads (L : gen_params → dis_params → result R) (s : GAN) : GAN :=
  let θg := params (gen s) in
  let θd := params (dis s) in
  let gg := derive (λ θ, L θ θd) θg in
  let gd := derive (λ θ, L θg θ) θd in
  set_dis (set_grads (accumulate gd (grads (dis s))) (dis s))
    (set_gen (set_grads (accumulate gg (grads (gen s))) (gen s)) s).

(** [loss.backward(retain_graph=retain)], for the tensor [loss] and
    the function [L] it is the value of: only a tensor of one element
    can be differentiated without an explicit gradient; the graph is
    freed unless retained, and a freed graph cannot be traversed
    again. *)
Definition backward (retain : bool) (loss : tensor R)
    (L : gen_params → dis_params → result R) : stx world unit :=
  _ ← lift (guard_ok (bool_decide (length (data loss) = 1))
              (RuntimeError NotScalar));
  w ← get;
  match graph w with
  | Live =>
      put (set_graph (if retain then Live else Freed)
             (set_self (accumulate_grads L (self w)) w))
  | Freed => raise (RuntimeError FreedGraph)
  | NoGraph => raise (RuntimeError NoGradFn)
  end.

(** [self.optimizerD.step()], [self.optimizerG.step()]: a network
    whose [.grad] buffer is empty is left alone. *)
Definition stepD (s : GAN) : GAN :=
  match grads (dis s) with
  | None => s
  | Some g =>
      let r := adam_step (optimizerD s) (params (dis s)) g in
      set_optimizerD r.1 (set_dis (set_params r.2 (dis s)) s)
  end.
Definition stepG (s : GAN) : GAN :=
  match grads (gen s) with
  | None => s
  | Some g =>
      let r := adam_step (optimizerG s) (params (gen s)) g in
      set_optimizerG r.1 (set_gen (set_params r.2 (gen s)) s)
  end.
Definition optimizerD_step : stx world unit := modify_self stepD.
Definition optimizerG_step : stx world unit := modify_self stepG.

Definition append_D (x : R) : stx world unit :=
  modify (λ w, let l := locals w in
               set_locals (Frame (G_losses l) (D_losses l ++ [x]) (iters l)) w).
Definition append_G (x : R) : stx world unit :=
  modify (λ w, let l := locals w in
               set_locals (Frame (G_losses l ++ [x]) (D_losses l) (iters l)) w).
Definition incr_iters : stx world unit :=
  modify (λ w, let l := locals w in
               set_locals (Frame (G_losses l) (D_losses l) (iters l + 1)) w).

(** [random.choice(l)] *)
Definition random_choice {A} (l : list A) : stx Rng A :=
  i ← pure_st (rand_below (length l));
  lift (of_option (l !! i) IndexError).

(** ** [GAN.train_gan] (lines 37-91) *)

(** Lines 49-52: a rectangular and a free-form mask are drawn and one
    of the two is chosen and moved to [dv]. *)
Definition draw_mask (dv : torch_device) : stx Rng (tensor R) :=
  bb ← pure_st random_bbox;
  let regular_mask := bbox2mask bb in
  irregular_mask ← pure_st brush_stroke_mask;
  m ← random_choice [regular_mask; irregular_mask];
  mret (to dv m).

(** Lines 61-70: the discriminator scores the real and the fake
    images, its loss is recorded and differentiated (keeping the
    graph) and its optimizer steps.  Returns [d_loss]. *)
Definition discriminator_step (batch_real mask xin batch_fake : tensor R) :
    stx world (tensor R) :=
  s ← gets self;
  (* 61-62 *)
  batch_mixed ← lift (mix s batch_real batch_fake mask);
  (* 64-67 *)
  d_loss ← lift (dis_loss s batch_mixed);
  (* 68 *)
  d ← lift (item d_loss);
  _ ← append_D d;
  (* 69-70 *)
  _ ← backward true d_loss (d_loss_fn s batch_real mask xin);
  _ ← optimizerD_step;
  mret d_loss.

(** Lines 72-85: the generator's gradients are cleared, its
    adversarial loss (against the updated discriminator) is recorded,
    the L1 loss is added, the sum is differentiated and its optimizer
    steps.  Returns the adversarial loss. *)
Definition generator_step (batch_real mask xin x1 x2 batch_fake : tensor R) :
    stx world (tensor R) :=
  (* 72 *)
  _ ← gen_zero_grad;
  s ← gets self;
  (* 73-75 *)
  l1_loss ← lift (l1 s batch_real x1 x2);
  (* 77-80 *)
  gen_loss ← lift (adv_loss s batch_fake mask);
  (* 81 *)
  let g_loss := to (device s) gen_loss in
  (* 82 *)
  g ← lift (item g_loss);
  _ ← append_G g;
  (* 83 *)
  g_loss ← lift (add g_loss l1_loss);
  (* 84-85 *)
  _ ← backward false g_loss (g_loss_fn s batch_real mask xin);
  _ ← optimizerG_step;
  mret gen_loss.

(** The body of the batch loop, lines 47-89. *)
Definition train_batch (epoch : nat) (batch_data : list (tensor R)) : stx world unit :=
  s ← gets self;
  (* 48 *)
  b0 ← lift (of_option (batch_data !! 0) IndexError);
  let batch_real := to (device s) b0 in
  (* 49-52 *)
  mask ← with_rng (draw_mask (device s));
  (* 53-54 *)
  batch_incomplete ← lift (erase s batch_real mask);
  let xin := batch_incomplete in
  (* 56 *)
  _ ← dis_zero_grad;
  (* 58-59 *)
  '(x1, x2, _) ← lift (call_gen s xin mask);
  _ ← modify (set_graph Live);
  let batch_predicted := x2 in
  (* 60 *)
  batch_fake ← lift (composite s batch_predicted mask batch_incomplete);
  (* 61-70 *)
  dis_loss ← discriminator_step batch_real mask xin batch_fake;
  (* 72-85 *)
  gen_loss ← generator_step batch_real mask xin x1 x2 batch_fake;
  (* 87-88 *)
  gl ← lift (item gen_loss);
  dl ← lift (item dis_loss);
  l ← gets locals;
  _ ← emit (Print (epoch + 1) (num_epochs s) (iters l + 1) gl dl);
  (* 89 *)
  incr_iters.

(** One pass over the dataloader, lines 46-89. *)
Definition train_epoch (dl : dataloader R Rng) (epoch : nat) : stx world unit :=
  batches ← with_rng (dl_iter dl);
  for_ batches (λ idxs,
    batch_data ← with_rng (dl_fetch dl idxs);
    train_batch epoch batch_data).

Definition train_gan (ds : dataset R Rng) : stx world unit :=
  s ← gets self;
  (* 39 *)
  dl ← lift (DataLoader ds (batch_size s) true);
  (* 40-42 *)
  _ ← modify (set_locals (Frame [] [] 0));
  (* 43-44 *)
  _ ← gen_train;
  _ ← dis_train;
  (* 45-89 *)
  _ ← for_ (seq 0 (num_epochs s)) (train_epoch dl);
  (* 91 *)
  l ← gets locals;
  emit (PlotLosses (G_losses l) (D_losses l)).

(** ** [GAN.inpaint_image] (lines 94-97) *)
Definition inpaint_image (s : GAN) (image mask : tensor R) : result (tensor R) :=
  keep ← sub (scalar_tensor 1%sc Cpu) mask;
  image_incomplete ← mul image keep;
  '(_, prediction, _) ← call_gen s image_incomplete mask;
  Ok prediction.
End gan.

(** ** Specifications *)

Section gan_spec.
Context {R Rng : Type} `{Scalar R, Random Rng, Models R, UtilOps R Rng}.
Context {AG : Autograd R gen_params} {AD : Autograd R dis_params}.
Implicit Types (s : GAN) (w : world (Rng := Rng)) (t : tensor R).

(** The shape of a batch of [b] images. *)
Definition img_shape (b : nat) : list nat := [b; img_channels; img_h; img_w].

(** [is_images dv b t]: [t] is a well-formed batch of [b] images on
    device [dv]. *)
Definition is_images (dv : torch_device) (b : nat) t : Prop :=
  shape t = img_shape b ∧ dev t = dv ∧ wf t.

(** The data of line 60: the prediction where the mask is set, the
    erased input elsewhere; the mask is repeated [k] times. *)
Definition blend_data (k : nat) (pred inc mask : list R) : list R :=
  zip_with sc_add
    (zip_with sc_mul pred (tile k mask))
    (zip_with sc_mul inc (tile k (sc_sub 1%sc <$> mask))).

(** The data of line 53. *)
Definition erase_data (k : nat) (real mask : list R) : list R :=
  zip_with sc_mul real (tile k (sc_sub 1%sc <$> mask)).

(** The object is consistent: both networks are on [self.device] and
    the batch size is positive. *)
Definition gan_wf s : Prop :=
  mdev (gen s) = device s ∧ mdev (dis s) = device s ∧ 0 < batch_size s.
End gan_spec.

(** ** Lemmas: the forward computations *)

Section forward_lemmas.
Context {R Rng : Type} `{Scalar R, Random Rng, Models R, UtilOps R Rng}.
Context {AG : Autograd R gen_params} {AD : Autograd R dis_params}.
Context `{!ModelsOk R, !UtilOpsOk R Rng}.
Implicit Types (s : GAN) (t mask : tensor R) (b : nat).

Lemma img_shape_split b :
  img_shape b = [b; img_channels] ++ [img_h; img_w].
Proof. done. Qed.

Lemma mask_shape_split mask :
  is_mask img_h img_w mask →
  shape mask = replicate (length [0; img_channels]) 1 ++ [img_h; img_w].
Proof. by intros (-> & _). Qed.

(** The complement [1 - mask], whichever device the [1] is on. *)
Lemma keep_Ok mask dv :
  wf mask → dv = Cpu ∨ dv = dev mask →
  sub (scalar_tensor 1%sc dv) mask =
    Ok (Tensor (shape mask) (sc_sub 1%sc <$> data mask) (dev mask)).
Proof. intros. by apply binop_scalar_l. Qed.

(** Line 53 succeeds on a batch of images and a mask on
    [self.device], and erases elementwise. *)
Lemma erase_Ok s batch_real mask b :
  is_images (device s) b batch_real → is_mask img_h img_w mask →
  dev mask = device s →
  erase s batch_real mask =
    Ok (Tensor (img_shape b)
          (erase_data (b * img_channels) (data batch_real) (data mask))
          (device s)).
Proof.
  intros (Hs & Hd & Hw) Hm Hdm. unfold erase.
  rewrite keep_Ok by (destruct Hm as (_ & ? & _); auto). simpl. unfold mul.
  destruct Hm as (Hsm & Hwm & _).
  rewrite (binop_leading_r _ batch_real _ [b; img_channels] [img_h; img_w]).
  - simpl. unfold to, erase_data. simpl.
    by rewrite Hs, !numel_cons, numel_nil, Nat.mul_1_r.
  - done.
  - by apply (unop_wf (sc_sub 1%sc) mask).
  - exact Hs.
  - exact Hsm.
  - simpl. congruence.
Qed.

Lemma is_images_length dv b t :
  is_images dv b t → length (data t) = b * img_channels * (img_h * img_w).
Proof.
  intros (Hs & _ & Hw). unfold wf in Hw.
  rewrite Hw, Hs. unfold img_shape. rewrite !numel_cons, numel_nil. lia.
Qed.

Lemma length_erase_data k (real mask : list R) :
  length real = k * length mask → length (erase_data k real mask) = length real.
Proof.
  intros Hl. unfold erase_data.
  rewrite length_zip_with, length_tile, length_fmap. lia.
Qed.

Lemma length_blend_data k (pred inc mask : list R) :
  length pred = k * length mask → length inc = k * length mask →
  length (blend_data k pred inc mask) = k * length mask.
Proof.
  intros Hp Hi. unfold blend_data.
  rewrite !length_zip_with, !length_tile, length_fmap. lia.
Qed.

(** The erased batch is again a batch of images. *)
Lemma erase_images s batch_real mask b :
  is_images (device s) b batch_real → is_mask img_h img_w mask →
  dev mask = device s →
  ∃ xin, erase s batch_real mask = Ok xin ∧ is_images (device s) b xin
         ∧ data xin = erase_data (b * img_channels) (data batch_real) (data mask).
Proof.
  intros Hi Hm Hdm. eexists. split; [by apply erase_Ok|].
  split; [|done]. split; [done|]. split; [done|].
  unfold wf. simpl. rewrite length_erase_data.
  - rewrite (is_images_length _ _ _ Hi). unfold img_shape.
    rewrite !numel_cons, numel_nil. lia.
  - by rewrite (is_images_length _ _ _ Hi), (is_mask_length _ _ _ Hm).
Qed.

(** Line 60 succeeds on a prediction and an erased batch of the same
    shape, and blends elementwise. *)
Lemma composite_Ok s pred mask xin b :
  is_images (device s) b pred → is_images (device s) b xin →
  is_mask img_h img_w mask → dev mask = device s →
  ∃ batch_fake,
    composite s pred mask xin = Ok batch_fake
    ∧ is_images (device s) b batch_fake
    ∧ data batch_fake =
        blend_data (b * img_channels) (data pred) (data xin) (data mask).
Proof.
  intros Hp Hx Hm Hdm.
  pose proof (is_images_length _ _ _ Hp) as Hlp.
  pose proof (is_images_length _ _ _ Hx) as Hlx.
  pose proof (is_mask_length _ _ _ Hm) as Hlm.
  destruct Hp as (Hsp & Hdp & Hwp), Hx as (Hsx & Hdx & Hwx),
    Hm as (Hsm & Hwm & _).
  unfold composite, mul.
  rewrite (binop_leading_r _ pred _ [b; img_channels] [img_h; img_w]);
    [|done|done|exact Hsp|exact Hsm|congruence].
  simpl. rewrite keep_Ok by auto. simpl.
  rewrite (binop_leading_r _ xin _ [b; img_channels] [img_h; img_w]);
    [|done|by apply (unop_wf (sc_sub 1%sc) mask)|exact Hsx|exact Hsm
     |simpl; congruence].
  simpl. unfold add. rewrite binop_same_shape.
  - simpl. eexists. split; [done|]. unfold to. simpl.
    rewrite !numel_cons, numel_nil, Nat.mul_1_r.
    split; [|done]. split; [done|]. split; [done|].
    unfold wf. simpl. fold (blend_data (b * img_channels) (data pred)
                              (data xin) (data mask)).
    rewrite length_blend_data by lia. rewrite Hsp. unfold img_shape.
    rewrite !numel_cons, numel_nil. lia.
  - unfold wf. simpl. rewrite length_zip_with, length_tile, Hwp, Hsp.
    unfold img_shape. rewrite !numel_cons, numel_nil. lia.
  - unfold wf. simpl. rewrite length_zip_with, length_tile, length_fmap, Hwx, Hsx.
    unfold img_shape. rewrite !numel_cons, numel_nil. lia.
  - simpl. congruence.
  - simpl. congruence.
Qed.

(** Lines 61-62 succeed when the batch holds [batch_size] images. *)
Lemma mix_Ok s batch_real batch_fake mask :
  gan_wf s →
  is_images (device s) (batch_size s) batch_real →
  is_images (device s) (batch_size s) batch_fake →
  is_mask img_h img_w mask → dev mask = device s →
  ∃ bm, mix s batch_real batch_fake mask = Ok bm
        ∧ shape bm = [2 * batch_size s; S img_channels; img_h; img_w]
        ∧ dev bm = device s ∧ wf bm.
Proof.
  intros (_ & _ & Hbs) (Hsr & Hdr & Hwr) (Hsf & Hdf & Hwf) (Hsm & Hwm & _) Hdm.
  unfold mix.
  rewrite (cat_pair_dim0 _ _ _ (device s) _ _ Hsr Hsf) by done. simpl.
  rewrite (cat_replicate_dim0 _ 1 [1; img_h; img_w]) by (done || lia). simpl.
  match goal with |- context [cat [?a; ?b] 1] =>
    destruct (cat_pair_dim1 (2 * batch_size s) img_channels 1 [img_h; img_w]
                (device s) a b) as (r & -> & Hr & Hdv & Hw)
  end.
  - simpl. f_equal. lia.
  - simpl. f_equal. lia.
  - done.
  - done.
  - apply (to_wf (device s) (Tensor _ _ (device s))).
    by apply (wf_cat_pair_dim0 _ _ _ _ _ _ Hsr Hsf).
  - by apply wf_tile.
  - simpl. eexists. split; [done|]. unfold to, wf in *. simpl.
    rewrite <-Hw, Hr, Nat.add_1_r. by repeat split.
Qed.

(** The data of [batch_mixed]: for each of the [2 * batch_size]
    images, its channels and then the mask. *)
Lemma mix_data s batch_real batch_fake mask bm :
  gan_wf s →
  is_images (device s) (batch_size s) batch_real →
  is_images (device s) (batch_size s) batch_fake →
  is_mask img_h img_w mask → dev mask = device s →
  mix s batch_real batch_fake mask = Ok bm →
  data bm = o ← seq 0 (2 * batch_size s);
            slab o (img_channels * (img_h * img_w))
              (data batch_real ++ data batch_fake) ++ data mask.
Proof.
  intros (_ & _ & Hbs) (Hsr & Hdr & Hwr) (Hsf & Hdf & Hwf) Hm Hdm.
  pose proof (is_mask_length _ _ _ Hm) as Hlm. destruct Hm as (Hsm & Hwm & _).
  unfold mix.
  rewrite (cat_pair_dim0 _ _ _ (device s) _ _ Hsr Hsf) by done. simpl.
  rewrite (cat_replicate_dim0 _ 1 [1; img_h; img_w]) by (done || lia). simpl.
  destruct (cat _ 1) as [r|] eqn:Hc; [|done]. intros [= <-].
  apply (cat_pair_dim1_data (2 * batch_size s) img_channels 1 [img_h; img_w]
           (device s)) in Hc; [|simpl; f_equal; lia..|done|done| |by apply wf_tile].
  - cbn [to data] in *. rewrite Hc. apply bind_ext_elem.
    intros o Ho%elem_of_seq.
    rewrite !numel_cons, numel_nil, !Nat.mul_1_r, Nat.mul_1_l. f_equal.
    rewrite <-Hlm. apply slab_tile. lia.
  - apply (to_wf (device s) (Tensor _ _ (device s))).
    by apply (wf_cat_pair_dim0 _ _ _ _ _ _ Hsr Hsf).
Qed.

(** Line 62 raises when the batch holds another number of images:
    the masks are repeated [batch_size * 2] times whatever the batch. *)
Lemma mix_Err s batch_real batch_fake mask b :
  gan_wf s → b ≠ batch_size s →
  is_images (device s) b batch_real → is_images (device s) b batch_fake →
  is_mask img_h img_w mask → dev mask = device s →
  mix s batch_real batch_fake mask = Err (RuntimeError SizeMismatch).
Proof.
  intros (_ & _ & Hbs) Hne (Hsr & Hdr & Hwr) (Hsf & Hdf & Hwf)
    (Hsm & Hwm & _) Hdm.
  unfold mix.
  rewrite (cat_pair_dim0 _ _ _ (device s) _ _ Hsr Hsf) by done. simpl.
  rewrite (cat_replicate_dim0 _ 1 [1; img_h; img_w]) by (done || lia). simpl.
  by rewrite (cat_pair_dim1_mismatch (b + b) (batch_size s * 2 * 1)
                [img_channels; img_h; img_w] [1; img_h; img_w])
    by (done || lia).
Qed.

Lemma call_dis_Ok s x n :
  gan_wf s → shape x = [n; S img_channels; img_h; img_w] →
  dev x = device s → wf x →
  ∃ y, call_dis s x = Ok y
       ∧ shape y = n :: dis_out ∧ dev y = device s ∧ wf y.
Proof.
  intros (_ & Hd & _) Hs Hdx Hw. unfold call_dis.
  rewrite bool_decide_eq_true_2 by congruence. simpl.
  destruct (dis_forward_ok (training (dis s)) (params (dis s)) x n Hs Hw)
    as (y & -> & ? & ? & ?).
  exists y. repeat split; congruence.
Qed.

Lemma call_gen_Ok s xin mask b :
  gan_wf s → is_images (device s) b xin →
  is_mask img_h img_w mask → dev mask = device s →
  ∃ x1 x2 x3, call_gen s xin mask = Ok (x1, x2, x3)
              ∧ is_images (device s) b x1 ∧ is_images (device s) b x2.
Proof.
  intros (Hg & _ & _) (Hs & Hd & Hw) (Hsm & Hwm & _) Hdm. unfold call_gen.
  rewrite bool_decide_eq_true_2 by (split; congruence). simpl.
  destruct (gen_forward_ok (training (gen s)) (params (gen s)) xin mask b)
    as (x1 & x2 & x3 & -> & (? & ? & ?) & (? & ? & ?)); [done..|congruence|].
  exists x1, x2, x3. repeat split; congruence.
Qed.

(** The two halves of the discriminator's scores are scored by the
    hinge loss. *)
Lemma dis_loss_Ok s bm b :
  gan_wf s → 0 < b →
  shape bm = [2 * b; S img_channels; img_h; img_w] →
  dev bm = device s → wf bm →
  ∃ d, dis_loss s bm = Ok d ∧ is_loss (device s) d.
Proof.
  intros Hgw Hb Hs Hd Hw. unfold dis_loss.
  destruct (call_dis_Ok s bm (2 * b)) as (y & -> & Hsy & Hdy & Hwy); [done..|].
  destruct y as [shy dy dvy]. cbn [shape dev] in Hsy, Hdy. subst shy dvy.
  cbn -[Nat.mul Nat.div]. replace (2 * b / 2) with b
    by (by rewrite Nat.mul_comm, Nat.div_mul).
  rewrite split_halves by done. cbn -[Nat.mul].
  unfold wf in Hwy. cbn -[Nat.mul] in Hwy. rewrite numel_cons in Hwy.
  destruct (gan_hinge_loss_ok
              (Tensor (b :: dis_out) (take (b * numel dis_out) dy) (device s))
              (Tensor (b :: dis_out) (drop (b * numel dis_out) dy) (device s))
              (device s)) as (gl & dl & -> & _ & Hdl); [..|done|done|done|].
  - unfold wf. simpl. rewrite length_take, numel_cons. lia.
  - unfold wf. simpl. rewrite length_drop, numel_cons. lia.
  - by exists dl.
Qed.

(** Lines 73-74 succeed when both generator outputs have the shape of
    the batch. *)
Lemma l1_Ok s batch_real x1 x2 b :
  is_images (device s) b batch_real →
  is_images (device s) b x1 → is_images (device s) b x2 →
  ∃ l, l1 s batch_real x1 x2 = Ok l ∧ is_loss (device s) l.
Proof.
  intros (Hsr & Hdr & Hwr) (Hs1 & Hd1 & Hw1) (Hs2 & Hd2 & Hw2).
  unfold l1, sub.
  rewrite !binop_same_shape by congruence. simpl.
  unfold add, mean, abs, unop. simpl. rewrite binop_scalars. simpl.
  eexists. split; [done|]. by repeat split.
Qed.

(** Lines 77-79 succeed when the batch holds [batch_size] images. *)
Lemma adv_loss_Ok s batch_fake mask :
  gan_wf s → is_images (device s) (batch_size s) batch_fake →
  is_mask img_h img_w mask → dev mask = device s →
  ∃ l, adv_loss s batch_fake mask = Ok l ∧ is_loss (device s) l.
Proof.
  intros Hgw (Hsf & Hdf & Hwf) (Hsm & Hwm & _) Hdm. unfold adv_loss.
  pose proof Hgw as (_ & _ & Hbs).
  rewrite (cat_replicate_dim0 _ 1 [1; img_h; img_w]) by done. simpl.
  match goal with |- context [cat [?a; ?b] 1] =>
    destruct (cat_pair_dim1 (batch_size s) img_channels 1 [img_h; img_w]
                (device s) a b) as (r & -> & Hr & Hdv & Hw)
  end; [done|simpl; f_equal; lia|done|done|done|by apply wf_tile|].
  simpl. rewrite Nat.add_1_r in Hr.
  destruct (call_dis_Ok s r (batch_size s)) as (y & -> & _ & Hdy & _);
    [done..|].
  simpl. eexists. split; [done|]. by repeat split.
Qed.
End forward_lemmas.

(** ** Lemmas: the masking arithmetic, element by element *)

Section pointwise_lemmas.
Context `{MaskLaws R}.
Implicit Types (pred inc real mask : list R).

(** The element of the mask that multiplies element [i] of a batch. *)
Lemma lookup_tile_mask k mask i m :
  i < k * length mask → mask !! (i `mod` length mask) = Some m →
  tile k mask !! i = Some m
  ∧ tile k (sc_sub 1%sc <$> mask) !! i = Some (1 - m)%sc.
Proof.
  intros Hi Hm. rewrite !lookup_tile by (by rewrite ?length_fmap).
  by rewrite length_fmap, list_lookup_fmap, Hm.
Qed.

Lemma erase_data_lookup k real mask i r m :
  i < k * length mask → real !! i = Some r →
  mask !! (i `mod` length mask) = Some m →
  erase_data k real mask !! i = Some (r * (1 - m))%sc.
Proof.
  intros Hi Hr Hm. destruct (lookup_tile_mask k mask i m Hi Hm) as [_ Hk].
  unfold erase_data. by rewrite lookup_zip_with, Hr, Hk.
Qed.

Lemma blend_data_lookup k pred inc mask i p x m :
  i < k * length mask → pred !! i = Some p → inc !! i = Some x →
  mask !! (i `mod` length mask) = Some m →
  blend_data k pred inc mask !! i = Some (p * m + x * (1 - m))%sc.
Proof.
  intros Hi Hp Hx Hm. destruct (lookup_tile_mask k mask i m Hi Hm) as [Hk1 Hk2].
  unfold blend_data. by rewrite !lookup_zip_with, Hp, Hx, Hk1, Hk2.
Qed.

(** Erasing forgets what was under the mask: batches that agree off
    the mask are erased to the same data. *)
Lemma erase_data_ext k real real' mask :
  length real = k * length mask → length real' = k * length mask →
  Forall is_binary mask →
  (∀ i m, mask !! (i `mod` length mask) = Some m → m ≠ 1%sc →
          real !! i = real' !! i) →
  erase_data k real mask = erase_data k real' mask.
Proof.
  intros Hl Hl' Hbin Hagree. apply list_eq. intros i.
  destruct (decide (i < k * length mask)) as [Hi|Hi].
  - destruct (lookup_lt_is_Some_2 real i) as [r Hr]; [lia|].
    destruct (lookup_lt_is_Some_2 real' i) as [r' Hr']; [lia|].
    destruct (lookup_lt_is_Some_2 mask (i `mod` length mask)) as [m Hm];
      [apply Nat.mod_upper_bound; lia|].
    rewrite (erase_data_lookup k real mask i r m), (erase_data_lookup k real' mask i r' m)
      by done.
    rewrite !erase_binary by (by apply (Forall_lookup_1 _ _ _ _ Hbin Hm)).
    case_decide; [done|]. specialize (Hagree i m Hm). naive_solver congruence.
  - rewrite !lookup_ge_None_2; [done|..];
      unfold erase_data; rewrite length_zip_with, length_tile, length_fmap; lia.
Qed.
End pointwise_lemmas.

(** ** The configuration of an object, and two equivalences

    The configuration of an object is everything in it but the
    parameters, the [.grad] buffers and the optimizers: the
    hyperparameters, the devices, the training flags.  The forward
    computations read the configuration and the parameters, and nothing
    else.  [cfg_equiv] relates objects with the same configuration,
    [fwd_equiv] objects that in addition have the same parameters; the
    forward computations respect [fwd_equiv] and the state-changing
    operations stay within [cfg_equiv]. *)

Section gan_config.
Context {R Rng : Type} `{Scalar R, Random Rng, Models R, UtilOps R Rng}.
Context {AG : Autograd R gen_params} {AD : Autograd R dis_params}.
Implicit Types (s : GAN).

Record config : Type := Config {
  c_device : torch_device;
  c_batch_size : nat;
  c_num_epochs : nat;
  c_l1_loss_alpha : nat;
  c_gen_dev : torch_device;
  c_dis_dev : torch_device;
  c_gen_training : bool;
  c_dis_training : bool;
  c_dtype : torch_dtype;
  c_adam : Q * Q * Q;
  c_labels : Z * Z;
}.

Definition config_of s : config :=
  Config (device s) (batch_size s) (num_epochs s) (l1_loss_alpha s)
    (mdev (gen s)) (mdev (dis s)) (training (gen s)) (training (dis s))
    (dtype s) (lr s, beta1 s, beta2 s) (real_label s, fake_label s).

Definition cfg_equiv s s' : Prop := config_of s = config_of s'.

Definition fwd_equiv s s' : Prop :=
  config_of s = config_of s'
  ∧ params (gen s) = params (gen s') ∧ params (dis s) = params (dis s').

#[export] Instance cfg_equiv_equivalence : Equivalence cfg_equiv.
Proof. unfold cfg_equiv. split; [by intros ?|by intros ??|by intros ??? -> ->]. Qed.

#[export] Instance fwd_equiv_equivalence : Equivalence fwd_equiv.
Proof.
  unfold fwd_equiv. split.
  - by intros ?.
  - by intros ?? (-> & -> & ->).
  - by intros ??? (-> & -> & ->) (-> & -> & ->).
Qed.

#[export] Instance fwd_cfg_subrelation : subrelation fwd_equiv cfg_equiv.
Proof. by intros s s' (? & _). Qed.
End gan_config.

Infix "≡c" := cfg_equiv (at level 70, no associativity).
Infix "≡f" := fwd_equiv (at level 70, no associativity).

(** Exposes the equal fields of two objects related by [≡c] or [≡f]:
    the objects are taken apart and the equal fields identified. *)
Ltac cfg_crush :=
  intros; unfold cfg_equiv, fwd_equiv, config_of in *; destruct_and?;
  repeat match goal with s : GAN |- _ => destruct s end;
  repeat match goal with m : nn_module _ _ |- _ => destruct m end;
  simpl in *;
  repeat match goal with
  | H : Config _ _ _ _ _ _ _ _ _ _ _ = Config _ _ _ _ _ _ _ _ _ _ _ |- _ =>
      injection H as ? ? ? ? ? ? ? ? ? ? ?
  end;
  subst; try done.

Section gan_config_lemmas.
Context {R Rng : Type} `{Scalar R, Random Rng, Models R, UtilOps R Rng}.
Context {AG : Autograd R gen_params} {AD : Autograd R dis_params}.
Implicit Types (s : GAN).

#[export] Instance device_proper : Proper (cfg_equiv ==> eq) device.
Proof. intros s s' Hs. exact (f_equal c_device Hs). Qed.

#[export] Instance batch_size_proper : Proper (cfg_equiv ==> eq) batch_size.
Proof. intros s s' Hs. exact (f_equal c_batch_size Hs). Qed.

#[export] Instance call_gen_proper : Proper (fwd_equiv ==> eq ==> eq ==> eq) call_gen.
Proof. intros s s' Hs ? xin -> ? mask ->. unfold call_gen. cfg_crush. Qed.

#[export] Instance call_dis_proper : Proper (fwd_equiv ==> eq ==> eq) call_dis.
Proof. intros s s' Hs ? x ->. unfold call_dis. cfg_crush. Qed.

#[export] Instance erase_proper : Proper (cfg_equiv ==> eq ==> eq ==> eq) erase.
Proof. intros s s' Hs ? x -> ? m ->. unfold erase. cfg_crush. Qed.

#[export] Instance composite_proper :
  Proper (cfg_equiv ==> eq ==> eq ==> eq ==> eq) composite.
Proof. intros s s' Hs ? p -> ? m -> ? x ->. unfold composite. cfg_crush. Qed.

#[export] Instance mix_proper : Proper (cfg_equiv ==> eq ==> eq ==> eq ==> eq) mix.
Proof. intros s s' Hs ? r -> ? f -> ? m ->. unfold mix. cfg_crush. Qed.

#[export] Instance dis_loss_proper : Proper (fwd_equiv ==> eq ==> eq) dis_loss.
Proof.
  intros s s' Hs ? x ->. unfold dis_loss.
  rewrite (call_dis_proper s s' Hs x x eq_refl). cfg_crush.
Qed.

#[export] Instance l1_proper : Proper (cfg_equiv ==> eq ==> eq ==> eq ==> eq) l1.
Proof. intros s s' Hs ? r -> ? a -> ? b ->. unfold l1. cfg_crush. Qed.

#[export] Instance adv_loss_proper : Proper (fwd_equiv ==> eq ==> eq ==> eq) adv_loss.
Proof.
  intros s s' Hs ? f -> ? m ->. unfold adv_loss.
  assert (call_dis s = call_dis s') as ->.
  { clear -Hs. unfold call_dis. cfg_crush. }
  cfg_crush.
Qed.

#[export] Instance with_params_proper :
  Proper (cfg_equiv ==> eq ==> eq ==> fwd_equiv) with_params.
Proof. intros s s' Hs ? θg -> ? θd ->. unfold with_params. cfg_crush. Qed.

#[export] Instance d_loss_of_proper :
  Proper (fwd_equiv ==> eq ==> eq ==> eq ==> eq) d_loss_of.
Proof.
  intros s s' Hf ? batch_real -> ? mask -> ? xin ->. unfold d_loss_of.
  pose proof (fwd_cfg_subrelation _ _ Hf) as Hc.
  rewrite (call_gen_proper _ _ Hf xin xin eq_refl mask mask eq_refl).
  destruct (call_gen _ xin mask) as [[[x1 x2] x3]|]; [simpl|done].
  rewrite (composite_proper _ _ Hc x2 x2 eq_refl mask mask eq_refl xin xin eq_refl).
  destruct (composite _ x2 mask xin) as [bf|]; [simpl|done].
  rewrite (mix_proper _ _ Hc _ _ eq_refl bf bf eq_refl mask mask eq_refl).
  destruct (mix _ batch_real bf mask) as [bm|]; [simpl|done].
  by rewrite (dis_loss_proper _ _ Hf bm bm eq_refl).
Qed.

#[export] Instance g_loss_of_proper :
  Proper (fwd_equiv ==> eq ==> eq ==> eq ==> eq) g_loss_of.
Proof.
  intros s s' Hf ? batch_real -> ? mask -> ? xin ->. unfold g_loss_of.
  pose proof (fwd_cfg_subrelation _ _ Hf) as Hc.
  rewrite (call_gen_proper _ _ Hf xin xin eq_refl mask mask eq_refl).
  destruct (call_gen _ xin mask) as [[[x1 x2] x3]|]; [simpl|done].
  rewrite (composite_proper _ _ Hc x2 x2 eq_refl mask mask eq_refl xin xin eq_refl).
  destruct (composite _ x2 mask xin) as [bf|]; [simpl|done].
  rewrite (l1_proper _ _ Hc _ _ eq_refl x1 x1 eq_refl x2 x2 eq_refl).
  destruct (l1 _ batch_real x1 x2) as [l|]; [simpl|done].
  by rewrite (adv_loss_proper _ _ Hf bf bf eq_refl mask mask eq_refl),
    (device_proper _ _ Hc).
Qed.

(** The losses, as functions of the parameters, depend on the object
    through its configuration only. *)
Lemma d_loss_fn_cfg s s' batch_real mask xin θg θd :
  s ≡c s' →
  d_loss_fn s batch_real mask xin θg θd = d_loss_fn s' batch_real mask xin θg θd.
Proof. intros Hs. unfold d_loss_fn. by rewrite Hs. Qed.

Lemma g_loss_fn_cfg s s' batch_real mask xin θg θd :
  s ≡c s' →
  g_loss_fn s batch_real mask xin θg θd = g_loss_fn s' batch_real mask xin θg θd.
Proof. intros Hs. unfold g_loss_fn. by rewrite Hs. Qed.

(** Putting an object's own parameters back changes no forward
    computation. *)
Lemma with_params_self s : with_params s (params (gen s)) (params (dis s)) ≡f s.
Proof. done. Qed.

(** The loss functions at the object's own parameters are the losses
    the forward pass computes. *)
Lemma d_loss_fn_at s batch_real mask xin x1 x2 x3 batch_fake d dv :
  call_gen s xin mask = Ok (x1, x2, x3) →
  composite s x2 mask xin = Ok batch_fake →
  mix s batch_real batch_fake mask ≫= dis_loss s = Ok (Tensor [] [d] dv) →
  d_loss_fn s batch_real mask xin (params (gen s)) (params (dis s)) = Ok d.
Proof.
  intros Hg Hc Hd. unfold d_loss_fn. rewrite with_params_self.
  unfold d_loss_of. rewrite Hg. simpl. rewrite Hc. simpl.
  destruct (mix s batch_real batch_fake mask) as [bm|]; [simpl in *|done].
  by rewrite Hd.
Qed.

Lemma g_loss_fn_at s batch_real mask xin x1 x2 x3 batch_fake gv lv dv :
  call_gen s xin mask = Ok (x1, x2, x3) →
  composite s x2 mask xin = Ok batch_fake →
  l1 s batch_real x1 x2 = Ok (Tensor [] [lv] (device s)) →
  adv_loss s batch_fake mask = Ok (Tensor [] [gv] dv) →
  g_loss_fn s batch_real mask xin (params (gen s)) (params (dis s))
  = Ok (gv + lv)%sc.
Proof.
  intros Hg Hc Hl Ha. unfold g_loss_fn. rewrite with_params_self.
  unfold g_loss_of. rewrite Hg. simpl. rewrite Hc. simpl. rewrite Hl. simpl.
  rewrite Ha. simpl. unfold add, to. simpl. by rewrite binop_scalars.
Qed.

(** The state-changing operations keep the configuration. *)
Lemma zero_dis_cfg s : zero_dis s ≡c s.
Proof. done. Qed.

Lemma zero_gen_cfg s : zero_gen s ≡c s.
Proof. done. Qed.

(** Emptying a [.grad] buffer changes no forward computation. *)
Lemma zero_dis_fwd s : zero_dis s ≡f s.
Proof. done. Qed.

Lemma zero_gen_fwd s : zero_gen s ≡f s.
Proof. done. Qed.

Lemma accumulate_grads_cfg L s : accumulate_grads L s ≡c s.
Proof. done. Qed.

Lemma stepD_cfg s : stepD s ≡c s.
Proof.
  unfold stepD. by destruct (grads (dis s)).
Qed.

Lemma stepG_cfg s : stepG s ≡c s.
Proof.
  unfold stepG. by destruct (grads (gen s)).
Qed.

Lemma gan_wf_cfg s s' : s ≡c s' → gan_wf s → gan_wf s'.
Proof. unfold gan_wf. cfg_crush. Qed.

Lemma GAN_init_wf dv θg θd : gan_wf (GAN_init dv θg θd).
Proof. unfold gan_wf. simpl. repeat split; lia. Qed.
End gan_config_lemmas.

(** ** Theorems: the forward computations *)

Section forward_theorems.
Context {R Rng : Type} `{Scalar R, Random Rng, Models R, UtilOps R Rng}.
Context {AG : Autograd R gen_params} {AD : Autograd R dis_params}.
Context `{!MaskLaws R, !ModelsOk R, !UtilOpsOk R Rng}.
Implicit Types (s : GAN) (t mask : tensor R) (b : nat).

(** The mask value that belongs to element [i] of a batch of images. *)
Lemma mask_at s t mask b i x m :
  is_images (device s) b t → is_mask img_h img_w mask →
  data t !! i = Some x → data mask !! (i `mod` (img_h * img_w)) = Some m →
  i < b * img_channels * length (data mask)
  ∧ data mask !! (i `mod` length (data mask)) = Some m ∧ is_binary m.
Proof.
  intros Ht Hm Hi Hmi. pose proof (is_mask_length _ _ _ Hm) as Hlm.
  rewrite <-Hlm in Hmi. split_and!; [|done|].
  - apply lookup_lt_Some in Hi. rewrite (is_images_length _ _ _ Ht) in Hi. lia.
  - destruct Hm as (_ & _ & Hall). by apply (Forall_lookup_1 _ _ _ _ Hall Hmi).
Qed.

(** C19 (functional).  Line 53 erases the hole: element [i] of the
    erased batch is [0] where the mask (repeated over the images and
    channels of the batch) is [1], and the element of the real batch
    where it is [0]. *)
Theorem erase_zeroes_the_hole s batch_real mask b xin i r m :
  is_images (device s) b batch_real → is_mask img_h img_w mask →
  dev mask = device s →
  erase s batch_real mask = Ok xin →
  data batch_real !! i = Some r →
  data mask !! (i `mod` (img_h * img_w)) = Some m →
  data xin !! i = Some (if decide (m = 1%sc) then 0%sc else r).
Proof.
  intros Hr Hm Hdm He Hi Hmi.
  destruct (mask_at s _ _ b i r m Hr Hm Hi Hmi) as (Hlt & Hmi' & Hb).
  rewrite (erase_Ok s _ _ b Hr Hm Hdm) in He. injection He as <-. simpl.
  by rewrite (erase_data_lookup _ _ _ i r m), erase_binary.
Qed.

(** C16 (functional).  Lines 53 and 60 together: element [i] of
    [batch_fake], the batch the discriminator is shown as fake, is the
    generator's prediction where the mask is [1] and the pixel of the
    real image where it is [0]. *)
Theorem composite_restores_known_pixels s batch_real pred mask b xin batch_fake i r p m :
  is_images (device s) b batch_real → is_images (device s) b pred →
  is_mask img_h img_w mask → dev mask = device s →
  erase s batch_real mask = Ok xin →
  composite s pred mask xin = Ok batch_fake →
  data batch_real !! i = Some r → data pred !! i = Some p →
  data mask !! (i `mod` (img_h * img_w)) = Some m →
  data batch_fake !! i = Some (if decide (m = 1%sc) then p else r).
Proof.
  intros Hr Hp Hm Hdm He Hc Hir Hip Him.
  destruct (mask_at s _ _ b i r m Hr Hm Hir Him) as (Hlt & Hmi & Hb).
  destruct (erase_images s _ _ b Hr Hm Hdm) as (xin' & He' & Hx & Hdx).
  rewrite He in He'. injection He' as <-.
  destruct (composite_Ok s pred mask xin b Hp Hx Hm Hdm) as (bf & Hc' & _ & Hdf).
  rewrite Hc in Hc'. injection Hc' as <-. rewrite Hdf, Hdx.
  rewrite (blend_data_lookup _ _ _ _ i p (r * (1 - m))%sc m), blend_binary;
    [done..| |done|by apply erase_data_lookup|done].
  lia.
Qed.

(** Lines 61-62 build the discriminator's input exactly
    when the batch holds [batch_size] images: then the result has
    [2 * batch_size] images with one more channel; for any other
    number of images the second [torch.cat] raises, because it repeats
    the mask [batch_size * 2] times whatever the batch holds. *)
Theorem mix_needs_full_batch s batch_real batch_fake mask b :
  gan_wf s →
  is_images (device s) b batch_real → is_images (device s) b batch_fake →
  is_mask img_h img_w mask → dev mask = device s →
  if decide (b = batch_size s)
  then ∃ bm, mix s batch_real batch_fake mask = Ok bm
             ∧ shape bm = [2 * b; S img_channels; img_h; img_w]
             ∧ dev bm = device s ∧ wf bm
  else mix s batch_real batch_fake mask = Err (RuntimeError SizeMismatch).
Proof.
  intros Hwf Hr Hf Hm Hdm. case_decide as Hb.
  - subst b. by apply mix_Ok.
  - by apply (mix_Err s _ _ _ b).
Qed.

(** C17 (functional).  What the discriminator is given, lines 61-62:
    image [k] of [batch_mixed] is image [k] of the real batch for
    [k < batch_size] and image [k - batch_size] of the fake batch
    after that, each followed by the mask as one more channel. *)
Theorem mix_pairs_images_with_mask s batch_real batch_fake mask bm k :
  gan_wf s →
  is_images (device s) (batch_size s) batch_real →
  is_images (device s) (batch_size s) batch_fake →
  is_mask img_h img_w mask → dev mask = device s →
  mix s batch_real batch_fake mask = Ok bm → k < 2 * batch_size s →
  slab k (S img_channels * (img_h * img_w)) (data bm)
  = (if decide (k < batch_size s)
     then slab k (img_channels * (img_h * img_w)) (data batch_real)
     else slab (k - batch_size s) (img_channels * (img_h * img_w))
            (data batch_fake))
    ++ data mask.
Proof.
  intros Hwf Hr Hf Hm Hdm Hmix Hk.
  pose proof (is_images_length _ _ _ Hr) as Hlr.
  pose proof (is_images_length _ _ _ Hf) as Hlf.
  pose proof (is_mask_length _ _ _ Hm) as Hlm.
  rewrite (mix_data s batch_real batch_fake mask bm) by done.
  assert (∀ o, o < 2 * batch_size s →
            length (slab o (img_channels * (img_h * img_w))
                      (data batch_real ++ data batch_fake))
            = img_channels * (img_h * img_w)) as Hlen.
  { intros o Ho. apply length_slab. rewrite length_app, Hlr, Hlf.
    rewrite <-!Nat.mul_assoc, <-Nat.mul_add_distr_r.
    apply Nat.mul_le_mono_r. lia. }
  rewrite slab_bind_seq; [|intros o Ho; rewrite length_app, Hlen, Hlm; lia|done].
  f_equal. case_decide as Hlt.
  - apply slab_app_l. rewrite Hlr, <-Nat.mul_assoc.
    apply Nat.mul_le_mono_r. lia.
  - replace k with (batch_size s + (k - batch_size s)) at 1 by lia.
    apply slab_app_r. rewrite Hlr. lia.
Qed.

(** [inpaint_image] erases the image as line 53 does and hands the
    result to the generator. *)
Lemma inpaint_image_erase s image mask b :
  is_images (device s) b image → is_mask img_h img_w mask →
  dev mask = device s →
  inpaint_image s image mask =
    xin ← erase s image mask; '(_, prediction, _) ← call_gen s xin mask; Ok prediction.
Proof.
  intros Hi Hm Hdm. rewrite (erase_Ok s _ _ b Hi Hm Hdm).
  destruct Hi as (Hs & Hd & Hw), Hm as (Hsm & Hwm & _).
  unfold inpaint_image. rewrite keep_Ok by auto. simpl. unfold mul.
  rewrite (binop_leading_r _ image _ [b; img_channels] [img_h; img_w]);
    [|done|by apply (unop_wf (sc_sub 1%sc) mask)|exact Hs|exact Hsm
     |simpl; congruence].
  simpl. unfold erase_data.
  by rewrite Hs, !numel_cons, numel_nil, Nat.mul_1_r, Hd.
Qed.

(** C20 (functional).  [inpaint_image] (lines 94-97) succeeds on a
    batch of images and a mask on the device of the generator, and
    returns a batch of images of the same size: the refined result of
    the generator. *)
Theorem inpaint_image_Ok s image mask b :
  gan_wf s → is_images (device s) b image → is_mask img_h img_w mask →
  dev mask = device s →
  ∃ prediction, inpaint_image s image mask = Ok prediction
                ∧ is_images (device s) b prediction.
Proof.
  intros Hwf Hi Hm Hdm. rewrite (inpaint_image_erase s _ _ b) by done.
  destruct (erase_images s _ _ b Hi Hm Hdm) as (xin & -> & Hx & _). simpl.
  destruct (call_gen_Ok s xin mask b Hwf Hx Hm Hdm) as (x1 & x2 & x3 & -> & _ & H2').
  by exists x2.
Qed.

(** C21 (safety).  What is under the mask never reaches the
    generator: two images that agree wherever the mask is [0] are
    inpainted alike, for any generator. *)
Theorem inpaint_image_ignores_hole s image image' mask b :
  is_images (device s) b image → is_images (device s) b image' →
  is_mask img_h img_w mask → dev mask = device s →
  (∀ i m, data mask !! (i `mod` (img_h * img_w)) = Some m → m ≠ 1%sc →
          data image !! i = data image' !! i) →
  inpaint_image s image mask = inpaint_image s image' mask.
Proof.
  intros Hi Hi' Hm Hdm Hagree.
  rewrite !(inpaint_image_erase s _ _ b), !(erase_Ok s _ _ b) by done.
  pose proof (is_mask_length _ _ _ Hm) as Hlm.
  rewrite (erase_data_ext _ (data image) (data image') (data mask)); [done|..].
  - rewrite (is_images_length _ _ _ Hi). lia.
  - rewrite (is_images_length _ _ _ Hi'). lia.
  - apply Hm.
  - intros i m. rewrite Hlm. apply Hagree.
Qed.
End forward_theorems.

(** ** The theorems at concrete inputs

    The object [GAN(cpu)] over the toy networks of [Toy], batches of
    [b] images of one row and two columns holding [1, 2, ...], and the
    mask that keeps the left pixel and asks for the right one. *)

Import Toy.Toy.

Definition toy_gan : @GAN Z _ _ _ := GAN_init Cpu 1%Z 1%Z.

Definition toy_world : @world Z nat _ _ _ :=
  World toy_gan (Frame [] [] 0) 0 NoGraph [].

Definition toy_images (b : nat) : tensor Z :=
  Tensor [b; 1; 1; 2] (Z.of_nat <$> seq 1 (b * 2)) Cpu.

Definition toy_labels (b : nat) : tensor Z := Tensor [b] (replicate b 0%Z) Cpu.

Definition toy_mask : tensor Z := Tensor [1; 1; 1; 2] [0; 1]%Z Cpu.

Lemma toy_gan_wf : gan_wf toy_gan.
Proof. apply (GAN_init_wf (R := Z)). Qed.

Lemma toy_images_ok b : is_images Cpu b (toy_images b).
Proof.
  repeat split. unfold wf, toy_images. cbn [data shape].
  rewrite length_fmap, length_seq, !numel_cons, numel_nil. lia.
Qed.

Lemma toy_mask_ok : is_mask 1 2 toy_mask.
Proof. exact (small_bbox2mask_ok 1 2 1). Qed.

Lemma erase_zeroes_the_hole_witness :
  data (Tensor [1; 1; 1; 2] [1; 0]%Z Cpu) !! 1
  = Some (if decide (1%Z = 1%Z) then 0%Z else 2%Z).
Proof.
  exact (erase_zeroes_the_hole toy_gan (toy_images 1) toy_mask 1 _ 1 2%Z 1%Z
           (toy_images_ok 1) toy_mask_ok eq_refl eq_refl eq_refl eq_refl).
Defined.

Lemma composite_restores_known_pixels_witness :
  data (Tensor [1; 1; 1; 2] [1; 20]%Z Cpu) !! 0
  = Some (if decide (0%Z = 1%Z) then 10%Z else 1%Z).
Proof.
  exact (composite_restores_known_pixels toy_gan (toy_images 1)
           (Tensor [1; 1; 1; 2] [10; 20]%Z Cpu) toy_mask 1
           (Tensor [1; 1; 1; 2] [1; 0]%Z Cpu) _ 0 1%Z 10%Z 0%Z
           (toy_images_ok 1) ltac:(by repeat split) toy_mask_ok
           eq_refl eq_refl eq_refl eq_refl eq_refl eq_refl).
Defined.

Lemma mix_needs_full_batch_witness :
  mix toy_gan (toy_images 2) (toy_images 2) toy_mask
  = Err (RuntimeError SizeMismatch).
Proof.
  exact (mix_needs_full_batch toy_gan (toy_images 2) (toy_images 2) toy_mask 2
           (GAN_init_wf Cpu 1%Z 1%Z) (toy_images_ok 2) (toy_images_ok 2)
           toy_mask_ok eq_refl).
Defined.

Lemma inpaint_image_Ok_witness :
  ∃ prediction, inpaint_image toy_gan (toy_images 3) toy_mask = Ok prediction
                ∧ is_images Cpu 3 prediction.
Proof.
  exact (inpaint_image_Ok toy_gan (toy_images 3) toy_mask 3
           (GAN_init_wf Cpu 1%Z 1%Z) (toy_images_ok 3) toy_mask_ok eq_refl).
Defined.

Lemma inpaint_image_ignores_hole_witness :
  inpaint_image toy_gan (Tensor [1; 1; 1; 2] [5; 7]%Z Cpu) toy_mask
  = inpaint_image toy_gan (Tensor [1; 1; 1; 2] [5; 99]%Z Cpu) toy_mask.
Proof.
  apply (inpaint_image_ignores_hole toy_gan _ _ toy_mask 1);
    [by repeat split|by repeat split|apply toy_mask_ok|done|].
  intros [|[|i]] m; simpl; intros Hm Hne; by simplify_eq.
Defined.

Lemma mix_pairs_images_with_mask_witness :
  ∃ bm, mix toy_gan (toy_images 4) (toy_images 4) toy_mask = Ok bm
        ∧ slab 5 (2 * (1 * 2)) (data bm)
          = slab (5 - 4) (1 * (1 * 2)) (data (toy_images 4)) ++ data toy_mask.
Proof.
  destruct (mix_Ok toy_gan (toy_images 4) (toy_images 4) toy_mask
              toy_gan_wf (toy_images_ok 4) (toy_images_ok 4)
              toy_mask_ok eq_refl) as (bm & Hmix & _).
  exists bm. split; [exact Hmix|].
  exact (mix_pairs_images_with_mask toy_gan (toy_images 4) (toy_images 4)
           toy_mask bm 5 toy_gan_wf (toy_images_ok 4)
           (toy_images_ok 4) toy_mask_ok eq_refl Hmix ltac:(simpl; lia)).
Defined.
