(* ===== verification/OpsData.v ===== *)
(** * OpsData: [preprocess], [export_model] and [import_model] of
    [src/ops_data.py]

    [preprocess] installs on an image folder the transform
    [Compose([RandomCrop(image_size), ToTensor(), Normalize(0.5, 0.5)])];
    [export_model] writes the state dictionary of a model, the
    generator or the discriminator, and [import_model] reads one into a
    new generator.  The folder is the list of its samples: the class
    index of a file and what the loader decodes from it when the sample
    is fetched, an RGB picture or nothing; the three transforms follow
    their documented behaviour; the file system is a finite map from
    paths to saved state dictionaries, each with the device its tensors
    were saved from, since [torch.load] restores them there.
    [preprocess] changes the folder in place, [export_model] the file
    system; both return nothing.  How a folder is read from a directory
    is in [ImportData]; the byte format of [torch.save] and files that
    hold anything but a state dictionary of one of the two networks are
    not modelled. *)

From stdpp Require Import base tactics option list numbers strings gmap.
From Stdlib Require Import QArith Qcanon Lqa.
From S2P Require Import Prelude Scalar Tensor Externals Toy DataLoader Gan.
Close Scope Q_scope.
Close Scope Qc_scope.

(** ** Data *)

(** A decoded RGB image: height, width and the bytes in row-major
    order, three per pixel. *)
Record pil_image : Type := PilImage {
  pil_h : nat;
  pil_w : nat;
  pil_data : list nat;
}.

Definition pil_wf (img : pil_image) : Prop :=
  length (pil_data img) = pil_h img * pil_w img * 3
  ∧ Forall (λ v, v < 256) (pil_data img).

#[export] Instance pil_wf_dec img : Decision (pil_wf img).
Proof. unfold pil_wf. apply _. Defined.

Section ops_data.
Context {R Rng : Type} `{Scalar R, Random Rng}.

(** [datasets.ImageFolder]: the samples and the transform applied to
    an image when it is fetched.  A sample is the class index of a
    file and what the loader reads there each time the sample is
    fetched: the decoded picture, or nothing when the file is not a
    picture. *)
Record image_folder : Type := ImageFolder {
  samples : list (option pil_image * nat);
  transform : option (pil_image → stx Rng (tensor R));
}.

(** ** [torchvision.transforms] *)

(** The rows of an image. *)
Definition pil_rows (img : pil_image) : list (list nat) :=
  reshape (replicate (pil_h img) (pil_w img * 3)) (pil_data img).

(** [F.crop(img, i, j, th, tw)]: [th] rows from row [i], [tw] pixels
    of each from column [j]. *)
Definition crop (img : pil_image) (i j th tw : nat) : pil_image :=
  PilImage th tw
    (mjoin ((λ row, take (tw * 3) (drop (j * 3) row))
            <$> take th (drop i (pil_rows img)))).

(** [RandomCrop(size)]: an image smaller than the crop is refused; an
    image of exactly the size is returned whole, without drawing; else
    the corner is drawn, the row first. *)
Definition RandomCrop (size : nat * nat) (img : pil_image) : stx Rng pil_image :=
  let '(th, tw) := size in
  if decide (pil_h img < th ∨ pil_w img < tw) then raise ValueError
  else if decide (pil_w img = tw ∧ pil_h img = th)
       then mret (crop img 0 0 (pil_h img) (pil_w img))
  else
    i ← pure_st (rand_below (pil_h img - th + 1));
    j ← pure_st (rand_below (pil_w img - tw + 1));
    mret (crop img i j th tw).

(** The bytes of channel [c], row by row. *)
Definition pil_channel (img : pil_image) (c : nat) : list nat :=
  (λ p, pil_data img !!! (p * 3 + c)) <$> seq 0 (pil_h img * pil_w img).

(** [ToTensor()]: channels first, bytes scaled to [0, 1]. *)
Definition ToTensor (img : pil_image) : tensor R :=
  Tensor [3; pil_h img; pil_w img]
    (c ← seq 0 3;
     (λ v, (sc_of_nat v / sc_of_nat 255)%sc) <$> pil_channel img c)
    Cpu.

(** [Normalize(mean, std)]: [(x - mean[c]) / std[c]] on channel [c] of
    a tensor of at least three dimensions; a zero in [std] is refused,
    and so is a number of means or deviations that is neither one nor
    the number of channels. *)
Definition per_channel (c : nat) (l : list R) : option (list R) :=
  if decide (length l = c) then Some l
  else match l with [x] => Some (replicate c x) | _ => None end.

Definition Normalize (mean std : list R) (t : tensor R) : result (tensor R) :=
  _ ← guard_ok (bool_decide (3 ≤ length (shape t))) ValueError;
  _ ← guard_ok (bool_decide (Forall (λ sd, sd ≠ 0%sc) std)) ValueError;
  c ← size0 t;
  means ← of_option (per_channel c mean) (RuntimeError SizeMismatch);
  stds ← of_option (per_channel c std) (RuntimeError SizeMismatch);
  Ok (Tensor (shape t)
        (mjoin (zip_with (λ ms ch, (λ x, ((x - ms.1) / ms.2)%sc) <$> ch)
                  (zip means stds)
                  (reshape (replicate c (numel (drop 1 (shape t)))) (data t))))
        (dev t)).

(** ** [preprocess] (lines 14-19) *)

Definition half : R := (1 / sc_of_nat 2)%sc.

(** The composed transform. *)
Definition the_transform (image_size : nat * nat) (img : pil_image) :
    stx Rng (tensor R) :=
  img ← RandomCrop image_size img;
  lift (Normalize [half; half; half] [half; half; half] (ToTensor img)).

(** [preprocess(dataset, image_size)] (lines 14-19): the folder is
    changed in place and nothing is returned. *)
Definition preprocess (image_size : nat * nat) : stx image_folder unit :=
  modify (λ dataset,
    ImageFolder (samples dataset) (Some (the_transform image_size))).

(** The sample holds a picture, and the picture satisfies [P]. *)
Definition decoded (P : pil_image → Prop) (smp : option pil_image * nat) : Prop :=
  from_option P False smp.1.

(** [ImageFolder.__len__] and [__getitem__], as the [DataLoader] uses
    them: the loader refuses a file that is not a picture, and an
    image that was not turned into a tensor cannot be collated. *)

Definition folder_dataset (ds : image_folder) : dataset R Rng :=
  Dataset (length (samples ds))
    (λ i, '(file, target) ← lift (of_option (samples ds !! i) IndexError);
          img ← lift (of_option file UnidentifiedImageError);
          match transform ds with
          | Some f => t ← f img; mret (t, target)
          | None => raise TypeError
          end).
End ops_data.

Arguments image_folder : clear implicits.

(** ** [export_model] and [import_model] (lines 22-28) *)

Section model_files.
Context {R : Type} `{Models R}.
Context {AG : Autograd R gen_params} {AD : Autograd R dis_params}.

(** What [export_model] is handed: one of the two networks of the
    program. *)
Inductive model : Type :=
  | GeneratorModel (m : nn_module gen_params (grad_t (Autograd := AG)))
  | DiscriminatorModel (m : nn_module dis_params (grad_t (Autograd := AD))).

(** What [model.state_dict()] returns and a saved file holds: the
    parameters under the names the kind of network gives them, as
    tensors of the device the model was on. *)
Inductive state_dict : Type :=
  | GeneratorState (θ : gen_params) (saved_on : torch_device)
  | DiscriminatorState (θ : dis_params) (saved_on : torch_device).

(** The files that hold saved state dictionaries. *)
Definition file_system : Type := gmap string state_dict.

(** [model.state_dict()] *)
Definition state_dict_of (model : model) : state_dict :=
  match model with
  | GeneratorModel m => GeneratorState (params m) (mdev m)
  | DiscriminatorModel m => DiscriminatorState (params m) (mdev m)
  end.

(** The device of the tensors of a state dictionary, and whether a
    machine with [cuda_count] CUDA devices has a device. *)
Definition saved_on (sd : state_dict) : torch_device :=
  match sd with GeneratorState _ dv | DiscriminatorState _ dv => dv end.

Definition available (cuda_count : nat) (dv : torch_device) : bool :=
  match dv with Cpu => true | Cuda index => bool_decide (index < cuda_count) end.

(** [torch.save(model.state_dict(), model_path)] *)
Definition export_model (model : model) (model_path : string) :
    stx file_system unit :=
  modify (λ fs, <[model_path := state_dict_of model]> fs).

(** [torch.load(model_path)] without [map_location], on a machine with
    [cuda_count] CUDA devices: the tensors are restored to the device
    they were saved from, which has to exist. *)
Definition torch_load (cuda_count : nat) (model_path : string) :
    stx file_system state_dict :=
  fs ← get;
  state_dict ← lift (of_option (fs !! model_path) FileNotFoundError);
  _ ← lift (guard_ok (available cuda_count (saved_on state_dict))
              (RuntimeError NoSuchDevice));
  mret state_dict.

(** [Generator().to(params.device)], then [load_state_dict] of what
    [torch.load] reads: [θ0] are the parameters the constructor draws,
    which loading replaces by copying, so the model stays on
    [params.device]; the names in the file have to be the generator's. *)
Definition import_model (cuda_count : nat) (params_device : torch_device)
    (θ0 : gen_params) (model_path : string) :
    stx file_system (nn_module gen_params (grad_t (Autograd := AG))) :=
  let model := NnModule θ0 None true params_device in
  state_dict ← torch_load cuda_count model_path;
  match state_dict with
  | GeneratorState θ _ => mret (set_params θ model)
  | DiscriminatorState _ _ => raise (RuntimeError StateDictKeys)
  end.
End model_files.

(** ** Lemmas: the transforms *)

Section transform_lemmas.
Context {R Rng : Type} `{Scalar R, Random Rng, !RandomOk Rng}.
Implicit Types (img : pil_image) (g : Rng).

Lemma pil_rows_length img :
  pil_wf img →
  length (pil_rows img) = pil_h img
  ∧ Forall (λ row, length row = pil_w img * 3 ∧ Forall (λ v, v < 256) row)
      (pil_rows img).
Proof.
  intros [Hlen Hpx]. unfold pil_rows.
  split; [by rewrite length_reshape, length_replicate|].
  apply Forall_and.
  split; [apply Forall_reshape_length; lia|by apply Forall_reshape].
Qed.

(** A crop inside the image is an image of the size asked for. *)
Lemma crop_wf img i j th tw :
  pil_wf img → i + th ≤ pil_h img → j + tw ≤ pil_w img →
  pil_wf (crop img i j th tw).
Proof.
  intros Hwf Hi Hj. destruct (pil_rows_length img Hwf) as [Hlen Hrows].
  apply Forall_and in Hrows as [Hrl Hrp].
  unfold pil_wf, crop. cbn [pil_data pil_h pil_w]. split.
  - rewrite (length_join_const _ (tw * 3)).
    + rewrite length_fmap, length_take, length_drop, Nat.min_l; lia.
    + apply Forall_fmap, Forall_take, Forall_drop.
      eapply list.Forall_impl; [exact Hrl|]. intros row Hrow; simpl in *.
      rewrite length_take, length_drop. lia.
  - apply Forall_join, Forall_fmap, Forall_take, Forall_drop.
    eapply list.Forall_impl; [exact Hrp|]. intros row Hrow; simpl in *.
    by apply Forall_take, Forall_drop.
Qed.

(** [RandomCrop] on an image at least as large as the crop returns a
    crop inside the image. *)
Lemma RandomCrop_Ok th tw img g :
  pil_wf img → th ≤ pil_h img → tw ≤ pil_w img →
  ∃ i j g', RandomCrop (th, tw) img g = (Ok (crop img i j th tw), g')
            ∧ i + th ≤ pil_h img ∧ j + tw ≤ pil_w img.
Proof.
  intros Hwf Hh Hw. unfold RandomCrop.
  rewrite decide_False by lia. case_decide as Heq.
  - destruct Heq as [<- <-]. exists 0, 0, g. split; [done|lia].
  - rewrite run_bind, run_pure_st. cbn. rewrite run_bind, run_pure_st. cbn.
    eexists _, _, _. split; [done|].
    pose proof (rand_below_lt (pil_h img - th + 1) g).
    pose proof (rand_below_lt (pil_w img - tw + 1)
                  (rand_below (pil_h img - th + 1) g).2).
    lia.
Qed.

(** Cropping invents no byte. *)
Lemma crop_bytes img i j th tw :
  Forall (λ v, v < 256) (pil_data img) →
  Forall (λ v, v < 256) (pil_data (crop img i j th tw)).
Proof.
  intros Hpx. unfold crop, pil_rows. cbn [pil_data].
  apply Forall_join, Forall_fmap, Forall_take, Forall_drop.
  eapply list.Forall_impl; [by apply Forall_reshape|].
  intros row Hrow; simpl. by apply Forall_take, Forall_drop.
Qed.

Lemma RandomCrop_bytes size img g img' g' :
  Forall (λ v, v < 256) (pil_data img) →
  RandomCrop size img g = (Ok img', g') →
  Forall (λ v, v < 256) (pil_data img').
Proof.
  intros Hpx. destruct size as [th tw]. unfold RandomCrop.
  repeat case_decide; [done|by intros [= <- <-]; apply crop_bytes|].
  rewrite run_bind, run_pure_st. cbn. rewrite run_bind, run_pure_st. cbn.
  intros [= <- <-]. by apply crop_bytes.
Qed.

Lemma elem_of_halves (m : R) : m ∈ [half; half; half] → m = half.
Proof. rewrite !elem_of_cons, elem_of_nil. by intros [->|[->|[->|[]]]]. Qed.

Lemma RandomCrop_small th tw img g :
  pil_h img < th ∨ pil_w img < tw →
  RandomCrop (th, tw) img g = (Err ValueError, g).
Proof. intros Hs. unfold RandomCrop. by rewrite decide_True. Qed.

Lemma the_transform_small th tw img g :
  pil_h img < th ∨ pil_w img < tw →
  the_transform (R := R) (th, tw) img g = (Err ValueError, g).
Proof.
  intros Hs. unfold the_transform.
  by rewrite (run_bind_Err _ _ _ _ _ (RandomCrop_small th tw img g Hs)).
Qed.

Lemma length_pil_channel img c : length (pil_channel img c) = pil_h img * pil_w img.
Proof. unfold pil_channel. by rewrite length_fmap, length_seq. Qed.

Lemma ToTensor_wf img : wf (ToTensor (R := R) img).
Proof.
  unfold wf, ToTensor. cbn [data shape].
  rewrite (length_bind_const _ _ (pil_h img * pil_w img)).
  - rewrite length_seq, !numel_cons, numel_nil. lia.
  - intros c _. by rewrite length_fmap, length_pil_channel.
Qed.

(** Every element of [ToTensor(img)] is a byte of the image divided by
    255. *)
Lemma ToTensor_elements img :
  Forall (λ v, v < 256) (pil_data img) →
  Forall (λ x : R, ∃ v, v < 256 ∧ x = (sc_of_nat v / sc_of_nat 255)%sc)
    (data (ToTensor img)).
Proof.
  intros Hpx. unfold ToTensor, pil_channel. cbn [data].
  apply Forall_bind, Forall_true. intros c. simpl.
  apply Forall_fmap, Forall_fmap, Forall_true. intros p. simpl.
  exists (pil_data img !!! (p * 3 + c)). split; [|done].
  destruct (pil_data img !! (p * 3 + c)) as [v|] eqn:Hv.
  - rewrite (list_lookup_total_correct _ _ _ Hv).
    by apply (Forall_lookup_1 _ _ _ _ Hpx Hv).
  - rewrite list_lookup_total_alt, Hv. simpl. lia.
Qed.

Lemma per_channel_same c (l : list R) : length l = c → per_channel c l = Some l.
Proof. intros Hl. unfold per_channel. by rewrite decide_True. Qed.

(** [Normalize] with one mean and one deviation per channel, none of
    them zero, on a tensor of three dimensions. *)
Lemma Normalize_Ok mean std (t : tensor R) c h w :
  shape t = [c; h; w] → wf t → length mean = c → length std = c →
  Forall (λ sd, sd ≠ 0%sc) std →
  Normalize mean std t =
    Ok (Tensor [c; h; w]
          (mjoin (zip_with (λ ms ch, (λ x, ((x - ms.1) / ms.2)%sc) <$> ch)
                    (zip mean std)
                    (reshape (replicate c (h * w)) (data t))))
          (dev t)).
Proof.
  intros Hs Hw Hm Hsd Hnz. unfold Normalize, size0. rewrite Hs. cbn -[Nat.mul].
  rewrite bool_decide_eq_true_2 by done. cbn -[Nat.mul].
  rewrite !per_channel_same by done. cbn -[Nat.mul].
  by rewrite !numel_cons, numel_nil, Nat.mul_1_r.
Qed.

Lemma Normalize_wf mean std (t t' : tensor R) c h w :
  shape t = [c; h; w] → wf t → length mean = c → length std = c →
  Forall (λ sd, sd ≠ 0%sc) std →
  Normalize mean std t = Ok t' →
  shape t' = [c; h; w] ∧ dev t' = dev t ∧ wf t'.
Proof.
  intros Hs Hw Hm Hsd Hnz. rewrite (Normalize_Ok _ _ _ c h w) by done.
  intros [= <-]. split_and!; [done..|]. unfold wf in *. cbn [data shape].
  rewrite Hs, !numel_cons, numel_nil in Hw.
  rewrite (length_join_const _ (h * w)).
  - rewrite length_zip_with, length_zip, length_reshape, length_replicate.
    rewrite !numel_cons, numel_nil. lia.
  - apply Forall_zip_with. intros i ms ch _ Hch. rewrite length_fmap.
    assert (Forall (λ ch, length ch = h * w)
              (reshape (replicate c (h * w)) (data t))) as Hall
      by (apply Forall_reshape_length; lia).
    by apply (Forall_lookup_1 _ _ _ _ Hall Hch).
Qed.

(** What [Normalize] does to the elements. *)
Lemma Normalize_elements (P Q : R → Prop) mean std (t t' : tensor R) c h w :
  shape t = [c; h; w] → wf t → length mean = c → length std = c →
  Forall (λ sd, sd ≠ 0%sc) std →
  (∀ x m sd, P x → m ∈ mean → sd ∈ std → Q ((x - m) / sd)%sc) →
  Forall P (data t) → Normalize mean std t = Ok t' → Forall Q (data t').
Proof.
  intros Hs Hw Hm Hsd Hnz HPQ HP. rewrite (Normalize_Ok _ _ _ c h w) by done.
  intros [= <-]. cbn [data]. apply Forall_join, Forall_zip_with.
  intros i [m sd] ch Hms Hch. apply Forall_fmap.
  apply lookup_zip_with_Some in Hms as (m' & sd' & [= <- <-] & Hm' & Hsd').
  assert (Forall P ch) as HPch.
  { apply (Forall_lookup_1 _ _ _ _ (Forall_reshape P _ _ HP) Hch). }
  eapply list.Forall_impl; [exact HPch|]. intros x Hx. simpl.
  apply HPQ; [done|by eapply list_elem_of_lookup_2..].
Qed.
End transform_lemmas.

(** ** Lemmas: the composed transform *)

Section preprocess_lemmas.
Context {R Rng : Type} `{Scalar R, Random Rng, !RandomOk Rng}.
Context (half_neq_0 : (half : R) ≠ 0%sc).
Implicit Types (img : pil_image) (g : Rng) (ds : image_folder R Rng).

Lemma halves_neq_0 : Forall (λ sd : R, sd ≠ 0%sc) [half; half; half].
Proof. by repeat constructor. Qed.

(** Normalising what [ToTensor] returns never fails. *)
Lemma Normalize_ToTensor img :
  ∃ t : tensor R,
    Normalize [half; half; half] [half; half; half] (ToTensor img) = Ok t
    ∧ shape t = [3; pil_h img; pil_w img] ∧ dev t = Cpu ∧ wf t.
Proof.
  eexists. split.
  - apply (Normalize_Ok _ _ _ 3 (pil_h img) (pil_w img));
      [done|apply ToTensor_wf|done|done|apply halves_neq_0].
  - eapply (Normalize_wf [half; half; half] [half; half; half] (ToTensor img));
      [done|apply ToTensor_wf|done|done|apply halves_neq_0|].
    apply (Normalize_Ok _ _ _ 3 (pil_h img) (pil_w img));
      [done|apply ToTensor_wf|done|done|apply halves_neq_0].
Qed.

(** The transform on an image at least as large as the crop: a crop
    inside the image, made a tensor and normalised. *)
Lemma the_transform_Ok th tw img g :
  pil_wf img → th ≤ pil_h img → tw ≤ pil_w img →
  ∃ i j t g',
    the_transform (th, tw) img g = (Ok t, g')
    ∧ Normalize [half; half; half] [half; half; half]
        (ToTensor (crop img i j th tw)) = Ok t
    ∧ (i + th ≤ pil_h img ∧ j + tw ≤ pil_w img)
    ∧ shape t = [3; th; tw] ∧ dev t = Cpu ∧ wf t.
Proof.
  intros Hwf Hh Hw.
  destruct (RandomCrop_Ok th tw img g Hwf Hh Hw) as (i & j & g' & Hrun & Hi & Hj).
  destruct (Normalize_ToTensor (crop img i j th tw)) as (t & Hn & Hs & Hd & Hwt).
  exists i, j, t, g'. unfold the_transform.
  rewrite (run_bind_Ok _ _ _ _ _ Hrun). unfold lift. rewrite Hn.
  by split_and!.
Qed.
(** A sample whose image is large enough is fetched as a tensor of
    the crop size. *)
Lemma preprocess_sample_ok (ds : image_folder R Rng) th tw i img target :
  samples ds !! i = Some (Some img, target) →
  pil_wf img → th ≤ pil_h img → tw ≤ pil_w img →
  sample_ok [3; th; tw] (folder_dataset (preprocess (th, tw) ds).2) i.
Proof.
  intros Hs Hwf Hh Hw g.
  destruct (the_transform_Ok th tw img g Hwf Hh Hw)
    as (i' & j' & t & g' & Hrun & _ & _ & Hsh & Hdv & Hwt).
  exists t, target, g'. split; [|done].
  cbn. rewrite run_lift_bind, Hs. cbn. rewrite run_lift_bind. cbn.
  by rewrite (run_bind_Ok _ _ _ _ _ Hrun).
Qed.

(** Every sample of a preprocessed folder whose images are large
    enough is a tensor of the crop size. *)
Lemma preprocess_fits (ds : image_folder R Rng) th tw :
  Forall (decoded (λ img, pil_wf img ∧ th ≤ pil_h img ∧ tw ≤ pil_w img))
    (samples ds) →
  dataset_ok [3; th; tw] (folder_dataset (preprocess (th, tw) ds).2).
Proof.
  intros Hall i g Hi. cbn in Hi.
  destruct (lookup_lt_is_Some_2 (samples ds) i Hi) as [[[img|] target] Hs];
    pose proof (Forall_lookup_1 _ _ _ _ Hall Hs) as Hfit; [|done].
  destruct Hfit as (Hwf & Hh & Hw). by eapply preprocess_sample_ok.
Qed.
End preprocess_lemmas.

(** ** Theorems: [preprocess] *)

Section preprocess_theorems.
Context {R Rng : Type} `{Scalar R, Random Rng, !RandomOk Rng}.
Implicit Types (img : pil_image) (g : Rng) (ds : image_folder R Rng).

(** A sample whose image is smaller than the crop raises. *)
Lemma preprocess_sample_raises ds th tw i img target :
  samples ds !! i = Some (Some img, target) →
  pil_h img < th ∨ pil_w img < tw →
  sample_raises (folder_dataset (preprocess (th, tw) ds).2) ValueError i.
Proof.
  intros Hs Hsmall g. exists g. unfold folder_dataset, preprocess, modify.
  cbn [ds_getitem samples transform snd]. rewrite run_lift_bind, Hs.
  cbn [of_option]. rewrite run_lift_bind. cbn [of_option].
  by rewrite (run_bind_Err _ _ _ _ _ (the_transform_small th tw img g Hsmall)).
Qed.

(** A file that is not a picture raises when it is fetched, whatever
    the transform. *)
Lemma folder_sample_undecodable ds i target :
  samples ds !! i = Some (None, target) →
  sample_raises (folder_dataset ds) UnidentifiedImageError i.
Proof.
  intros Hs g. exists g. unfold folder_dataset. cbn [ds_getitem].
  by rewrite run_lift_bind, Hs.
Qed.

(** A picture of a folder without transform is not a tensor. *)
Lemma folder_sample_raw ds i img target :
  transform ds = None → samples ds !! i = Some (Some img, target) →
  sample_raises (folder_dataset ds) TypeError i.
Proof.
  intros Hnone Hs g. exists g. unfold folder_dataset. cbn [ds_getitem].
  rewrite run_lift_bind, Hs. cbn [of_option]. rewrite run_lift_bind.
  cbn [of_option]. by rewrite Hnone.
Qed.

(** C24 (type).  After [preprocess(dataset, image_size)] a folder of
    RGB images none of which is smaller than [image_size] is a dataset
    of well-formed CPU tensors of shape [3, height, width], whatever
    corner is drawn: what [train_gan] asks of its argument.  The scalar
    type must tell [0.5] from [0]. *)
Theorem preprocess_dataset_ok ds th tw :
  (half : R) ≠ 0%sc →
  Forall (decoded (λ img, pil_wf img ∧ th ≤ pil_h img ∧ tw ≤ pil_w img))
    (samples ds) →
  dataset_ok [3; th; tw] (folder_dataset (preprocess (th, tw) ds).2).
Proof. intros Hhalf. by apply preprocess_fits. Qed.

(** C25 (error).  Fetching an image that is smaller than the crop
    raises [ValueError], before any random number is drawn. *)
Theorem preprocess_small_image_raises ds th tw i img target g :
  samples ds !! i = Some (Some img, target) →
  pil_h img < th ∨ pil_w img < tw →
  ds_getitem (folder_dataset (preprocess (th, tw) ds).2) i g = (Err ValueError, g).
Proof.
  intros Hs Hsmall. unfold folder_dataset, preprocess, modify.
  cbn [ds_getitem samples transform snd]. rewrite run_lift_bind, Hs.
  cbn [of_option]. rewrite run_lift_bind. cbn [of_option].
  by rewrite (run_bind_Err _ _ _ _ _ (the_transform_small th tw img g Hsmall)).
Qed.
End preprocess_theorems.

(** ** Theorems: the range of the pixels, over the rationals *)

Section range.
Context {Rng : Type} `{Random Rng}.
Implicit Types (ds : image_folder Qc Rng) (g : Rng).

(** A byte scaled to [0, 1] and normalised with mean and deviation
    [0.5] lies in [-1, 1]. *)
Lemma normalize_byte_range (v : nat) :
  v < 256 →
  (- 1 <= (sc_of_nat v / sc_of_nat 255 - half) / half)%Qc
  ∧ ((sc_of_nat v / sc_of_nat 255 - half) / half <= 1)%Qc.
Proof.
  intros Hv. unfold half. simpl.
  unfold Qcle, Qcdiv, Qcminus, Qcinv, Qcmult, Qcplus, Qcopp, Q2Qc. cbn [this].
  rewrite !Qred_correct.
  change (inject_Z (Z.of_nat 255)) with (255 # 1)%Q.
  change (inject_Z (Z.of_nat 2)) with (2 # 1)%Q.
  assert (0 <= inject_Z (Z.of_nat v) <= 255 # 1)%Q as Hq.
  { change 0%Q with (inject_Z 0). change (255 # 1)%Q with (inject_Z 255).
    rewrite <-!Zle_Qle. lia. }
  set (q := inject_Z (Z.of_nat v)) in *. clearbody q.
  assert ((q * / (255 # 1) + - (1 * / (2 # 1))) * / (1 * / (2 # 1))
          == (2 # 255) * q - 1)%Q as -> by (field; done).
  lra.
Qed.

(** C26 (bounds).  Every element of every tensor fetched from a
    preprocessed folder lies in [-1, 1], whatever was cropped. *)
Theorem preprocess_range ds size i g t target g' :
  Forall (λ s, from_option (λ img, Forall (λ v, v < 256) (pil_data img)) True s.1)
    (samples ds) →
  ds_getitem (folder_dataset (preprocess size ds).2) i g = (Ok (t, target), g') →
  Forall (λ x : Qc, (- 1 <= x)%Qc ∧ (x <= 1)%Qc) (data t).
Proof.
  intros Hall. unfold folder_dataset, preprocess, modify.
  cbn [ds_getitem samples transform snd]. rewrite run_lift_bind.
  destruct (samples ds !! i) as [[[img|] tg]|] eqn:Hs; [|done..].
  cbn [of_option]. rewrite run_lift_bind. cbn [of_option].
  unfold the_transform. rewrite !run_bind.
  destruct (RandomCrop size img g) as [[img'|e] g1] eqn:Hc; [|done].
  unfold lift.
  destruct (Normalize _ _ (ToTensor img')) as [t'|] eqn:Hn; [|done].
  intros [= <- <- <-].
  pose proof (Forall_lookup_1 _ _ _ _ Hall Hs) as Hpx. simpl in Hpx.
  eapply (Normalize_elements _ _ _ _ _ _ 3 (pil_h img') (pil_w img')).
  8: exact Hn. 7: by eapply ToTensor_elements, RandomCrop_bytes.
  - reflexivity.
  - apply ToTensor_wf.
  - reflexivity.
  - reflexivity.
  - apply halves_neq_0. by vm_compute.
  - intros x m sd (v & Hv & ->) Hm Hsd.
    apply elem_of_halves in Hm as ->. apply elem_of_halves in Hsd as ->.
    by apply normalize_byte_range.
Qed.
End range.

(** ** Theorems: saved parameters *)

Section model_file_theorems.
Context {R : Type} `{Models R}.
Context {AG : Autograd R gen_params} {AD : Autograd R dis_params}.
Implicit Types (fs : file_system) (sd : state_dict) (dv : torch_device).
Implicit Types (m : nn_module gen_params (grad_t (Autograd := AG))).

(** ** Specification *)

(** What importing a file that holds [sd] gives. *)
Definition loaded (cuda_count : nat) (params_device : torch_device) sd :
    result (nn_module gen_params (grad_t (Autograd := AG))) :=
  if available cuda_count (saved_on sd) then
    match sd with
    | GeneratorState θ _ => Ok (NnModule θ None true params_device)
    | DiscriminatorState _ _ => Err (RuntimeError StateDictKeys)
    end
  else Err (RuntimeError NoSuchDevice).

(** ** Lemmas *)

(** Exporting touches one path. *)
Lemma export_model_run model model_path fs :
  export_model model model_path fs
  = (Ok (), <[model_path := state_dict_of model]> fs).
Proof. reflexivity. Qed.

(** [torch.load] reads the file system and leaves it as it is. *)
Lemma torch_load_run cuda_count model_path fs :
  torch_load cuda_count model_path fs
  = (match fs !! model_path with
     | Some sd =>
         if available cuda_count (saved_on sd) then Ok sd
         else Err (RuntimeError NoSuchDevice)
     | None => Err FileNotFoundError
     end, fs).
Proof.
  unfold torch_load. rewrite run_get_bind.
  destruct (fs !! model_path) as [sd|]; [|done]. cbn [of_option].
  rewrite run_lift_Ok_bind. by destruct (available _ _).
Qed.

(** And so does importing. *)
Lemma import_model_run cuda_count params_device θ0 model_path fs :
  import_model cuda_count params_device θ0 model_path fs
  = (match fs !! model_path with
     | Some sd => loaded cuda_count params_device sd
     | None => Err FileNotFoundError
     end, fs).
Proof.
  unfold import_model, loaded. rewrite run_bind, torch_load_run.
  destruct (fs !! model_path) as [sd|]; [|done].
  by destruct (available _ _), sd.
Qed.

(** An export to another path does not change what is imported. *)
Lemma import_model_frame cuda_count params_device θ0 model model_path other fs :
  other ≠ model_path →
  (import_model cuda_count params_device θ0 model_path
     (export_model model other fs).2).1
  = (import_model cuda_count params_device θ0 model_path fs).1.
Proof.
  intros Hne. rewrite export_model_run. cbn [snd].
  rewrite !import_model_run. cbn [fst].
  unfold file_system. by rewrite lookup_insert_ne.
Qed.

(** Import after export, whatever was exported. *)
Lemma export_import_run model cuda_count params_device θ0 model_path fs :
  (_ ← export_model model model_path;
   import_model cuda_count params_device θ0 model_path) fs
  = (loaded cuda_count params_device (state_dict_of model),
     <[model_path := state_dict_of model]> fs).
Proof.
  rewrite run_bind, export_model_run, import_model_run.
  unfold file_system. by rewrite lookup_insert_eq.
Qed.

(** ** Theorems *)


End model_file_theorems.

(** ** The theorems at concrete inputs *)

Import Toy.Toy.

Lemma Qc_half_neq_0 : (half : Qc) ≠ 0%sc.
Proof. by vm_compute. Qed.

(** Two images of two rows and three columns, and one of a single
    row. *)
Definition rgb_image (h w v : nat) : pil_image :=
  PilImage h w ((λ k, (v + k) `mod` 256) <$> seq 0 (h * w * 3)).

Definition rgb_folder : image_folder Qc nat :=
  ImageFolder [(Some (rgb_image 2 3 0), 0); (Some (rgb_image 2 3 250), 1)] None.

Definition thin_folder : image_folder Qc nat :=
  ImageFolder [(Some (rgb_image 1 3 0), 0)] None.

Lemma rgb_image_wf h w v : pil_wf (rgb_image h w v).
Proof.
  split; simpl; [by rewrite length_fmap, length_seq|].
  apply Forall_fmap, Forall_true. intros k.
  apply (Nat.mod_upper_bound (v + k) 256). lia.
Qed.

Lemma rgb_folder_fits :
  Forall (decoded (λ img, pil_wf img ∧ 2 ≤ pil_h img ∧ 2 ≤ pil_w img))
    (samples rgb_folder).
Proof.
  repeat apply Forall_cons_2; [..|apply Forall_nil_2];
    (split; [apply rgb_image_wf|cbn [fst pil_h pil_w rgb_image]; lia]).
Qed.

Lemma preprocess_dataset_ok_witness :
  ∃ img lbl g',
    ds_getitem (folder_dataset (preprocess (2, 2) rgb_folder).2) 1 1
    = (Ok (img, lbl), g')
    ∧ shape img = [3; 2; 2] ∧ dev img = Cpu ∧ wf img.
Proof.
  apply (preprocess_dataset_ok rgb_folder 2 2 Qc_half_neq_0 rgb_folder_fits).
  simpl. lia.
Defined.

Lemma rgb_folder_bytes :
  Forall (λ s, from_option (λ img, Forall (λ v, v < 256) (pil_data img)) True s.1)
    (samples rgb_folder).
Proof.
  eapply list.Forall_impl; [exact rgb_folder_fits|].
  by intros [[img|] ?] Hs; [destruct Hs as [[_ ?] _]|].
Qed.

Lemma rgb_folder_fetch :
  ∃ t lbl g',
    ds_getitem (folder_dataset (preprocess (2, 2) rgb_folder).2) 1 1
    = (Ok (t, lbl), g').
Proof. eexists _, _, _. by vm_compute. Qed.

Lemma preprocess_small_image_raises_witness :
  ds_getitem (folder_dataset (preprocess (2, 2) thin_folder).2) 0 7
  = (Err ValueError, 7).
Proof.
  apply (preprocess_small_image_raises thin_folder 2 2 0 (rgb_image 1 3 0) 0 7).
  - reflexivity.
  - left. simpl. lia.
Defined.

Lemma preprocess_range_witness :
  ∃ t lbl g',
    ds_getitem (folder_dataset (preprocess (2, 2) rgb_folder).2) 1 1
    = (Ok (t, lbl), g')
    ∧ Forall (λ x : Qc, (- 1 <= x)%Qc ∧ (x <= 1)%Qc) (data t).
Proof.
  destruct rgb_folder_fetch as (t & lbl & g' & Hget).
  exists t, lbl, g'. split; [exact Hget|].
  exact (preprocess_range rgb_folder (2, 2) 1 1 t lbl g' rgb_folder_bytes Hget).
Defined.

Definition toy_fs : file_system (R := Z) := ∅.
