(* ===== verification/ImportData.v ===== *)
(** * ImportData: [import_data] of [src/ops_data.py]

    [import_data(data_root)] builds [datasets.ImageFolder(root=data_root)]:
    the sub-directories of [data_root] are the classes, numbered in the
    order of their sorted names, and every file below the folder of a
    class whose name ends in an image extension is a sample of that
    class.  The disk is a finite map from the paths a caller may name
    to trees of directories and files ([gmap string node]); a directory lists its entries
    in the order [os.scandir] happens to return them, and a file holds
    the picture the loader decodes from it, if it is one.  The
    constructor follows the documented behaviour of torchvision's
    [find_classes], [make_dataset] and [DatasetFolder.__init__]
    (releases that raise [FileNotFoundError] for a root without class
    folders and for a class without a valid file).  Names are byte
    strings, compared byte by byte as Python compares the code points
    of UTF-8 text; [lower] acts on the ASCII letters, which is all the
    test of the extension can see.  Symbolic links, the expansion of
    [~] in the root and a disk that changes between two fetches are
    not modelled. *)

From Stdlib Require Import Ascii.
From stdpp Require Import base tactics option list numbers strings gmap sorting.
From S2P Require Import Prelude Scalar Tensor Externals DataLoader OpsData.

(** ** The disk *)

(** A file with what the loader decodes from it, or a directory with
    its entries by name. *)
#[local] Unset Elimination Schemes.
Inductive node : Type :=
  | File (content : option pil_image)
  | Dir (entries : list (string * node)).
#[local] Set Elimination Schemes.

(** [entry.is_dir()] *)
Definition is_dir (n : node) : bool :=
  match n with Dir _ => true | File _ => false end.

(** ** Strings and paths *)

(** [sorted(l, key=key)], the names compared byte by byte. *)
Definition sorted {A} (key : A → string) (l : list A) : list A :=
  merge_sort (λ a b, String.le (key a) (key b)) l.

(** [str.lower], on ASCII. *)
Fixpoint lower (s : string) : string :=
  match s with
  | EmptyString => EmptyString
  | String c s =>
      let n := Ascii.nat_of_ascii c in
      String (if decide (65 ≤ n ≤ 90) then Ascii.ascii_of_nat (n + 32) else c)
        (lower s)
  end.

(** [str.endswith] *)
Definition endswith (s suffix : string) : bool :=
  bool_decide (String.list_ascii_of_string suffix
               `suffix_of` String.list_ascii_of_string s).

(** [os.path.join] of two components. *)
Definition path_join (a b : string) : string :=
  if String.prefix "/" b then b
  else if bool_decide (a = "") || endswith a "/" then a +:+ b
  else a +:+ "/" +:+ b.

(** ** [torchvision.datasets.folder] *)

(** [has_file_allowed_extension(filename, IMG_EXTENSIONS)]: the name
    in lower case ends with one of the extensions. *)
Definition is_image_file (filename : string) : bool :=
  existsb (endswith (lower filename))
    [".jpg"; ".jpeg"; ".png"; ".ppm"; ".bmp"; ".pgm"; ".tif"; ".tiff"; ".webp"].

Arguments is_image_file : simpl never.
Arguments path_join : simpl never.

(** [os.walk(top)], top down: a directory with its files, then what
    is below each of its sub-directories.  Each triple is cut down to
    the path of the directory and its files. *)
Fixpoint walk (top : string) (n : node) :
    list (string * list (string * option pil_image)) :=
  match n with
  | File _ => []
  | Dir entries =>
      (top, omap (λ e, match e.2 with
                       | File content => Some (e.1, content)
                       | Dir _ => None
                       end) entries)
      :: (e ← entries; walk (path_join top e.1) e.2)
  end.

(** [find_classes(directory)]: the sorted names of the sub-directories
    and their indices. *)
Definition find_classes (entries : list (string * node)) :
    result (list string * list (string * nat)) :=
  let classes := sorted id (fst <$> filter (λ e, is_dir e.2) entries) in
  if decide (classes = []) then Err FileNotFoundError
  else Ok (classes, zip classes (seq 0 (length classes))).

(** What [make_dataset] finds for one class: when its folder is a
    directory, the files below it that have an image extension, the
    directories in the order of their paths and the files of each in
    the order of their names. *)
Definition class_instances (directory : string) (entries : list (string * node))
    (c : string * nat) : list (string * option pil_image * nat) :=
  let '(target_class, class_index) := c in
  let target_dir := path_join directory target_class in
  match (list_to_map entries : gmap string node) !! target_class with
  | Some (Dir es) =>
      '(root, fnames) ← sorted fst (walk target_dir (Dir es));
      '(fname, content) ← sorted fst fnames;
      let path := path_join root fname in
      if is_image_file path then [(path, content, class_index)] else []
  | _ => []
  end.

(** [make_dataset(directory, class_to_idx, extensions=IMG_EXTENSIONS)]:
    the instances of every class, or [FileNotFoundError] when a class
    has none. *)
Definition make_dataset (directory : string) (entries : list (string * node))
    (class_to_idx : list (string * nat)) :
    result (list (string * option pil_image * nat)) :=
  let found :=
    (λ c, (c.1, class_instances directory entries c)) <$> sorted fst class_to_idx in
  let instances := mjoin (snd <$> found) in
  let available_classes := fst <$> filter (λ c, c.2 ≠ []) found in
  let empty_classes := filter (λ c, c ∉ available_classes) (fst <$> class_to_idx) in
  if decide (empty_classes = []) then Ok instances else Err FileNotFoundError.

(** ** The tree as a specification *)

(** A name of an entry: not empty, without a separator. *)
Definition name_ok (name : string) : Prop :=
  name ≠ "" ∧ "/"%char ∉ String.list_ascii_of_string name.

#[export] Instance name_ok_dec name : Decision (name_ok name).
Proof. unfold name_ok. apply _. Defined.

(** The entries of every directory have names, distinct ones. *)
Fixpoint node_wfb (n : node) : bool :=
  match n with
  | File _ => true
  | Dir entries =>
      bool_decide (NoDup entries.*1 ∧ Forall name_ok entries.*1)
      && forallb (λ e, node_wfb e.2) entries
  end.

Definition node_wf (n : node) : Prop := node_wfb n.

(** The node at the end of a path of names. *)
Fixpoint resolve (n : node) (names : list string) : option node :=
  match names with
  | [] => Some n
  | name :: names =>
      match n with
      | Dir entries =>
          (list_to_map entries : gmap string node) !! name ≫= λ c, resolve c names
      | File _ => None
      end
  end.

(** The files of a listing, as [os.walk] reports them. *)
Definition files_of (entries : list (string * node)) :
    list (string * option pil_image) :=
  omap (λ e, match e.2 with
             | File content => Some (e.1, content)
             | Dir _ => None
             end) entries.

(** The path of names below [top], as a string. *)
Definition path_of (top : string) (names : list string) : string :=
  foldl path_join top names.

Arguments path_of : simpl never.

(** The number of files with an image extension in and below a
    directory whose path is [top]. *)
Fixpoint count_images (top : string) (n : node) : nat :=
  match n with
  | File _ => 0
  | Dir entries =>
      length (filter (λ f, is_image_file (path_join top f.1)) (files_of entries))
      + sum_list_with (λ e, count_images (path_join top e.1) e.2) entries
  end.

Section import_data.
Context {R Rng : Type}.

(** [ImageFolder(root)]: the classes, the instances, no transform.
    The sample keeps of an instance what the loader reads at its
    path. *)
Definition ImageFolder_init (root : string) : stx (gmap string node) (image_folder R Rng) :=
  fs ← get;
  n ← lift (of_option (fs !! root) FileNotFoundError);
  entries ← match n with
            | Dir entries => mret entries
            | File _ => raise NotADirectoryError
            end;
  '(classes, class_to_idx) ← lift (find_classes entries);
  instances ← lift (make_dataset root entries class_to_idx);
  mret (ImageFolder ((λ i, (i.1.2, i.2)) <$> instances) None).

(** [import_data(data_root)] (lines 10-11) *)
Definition import_data (data_root : string) : stx (gmap string node) (image_folder R Rng) :=
  ImageFolder_init data_root.
End import_data.

(** ** Lemmas: lists in blocks *)

Lemma bind_eq_nil {A B} (f : A → list B) (l : list A) :
  l ≫= f = [] ↔ Forall (λ x, f x = []) l.
Proof.
  induction l as [|x l IH]; [by split|].
  rewrite list.Forall_cons, <-IH. cbn. apply app_nil.
Qed.

Lemma bind_neq_nil {A B} (f : A → list B) (l : list A) :
  l ≫= f ≠ [] ↔ Exists (λ x, f x ≠ []) l.
Proof.
  induction l as [|x l IH]; [rewrite Exists_nil; by split; [intros []|]|].
  rewrite List.Exists_cons, <-IH. cbn.
  destruct (f x) as [|y k]; cbn; [|by split; [left|]].
  split; [by right|by intros [[]|]].
Qed.

Lemma length_bind {A B} (f : A → list B) (l : list A) :
  length (l ≫= f) = sum_list_with (λ x, length (f x)) l.
Proof. induction l as [|x l IH]; [done|]. by rewrite bind_cons, length_app, IH. Qed.

Lemma length_bind_if {A B} (b : A → bool) (g : A → B) (l : list A) :
  length (l ≫= λ x, if b x then [g x] else []) = length (filter (λ x, b x) l).
Proof.
  induction l as [|x l IH]; [done|]. rewrite bind_cons, length_app, filter_cons, IH.
  by destruct (b x).
Qed.

Lemma sum_list_with_ext {A} (f g : A → nat) (l : list A) :
  Forall (λ x, f x = g x) l → sum_list_with f l = sum_list_with g l.
Proof. induction 1 as [|x l Hx _ IH]; [done|]. cbn. by rewrite Hx, IH. Qed.

Lemma sum_list_with_bind {A B} (f : B → nat) (g : A → list B) (l : list A) :
  sum_list_with f (l ≫= g) = sum_list_with (λ x, sum_list_with f (g x)) l.
Proof.
  induction l as [|x l IH]; [done|]. by rewrite bind_cons, sum_list_with_app, IH.
Qed.

Lemma sum_list_with_filter {A} (P : A → Prop) `{!∀ x, Decision (P x)}
    (f : A → nat) (l : list A) :
  Forall (λ x, ¬ P x → f x = 0) l → sum_list_with f (filter P l) = sum_list_with f l.
Proof.
  induction 1 as [|x l Hx _ IH]; [done|]. rewrite filter_cons.
  case_decide; cbn; rewrite IH; [done|]. by rewrite Hx.
Qed.

(** A sum over numbered keys that does not look at the numbers. *)
Lemma sum_list_with_zip {A B C} (key : A → C) (f : C * B → nat) (g : A → nat)
    (l : list A) (k : list B) :
  length l = length k → Forall (λ x, ∀ i, f (key x, i) = g x) l →
  sum_list_with f (zip (key <$> l) k) = sum_list_with g l.
Proof.
  intros Hlen Hfg. revert k Hlen.
  induction Hfg as [|x l Hx _ IH]; intros [|i k] Hlen; try done.
  cbn. rewrite Hx, (IH k); [done|]. by injection Hlen.
Qed.

Lemma StronglySorted_constant {A} (R : relation A) `{!Reflexive R} (c : A) l :
  Forall (λ x, x = c) l → StronglySorted R l.
Proof.
  induction 1 as [|x l -> Hl IH]; constructor; [done|].
  eapply list.Forall_impl; [exact Hl|]. by intros y ->.
Qed.

Lemma StronglySorted_seq a n : StronglySorted le (seq a n).
Proof.
  revert a. induction n as [|n IH]; intros a; constructor; [apply IH|].
  apply Forall_seq. lia.
Qed.

(** Blocks of equal keys, the keys of the blocks sorted, are sorted. *)
Lemma StronglySorted_blocks {A B C} (R : relation C) `{!Reflexive R}
    (f : A → C) (g : B → C) (h : A → list B) (l : list A) :
  (∀ x, Forall (λ y, g y = f x) (h x)) →
  StronglySorted R (f <$> l) → StronglySorted R (g <$> (l ≫= h)).
Proof.
  intros Hblock. induction l as [|a l IH]; [constructor|].
  rewrite fmap_cons. intros [Ha Hl]%StronglySorted_cons.
  cbn. rewrite fmap_app. apply StronglySorted_app_2; [| |by apply IH].
  - intros x1 x2 (y1 & -> & Hy1)%list_elem_of_fmap (y2 & -> & Hy2)%list_elem_of_fmap.
    apply list_elem_of_bind in Hy2 as (a' & Hy2 & Ha').
    rewrite (proj1 (Forall_forall _ _) (Hblock a) y1 Hy1).
    rewrite (proj1 (Forall_forall _ _) (Hblock a') y2 Hy2).
    apply (proj1 (Forall_forall _ _) Ha). by apply list_elem_of_fmap_2.
  - apply (StronglySorted_constant R (f a)), Forall_fmap, Hblock.
Qed.

(** ** Lemmas: sorting by name *)

Section sorted.
Context {A : Type} (key : A → string).
Implicit Types (l : list A) (a b : A).

Local Notation "'key_le'" := (λ a b, String.le (key a) (key b)) (only parsing).

#[local] Instance key_le_trans : Transitive key_le.
Proof. intros a b c. apply transitivity. Qed.

#[local] Instance key_le_total : Total key_le.
Proof. intros a b. apply total, _. Qed.

Lemma sorted_Permutation l : sorted key l ≡ₚ l.
Proof. apply (merge_sort_Permutation key_le). Qed.

Lemma sorted_sorted l : StronglySorted key_le (sorted key l).
Proof. apply (StronglySorted_merge_sort key_le). Qed.

Lemma elem_of_sorted l a : a ∈ sorted key l ↔ a ∈ l.
Proof. by rewrite sorted_Permutation. Qed.

Lemma length_sorted l : length (sorted key l) = length l.
Proof. by rewrite sorted_Permutation. Qed.

Lemma sorted_nil l : sorted key l = [] ↔ l = [].
Proof.
  split; [|by intros ->].
  intros Hs. apply Permutation_nil. by rewrite <-Hs, sorted_Permutation.
Qed.

(** In a list without two entries of one name the name determines
    the entry. *)
Lemma NoDup_key_eq l a b : NoDup (key <$> l) → a ∈ l → b ∈ l → key a = key b → a = b.
Proof.
  intros Hnd [i Hi]%list_elem_of_lookup [j Hj]%list_elem_of_lookup Hab.
  assert (i = j) as ->; [|congruence].
  apply (NoDup_lookup _ i j (key a) Hnd); rewrite list_lookup_fmap.
  - by rewrite Hi.
  - by rewrite Hj, Hab.
Qed.

Lemma keyed_sorted_unique l l' :
  NoDup (key <$> l) → StronglySorted key_le l → StronglySorted key_le l' →
  l ≡ₚ l' → l = l'.
Proof.
  intros Hnd Hl Hl' Hp. apply (StronglySorted_unique_strong key_le); [|done..].
  intros a b Ha Hb Hab Hba. rewrite <-Hp in Hb.
  apply (NoDup_key_eq l); [done..|]. by apply (anti_symm String.le).
Qed.

(** The order of the input does not matter to [sorted]. *)
Lemma sorted_perm l l' : NoDup (key <$> l) → l ≡ₚ l' → sorted key l = sorted key l'.
Proof.
  intros Hnd Hp. apply keyed_sorted_unique; try apply sorted_sorted.
  - by rewrite sorted_Permutation.
  - by rewrite !sorted_Permutation.
Qed.

Lemma sorted_id l : NoDup (key <$> l) → StronglySorted key_le l → sorted key l = l.
Proof.
  intros Hnd Hl. symmetry. apply keyed_sorted_unique; try done.
  - apply sorted_sorted.
  - by rewrite sorted_Permutation.
Qed.

End sorted.

(** Sorting by a key sorts the keys. *)
Lemma sorted_keys {A} (key : A → string) (l : list A) :
  key <$> sorted key l = sorted id (key <$> l).
Proof.
  apply (StronglySorted_unique String.le).
  - eapply StronglySorted_fmap, sorted_sorted. done.
  - apply (sorted_sorted id).
  - by rewrite (sorted_Permutation id), sorted_Permutation.
Qed.

(** ** Lemmas: the tree *)

(** Induction on a tree: a property of a directory follows from the
    property of its entries. *)
Lemma node_tree_ind (P : node → Prop) :
  (∀ content, P (File content)) →
  (∀ entries, Forall (λ e, P e.2) entries → P (Dir entries)) →
  ∀ n, P n.
Proof.
  intros Hfile Hdir. fix IH 1. intros [content|entries]; [apply Hfile|].
  apply Hdir. induction entries as [|[name n] entries IHes]; constructor.
  - apply IH.
  - apply IHes.
Qed.

Lemma node_wf_Dir entries :
  node_wf (Dir entries)
  ↔ NoDup entries.*1 ∧ Forall name_ok entries.*1
    ∧ Forall (λ e, node_wf e.2) entries.
Proof.
  unfold node_wf. cbn [node_wfb].
  rewrite andb_True, bool_decide_spec, forallb_True. tauto.
Qed.

Lemma resolve_app n names1 names2 :
  resolve n (names1 ++ names2) = resolve n names1 ≫= λ m, resolve m names2.
Proof.
  revert n. induction names1 as [|name names1 IH]; intros n; [done|].
  cbn. destruct n as [content|entries]; [done|].
  destruct (_ !! name) as [c|]; [apply IH|done].
Qed.

(** [os.walk] visits the directories below its top, each with its
    files. *)
Lemma elem_of_walk n top root fnames :
  node_wf n →
  (root, fnames) ∈ walk top n
  ↔ ∃ names es,
      resolve n names = Some (Dir es) ∧ root = path_of top names
      ∧ fnames = files_of es.
Proof.
  revert top.
  induction n as [content|entries IH] using node_tree_ind; intros top Hwf.
  { cbn [walk]. rewrite elem_of_nil. split; [done|].
    by intros ([|name names] & es & ? & _). }
  apply node_wf_Dir in Hwf as (Hnd & _ & Hwf).
  cbn [walk]. rewrite elem_of_cons, list_elem_of_bind. split.
  - intros [[= -> ->]|([name c] & Hin & Hc)]; [by exists [], entries|].
    pose proof (proj1 (Forall_forall _ _) IH _ Hc) as IHc.
    apply IHc in Hin as (names & es & Hres & -> & ->);
      [|by apply (proj1 (Forall_forall _ _) Hwf _ Hc)].
    exists (name :: names), es. split_and!; try done. cbn.
    by rewrite (proj1 (elem_of_list_to_map (M := gmap string) _ _ _ Hnd) Hc).
  - intros ([|name names] & es & Hres & -> & ->).
    { left. by injection Hres as ->. }
    right. cbn in Hres.
    destruct (_ !! name) as [c|] eqn:Hc; [|done]. cbn in Hres.
    apply (elem_of_list_to_map (M := gmap string) _ _ _ Hnd) in Hc.
    exists (name, c). split; [|done].
    apply (proj1 (Forall_forall _ _) IH _ Hc); [|by exists names, es].
    by apply (proj1 (Forall_forall _ _) Hwf _ Hc).
Qed.

Lemma resolve_File content names m :
  resolve (File content) names = Some m → names = [] ∧ m = File content.
Proof. destruct names; [by intros [= <-]|done]. Qed.

Lemma resolve_cons entries name names c :
  NoDup entries.*1 → (name, c) ∈ entries →
  resolve (Dir entries) (name :: names) = resolve c names.
Proof.
  intros Hnd Hin. cbn.
  by rewrite (proj1 (elem_of_list_to_map (M := gmap string) _ _ _ Hnd) Hin).
Qed.

Lemma resolve_cons_inv entries name names m :
  NoDup entries.*1 →
  resolve (Dir entries) (name :: names) = Some m →
  ∃ c, (name, c) ∈ entries ∧ resolve c names = Some m.
Proof.
  intros Hnd. cbn. destruct (_ !! name) as [c|] eqn:Hc; [|done]. cbn.
  apply (elem_of_list_to_map (M := gmap string) _ _ _ Hnd) in Hc. by exists c.
Qed.

(** What is reached in a well-formed tree is well formed. *)
Lemma resolve_wf n names m : node_wf n → resolve n names = Some m → node_wf m.
Proof.
  revert n. induction names as [|name names IH]; intros n Hwf; [by intros [= <-]|].
  destruct n as [content|entries]; [done|].
  apply node_wf_Dir in Hwf as (Hnd & _ & Hwf).
  intros (c & Hc & Hres)%resolve_cons_inv; [|done].
  apply (IH c); [|done]. by apply (proj1 (Forall_forall _ _) Hwf _ Hc).
Qed.

Lemma elem_of_files_of entries fname content :
  (fname, content) ∈ files_of entries ↔ (fname, File content) ∈ entries.
Proof.
  unfold files_of. rewrite list_elem_of_omap. split.
  - intros ([name [c|es]] & Hin & [= <- <-]). done.
  - intros Hin. by exists (fname, File content).
Qed.

(** The files of a directory are what their names resolve to. *)
Lemma resolve_file n fname content :
  node_wf n →
  resolve n [fname] = Some (File content)
  ↔ ∃ es, n = Dir es ∧ (fname, content) ∈ files_of es.
Proof.
  intros Hwf. destruct n as [c|es].
  { split; [done|]. by intros (es & [=] & _). }
  apply node_wf_Dir in Hwf as (Hnd & _ & _). split.
  - intros (c & Hc & [= ->])%resolve_cons_inv; [|done].
    exists es. by rewrite elem_of_files_of.
  - intros (? & [= <-] & Hin%elem_of_files_of). by rewrite (resolve_cons es _ _ _ Hnd Hin).
Qed.

(** A file is reached through the directory that lists it. *)
Lemma resolve_snoc_file n names fname content :
  node_wf n →
  resolve n (names ++ [fname]) = Some (File content)
  ↔ ∃ es, resolve n names = Some (Dir es) ∧ (fname, content) ∈ files_of es.
Proof.
  intros Hwf. rewrite resolve_app.
  destruct (resolve n names) as [m|] eqn:Hm; [|split; [done|by intros (? & ? & _)]].
  change (resolve m [fname] = Some (File content)
          ↔ ∃ es, Some m = Some (Dir es) ∧ (fname, content) ∈ files_of es).
  rewrite resolve_file by (by eapply resolve_wf).
  split; intros (es & Hes & Hf); exists es; by simplify_eq.
Qed.

Lemma path_of_snoc top names name :
  path_of top (names ++ [name]) = path_join (path_of top names) name.
Proof. unfold path_of. by rewrite foldl_app. Qed.

Lemma path_of_class directory name names fname :
  path_of directory (name :: names ++ [fname])
  = path_join (path_of (path_join directory name) names) fname.
Proof. apply (path_of_snoc (path_join directory name)). Qed.

(** ** Lemmas: [find_classes] and [make_dataset] *)

Section folder_lemmas.
Implicit Types (entries : list (string * node)) (c : string * nat).
Implicit Types (classes : list string) (class_to_idx : list (string * nat)).

(** The classes of a listing: the sorted names of its directories. *)
Definition classes_of entries : list string :=
  sorted id (filter (λ e, is_dir e.2) entries).*1.

(** [enumerate(classes)], the name first. *)
Definition enumerate classes : list (string * nat) :=
  zip classes (seq 0 (length classes)).

Lemma find_classes_run entries :
  find_classes entries
  = if decide (filter (λ e, is_dir e.2) entries = []) then Err FileNotFoundError
    else Ok (classes_of entries, enumerate (classes_of entries)).
Proof.
  unfold find_classes, classes_of, enumerate. cbn zeta.
  destruct (decide (filter _ entries = [])) as [->|Hne]; [done|].
  case_decide as Hs; [|done].
  by apply sorted_nil, fmap_nil_inv in Hs.
Qed.

Lemma length_classes_of entries :
  length (classes_of entries) = length (filter (λ e, is_dir e.2) entries).
Proof. unfold classes_of. by rewrite length_sorted, length_fmap. Qed.

Lemma NoDup_classes_of entries : NoDup entries.*1 → NoDup (classes_of entries).
Proof.
  intros Hnd. unfold classes_of. rewrite sorted_Permutation.
  eapply sublist_NoDup; [done|]. apply fmap_sublist, sublist_filter.
Qed.

Lemma elem_of_classes_of entries name :
  name ∈ classes_of entries ↔ ∃ n, (name, n) ∈ entries ∧ is_dir n.
Proof.
  unfold classes_of. rewrite elem_of_sorted, list_elem_of_fmap. split.
  - intros ([name' n] & -> & [Hd Hin]%list_elem_of_filter). by exists n.
  - intros (n & Hin & Hd). exists (name, n). by rewrite list_elem_of_filter.
Qed.

Lemma fst_enumerate classes : (enumerate classes).*1 = classes.
Proof. apply fst_zip. by rewrite length_seq. Qed.

Lemma snd_enumerate classes : (enumerate classes).*2 = seq 0 (length classes).
Proof. apply snd_zip. by rewrite length_seq. Qed.

(** Numbering a sorted list of distinct names keeps it sorted. *)
Lemma sorted_enumerate classes :
  NoDup classes → StronglySorted String.le classes →
  sorted fst (enumerate classes) = enumerate classes.
Proof.
  intros Hnd Hs. pose proof (fst_enumerate classes) as Hfst.
  apply sorted_id; [by rewrite Hfst|].
  revert Hfst Hs. generalize (enumerate classes). intros l <-. clear Hnd.
  induction l as [|a l IH]; [constructor|].
  rewrite fmap_cons. intros [Hl Ha]%StronglySorted_inv.
  constructor; [by apply IH|]. by rewrite Forall_fmap in Ha.
Qed.

Lemma sorted_enumerate_classes entries :
  NoDup entries.*1 →
  sorted fst (enumerate (classes_of entries)) = enumerate (classes_of entries).
Proof.
  intros Hnd. apply sorted_enumerate; [by apply NoDup_classes_of|].
  apply (sorted_sorted id).
Qed.

(** [make_dataset] on distinct class names: every class must have an
    instance, and the instances come class by class. *)
Lemma make_dataset_run directory entries class_to_idx :
  NoDup class_to_idx.*1 →
  make_dataset directory entries class_to_idx
  = if decide (Forall (λ c, class_instances directory entries c ≠ []) class_to_idx)
    then Ok (sorted fst class_to_idx ≫= class_instances directory entries)
    else Err FileNotFoundError.
Proof.
  intros Hnd. unfold make_dataset. cbn zeta.
  set (f := class_instances directory entries).
  assert (mjoin ((λ c, (c.1, f c)) <$> sorted fst class_to_idx).*2
          = sorted fst class_to_idx ≫= f) as ->.
  { rewrite list_join_bind, <-list_fmap_compose, list_fmap_bind. done. }
  assert (∀ name, name ∈ (filter (λ c : string * list _, c.2 ≠ [])
                    ((λ c, (c.1, f c)) <$> sorted fst class_to_idx)).*1
                  ↔ ∃ c, c ∈ class_to_idx ∧ c.1 = name ∧ f c ≠ []) as Hav.
  { intros name. rewrite list_elem_of_fmap. split.
    - intros ([name' l] & -> & [Hl Hin]%list_elem_of_filter).
      apply list_elem_of_fmap in Hin as (c & [= -> ->] & Hin%elem_of_sorted).
      by exists c.
    - intros (c & Hin & <- & Hc). exists (c.1, f c). split; [done|].
      apply list_elem_of_filter. split; [done|].
      apply list_elem_of_fmap. exists c. by rewrite elem_of_sorted. }
  assert (filter (λ name, name ∉ (filter (λ c : string * list _, c.2 ≠ [])
                    ((λ c, (c.1, f c)) <$> sorted fst class_to_idx)).*1)
            class_to_idx.*1 = []
          ↔ Forall (λ c, f c ≠ []) class_to_idx) as Hiff.
  { rewrite filter_eq_nil, Forall_fmap, !Forall_forall.
    split; intros Hall c Hin; specialize (Hall c Hin); cbn in *.
    - apply dec_stable, Hav in Hall as (c' & Hin' & Heq & Hc').
      by rewrite <-(NoDup_key_eq fst class_to_idx c' c).
    - intros []. apply Hav. by exists c. }
  repeat case_decide; try done; tauto.
Qed.
End folder_lemmas.

(** ** Lemmas: [import_data] *)

(** Some file below the directory has an image extension. *)
Definition has_image (top : string) (n : node) : Prop :=
  Exists (λ d, Exists (λ f, is_image_file (path_join d.1 f.1)) d.2) (walk top n).

#[export] Instance has_image_dec top n : Decision (has_image top n).
Proof. unfold has_image. apply _. Defined.

(** What every file with an image extension below the directory
    holds satisfies [P]; what one of them holds does. *)
Definition images_all (P : option pil_image → Prop) (top : string) (n : node) :
    Prop :=
  Forall (λ d, Forall (λ f, is_image_file (path_join d.1 f.1) → P f.2) d.2)
    (walk top n).

Definition images_some (P : option pil_image → Prop) (top : string) (n : node) :
    Prop :=
  Exists (λ d, Exists (λ f, is_image_file (path_join d.1 f.1) ∧ P f.2) d.2)
    (walk top n).

#[export] Instance images_all_dec P `{!∀ c, Decision (P c)} top n :
  Decision (images_all P top n).
Proof. unfold images_all. apply _. Defined.

#[export] Instance images_some_dec P `{!∀ c, Decision (P c)} top n :
  Decision (images_some P top n).
Proof. unfold images_some. apply _. Defined.

Section import_data_lemmas.
Context {R Rng : Type}.
Implicit Types (entries : list (string * node)) (c : string * nat).
Implicit Types (fs : gmap string node) (ds : image_folder R Rng).

Lemma class_instances_targets directory entries c :
  Forall (λ i, i.2 = c.2) (class_instances directory entries c).
Proof.
  destruct c as [name idx]. unfold class_instances.
  destruct (_ !! name) as [[?|es]|]; try by constructor.
  apply Forall_bind, Forall_true. intros [root fnames].
  apply Forall_bind, Forall_true. intros [fname content]. cbn.
  case_match; by repeat constructor.
Qed.

(** A class has instances when its folder is a directory with an
    image below it. *)
Lemma class_instances_nonempty directory entries name n idx :
  NoDup entries.*1 → (name, n) ∈ entries →
  class_instances directory entries (name, idx) ≠ []
  ↔ is_dir n ∧ has_image (path_join directory name) n.
Proof.
  intros Hnd Hin. unfold class_instances, has_image.
  rewrite (proj1 (elem_of_list_to_map (M := gmap string) _ _ _ Hnd) Hin).
  destruct n as [content|es]; [cbn; tauto|].
  rewrite bind_neq_nil, (sorted_Permutation fst (walk _ _)).
  split; [intros Hex; split; [done|]|intros [_ Hex]];
    (eapply list.Exists_impl; [exact Hex|]); intros [root fnames]; cbn;
    rewrite bind_neq_nil, (sorted_Permutation fst fnames);
    (intros Hf; eapply list.Exists_impl; [exact Hf|]);
    intros [fname content]; cbn; by destruct (is_image_file _).
Qed.

(** The instances of a class as [os.walk] meets them. *)
Lemma elem_of_class_instances_walk directory entries name n idx i :
  NoDup entries.*1 → (name, n) ∈ entries →
  i ∈ class_instances directory entries (name, idx)
  ↔ is_dir n
    ∧ ∃ d f, d ∈ walk (path_join directory name) n ∧ f ∈ d.2
             ∧ is_image_file (path_join d.1 f.1)
             ∧ i = (path_join d.1 f.1, f.2, idx).
Proof.
  intros Hnd Hin. unfold class_instances.
  rewrite (proj1 (elem_of_list_to_map (M := gmap string) _ _ _ Hnd) Hin).
  destruct n as [content|es]; [rewrite elem_of_nil; cbn; tauto|].
  rewrite list_elem_of_bind. split.
  - intros ([root fnames] & Hi & Hd%elem_of_sorted). cbn in Hi.
    apply list_elem_of_bind in Hi as ([fname content] & Hi & Hf%elem_of_sorted).
    cbn in Hi. destruct (is_image_file _) eqn:Himg; [|by apply elem_of_nil in Hi].
    apply list_elem_of_singleton in Hi as ->. split; [done|].
    exists (root, fnames), (fname, content). cbn. by rewrite Himg.
  - intros [_ ([root fnames] & [fname content] & Hd & Hf & Himg & ->)].
    exists (root, fnames). split; [|by apply elem_of_sorted]. cbn.
    apply list_elem_of_bind. exists (fname, content).
    split; [|by apply elem_of_sorted]. cbn in *.
    destruct (is_image_file _); [left|done].
Qed.

Lemma class_instances_all P directory entries name n idx :
  NoDup entries.*1 → (name, n) ∈ entries →
  images_all P (path_join directory name) n →
  Forall (λ i, P i.1.2) (class_instances directory entries (name, idx)).
Proof.
  intros Hnd Hin Hall. apply Forall_forall. intros i Hi.
  apply (elem_of_class_instances_walk _ _ _ n _ _ Hnd Hin) in Hi
    as (_ & d & f & Hd & Hf & Himg & ->).
  pose proof (proj1 (Forall_forall _ _) Hall d Hd) as Hfs.
  by apply (proj1 (Forall_forall _ _) Hfs f Hf).
Qed.

Lemma class_instances_some P directory entries name n idx :
  NoDup entries.*1 → (name, n) ∈ entries → is_dir n →
  images_some P (path_join directory name) n →
  Exists (λ i, P i.1.2) (class_instances directory entries (name, idx)).
Proof.
  intros Hnd Hin Hdir (d & Hd & (f & Hf & Himg & HP)%list.Exists_exists)%list.Exists_exists.
  apply list.Exists_exists. exists (path_join d.1 f.1, f.2, idx). split; [|done].
  apply (elem_of_class_instances_walk _ _ _ n _ _ Hnd Hin). split; [done|].
  by exists d, f.
Qed.

Lemma elem_of_enumerate_lookup (classes : list string) name idx :
  (name, idx) ∈ enumerate classes ↔ classes !! idx = Some name.
Proof.
  unfold enumerate. rewrite list_elem_of_lookup. split.
  - intros (i & (? & ? & [= <- <-] & Hc & [-> _]%lookup_seq)%lookup_zip_with_Some).
    done.
  - intros Hc. exists idx. apply lookup_zip_with_Some. exists name, idx.
    split_and!; [done..|]. apply lookup_seq. split; [done|].
    by eapply lookup_lt_Some.
Qed.

(** The instances of a class are the files below its folder that
    have an image extension. *)
Lemma elem_of_class_instances directory entries name idx i :
  node_wf (Dir entries) →
  i ∈ class_instances directory entries (name, idx)
  ↔ i.2 = idx
    ∧ ∃ names fname,
        resolve (Dir entries) (name :: names ++ [fname]) = Some (File i.1.2)
        ∧ i.1.1 = path_of directory (name :: names ++ [fname])
        ∧ is_image_file i.1.1.
Proof.
  intros Hwf. pose proof Hwf as (Hnd & _ & Hwfs)%node_wf_Dir.
  destruct ((list_to_map entries : gmap string node) !! name) as [n|] eqn:Hn; cycle 1.
  { unfold class_instances. rewrite Hn, elem_of_nil. split; [done|].
    intros [_ (names & fname & Hres & _)]. cbn in Hres. by rewrite Hn in Hres. }
  apply (elem_of_list_to_map (M := gmap string) _ _ _ Hnd) in Hn.
  pose proof (proj1 (Forall_forall _ _) Hwfs _ Hn) as Hwfn. cbn in Hwfn.
  rewrite (elem_of_class_instances_walk _ _ _ _ _ _ Hnd Hn).
  setoid_rewrite (resolve_cons entries _ _ _ Hnd Hn).
  setoid_rewrite (resolve_snoc_file n _ _ _ Hwfn).
  setoid_rewrite path_of_class. split.
  - intros [_ ([root fnames] & [fname content] & Hd & Hf & Himg & ->)].
    apply elem_of_walk in Hd as (names & es & Hres & -> & ->); [|done].
    split; [done|]. exists names, fname. split_and!; [by exists es|done..].
  - destruct i as [[path content] idx']. cbn [fst snd].
    intros [-> (names & fname & (es & Hres & Hf) & -> & Himg)]. split.
    { destruct n; [by apply resolve_File in Hres as [_ [=]]|done]. }
    exists (path_of (path_join directory name) names, files_of es), (fname, content).
    split_and!; [|done..]. apply elem_of_walk; [done|]. by exists names, es.
Qed.

Lemma elem_of_enumerate (classes : list string) name :
  name ∈ classes ↔ ∃ idx, (name, idx) ∈ enumerate classes.
Proof.
  rewrite <-(fst_enumerate classes) at 1. rewrite list_elem_of_fmap. split.
  - intros ([name' idx] & -> & Hin). by exists idx.
  - intros (idx & Hin). by exists (name, idx).
Qed.

(** Every class has an instance when every sub-directory has an image
    below it. *)
Lemma classes_nonempty directory entries :
  NoDup entries.*1 →
  Forall (λ c, class_instances directory entries c ≠ [])
    (enumerate (classes_of entries))
  ↔ Forall (λ e, is_dir e.2 → has_image (path_join directory e.1) e.2) entries.
Proof.
  intros Hnd. rewrite !Forall_forall. split.
  - intros Hall [name n] Hin Hd.
    destruct (proj1 (elem_of_enumerate (classes_of entries) name)) as [idx Hidx].
    { apply elem_of_classes_of. by exists n. }
    by apply (class_instances_nonempty directory entries name n idx Hnd Hin), Hall.
  - intros Hall [name idx] Hin.
    destruct (proj1 (elem_of_classes_of entries name)) as (n & Hn & Hd).
    { apply elem_of_enumerate. by exists idx. }
    apply (class_instances_nonempty directory entries name n idx Hnd Hn).
    split; [done|]. by apply (Hall (name, n)).
Qed.

(** The folder [import_data] builds from a listing. *)
Definition folder_of (data_root : string) entries : image_folder R Rng :=
  ImageFolder
    ((λ i, (i.1.2, i.2))
     <$> (enumerate (classes_of entries) ≫= class_instances data_root entries))
    None.

(** [import_data] on a directory, by its two steps: the classes,
    then the instances of each. *)
Lemma import_data_run_classes data_root fs entries :
  fs !! data_root = Some (Dir entries) → NoDup entries.*1 →
  import_data data_root fs
  = (if decide (filter (λ e, is_dir e.2) entries ≠ []
                ∧ Forall (λ c, class_instances data_root entries c ≠ [])
                    (enumerate (classes_of entries)))
     then Ok (folder_of data_root entries) else Err FileNotFoundError, fs).
Proof.
  intros Hfs Hnd. unfold import_data, ImageFolder_init.
  rewrite run_get_bind, run_lift_bind, Hfs. cbn [of_option].
  rewrite run_ret_bind, run_lift_bind, find_classes_run.
  destruct (decide (filter _ entries = [])) as [Hno|Hsome].
  { rewrite decide_False; [done|]. by intros [? _]. }
  rewrite run_lift_bind, make_dataset_run
    by (rewrite fst_enumerate; by apply NoDup_classes_of).
  rewrite sorted_enumerate_classes by done.
  repeat case_decide; try done; tauto.
Qed.

(** [import_data] on a directory: a folder when there is a class and
    no class is empty, [FileNotFoundError] else. *)
Lemma import_data_run data_root fs entries :
  fs !! data_root = Some (Dir entries) → NoDup entries.*1 →
  import_data data_root fs
  = (if decide (Exists (λ e, is_dir e.2) entries
                ∧ Forall (λ e, is_dir e.2 → has_image (path_join data_root e.1) e.2)
                    entries)
     then Ok (folder_of data_root entries) else Err FileNotFoundError, fs).
Proof.
  intros Hfs Hnd. rewrite (import_data_run_classes _ _ _ Hfs Hnd).
  pose proof (classes_nonempty data_root entries Hnd) as Hiff.
  assert (filter (λ e, is_dir e.2) entries ≠ [] ↔ Exists (λ e, is_dir e.2) entries)
    as Hex.
  { split.
    - intros Hne. apply dec_stable. intros Hno%not_Exists_Forall; [|apply _].
      by apply Hne, filter_eq_nil.
    - intros Hsome Hno%filter_eq_nil. by apply Forall_not_Exists in Hno. }
  repeat case_decide; try done; tauto.
Qed.

(** What [import_data] returns, by inversion. *)
Lemma import_data_Ok_inv data_root fs entries ds fs' :
  fs !! data_root = Some (Dir entries) → NoDup entries.*1 →
  import_data data_root fs = (Ok ds, fs') →
  ds = folder_of data_root entries ∧ fs' = fs
  ∧ Exists (λ e, is_dir e.2) entries
  ∧ Forall (λ c, class_instances data_root entries c ≠ [])
      (enumerate (classes_of entries)).
Proof.
  intros Hfs Hnd. rewrite (import_data_run data_root fs entries Hfs Hnd).
  case_decide as Hok; [|done]. intros [= <- <-]. destruct Hok as [Hex Hall].
  split_and!; try done. by apply classes_nonempty.
Qed.

(** A class of the numbering is a sub-directory of the root. *)
Lemma enumerate_classes_entry entries c :
  c ∈ enumerate (classes_of entries) → ∃ n, (c.1, n) ∈ entries ∧ is_dir n.
Proof.
  destruct c as [name idx]. intros Hc. apply elem_of_classes_of.
  apply elem_of_enumerate. by exists idx.
Qed.

(** The pictures of the samples are as the files are. *)
Lemma import_data_all P data_root fs entries ds fs' :
  fs !! data_root = Some (Dir entries) → NoDup entries.*1 →
  Forall (λ e, is_dir e.2 → images_all P (path_join data_root e.1) e.2) entries →
  import_data data_root fs = (Ok ds, fs') →
  Forall (λ smp, P smp.1) (samples ds).
Proof.
  intros Hfs Hnd Hall Hrun.
  apply (import_data_Ok_inv _ _ entries) in Hrun as (-> & _); [|done..].
  unfold folder_of. cbn [samples]. apply Forall_fmap, Forall_bind, Forall_forall.
  intros [name idx] (n & Hn & Hd)%enumerate_classes_entry.
  apply (class_instances_all P data_root entries name n idx Hnd Hn).
  by apply (proj1 (Forall_forall _ _) Hall (name, n)).
Qed.

Lemma import_data_some P data_root fs entries ds fs' :
  fs !! data_root = Some (Dir entries) → NoDup entries.*1 →
  Exists (λ e, is_dir e.2 ∧ images_some P (path_join data_root e.1) e.2) entries →
  import_data data_root fs = (Ok ds, fs') →
  Exists (λ smp, P smp.1) (samples ds).
Proof.
  intros Hfs Hnd ([name n] & Hn & Hd & Hsome)%list.Exists_exists Hrun.
  apply (import_data_Ok_inv _ _ entries) in Hrun as (-> & _); [|done..].
  destruct (proj1 (elem_of_enumerate (classes_of entries) name)) as [idx Hidx].
  { apply elem_of_classes_of. by exists n. }
  destruct (proj1 (list.Exists_exists _ _)
    (class_instances_some P data_root entries name n idx Hnd Hn Hd Hsome))
    as (i & Hi & HP).
  unfold folder_of. cbn [samples]. apply list.Exists_exists.
  exists (i.1.2, i.2). split; [|done].
  apply list_elem_of_fmap. exists i. split; [done|].
  apply list_elem_of_bind. by exists (name, idx).
Qed.

(** A folder is never without a sample. *)
Lemma import_data_nonempty data_root fs entries ds fs' :
  fs !! data_root = Some (Dir entries) → NoDup entries.*1 →
  import_data data_root fs = (Ok ds, fs') → 0 < length (samples ds).
Proof.
  intros Hfs Hnd Hrun.
  assert (Exists (λ smp : option pil_image * nat, True) (samples ds)) as Hex.
  { apply (import_data_some (λ _, True) data_root fs entries ds fs' Hfs Hnd);
      [|done].
    apply (import_data_Ok_inv _ _ entries) in Hrun as (_ & _ & Hex & Hall);
      [|done..].
    apply list.Exists_exists in Hex as ([name n] & Hn & Hd).
    apply list.Exists_exists. exists (name, n). split_and!; try done.
    destruct (proj1 (elem_of_enumerate (classes_of entries) name)) as [idx Hidx].
    { apply elem_of_classes_of. by exists n. }
    pose proof (proj1 (Forall_forall _ _) Hall _ Hidx) as Hne.
    apply (class_instances_nonempty data_root entries name n idx Hnd Hn) in Hne
      as [_ Himg].
    eapply list.Exists_impl; [exact Himg|]. intros d Hd'.
    eapply list.Exists_impl; [exact Hd'|]. by intros f ?. }
  destruct (samples ds); [by apply Exists_nil in Hex|cbn; lia].
Qed.
End import_data_lemmas.

(** ** Lemmas: the number of samples *)

Section counting.
Implicit Types (entries : list (string * node)) (top : string) (n : node).

(** [os.walk] reports every image file once. *)
Lemma walk_count top n :
  sum_list_with (λ d, length (filter (λ f, is_image_file (path_join d.1 f.1)) d.2))
    (walk top n)
  = count_images top n.
Proof.
  revert top. induction n as [content|entries IH] using node_tree_ind; intros top;
    [done|].
  cbn [walk count_images sum_list_with fst snd]. f_equal.
  rewrite sum_list_with_bind. apply sum_list_with_ext.
  eapply list.Forall_impl; [exact IH|]. by intros e ->.
Qed.

Lemma length_class_instances directory entries name n idx :
  NoDup entries.*1 → (name, n) ∈ entries →
  length (class_instances directory entries (name, idx))
  = count_images (path_join directory name) n.
Proof.
  intros Hnd Hin. unfold class_instances.
  rewrite (proj1 (elem_of_list_to_map (M := gmap string) _ _ _ Hnd) Hin).
  destruct n as [content|es]; [done|].
  rewrite length_bind, (sorted_Permutation fst (walk _ _)), <-walk_count.
  apply sum_list_with_ext, Forall_true. intros [root fnames]. cbn [fst snd].
  rewrite <-(sorted_Permutation fst fnames) at 2.
  rewrite <-(length_bind_if (λ f, is_image_file (path_join root f.1))
               (λ f, (path_join root f.1, f.2, idx))).
  f_equal. apply list_bind_ext; [|done]. by intros [fname content].
Qed.

(** The sum over the classes is a sum over the entries of the root. *)
Lemma sum_classes (f : string * nat → nat) (g : string * node → nat) entries :
  Forall (λ e, if is_dir e.2 then ∀ idx, f (e.1, idx) = g e else g e = 0) entries →
  sum_list_with f (enumerate (classes_of entries)) = sum_list_with g entries.
Proof.
  intros Hfg. unfold enumerate, classes_of.
  rewrite <-(sorted_keys fst), length_fmap.
  rewrite (sum_list_with_zip fst f g), sorted_Permutation.
  - apply sum_list_with_filter. eapply list.Forall_impl; [exact Hfg|].
    intros e. cbn beta. destruct (is_dir e.2); [intros _ Hd; by destruct Hd|by intros ? _].
  - by rewrite length_seq.
  - rewrite Forall_forall. intros e [He Hin]%elem_of_sorted%list_elem_of_filter.
    apply (proj1 (Forall_forall _ _) Hfg) in Hin. by destruct (is_dir e.2).
Qed.
End counting.

(** ** Theorems: [import_data] *)

Section import_data_theorems.
Context {R Rng : Type}.
Implicit Types (entries : list (string * node)) (fs : gmap string node).
Implicit Types (ds : image_folder R Rng).

(** C31 (functional).  On a directory [import_data(data_root)] returns
    a folder exactly when the directory has a sub-directory and below
    every sub-directory there is a file with an image extension
    ([.jpg], [.jpeg], [.png], [.ppm], [.bmp], [.pgm], [.tif],
    [.tiff], [.webp], in any case of the letters); the disk is not
    changed. *)
Theorem import_data_Ok_iff data_root fs entries :
  fs !! data_root = Some (Dir entries) → NoDup entries.*1 →
  (∃ ds, import_data data_root fs = (Ok ds, fs))
  ↔ Exists (λ e, is_dir e.2) entries
    ∧ Forall (λ e, is_dir e.2 → has_image (path_join data_root e.1) e.2) entries.
Proof.
  intros Hfs Hnd. rewrite (import_data_run data_root fs entries Hfs Hnd).
  case_decide; split; try done; [by eexists|by intros [ds ?]].
Qed.

(** C38 (error).  One sub-directory without a file with an image
    extension below it makes [import_data] raise [FileNotFoundError],
    whatever the other sub-directories hold. *)
Theorem import_data_empty_class_raises data_root fs entries name es :
  fs !! data_root = Some (Dir entries) → NoDup entries.*1 →
  (name, Dir es) ∈ entries → ¬ has_image (path_join data_root name) (Dir es) →
  import_data (R := R) (Rng := Rng) data_root fs = (Err FileNotFoundError, fs).
Proof.
  intros Hfs Hnd Hin Hno. rewrite (import_data_run data_root fs entries Hfs Hnd).
  rewrite decide_False; [done|]. intros [_ Hall].
  by apply Hno, (proj1 (Forall_forall _ _) Hall (name, Dir es)).
Qed.


(** C32 (invariant).  The targets of the folder [import_data] returns
    are in ascending order and are exactly the numbers below the
    number of sub-directories of the root: the samples come class by
    class, and no class is without a sample. *)
Theorem import_data_targets data_root fs entries ds fs' :
  fs !! data_root = Some (Dir entries) → NoDup entries.*1 →
  import_data data_root fs = (Ok ds, fs') →
  StronglySorted le (samples ds).*2
  ∧ ∀ c, c ∈ (samples ds).*2 ↔ c < length (filter (λ e, is_dir e.2) entries).
Proof.
  intros Hfs Hnd. rewrite (import_data_run data_root fs entries Hfs Hnd).
  case_decide as Hok; [|done]. intros [= <- <-]. destruct Hok as [_ Hall].
  apply (classes_nonempty data_root entries Hnd) in Hall.
  unfold folder_of. cbn [samples]. rewrite <-list_fmap_compose.
  set (cs := enumerate (classes_of entries)) in *.
  set (f := class_instances data_root entries) in *.
  assert (cs.*2 = seq 0 (length (filter (λ e, is_dir e.2) entries))) as Hcs.
  { unfold cs. by rewrite snd_enumerate, length_classes_of. }
  split.
  - apply (StronglySorted_blocks le snd); [apply class_instances_targets|].
    rewrite Hcs. apply StronglySorted_seq.
  - intros c.
    assert (c < length (filter (λ e, is_dir e.2) entries) ↔ c ∈ cs.*2) as ->
      by (rewrite Hcs, elem_of_seq; lia).
    rewrite !list_elem_of_fmap. split.
    + intros (i & -> & (c0 & Hi & Hc0)%list_elem_of_bind). exists c0.
      split; [|done].
      apply (proj1 (Forall_forall _ _) (class_instances_targets data_root entries c0) i Hi).
    + intros (c0 & -> & Hc0).
      pose proof (proj1 (Forall_forall _ _) Hall c0 Hc0) as Hne.
      destruct (f c0) as [|i l] eqn:Hf; [done|]. exists i. split.
      * symmetry.
        apply (proj1 (Forall_forall _ _) (class_instances_targets data_root entries c0)).
        fold f. rewrite Hf. left.
      * apply list_elem_of_bind. exists c0. split; [|done]. rewrite Hf. left.
Qed.

(** C30 (refinement).  What [import_data] returns against the tree
    read as a map from paths to files: a picture with target [idx] is
    a sample exactly when it is the content of a file whose path goes
    through the sub-directory of the root that is number [idx] in the
    order of the names, and the path, written with separators after
    [data_root], has an image extension. *)
Theorem import_data_samples data_root fs entries ds fs' content idx :
  fs !! data_root = Some (Dir entries) → node_wf (Dir entries) →
  import_data data_root fs = (Ok ds, fs') →
  (content, idx) ∈ samples ds
  ↔ ∃ name names,
      classes_of entries !! idx = Some name
      ∧ resolve (Dir entries) (name :: names) = Some (File content)
      ∧ is_image_file (path_of data_root (name :: names)).
Proof.
  intros Hfs Hwf. pose proof Hwf as (Hnd & _ & _)%node_wf_Dir.
  rewrite (import_data_run data_root fs entries Hfs Hnd).
  case_decide as Hok; [|done]. intros [= <- <-]. clear Hok.
  unfold folder_of. cbn [samples]. rewrite list_elem_of_fmap. split.
  - intros (i & [= -> ->] & ([name idx'] & Hi & Hc)%list_elem_of_bind).
    apply elem_of_class_instances in Hi
      as (-> & names & fname & Hres & Hpath & Himg); [|done].
    exists name, (names ++ [fname]). rewrite <-Hpath.
    by apply elem_of_enumerate_lookup in Hc.
  - intros (name & names & Hc & Hres & Himg).
    destruct names as [|fname names _] using rev_ind.
    { apply list_elem_of_lookup_2, elem_of_classes_of in Hc as (n & Hn & Hd).
      rewrite (resolve_cons entries _ _ _ Hnd Hn) in Hres.
      injection Hres as ->. done. }
    exists (path_of data_root (name :: names ++ [fname]), content, idx).
    split; [done|]. apply list_elem_of_bind. exists (name, idx).
    split; [|by apply elem_of_enumerate_lookup].
    apply elem_of_class_instances; [done|]. split; [done|]. by exists names, fname.
Qed.

(** C34 (functional).  The folder [import_data] returns has one sample
    for every file with an image extension below a sub-directory of
    the root, and no other: its length is the number of these
    files. *)
Theorem import_data_length data_root fs entries ds fs' :
  fs !! data_root = Some (Dir entries) → NoDup entries.*1 →
  import_data data_root fs = (Ok ds, fs') →
  length (samples ds)
  = sum_list_with (λ e, count_images (path_join data_root e.1) e.2) entries.
Proof.
  intros Hfs Hnd Hrun.
  apply (import_data_Ok_inv _ _ entries) in Hrun as (-> & _); [|done..].
  unfold folder_of. cbn [samples]. rewrite length_fmap, length_bind.
  apply sum_classes, Forall_forall. intros [name [content|es]] Hin; [done|].
  intros idx. by apply length_class_instances.
Qed.
End import_data_theorems.

(** ** The theorems at concrete inputs *)

(** A disk with the photographs of two classes under [data], a class
    without pictures under [empty], a file that is not a picture
    under [broken], and a file under [notes]. *)
Definition pic (v : nat) : option pil_image :=
  Some (PilImage 2 3 ((λ k, (v + k) `mod` 256) <$> seq 0 18)).

Definition photos : list (string * node) :=
  [("dogs", Dir [("b.PNG", File (pic 3)); ("a.jpg", File (pic 4));
                 ("notes.txt", File None);
                 ("old", Dir [("c.jpeg", File (pic 5))])]);
   ("readme.md", File None);
   ("cats", Dir [("z.bmp", File (pic 1)); ("k.gif", File (pic 2))])].

Definition sketches : list (string * node) :=
  [("ink", Dir [("a.png", File (pic 7))]);
   ("chalk", Dir [("todo.txt", File None); ("raw", Dir [])])].

Definition scans : list (string * node) :=
  [("maps", Dir [("east.tif", File (pic 9)); ("west.tif", File None)])].

Definition toy_disk : gmap string node :=
  {[ "data" := Dir photos; "empty" := Dir sketches; "broken" := Dir scans;
     "notes" := File None ]}.

Lemma photos_NoDup : NoDup photos.*1.
Proof. by apply (bool_decide_unpack _); vm_compute. Qed.

Lemma import_data_Ok_iff_witness :
  ∃ ds : image_folder nat nat, import_data "data" toy_disk = (Ok ds, toy_disk).
Proof.
  apply (import_data_Ok_iff "data" toy_disk photos eq_refl photos_NoDup).
  by apply (bool_decide_unpack _); vm_compute.
Defined.

Lemma import_data_empty_class_raises_witness :
  import_data (R := nat) (Rng := nat) "empty" toy_disk
  = (Err FileNotFoundError, toy_disk).
Proof.
  apply (import_data_empty_class_raises "empty" toy_disk sketches "chalk"
           [("todo.txt", File None); ("raw", Dir [])] eq_refl).
  - by apply (bool_decide_unpack _); vm_compute.
  - apply list_elem_of_further, list_elem_of_here.
  - by apply (bool_decide_unpack _); vm_compute.
Defined.

Lemma import_data_photos {R Rng} :
  import_data (R := R) (Rng := Rng) "data" toy_disk
  = (Ok (folder_of "data" photos), toy_disk).
Proof.
  rewrite (import_data_run "data" toy_disk photos eq_refl photos_NoDup).
  rewrite decide_True; [done|]. by apply (bool_decide_unpack _); vm_compute.
Qed.

Lemma import_data_targets_witness :
  StronglySorted le (samples (folder_of (R := nat) (Rng := nat) "data" photos)).*2
  ∧ (1 ∈ (samples (folder_of (R := nat) (Rng := nat) "data" photos)).*2
     ↔ 1 < length (filter (λ e, is_dir e.2) photos)).
Proof.
  destruct (import_data_targets "data" toy_disk photos _ _ eq_refl photos_NoDup
              (import_data_photos (R := nat) (Rng := nat))) as [Hsorted Hin].
  exact (conj Hsorted (Hin 1)).
Defined.

Lemma import_data_samples_witness :
  (pic 5, 1) ∈ samples (folder_of (R := nat) (Rng := nat) "data" photos).
Proof.
  apply (import_data_samples "data" toy_disk photos _ toy_disk (pic 5) 1 eq_refl).
  - by vm_compute.
  - apply import_data_photos.
  - exists "dogs", ["old"; "c.jpeg"]. by vm_compute.
Defined.

Lemma scans_NoDup : NoDup scans.*1.
Proof. by apply (bool_decide_unpack _); vm_compute. Qed.

Lemma import_data_scans {R Rng} :
  import_data (R := R) (Rng := Rng) "broken" toy_disk
  = (Ok (folder_of "broken" scans), toy_disk).
Proof.
  rewrite (import_data_run "broken" toy_disk scans eq_refl scans_NoDup).
  rewrite decide_True; [done|]. by apply (bool_decide_unpack _); vm_compute.
Qed.

Lemma import_data_length_witness :
  length (samples (folder_of (R := nat) (Rng := nat) "data" photos)) = 4.
Proof.
  exact (import_data_length "data" toy_disk photos _ toy_disk eq_refl photos_NoDup
           import_data_photos).
Defined.
