(* ===== verification/Listing.v ===== *)
(** * Listing: the order in which a directory lists its entries

    [os.scandir] and [os.walk] report the entries of a directory in
    the order of the file system, which is arbitrary.  This file
    shows that [ops_data.import_data] does not depend on it: two
    trees that differ only in the order of the listings give the same
    folder or the same exception.  The argument has three parts: the
    paths of the directories that [os.walk] meets are distinct
    (Section [paths], Section [walks]), so sorting them has one
    result; sorting every listing of a tree ([canon]) permutes what
    [os.walk] reports (Section [canonical]); and [find_classes] and
    [make_dataset] sort whatever they read.  That the paths are
    distinct is also why [class_instances] may sort the triples of
    [os.walk] by their first component alone: Python compares the
    tuples component by component, and never gets to the second. *)

From Stdlib Require Import Ascii.
From stdpp Require Import base tactics option list numbers strings gmap sorting.
From S2P Require Import Prelude Scalar Tensor Externals DataLoader OpsData ImportData.

(** ** Definitions *)

(** The tree with every listing sorted by name. *)
Fixpoint canon (n : node) : node :=
  match n with
  | File content => File content
  | Dir entries => Dir (sorted fst (prod_map id canon <$> entries))
  end.

(** Two trees are the same up to the order of their listings. *)
Definition same_tree (n n' : node) : Prop := canon n = canon n'.

(** A path to walk from. *)
Definition proper (p : string) : Prop := p ≠ "" ∧ ¬ endswith p "/".

(** [r] is [p] or a path below it. *)
Definition below (p r : string) : Prop :=
  ∃ t, r = p +:+ t ∧ (t = "" ∨ String.prefix "/" t = true).

(** What [os.walk] reports, the files of each directory sorted. *)
Definition listings (top : string) (n : node) :
    list (string * list (string * option pil_image)) :=
  (λ d, (d.1, sorted fst d.2)) <$> walk top n.

(** ** Lemmas: lists *)

Lemma fmap_bind {A B C} (f : B → C) (g : A → list B) (l : list A) :
  f <$> (l ≫= g) = l ≫= λ x, f <$> g x.
Proof. induction l as [|x l IH]; [done|]. by rewrite !bind_cons, fmap_app, IH. Qed.

Lemma bind_Permutation_ext {A B} (f g : A → list B) (l : list A) :
  Forall (λ x, f x ≡ₚ g x) l → l ≫= f ≡ₚ l ≫= g.
Proof. induction 1 as [|x l Hx _ IH]; [done|]. by rewrite !bind_cons, Hx, IH. Qed.

(** Sorting commutes with a map that keeps the keys. *)
Lemma sorted_fmap {A B} (key : B → string) (key' : A → string) (g : A → B) l :
  (∀ x, key (g x) = key' x) → NoDup (key' <$> l) →
  sorted key (g <$> l) = g <$> sorted key' l.
Proof.
  intros Hkey Hnd.
  assert (key <$> (g <$> l) = key' <$> l) as Hkeys.
  { rewrite <-list_fmap_compose. apply list_fmap_ext. intros i x _. apply Hkey. }
  apply (keyed_sorted_unique key).
  - by rewrite sorted_Permutation, Hkeys.
  - apply sorted_sorted.
  - eapply StronglySorted_fmap, (sorted_sorted key'). intros x y. by rewrite !Hkey.
  - by rewrite !sorted_Permutation.
Qed.

(** ** Lemmas: paths

    Names without a separator give distinct paths below a path that
    is not empty and does not end in a separator. *)

Section paths.
Implicit Types (a b p r t : string) (c : ascii).

Local Notation "'chars'" := String.list_ascii_of_string (only parsing).

Lemma app_String c a b : String c a +:+ b = String c (a +:+ b).
Proof. done. Qed.

Lemma app_empty_r a : a +:+ "" = a.
Proof. induction a as [|c a IH]; [done|]. by rewrite app_String, IH. Qed.

Lemma app_assoc_s a b t : (a +:+ b) +:+ t = a +:+ b +:+ t.
Proof. induction a as [|c a IH]; [done|]. by rewrite !app_String, IH. Qed.

Lemma chars_app a b : chars (a +:+ b) = chars a ++ chars b.
Proof. induction a as [|c a IH]; [done|]. rewrite app_String. cbn. by rewrite IH. Qed.

Lemma endswith_last a c : endswith a (String c "") ↔ last (chars a) = Some c.
Proof. unfold endswith. by rewrite bool_decide_spec, last_Some. Qed.

Lemma prefix_slash t : String.prefix "/" t = true ↔ ∃ t', t = String "/" t'.
Proof.
  destruct t as [|c t]; [split; [done|by intros [? ?]]|].
  cbn [String.prefix]. destruct (ascii_dec "/" c) as [Heq|Hne].
  - subst c. split; [by eexists|intros _]. by destruct t.
  - split; [done|]. by intros [t' [= -> _]].
Qed.

Lemma name_ok_prefix b : name_ok b → String.prefix "/" b = false.
Proof.
  intros [_ Hno]. apply not_true_is_false. intros [t' ->]%prefix_slash.
  apply Hno. cbn. left.
Qed.

Lemma name_ok_last b : name_ok b → ¬ endswith b "/".
Proof.
  intros [_ Hno] Hlast%endswith_last. by apply Hno, last_Some_elem_of.
Qed.

(** Below a proper path the separator is always written. *)
Lemma path_join_proper p b : proper p → name_ok b → path_join p b = p +:+ "/" +:+ b.
Proof.
  intros [Hne Hend] Hb. unfold path_join. rewrite (name_ok_prefix b Hb).
  rewrite bool_decide_false by done. by destruct (endswith p "/").
Qed.

Lemma proper_app a b : name_ok b → proper (a +:+ b).
Proof.
  intros Hb. pose proof (name_ok_last b Hb) as Hlast. destruct Hb as [Hne _]. split.
  - intros Heq. apply (f_equal chars) in Heq. rewrite chars_app in Heq.
    apply app_nil in Heq as [_ Heq]. by destruct b.
  - rewrite endswith_last, chars_app, last_app in *.
    destruct (last (chars b)) eqn:Hl; [done|].
    apply last_None in Hl. by destruct b.
Qed.

Lemma proper_path_join a b : name_ok b → proper (path_join a b).
Proof.
  intros Hb. unfold path_join. rewrite (name_ok_prefix b Hb).
  destruct (_ || _); [by apply proper_app|].
  rewrite <-app_assoc_s. by apply proper_app.
Qed.

Lemma below_refl p : below p p.
Proof. exists "". split; [by rewrite app_empty_r|by left]. Qed.

Lemma below_join p b r : below (p +:+ "/" +:+ b) r → below p r.
Proof.
  intros (t & -> & _). exists ("/" +:+ b +:+ t). split; [by rewrite !app_assoc_s|].
  right. apply prefix_slash. by eexists.
Qed.

(** A path below [p/b] is not [p]. *)
Lemma below_strict p b r : below (p +:+ "/" +:+ b) r → r ≠ p.
Proof.
  intros (t & -> & _) Heq. rewrite !app_assoc_s in Heq.
  rewrite <-(app_empty_r p) in Heq at 2. by apply (inj _) in Heq.
Qed.

(** A name without separator that begins a remainder is empty. *)
Lemma name_nil b t t' :
  "/"%char ∉ chars b → t = "" ∨ String.prefix "/" t = true → t = b +:+ t' → b = "".
Proof.
  destruct b as [|c b]; [done|].
  intros Hb [->|[t0 ->]%prefix_slash]; [done|]. rewrite app_String.
  intros [= <- _]. destruct Hb. cbn. left.
Qed.

(** Names without separators that begin the same path are equal. *)
Lemma names_apart b1 b2 t1 t2 :
  "/"%char ∉ chars b1 → "/"%char ∉ chars b2 →
  t1 = "" ∨ String.prefix "/" t1 = true → t2 = "" ∨ String.prefix "/" t2 = true →
  b1 +:+ t1 = b2 +:+ t2 → b1 = b2.
Proof.
  revert b2. induction b1 as [|c b1 IH]; intros [|c2 b2] H1 H2 Ht1 Ht2 Heq.
  - done.
  - symmetry. by apply (name_nil _ t1 t2).
  - by apply (name_nil _ t2 t1).
  - rewrite !app_String in Heq. injection Heq as -> Heq. f_equal.
    apply (IH b2); [| |done..].
    + intros Hin. apply H1. by right.
    + intros Hin. apply H2. by right.
Qed.

Lemma below_apart p b1 b2 r :
  name_ok b1 → name_ok b2 →
  below (p +:+ "/" +:+ b1) r → below (p +:+ "/" +:+ b2) r → b1 = b2.
Proof.
  intros [_ H1] [_ H2] (t1 & -> & Ht1) (t2 & Heq & Ht2).
  rewrite !app_assoc_s in Heq. do 2 apply (inj _) in Heq.
  by apply (names_apart b1 b2 t1 t2).
Qed.
End paths.


(** ** Lemmas: the directories of a walk *)

Section walks.
Implicit Types (top : string) (n : node) (entries : list (string * node)).

(** An entry of a well-formed directory has a name and is well
    formed. *)
Lemma entry_wf entries e :
  node_wf (Dir entries) → e ∈ entries → name_ok e.1 ∧ node_wf e.2.
Proof.
  intros (_ & Hok & Hwf)%node_wf_Dir Hin. split.
  - apply (proj1 (Forall_forall _ _) Hok). by apply list_elem_of_fmap_2.
  - by apply (proj1 (Forall_forall _ _) Hwf).
Qed.

Lemma walk_roots top entries :
  (walk top (Dir entries)).*1
  = top :: (entries ≫= λ e, (walk (path_join top e.1) e.2).*1).
Proof. cbn [walk]. by rewrite fmap_cons, fmap_bind. Qed.

(** [os.walk] stays below its top. *)
Lemma walk_below top n : proper top → node_wf n → Forall (below top) (walk top n).*1.
Proof.
  revert top.
  induction n as [content|entries IH] using node_tree_ind; intros top Htop Hwf;
    [constructor|].
  rewrite walk_roots. constructor; [apply below_refl|].
  apply Forall_bind, Forall_forall. intros e Hin.
  destruct (entry_wf entries e Hwf Hin) as [Hname Hwfe].
  eapply list.Forall_impl.
  - apply (proj1 (Forall_forall _ _) IH e Hin); [by apply proper_path_join|done].
  - intros r. rewrite path_join_proper by done. apply below_join.
Qed.

(** [os.walk] meets no directory twice. *)
Lemma walk_NoDup top n : proper top → node_wf n → NoDup (walk top n).*1.
Proof.
  revert top.
  induction n as [content|entries IH] using node_tree_ind; intros top Htop Hwf;
    [constructor|].
  assert (∀ e r, e ∈ entries → r ∈ (walk (path_join top e.1) e.2).*1 →
            name_ok e.1 ∧ below (top +:+ "/" +:+ e.1) r) as Hbelow.
  { intros e r Hin Hr. destruct (entry_wf entries e Hwf Hin) as [Hname Hwfe].
    split; [done|]. rewrite <-(path_join_proper top) by done.
    eapply (proj1 (Forall_forall _ _)), Hr.
    apply walk_below; [by apply proper_path_join|done]. }
  rewrite walk_roots. apply NoDup_cons. split.
  - intros (e & Hr & Hin)%list_elem_of_bind.
    destruct (Hbelow e top Hin Hr) as [_ Hr']. by apply below_strict in Hr'.
  - apply node_wf_Dir in Hwf as Hwf'. destruct Hwf' as (Hnd & _ & _).
    apply NoDup_bind; [| |by apply NoDup_fmap_1 in Hnd].
    + intros e1 e2 r Hin1 Hin2 Hr1 Hr2.
      destruct (Hbelow e1 r Hin1 Hr1) as [Hn1 Hb1], (Hbelow e2 r Hin2 Hr2) as [Hn2 Hb2].
      apply (NoDup_key_eq fst entries); [done..|]. by apply (below_apart top _ _ r).
    + intros e Hin. destruct (entry_wf entries e Hwf Hin) as [Hname Hwfe].
      apply (proj1 (Forall_forall _ _) IH e Hin); [by apply proper_path_join|done].
Qed.

Lemma listings_roots top n : (listings top n).*1 = (walk top n).*1.
Proof. unfold listings. by rewrite <-list_fmap_compose. Qed.

Lemma listings_Dir top entries :
  listings top (Dir entries)
  = (top, sorted fst (files_of entries))
    :: (entries ≫= λ e, listings (path_join top e.1) e.2).
Proof. unfold listings. cbn [walk]. by rewrite fmap_cons, fmap_bind. Qed.
End walks.

(** ** Lemmas: sorted listings *)

Section canonical.
Implicit Types (top : string) (n : node) (entries : list (string * node)).

#[global] Instance files_of_Permutation : Proper ((≡ₚ) ==> (≡ₚ)) files_of.
Proof. unfold files_of. solve_proper. Qed.

Lemma canon_is_dir n : is_dir (canon n) = is_dir n.
Proof. by destruct n. Qed.

Lemma fst_canon entries : (prod_map id canon <$> entries).*1 = entries.*1.
Proof. rewrite <-list_fmap_compose. by apply list_fmap_ext. Qed.

Lemma files_of_canon entries : files_of (prod_map id canon <$> entries) = files_of entries.
Proof.
  unfold files_of. induction entries as [|[name [content|es]] entries IH]; [done|..];
    cbn; by rewrite IH.
Qed.

Lemma NoDup_files_of entries : NoDup entries.*1 → NoDup (files_of entries).*1.
Proof.
  intros Hnd. eapply sublist_NoDup; [exact Hnd|]. unfold files_of.
  induction entries as [|[name [content|es]] entries IH]; [done|..]; cbn.
  - apply sublist_skip, IH. by apply NoDup_cons in Hnd as [_ ?].
  - apply sublist_cons, IH. by apply NoDup_cons in Hnd as [_ ?].
Qed.

Lemma classes_of_canon entries :
  classes_of (prod_map id canon <$> entries) = classes_of entries.
Proof.
  unfold classes_of. f_equal.
  induction entries as [|[name n] entries IH]; [done|].
  rewrite fmap_cons, !filter_cons. cbn. rewrite canon_is_dir.
  case_decide; cbn; by rewrite IH.
Qed.

Lemma classes_of_Permutation entries entries' :
  NoDup entries.*1 → entries ≡ₚ entries' → classes_of entries = classes_of entries'.
Proof.
  intros Hnd Hp. apply sorted_perm; [|by rewrite Hp].
  rewrite list_fmap_id. eapply sublist_NoDup; [exact Hnd|].
  apply fmap_sublist, sublist_filter.
Qed.

(** Sorting every listing permutes what [os.walk] reports. *)
Lemma listings_canon top n : node_wf n → listings top (canon n) ≡ₚ listings top n.
Proof.
  revert top.
  induction n as [content|entries IH] using node_tree_ind; intros top Hwf; [done|].
  cbn [canon]. rewrite !listings_Dir.
  rewrite <-(sorted_perm fst (files_of entries)
               (files_of (sorted fst (prod_map id canon <$> entries)))).
  - apply Permutation_skip. rewrite sorted_Permutation, list_fmap_bind.
    apply bind_Permutation_ext, Forall_forall. intros e Hin.
    apply (proj1 (Forall_forall _ _) IH e Hin). by apply (entry_wf entries).
  - apply NoDup_files_of. by apply node_wf_Dir in Hwf as (? & _).
  - by rewrite sorted_Permutation, files_of_canon.
Qed.

(** The same trees have the same entries, once these are sorted. *)
Lemma same_tree_Dir entries entries' :
  same_tree (Dir entries) (Dir entries') →
  prod_map id canon <$> entries ≡ₚ prod_map id canon <$> entries'.
Proof.
  intros [= Heq]. by rewrite <-(sorted_Permutation fst), Heq, sorted_Permutation.
Qed.

Lemma same_tree_classes entries entries' :
  NoDup entries.*1 → same_tree (Dir entries) (Dir entries') →
  classes_of entries = classes_of entries'.
Proof.
  intros Hnd Hsame. rewrite <-(classes_of_canon entries), <-(classes_of_canon entries').
  apply classes_of_Permutation; [by rewrite fst_canon|by apply same_tree_Dir].
Qed.

Lemma same_tree_lookup entries entries' name :
  NoDup entries.*1 → same_tree (Dir entries) (Dir entries') →
  canon <$> (list_to_map entries : gmap string node) !! name
  = canon <$> (list_to_map entries' : gmap string node) !! name.
Proof.
  intros Hnd Hsame. rewrite <-!lookup_fmap, <-!list_to_map_fmap. f_equal.
  apply list_to_map_proper; [by rewrite fst_canon|by apply same_tree_Dir].
Qed.

Lemma same_tree_listings top n n' :
  proper top → node_wf n → node_wf n' → same_tree n n' →
  sorted fst (listings top n) = sorted fst (listings top n').
Proof.
  intros Htop Hwf Hwf' Hsame. apply sorted_perm.
  - rewrite listings_roots. by apply walk_NoDup.
  - by rewrite <-(listings_canon top n), <-(listings_canon top n'), Hsame.
Qed.
End canonical.

(** ** Theorems: [import_data] and the order of the listings *)

Section listing_order.
Context {R Rng : Type}.
Implicit Types (entries : list (string * node)) (fs : gmap string node).

(** The instances of a class, read off the sorted listings. *)
Lemma class_instances_listings directory entries name idx :
  node_wf (Dir entries) →
  class_instances directory entries (name, idx)
  = match (list_to_map entries : gmap string node) !! name with
    | Some (Dir es) =>
        '(root, fnames) ← sorted fst (listings (path_join directory name) (Dir es));
        '(fname, content) ← fnames;
        if is_image_file (path_join root fname)
        then [(path_join root fname, content, idx)] else []
    | _ => []
    end.
Proof.
  intros Hwf. unfold class_instances.
  destruct (_ !! name) as [[content|es]|] eqn:Hname; [done| |done].
  apply elem_of_list_to_map_2 in Hname.
  destruct (entry_wf entries _ Hwf Hname) as [Hok Hes].
  unfold listings. rewrite (sorted_fmap fst fst), list_fmap_bind; [|done|].
  - apply list_bind_ext; [|done]. by intros [root fnames].
  - apply walk_NoDup; [by apply proper_path_join|done].
Qed.

(** The instances of a class are those of the same class of the same
    tree. *)
Lemma same_tree_instances directory entries entries' c :
  node_wf (Dir entries) → node_wf (Dir entries') →
  same_tree (Dir entries) (Dir entries') →
  class_instances directory entries c = class_instances directory entries' c.
Proof.
  intros Hwf Hwf' Hsame. destruct c as [name idx].
  rewrite !class_instances_listings by done.
  assert (NoDup entries.*1) as Hnd by (by apply node_wf_Dir in Hwf as (? & _)).
  pose proof (same_tree_lookup entries entries' name Hnd Hsame) as Hl.
  destruct (list_to_map entries !! name) as [n|] eqn:Hn,
    (list_to_map entries' !! name) as [n'|] eqn:Hn'; try done.
  injection Hl as Hl. destruct n as [content|es], n' as [content'|es']; try done.
  apply elem_of_list_to_map_2 in Hn, Hn'.
  destruct (entry_wf entries _ Hwf Hn) as [Hok Hes].
  destruct (entry_wf entries' _ Hwf' Hn') as [_ Hes'].
  by rewrite (same_tree_listings _ (Dir es) (Dir es'))
    by (done || by apply proper_path_join).
Qed.

(** C33 (equivalence).  [import_data] does not depend on the order in
    which the directories list their entries: on two disks whose
    trees under [data_root] are the same up to that order it returns
    the same folder, or raises the same exception. *)
Theorem import_data_listing_order data_root fs fs' n n' :
  fs !! data_root = Some n → fs' !! data_root = Some n' →
  node_wf n → node_wf n' → same_tree n n' →
  (import_data (R := R) (Rng := Rng) data_root fs).1
  = (import_data data_root fs').1.
Proof.
  intros Hfs Hfs' Hwf Hwf' Hsame.
  destruct n as [content|entries], n' as [content'|entries']; try done.
  { unfold import_data, ImageFolder_init.
    by rewrite !run_get_bind, !run_lift_bind, Hfs, Hfs'. }
  assert (NoDup entries.*1 ∧ NoDup entries'.*1) as [Hnd Hnd'].
  { by apply node_wf_Dir in Hwf as (? & _), Hwf' as (? & _). }
  rewrite (import_data_run_classes _ _ _ Hfs Hnd),
    (import_data_run_classes _ _ _ Hfs' Hnd').
  pose proof (same_tree_classes _ _ Hnd Hsame) as Hcl.
  pose proof (λ c, same_tree_instances data_root _ _ c Hwf Hwf' Hsame) as Hci.
  assert (folder_of (R := R) (Rng := Rng) data_root entries
          = folder_of data_root entries') as ->.
  { unfold folder_of. rewrite Hcl. do 2 f_equal. by apply list_bind_ext. }
  assert (filter (λ e, is_dir e.2) entries ≠ [] ↔ filter (λ e, is_dir e.2) entries' ≠ [])
    as Hdirs.
  { rewrite <-!length_zero_iff_nil, <-!length_classes_of. by rewrite Hcl. }
  assert (Forall (λ c, class_instances data_root entries c ≠ [])
            (enumerate (classes_of entries))
          ↔ Forall (λ c, class_instances data_root entries' c ≠ [])
              (enumerate (classes_of entries'))) as Hall.
  { rewrite Hcl. apply Forall_iff. intros c. by rewrite Hci. }
  repeat case_decide; try done; tauto.
Qed.
End listing_order.

(** ** The theorem at a concrete input *)

(** The photographs of [photos], every directory listed in another
    order. *)
Definition photos_shuffled : list (string * node) :=
  [("cats", Dir [("k.gif", File (pic 2)); ("z.bmp", File (pic 1))]);
   ("dogs", Dir [("old", Dir [("c.jpeg", File (pic 5))]);
                 ("notes.txt", File None);
                 ("a.jpg", File (pic 4)); ("b.PNG", File (pic 3))]);
   ("readme.md", File None)].

Lemma import_data_listing_order_witness :
  (import_data (R := nat) (Rng := nat) "data" toy_disk).1
  = (import_data "data" (<["data" := Dir photos_shuffled]> toy_disk)).1.
Proof.
  apply (import_data_listing_order "data" _ _ (Dir photos) (Dir photos_shuffled));
    by vm_compute.
Defined.
