(* ===== verification/Training.v ===== *)
(** * Training: what one iteration and the whole of [train_gan] do

    The abstract view of the trainer is the record [trainer]: the two
    parameter sets and the two optimizer states.  [alternating_step] is
    the update the training loop is meant to perform on it: the
    discriminator descends along the gradient of its loss, then the
    generator descends along the gradient of its own loss evaluated
    against the updated discriminator.  The theorems of this file run
    the code of [Gan] and show that an iteration on a full batch
    performs exactly this update whatever was left in the [.grad]
    buffers, that an iteration on a short batch raises, and what the
    loop over epochs and batches amounts to in both cases.  The loops
    are run for any invariant the iterations keep, so that [Refinement]
    can carry the abstract run through them. *)

From stdpp Require Import base tactics option list numbers.
From Stdlib Require Import QArith.
From S2P Require Import Prelude Scalar Tensor Externals Toy DataLoader Gan.
Close Scope Q_scope.

(** ** The abstract trainer *)

Section trainer.
Context {R Rng : Type} `{Scalar R, Random Rng, Models R, UtilOps R Rng}.
Context {AG : Autograd R gen_params} {AD : Autograd R dis_params}.
Implicit Types (s : GAN).

Record trainer : Type := Trainer {
  t_gen : gen_params;
  t_dis : dis_params;
  t_optG : @opt_t R gen_params AG;
  t_optD : @opt_t R dis_params AD;
}.

Definition trainer_of s : trainer :=
  Trainer (params (gen s)) (params (dis s)) (optimizerG s) (optimizerD s).

(** One alternating update for the losses [Ld] and [Lg], functions of
    the generator's and the discriminator's parameters. *)
Definition alternating_step (Ld Lg : gen_params → dis_params → result R)
    (a : trainer) : trainer :=
  let '(oD, θd) :=
    adam_step (t_optD a) (t_dis a) (derive (λ θ, Ld (t_gen a) θ) (t_dis a)) in
  let '(oG, θg) :=
    adam_step (t_optG a) (t_gen a) (derive (λ θ, Lg θ θd) (t_gen a)) in
  Trainer θg θd oG oD.

(** The object after the discriminator's half and after the whole of
    an iteration, as compositions of the operations of [Gan]. *)
Definition after_D (Ld : gen_params → dis_params → result R) s : GAN :=
  stepD (accumulate_grads Ld (zero_dis s)).

Definition after_G (Lg : gen_params → dis_params → result R) s : GAN :=
  stepG (accumulate_grads Lg (zero_gen s)).

(** The shape of one sample of the dataset. *)
Definition sample_shape : list nat := [img_channels; img_h; img_w].

(** *** The trace of one iteration

    What an iteration on the images [images] computes on its way: the
    mask drawn and the generator left behind, the erased input, the two
    results of the generator, the composite, the two losses it records
    and the L1 loss. *)
Record iteration : Type := Iteration {
  it_mask : tensor R;
  it_rng : Rng;
  it_xin : tensor R;
  it_x1 : tensor R;
  it_x2 : tensor R;
  it_fake : tensor R;
  it_d : R;
  it_g : R;
  it_l1 : R;
}.

Definition it_Ld s (images : tensor R) (it : iteration) :=
  d_loss_fn (zero_dis s) (to (device s) images) (it_mask it) (it_xin it).

Definition it_sD s images it : GAN := after_D (it_Ld s images it) s.

Definition it_Lg s (images : tensor R) (it : iteration) :=
  g_loss_fn (zero_gen (it_sD s images it)) (to (device s) images)
    (it_mask it) (it_xin it).

Definition it_self s images it : GAN :=
  after_G (it_Lg s images it) (it_sD s images it).

Definition is_iteration s (g : Rng) (images : tensor R) (it : iteration) : Prop :=
  let batch_real := to (device s) images in
  draw_mask (device s) g = (Ok (it_mask it), it_rng it)
  ∧ is_mask img_h img_w (it_mask it) ∧ dev (it_mask it) = device s
  ∧ erase s batch_real (it_mask it) = Ok (it_xin it)
  ∧ (∃ x3, call_gen s (it_xin it) (it_mask it) = Ok (it_x1 it, it_x2 it, x3))
  ∧ composite s (it_x2 it) (it_mask it) (it_xin it) = Ok (it_fake it)
  ∧ mix s batch_real (it_fake it) (it_mask it) ≫= dis_loss s
    = Ok (Tensor [] [it_d it] (device s))
  ∧ adv_loss (it_sD s images it) (it_fake it) (it_mask it)
    = Ok (Tensor [] [it_g it] (device s))
  ∧ l1 s batch_real (it_x1 it) (it_x2 it) = Ok (Tensor [] [it_l1 it] (device s)).

(** The world an iteration of epoch [epoch] leaves. *)
Definition world_after (epoch : nat) (w : world (Rng := Rng)) images it :
    world (Rng := Rng) :=
  let l := locals w in
  World (it_self (self w) images it)
    (Frame (G_losses l ++ [it_g it]) (D_losses l ++ [it_d it]) (iters l + 1))
    (it_rng it) Freed
    (stdout w ++ [Print (epoch + 1) (num_epochs (self w)) (iters l + 1)
                    (it_g it) (it_d it)]).

(** *** The invariant of the loops

    After [k] iterations since [train_gan] cleared its counters, with
    [out] printed before: the object is consistent and still has the
    configuration [c], there are [k] losses in each list, and [k] lines
    were printed, all of them progress lines. *)
Definition is_print (e : event (R := R)) : Prop :=
  match e with Print _ _ _ _ _ => True | PlotLosses _ _ => False end.

Definition loop_inv (c : config) (out : list event) (k : nat)
    (w : world (Rng := Rng)) : Prop :=
  gan_wf (self w) ∧ config_of (self w) = c
  ∧ iters (locals w) = k
  ∧ length (G_losses (locals w)) = k ∧ length (D_losses (locals w)) = k
  ∧ ∃ evs, stdout w = out ++ evs ∧ length evs = k ∧ Forall is_print evs.

(** The object after [self.gen.train()] and [self.dis.train()]. *)
Definition train_mode s : GAN :=
  let s' := set_gen (set_training true (gen s)) s in
  set_dis (set_training true (dis s')) s'.

(** What is left when an iteration raises on its batch: the invariant
    still holds, the graph of the generator's forward pass is alive and
    the discriminator's [.grad] buffers are empty. *)
Definition failed_inv (c : config) (out : list event) (k : nat)
    (w : world (Rng := Rng)) : Prop :=
  loop_inv c out k w ∧ graph w = Live ∧ grads (dis (self w)) = None.
End trainer.

(** ** Running the pieces *)

Section backward_lemmas.
Context {R Rng : Type} `{Scalar R, Random Rng, Models R, UtilOps R Rng}.
Context {AG : Autograd R gen_params} {AD : Autograd R dis_params}.
Implicit Types (s : GAN) (l : frame (R := R)) (g : Rng).

Lemma run_backward_Live {B} retain x dv L (k : unit → stx world B) s l g out :
  (backward retain (Tensor [] [x] dv) L ≫= k) (World s l g Live out) =
    k tt (World (accumulate_grads L s) l g (if retain then Live else Freed) out).
Proof. done. Qed.

Lemma run_backward_Freed {B} retain x dv L (k : unit → stx world B) s l g out :
  (backward retain (Tensor [] [x] dv) L ≫= k) (World s l g Freed out) =
    (Err (RuntimeError FreedGraph), World s l g Freed out).
Proof. done. Qed.

Lemma run_backward_NoGraph {B} retain x dv L (k : unit → stx world B) s l g out :
  (backward retain (Tensor [] [x] dv) L ≫= k) (World s l g NoGraph out) =
    (Err (RuntimeError NoGradFn), World s l g NoGraph out).
Proof. done. Qed.


Lemma run_with_rng_Ok {A B} (m : stx Rng A) (k : A → stx world B) s l g t out a g' :
  m g = (Ok a, g') →
  (with_rng m ≫= k) (World s l g t out) = k a (World s l g' t out).
Proof.
  intros Hm. unfold with_rng. rewrite run_bind. unfold zoom. cbn [rng].
  by rewrite Hm.
Qed.

Lemma run_with_rng_Err {A B} (m : stx Rng A) (k : A → stx world B) s l g t out e g' :
  m g = (Err e, g') →
  (with_rng m ≫= k) (World s l g t out) = (Err e, World s l g' t out).
Proof.
  intros Hm. unfold with_rng. rewrite run_bind. unfold zoom. cbn [rng].
  by rewrite Hm.
Qed.
End backward_lemmas.

#[export] Hint Rewrite @run_backward_Live @run_backward_Freed
  @run_backward_NoGraph : stx_rw.

(** Runs the primitives at the head of a computation applied to a
    state. *)
Ltac stx_run :=
  repeat progress
    (unfold dis_zero_grad, gen_zero_grad, optimizerD_step, optimizerG_step,
       gen_train, dis_train, append_D, append_G, incr_iters, emit, modify_self;
     autorewrite with stx_rw;
     cbn [self locals rng graph stdout set_self set_locals set_rng set_graph
          G_losses D_losses iters item data]).

Section run_lemmas.
Context {R Rng : Type} `{Scalar R, Random Rng, Models R, UtilOps R Rng}.
Context {AG : Autograd R gen_params} {AD : Autograd R dis_params}.
Context `{!RandomOk Rng, !ModelsOk R, !UtilOpsOk R Rng}.
Implicit Types (s : GAN) (l : frame (R := R)) (g : Rng) (mask : tensor R).
Implicit Types (w : world (Rng := Rng)) (out : list (event (R := R))).
Implicit Types (ds : dataset R Rng) (dl : dataloader R Rng).

Lemma random_choice_pair {A} (a b : A) g :
  ∃ x g', random_choice [a; b] g = (Ok x, g') ∧ (x = a ∨ x = b).
Proof.
  unfold random_choice. rewrite run_bind, run_pure_st.
  pose proof (rand_below_lt 2 g ltac:(lia)) as Hlt. cbn [length] in *.
  destruct (rand_below 2 g).1 as [|[|i]]; [| |lia]; cbn; eauto.
Qed.

(** Lines 49-52 always produce a mask of the image size on [dv]. *)
Lemma draw_mask_run dv g :
  ∃ mask g', draw_mask dv g = (Ok mask, g')
             ∧ is_mask img_h img_w mask ∧ dev mask = dv.
Proof.
  unfold draw_mask. rewrite run_bind, run_pure_st.
  rewrite run_bind, run_pure_st.
  destruct (random_choice_pair (bbox2mask (random_bbox g).1)
              (brush_stroke_mask (random_bbox g).2).1
              (brush_stroke_mask (random_bbox g).2).2)
    as (m & g' & Hc & Hm).
  rewrite (run_bind_Ok _ _ _ _ _ Hc). exists (to dv m), g'.
  split; [done|]. split; [|done]. apply is_mask_to.
  destruct Hm as [-> | ->];
    [apply bbox2mask_ok | apply brush_stroke_mask_ok].
Qed.

(** Lines 61-70 on a full batch. *)
Lemma discriminator_step_run s l g out batch_real mask xin batch_fake :
  gan_wf s →
  is_images (device s) (batch_size s) batch_real →
  is_images (device s) (batch_size s) batch_fake →
  is_mask img_h img_w mask → dev mask = device s →
  ∃ d,
    discriminator_step batch_real mask xin batch_fake (World s l g Live out) =
      (Ok (Tensor [] [d] (device s)),
       World (stepD (accumulate_grads (d_loss_fn s batch_real mask xin) s))
         (Frame (G_losses l) (D_losses l ++ [d]) (iters l)) g Live out)
    ∧ mix s batch_real batch_fake mask ≫= dis_loss s
      = Ok (Tensor [] [d] (device s)).
Proof.
  intros Hwf Hr Hf Hm Hdm.
  destruct (mix_Ok s _ _ _ Hwf Hr Hf Hm Hdm) as (bm & Hmix & Hsbm & Hdbm & Hwbm).
  destruct (dis_loss_Ok s bm (batch_size s)) as (dl & Hdl & Hloss);
    [done|apply Hwf|done..|].
  destruct (is_loss_eq _ _ Hloss) as [d ->].
  exists d. rewrite Hmix. cbn. rewrite Hdl. split; [|done].
  unfold discriminator_step. stx_run. rewrite Hmix. stx_run. rewrite Hdl.
  by stx_run.
Qed.

(** Lines 61-62 on a batch of another size: nothing is recorded. *)
Lemma discriminator_step_short s l g out batch_real mask xin batch_fake b :
  gan_wf s → b ≠ batch_size s →
  is_images (device s) b batch_real → is_images (device s) b batch_fake →
  is_mask img_h img_w mask → dev mask = device s →
  discriminator_step batch_real mask xin batch_fake (World s l g Live out) =
    (Err (RuntimeError SizeMismatch), World s l g Live out).
Proof.
  intros Hwf Hb Hr Hf Hm Hdm. unfold discriminator_step. stx_run.
  rewrite (mix_Err s _ _ _ b Hwf Hb Hr Hf Hm Hdm). by stx_run.
Qed.

(** Lines 72-85 on a full batch: the graph is freed afterwards. *)
Lemma generator_step_run s l g out batch_real mask xin x1 x2 batch_fake :
  gan_wf s →
  is_images (device s) (batch_size s) batch_real →
  is_images (device s) (batch_size s) x1 →
  is_images (device s) (batch_size s) x2 →
  is_images (device s) (batch_size s) batch_fake →
  is_mask img_h img_w mask → dev mask = device s →
  ∃ gv lv,
    generator_step batch_real mask xin x1 x2 batch_fake (World s l g Live out) =
      (Ok (Tensor [] [gv] (device s)),
       World (after_G (g_loss_fn (zero_gen s) batch_real mask xin) s)
         (Frame (G_losses l ++ [gv]) (D_losses l) (iters l)) g Freed out)
    ∧ adv_loss s batch_fake mask = Ok (Tensor [] [gv] (device s))
    ∧ l1 s batch_real x1 x2 = Ok (Tensor [] [lv] (device s)).
Proof.
  intros Hwf Hr H1' H2' Hf Hm Hdm.
  destruct (l1_Ok s _ _ _ _ Hr H1' H2') as (ll & Hl1 & Hll).
  destruct (adv_loss_Ok s _ _ Hwf Hf Hm Hdm) as (gl & Hadv & Hgl).
  destruct (is_loss_eq _ _ Hll) as [lv ->], (is_loss_eq _ _ Hgl) as [gv ->].
  exists gv, lv. split; [|done].
  unfold generator_step. stx_run.
  rewrite (zero_gen_cfg s) at 1. rewrite Hl1. stx_run.
  rewrite (zero_gen_fwd s) at 1. rewrite Hadv. stx_run.
  unfold to. cbn [shape data device zero_gen set_gen]. stx_run.
  unfold add. rewrite binop_scalars. by stx_run.
Qed.

(** The state an iteration starts the generator's half from is
    consistent. *)
Lemma after_D_wf L s : gan_wf s → gan_wf (after_D L s).
Proof.
  apply gan_wf_cfg. unfold after_D.
  by rewrite stepD_cfg, accumulate_grads_cfg, zero_dis_cfg.
Qed.

(** Lines 48-60 succeed on a batch of any size [b]. *)
Lemma forward_pieces s g images b :
  gan_wf s → is_images Cpu b images →
  ∃ mask g' xin x1 x2 x3 bf,
    draw_mask (device s) g = (Ok mask, g')
    ∧ (is_mask img_h img_w mask ∧ dev mask = device s)
    ∧ erase s (to (device s) images) mask = Ok xin
    ∧ call_gen s xin mask = Ok (x1, x2, x3)
    ∧ composite s x2 mask xin = Ok bf
    ∧ is_images (device s) b x1 ∧ is_images (device s) b x2
    ∧ is_images (device s) b bf.
Proof.
  intros Hwf (Hsi & Hdi & Hwi).
  assert (is_images (device s) b (to (device s) images)) as Hr by done.
  destruct (draw_mask_run (device s) g) as (mask & g' & Hdraw & Hm & Hdm).
  destruct (erase_images s _ _ _ Hr Hm Hdm) as (xin & Her & Hx & _).
  destruct (call_gen_Ok s xin mask _ Hwf Hx Hm Hdm) as (x1 & x2 & x3 & Hg & H1' & H2').
  destruct (composite_Ok s x2 mask xin _ H2' Hx Hm Hdm) as (bf & Hc & Hbf & _).
  by exists mask, g', xin, x1, x2, x3, bf.
Qed.

(** Lines 47-89 on a full batch. *)
Lemma train_batch_run epoch w images labels :
  gan_wf (self w) → is_images Cpu (batch_size (self w)) images →
  ∃ it, is_iteration (self w) (rng w) images it
        ∧ train_batch epoch [images; labels] w = (Ok (), world_after epoch w images it).
Proof.
  destruct w as [s l g t out]. cbn [self rng]. intros Hwf Hi.
  destruct (forward_pieces s g images _ Hwf Hi)
    as (mask & g' & xin & x1 & x2 & x3 & bf & Hdraw & [Hm Hdm] & Her & Hg & Hc
        & H1' & H2' & Hbf).
  assert (is_images (device s) (batch_size s) (to (device s) images)) as Hr
    by (by destruct Hi as (? & ? & ?)).
  destruct (discriminator_step_run (zero_dis s) l g' out _ mask xin bf Hwf Hr Hbf Hm Hdm)
    as (d & HD & Hd).
  destruct (generator_step_run
              (after_D (d_loss_fn (zero_dis s) (to (device s) images) mask xin) s)
              (Frame (G_losses l) (D_losses l ++ [d]) (iters l)) g' out
              (to (device s) images) mask xin x1 x2 bf)
    as (gv & lv & HG & Hgv & Hlv); [by apply after_D_wf|done..|].
  exists (Iteration mask g' xin x1 x2 bf d gv lv).
  split.
  { exact (conj Hdraw (conj Hm (conj Hdm (conj Her (conj (ex_intro _ x3 Hg)
             (conj Hc (conj Hd (conj Hgv Hlv)))))))). }
  unfold train_batch. stx_run. cbn [lookup list_lookup of_option]. stx_run.
  rewrite (run_with_rng_Ok _ _ _ _ _ _ _ _ _ Hdraw), Her. stx_run.
  rewrite Hg. stx_run. rewrite Hc. stx_run.
  unfold after_D in HG.
  rewrite (run_bind_Ok _ _ _ _ _ HD), (run_bind_Ok _ _ _ _ _ HG). stx_run.
  unfold world_after, it_self, it_Lg, it_sD, it_Ld, after_D.
  cbn [it_mask it_rng it_xin it_x1 it_x2 it_fake it_d it_g it_l1 self locals stdout].
  reflexivity.
Qed.

(** Lines 47-62 on a batch of another size: the second [torch.cat] of
    line 62 raises, after [self.dis.zero_grad()] and the generator's
    forward pass, before anything is recorded. *)
Lemma train_batch_short_run epoch w images labels b :
  gan_wf (self w) → b ≠ batch_size (self w) → is_images Cpu b images →
  ∃ g', train_batch epoch [images; labels] w =
          (Err (RuntimeError SizeMismatch),
           World (zero_dis (self w)) (locals w) g' Live (stdout w)).
Proof.
  destruct w as [s l g t out]. cbn [self rng locals stdout]. intros Hwf Hb Hi.
  destruct (forward_pieces s g images _ Hwf Hi)
    as (mask & g' & xin & x1 & x2 & x3 & bf & Hdraw & [Hm Hdm] & Her & Hg & Hc
        & H1' & H2' & Hbf).
  assert (is_images (device s) b (to (device s) images)) as Hr
    by (by destruct Hi as (? & ? & ?)).
  exists g'.
  unfold train_batch. stx_run. cbn [lookup list_lookup of_option]. stx_run.
  rewrite (run_with_rng_Ok _ _ _ _ _ _ _ _ _ Hdraw), Her. stx_run.
  rewrite Hg. stx_run. rewrite Hc. stx_run.
  by rewrite (run_bind_Err _ _ _ _ _
    (discriminator_step_short (zero_dis s) l g' out _ mask xin bf b
       Hwf Hb Hr Hbf Hm Hdm)).
Qed.

(** *** The loops *)

Lemma it_sD_cfg s images it : it_sD s images it ≡c s.
Proof.
  unfold it_sD, after_D. by rewrite stepD_cfg, accumulate_grads_cfg, zero_dis_cfg.
Qed.

(** The discriminator's half of an iteration leaves the generator
    alone. *)
Lemma gen_it_sD s images it :
  params (gen (it_sD s images it)) = params (gen s)
  ∧ call_gen (it_sD s images it) = call_gen s.
Proof. done. Qed.

(** The loss recorded in [D_losses] is the differentiated loss at the
    parameters the iteration started from. *)
Lemma it_d_loss s g images it :
  is_iteration s g images it →
  d_loss_fn s (to (device s) images) (it_mask it) (it_xin it)
    (params (gen s)) (params (dis s)) = Ok (it_d it).
Proof.
  intros (_ & _ & _ & _ & [x3 Hg] & Hc & Hd & _). by eapply d_loss_fn_at.
Qed.

(** The loss recorded in [G_losses] is the adversarial part of the
    differentiated loss, at the discriminator's new parameters. *)
Lemma it_g_loss s g images it :
  is_iteration s g images it →
  g_loss_fn s (to (device s) images) (it_mask it) (it_xin it)
    (params (gen s)) (params (dis (it_sD s images it)))
  = Ok (it_g it + it_l1 it)%sc.
Proof.
  intros (_ & _ & _ & _ & [x3 Hg] & Hc & _ & Ha & Hl).
  pose proof (it_sD_cfg s images it) as Hcfg.
  rewrite (g_loss_fn_cfg s (it_sD s images it)) by done.
  destruct (gen_it_sD s images it) as [<- Hcall].
  eapply g_loss_fn_at; [by rewrite Hcall|by rewrite Hcfg..|done].
Qed.

(** The generator's half leaves the discriminator's parameters
    alone. *)
Lemma dis_it_self s images it :
  params (dis (it_self s images it)) = params (dis (it_sD s images it)).
Proof. reflexivity. Qed.

Lemma it_self_cfg s images it : it_self s images it ≡c s.
Proof.
  unfold it_self, after_G, it_sD, after_D.
  by rewrite stepG_cfg, accumulate_grads_cfg, zero_gen_cfg, stepD_cfg,
    accumulate_grads_cfg, zero_dis_cfg.
Qed.

(** An iteration takes the invariant from [k] to [k + 1]. *)
Lemma world_after_inv c out k epoch w images it :
  loop_inv c out k w → loop_inv c out (S k) (world_after epoch w images it).
Proof.
  intros (Hwf & Hc & Hk & HG & HD & evs & Hout & Hlen & Hpr).
  pose proof (it_self_cfg (self w) images it) as Hcfg.
  unfold loop_inv, world_after. cbn [self locals stdout G_losses D_losses iters].
  split_and!; [by eapply gan_wf_cfg|by rewrite Hcfg|lia|..].
  - rewrite length_app. simpl. lia.
  - rewrite length_app. simpl. lia.
  - eexists (evs ++ [_]). rewrite Hout, <-(assoc_L (++)). split; [done|].
    rewrite length_app. split; [simpl; lia|].
    apply Forall_app. split; [done|]. by apply Forall_singleton.
Qed.

Lemma loop_inv_batch_size c out k w : loop_inv c out k w → 0 < c_batch_size c.
Proof. by intros ((_ & _ & ?) & <- & _). Qed.

(** The batches of one pass are fit for [batch_hoare]. *)
Lemma dl_iter_indices dl g batches g' i idxs :
  0 < dl_batch_size dl → dl_iter dl g = (Ok batches, g') →
  batches !! i = Some idxs →
  Forall (λ j, j < ds_len (dl_dataset dl)) idxs.
Proof.
  intros Hpos Hit Hi. apply Forall_lookup_2. intros n j Hj.
  eapply dl_iter_bound; eauto using list_elem_of_lookup_2.
Qed.

Lemma loop_inv_wf c out k w :
  loop_inv c out k w → gan_wf (self w) ∧ batch_size (self w) = c_batch_size c.
Proof. by intros (? & <- & _). Qed.

Lemma loop_inv_rng c out k w g : loop_inv c out k w → loop_inv c out k (set_rng g w).
Proof. by destruct w. Qed.

(** *** The loops, for any invariant of the iterations

    [I tr w] holds of the world after the iterations on the batches
    [tr], given by the indices of their samples.  It must say that the
    object is consistent and has the batch size of the data loader, it
    must not depend on the random number generator, and an iteration
    on the samples at [idxs] must take it from [tr] to [tr ++ [idxs]]. *)
Section loops.
Variables (I : list (list nat) → world (Rng := Rng) → Prop).
Variables (E : list (list nat) → nat → Prop) (dl : dataloader R Rng).
Hypothesis I_wf : ∀ tr w,
  I tr w → gan_wf (self w) ∧ batch_size (self w) = dl_batch_size dl.
Hypothesis I_rng : ∀ tr w g, I tr w → I tr (set_rng g w).
Hypothesis I_step : ∀ tr epoch w idxs images it,
  I tr w → E tr epoch →
  fetched dl idxs images → is_images Cpu (dl_batch_size dl) images →
  is_iteration (self w) (rng w) images it →
  I (tr ++ [idxs]) (world_after epoch w images it).

(** Fetching a full batch and training on it, lines 46-89. *)
Lemma batch_hoare_inv tr epoch idxs :
  E tr epoch → length idxs = dl_batch_size dl →
  Forall (sample_ok sample_shape (dl_dataset dl)) idxs →
  hoare (I tr)
    (batch_data ← with_rng (dl_fetch dl idxs); train_batch epoch batch_data)
    (λ _, I (tr ++ [idxs])).
Proof.
  intros Hep Hlen Hidx [s l g t o] Hinv.
  destruct (I_wf _ _ Hinv) as [Hwf Hbs]. cbn [self] in Hwf, Hbs.
  destruct (dl_fetch_samples sample_shape dl idxs g) as (bd & g' & Hf & Hb);
    [intros ->; destruct Hwf as (_ & _ & ?); simpl in *; lia|done|].
  destruct Hb as (images & labels & -> & Hsh & Hdv & Hw).
  rewrite (run_with_rng_Ok _ _ _ _ _ _ _ _ _ Hf).
  assert (is_images Cpu (dl_batch_size dl) images) as Hi by (by rewrite <-Hlen).
  destruct (train_batch_run epoch (World s l g' t o) images labels)
    as (it & Hit & ->); [done|cbn [self]; by rewrite Hbs|].
  eexists tt, _. split; [done|].
  apply (I_step tr epoch (World s l g' t o));
    [apply (I_rng tr _ g' Hinv)|done| |done..].
  by exists g, labels, g'.
Qed.

Hypothesis ds_ok : dataset_ok sample_shape (dl_dataset dl).

(** One epoch over a dataset the batch size divides, lines 46-89: the
    iterations of a pass. *)
Lemma epoch_hoare_inv tr epoch :
  ds_len (dl_dataset dl) `mod` dl_batch_size dl = 0 →
  (∀ batches i, is_pass dl batches → i < length batches →
                E (tr ++ take i batches) epoch) →
  hoare (I tr) (train_epoch dl epoch)
    (λ _ w, ∃ batches, is_pass dl batches ∧ I (tr ++ batches) w).
Proof.
  intros Hmod Hep [s l g t o] Hinv.
  assert (0 < dl_batch_size dl) as Hpos.
  { destruct (I_wf _ _ Hinv) as [(_ & _ & ?) ?]. cbn [self] in *. lia. }
  destruct (dl_iter_perm dl g Hpos) as (batches & g' & Hit & _).
  pose proof (dl_iter_pass dl g batches g' Hpos Hmod Hit) as Hpass.
  unfold train_epoch. rewrite (run_with_rng_Ok _ _ _ _ _ _ _ _ _ Hit).
  destruct (hoare_for (λ i, I (tr ++ take i batches)) batches
              (λ idxs, batch_data ← with_rng (dl_fetch dl idxs);
                       train_batch epoch batch_data))
    with (s := World s l g' t o) as ([] & w' & Hrun & Hpost).
  - intros i idxs Hi. rewrite (take_S_r _ _ _ Hi), (assoc_L (++)).
    apply batch_hoare_inv;
      [apply Hep; [done|by eapply lookup_lt_Some]|
      |eapply dataset_ok_samples; [exact ds_ok|by eapply dl_iter_indices]].
    destruct Hpass as [_ Hfull]. by apply (Forall_lookup_1 _ _ _ _ Hfull Hi).
  - rewrite take_0, app_nil_r. apply (I_rng tr _ g' Hinv).
  - rewrite firstn_all in Hpost. by exists tt, w'; eauto.
Qed.

Hypothesis E_pass : ∀ passes batches i,
  Forall (is_pass dl) passes → is_pass dl batches → i < length batches →
  E (mjoin passes ++ take i batches) (length passes).

(** All the epochs over a dataset the batch size divides: one pass
    each. *)
Lemma epochs_hoare_inv n :
  ds_len (dl_dataset dl) `mod` dl_batch_size dl = 0 →
  hoare (I []) (for_ (seq 0 n) (train_epoch dl))
    (λ _ w, ∃ passes, length passes = n ∧ Forall (is_pass dl) passes
                      ∧ I (mjoin passes) w).
Proof.
  intros Hmod.
  pose proof (hoare_for
    (λ e w, ∃ passes, length passes = e ∧ Forall (is_pass dl) passes
                      ∧ I (mjoin passes) w)
    (seq 0 n) (train_epoch dl)) as Hfor.
  rewrite length_seq in Hfor. intros w Hw. apply Hfor; [|by exists []].
  intros e epoch [-> _]%lookup_seq w1 (passes & <- & Hall & Hinv).
  destruct (epoch_hoare_inv (mjoin passes) (length passes) Hmod
              (λ batches i, E_pass passes batches i Hall) w1 Hinv)
    as ([] & w2 & Hrun & batches & Hpass & Hinv2).
  exists tt, w2. split; [done|]. exists (passes ++ [batches]).
  rewrite length_app, Forall_app, Forall_singleton, join_app. simpl.
  rewrite app_nil_r. split_and!; [lia|done..].
Qed.
End loops.

(** [loop_inv] counts the iterations. *)
Lemma loop_inv_step (dl : dataloader R Rng) c out tr epoch w idxs images it :
  loop_inv c out (length tr) w → fetched dl idxs images →
  is_images Cpu (dl_batch_size dl) images →
  is_iteration (self w) (rng w) images it →
  loop_inv c out (length (tr ++ [idxs])) (world_after epoch w images it).
Proof.
  intros Hinv _ _ _. rewrite length_app, Nat.add_1_r. by apply world_after_inv.
Qed.

(** Fetching a full batch and training on it keeps [loop_inv]. *)
Lemma batch_hoare dl epoch c out k idxs :
  dl_batch_size dl = c_batch_size c → length idxs = dl_batch_size dl →
  Forall (sample_ok sample_shape (dl_dataset dl)) idxs →
  hoare (loop_inv c out k)
    (batch_data ← with_rng (dl_fetch dl idxs); train_batch epoch batch_data)
    (λ _, loop_inv c out (S k)).
Proof.
  intros Hbs Hlen Hidx.
  pose proof (batch_hoare_inv (λ tr, loop_inv c out (length tr)) (λ _ _, True) dl)
    as Hb.
  specialize (Hb (λ tr w Hinv, eq_ind_r (λ b, _ ∧ _ = b) (loop_inv_wf _ _ _ _ Hinv) Hbs)).
  specialize (Hb (λ tr, loop_inv_rng _ _ _)
                (λ tr ep w i im it Hinv _, loop_inv_step dl c out tr ep w i im it Hinv)
                (replicate k []) epoch idxs Logic.I Hlen Hidx).
  cbv beta in Hb. by rewrite length_app, length_replicate, Nat.add_1_r in Hb.
Qed.

(** Fetching a batch of another size and training on it: line 62
    raises. *)
Lemma batch_short_raises dl epoch c out k idxs :
  dataset_ok sample_shape (dl_dataset dl) →
  idxs ≠ [] → length idxs ≠ c_batch_size c →
  Forall (λ i, i < ds_len (dl_dataset dl)) idxs →
  hoare_raises (loop_inv c out k)
    (batch_data ← with_rng (dl_fetch dl idxs); train_batch epoch batch_data)
    (RuntimeError SizeMismatch) (failed_inv c out k).
Proof.
  intros Hds Hne Hlen Hidx [s l g t o] Hinv.
  pose proof Hinv as (Hwf & Hc & _). cbn [self] in Hwf, Hc.
  destruct (dl_fetch_batch sample_shape dl idxs g Hds Hne Hidx)
    as (bd & g' & Hf & images & labels & -> & Hsh & Hdv & Hw).
  rewrite (run_with_rng_Ok _ _ _ _ _ _ _ _ _ Hf).
  destruct (train_batch_short_run epoch (World s l g' t o) images labels
              (length idxs)) as (g'' & ->); [done|by rewrite <-Hc in Hlen|done|].
  destruct Hinv as (_ & _ & ? & ? & ? & ?).
  eexists. split; [done|]. by split; [split_and!|].
Qed.

(** One epoch over a dataset the batch size does not divide: the full
    batches are trained on, the last batch raises. *)
Lemma epoch_short_raises dl epoch c out k :
  dataset_ok sample_shape (dl_dataset dl) →
  dl_batch_size dl = c_batch_size c →
  ds_len (dl_dataset dl) `mod` dl_batch_size dl ≠ 0 →
  hoare_raises (loop_inv c out k) (train_epoch dl epoch)
    (RuntimeError SizeMismatch)
    (failed_inv c out (ds_len (dl_dataset dl) / dl_batch_size dl + k)).
Proof.
  intros Hds Hbs Hmod [s l g t o] Hinv.
  assert (0 < dl_batch_size dl) as Hpos
    by (rewrite Hbs; by eapply loop_inv_batch_size).
  destruct (dl_iter_perm dl g Hpos) as (batches & g' & Hit & _).
  destruct (dl_iter_last dl g batches g' Hpos Hmod Hit) as (last & Hlast & Hlen).
  unfold train_epoch. rewrite (run_with_rng_Ok _ _ _ _ _ _ _ _ _ Hit).
  apply (hoare_for_raises (λ i, loop_inv c out (i + k)) batches _ _ last
           _ _ Hlast); [| |done].
  - intros i idxs Hlt Hi. apply batch_hoare; [done| |].
    + by eapply dl_iter_lookup_full.
    + eapply dataset_ok_samples; [done|by eapply dl_iter_indices].
  - pose proof (Nat.mod_upper_bound (ds_len (dl_dataset dl)) (dl_batch_size dl)).
    apply batch_short_raises; [done| |lia|by eapply dl_iter_indices].
    intros ->. simpl in Hlen. lia.
Qed.

(** All the epochs over a dataset the batch size divides. *)
Lemma epochs_hoare dl c out n :
  dataset_ok sample_shape (dl_dataset dl) →
  dl_batch_size dl = c_batch_size c →
  ds_len (dl_dataset dl) `mod` dl_batch_size dl = 0 →
  hoare (loop_inv c out 0) (for_ (seq 0 n) (train_epoch dl))
    (λ _, loop_inv c out (n * (ds_len (dl_dataset dl) / dl_batch_size dl))).
Proof.
  intros Hds Hbs Hmod w Hinv.
  pose proof (loop_inv_batch_size _ _ _ _ Hinv) as Hpos. rewrite <-Hbs in Hpos.
  pose proof (epochs_hoare_inv (λ tr, loop_inv c out (length tr)) (λ _ _, True) dl)
    as He.
  specialize (He (λ tr w Hinv, eq_ind_r (λ b, _ ∧ _ = b) (loop_inv_wf _ _ _ _ Hinv) Hbs)).
  destruct (He (λ tr, loop_inv_rng _ _ _)
              (λ tr ep w i im it Hinv _, loop_inv_step dl c out tr ep w i im it Hinv)
              Hds (λ _ _ _ _ _ _, Logic.I) n Hmod w Hinv)
    as ([] & w' & Hrun & passes & <- & Hall & Hinv').
  exists tt, w'. split; [done|].
  cbv beta in Hinv'. by rewrite (length_join_passes dl) in Hinv'.
Qed.

(** Lines 39-44: the loops start from cleared counters, in training
    mode. *)
Lemma train_gan_start ds s l g t out :
  0 < batch_size s →
  train_gan ds (World s l g t out) =
    (for_ (seq 0 (num_epochs s)) (train_epoch (MkDataLoader ds (batch_size s) true))
     ≫= λ _, l ← gets locals; emit (PlotLosses (G_losses l) (D_losses l)))
      (World (train_mode s) (Frame [] [] 0) g t out).
Proof.
  intros Hbs. unfold train_gan. stx_run. rewrite DataLoader_Ok by done.
  by stx_run.
Qed.

Lemma loop_inv_start s g t out :
  gan_wf s →
  loop_inv (config_of (train_mode s)) out 0 (World (train_mode s) (Frame [] [] 0) g t out).
Proof.
  intros Hwf. split_and!; try done. exists []. by rewrite app_nil_r.
Qed.

(** *** A sample that cannot be fetched

    When fetching some sample of the dataset raises [e], and every
    other sample is an image or raises [e] as well, the first epoch
    raises [e]: at the first batch that holds such a sample. *)

Lemma batch_ok_or_raises dl epoch c out idxs e :
  dl_batch_size dl = c_batch_size c → length idxs = dl_batch_size dl →
  Forall (λ i, sample_ok sample_shape (dl_dataset dl) i
               ∨ sample_raises (dl_dataset dl) e i) idxs →
  ok_or_raises (λ w, ∃ k, loop_inv c out k w)
    (batch_data ← with_rng (dl_fetch dl idxs); train_batch epoch batch_data) e
    (λ _ w, ∃ k, loop_inv c out k w).
Proof.
  intros Hbs Hlen Hall w [k Hinv].
  destruct (samples_ok_or_raise _ _ _ _ Hall) as [Hok|Hbad].
  - left. destruct (batch_hoare dl epoch c out k idxs Hbs Hlen Hok w Hinv)
      as ([] & w' & Hrun & Hinv').
    exists tt, w'. eauto.
  - right. destruct w as [s l g t o].
    destruct (dl_fetch_raises sample_shape dl idxs e g Hall Hbad) as [g' Hf].
    eexists. by rewrite (run_with_rng_Err _ _ _ _ _ _ _ _ _ Hf).
Qed.

Lemma batch_sample_raises dl epoch idxs e (P : world (Rng := Rng) → Prop) :
  Forall (λ i, sample_ok sample_shape (dl_dataset dl) i
               ∨ sample_raises (dl_dataset dl) e i) idxs →
  Exists (sample_raises (dl_dataset dl) e) idxs →
  hoare_raises P
    (batch_data ← with_rng (dl_fetch dl idxs); train_batch epoch batch_data) e
    (λ _, True).
Proof.
  intros Hall Hbad [s l g t o] _.
  destruct (dl_fetch_raises sample_shape dl idxs e g Hall Hbad) as [g' Hf].
  eexists. by rewrite (run_with_rng_Err _ _ _ _ _ _ _ _ _ Hf).
Qed.

Lemma epoch_sample_raises dl epoch c out e :
  dl_batch_size dl = c_batch_size c →
  (∀ i, i < ds_len (dl_dataset dl) →
        sample_ok sample_shape (dl_dataset dl) i
        ∨ sample_raises (dl_dataset dl) e i) →
  (∃ j, j < ds_len (dl_dataset dl) ∧ sample_raises (dl_dataset dl) e j) →
  hoare_raises (λ w, ∃ k, loop_inv c out k w) (train_epoch dl epoch) e (λ _, True).
Proof.
  intros Hbs Hall (j & Hj & Hbad) [s l g t o] [k0 Hinv].
  assert (0 < dl_batch_size dl) as Hpos
    by (rewrite Hbs; by eapply loop_inv_batch_size).
  destruct (dl_iter_perm dl g Hpos) as (batches & g' & Hit & Hp).
  assert (∀ i idxs, batches !! i = Some idxs →
            Forall (λ i, sample_ok sample_shape (dl_dataset dl) i
                         ∨ sample_raises (dl_dataset dl) e i) idxs) as Hidx.
  { intros i idxs Hi. eapply list.Forall_impl; [by eapply dl_iter_indices|].
    intros ?. apply Hall. }
  assert (j ∈ mjoin batches) as (idxs & Hjin & Hin)%list_elem_of_join
    by (rewrite Hp; apply elem_of_seq; lia).
  apply list_elem_of_lookup in Hin as [k Hk].
  pose proof (dl_iter_length dl g batches g' Hpos Hit) as Hlen.
  pose proof (lookup_lt_Some _ _ _ Hk) as Hlt.
  unfold train_epoch. rewrite (run_with_rng_Ok _ _ _ _ _ _ _ _ _ Hit).
  apply (for_raises_at (λ w, ∃ k, loop_inv c out k w) batches _ k idxs e Hk).
  - intros i y Hi Hy. apply batch_ok_or_raises; [done| |by eapply Hidx].
    eapply dl_iter_lookup_full; [done..|].
    destruct (_ =? _); lia.
  - apply batch_sample_raises; [by eapply Hidx|].
    apply Exists_exists. exists j. split; [by apply list_elem_of_In|done].
  - exists k0. apply (loop_inv_rng c out k0 _ g' Hinv).
Qed.

(** A run over a dataset with a sample that raises. *)
Lemma train_gan_sample_raises ds w e :
  gan_wf (self w) → 0 < num_epochs (self w) →
  (∀ i, i < ds_len ds → sample_ok sample_shape ds i ∨ sample_raises ds e i) →
  (∃ j, j < ds_len ds ∧ sample_raises ds e j) →
  ∃ w', train_gan ds w = (Err e, w').
Proof.
  destruct w as [s l g t out]. cbn [self]. intros Hwf Hne Hall Hbad.
  rewrite train_gan_start by apply Hwf.
  destruct (num_epochs s) as [|n] eqn:Hn; [lia|]. cbn [seq for_].
  destruct (epoch_sample_raises (MkDataLoader ds (batch_size s) true) 0
              (config_of (train_mode s)) out e eq_refl Hall Hbad
              (World (train_mode s) (Frame [] [] 0) g t out))
    as (w' & Hrun & _).
  { exists 0. by apply loop_inv_start. }
  exists w'. rewrite run_bind. rewrite run_bind.
  by rewrite Hrun.
Qed.

(** A run over a dataset the batch size divides, lines 37-91. *)
Lemma train_gan_run ds w :
  gan_wf (self w) → dataset_ok sample_shape ds →
  ds_len ds `mod` batch_size (self w) = 0 →
  ∃ w' evs,
    train_gan ds w = (Ok (), w')
    ∧ iters (locals w') = num_epochs (self w) * (ds_len ds / batch_size (self w))
    ∧ length (G_losses (locals w')) = iters (locals w')
    ∧ length (D_losses (locals w')) = iters (locals w')
    ∧ stdout w' = stdout w ++ evs
                  ++ [PlotLosses (G_losses (locals w')) (D_losses (locals w'))]
    ∧ length evs = iters (locals w') ∧ Forall is_print evs
    ∧ self w' ≡c train_mode (self w).
Proof.
  destruct w as [s l g t out]. cbn [self stdout]. intros Hwf Hds Hmod.
  rewrite train_gan_start by apply Hwf.
  destruct (epochs_hoare (MkDataLoader ds (batch_size s) true)
              (config_of (train_mode s)) out (num_epochs s) Hds eq_refl Hmod
              _ (loop_inv_start s g t out Hwf))
    as ([] & [s1 l1 g1 t1 out1] & Hrun & _ & Hc & Hk & HG & HD & evs & Hout & Hlen & Hpr).
  rewrite (run_bind_Ok _ _ _ _ _ Hrun). stx_run. cbn [self locals stdout] in *.
  subst out1. eexists _, evs. split; [done|]. cbn [self locals stdout].
  rewrite <-(assoc_L (++)). split_and!; try done; congruence.
Qed.
End run_lemmas.

(** ** What training never changes

    [stable w w']: the object of [w'] has the configuration of the
    object of [w], and what [w] had printed is the beginning of what
    [w'] has printed.  Every operation of an iteration keeps this
    relation, whether it returns or raises, for any networks, any
    [util_ops] and any data. *)

Section stability.
Context {R Rng : Type} `{Scalar R, Random Rng, Models R, UtilOps R Rng}.
Context {AG : Autograd R gen_params} {AD : Autograd R dis_params}.
Implicit Types (s : GAN) (w : world (Rng := Rng)).

Definition stable w w' : Prop :=
  self w' ≡c self w ∧ stdout w `prefix_of` stdout w'.

#[export] Instance stable_preorder : PreOrder stable.
Proof.
  split.
  - by intros w.
  - intros w1 w2 w3 [Hc1 Hp1] [Hc2 Hp2]. split; by etrans.
Qed.

Lemma preserves_modify_self (f : GAN → GAN) :
  (∀ s, f s ≡c s) → preserves stable (modify_self f).
Proof. intros Hf. apply preserves_modify. intros w. by split; [apply Hf|]. Qed.

Lemma preserves_locals (f : world (Rng := Rng) → frame) :
  preserves stable (modify (λ w, set_locals (f w) w)).
Proof. by apply preserves_modify. Qed.

Lemma preserves_emit e : preserves stable (emit e).
Proof.
  apply preserves_modify. intros w. split; [done|]. by apply prefix_app_r.
Qed.

Lemma preserves_with_rng {A} (m : stx Rng A) : preserves stable (with_rng m).
Proof. by apply preserves_zoom. Qed.

Lemma preserves_backward retain loss L :
  preserves stable (backward retain loss L).
Proof.
  intros [s l g t out] r w'. unfold backward. rewrite run_lift_bind.
  destruct (guard_ok _ _); [|by intros [= <- <-]]. rewrite run_get_bind.
  by destruct t; intros [= <- <-].
Qed.
End stability.

(** Proves [preserves stable m] for a computation [m] built from the
    operations above. *)
Ltac preserves_step :=
  first
    [ apply preserves_ret
    | apply preserves_lift
    | apply preserves_gets
    | apply preserves_with_rng
    | apply preserves_backward
    | apply preserves_emit
    | apply preserves_locals
    | apply preserves_modify_self;
      first [apply zero_dis_cfg | apply zero_gen_cfg | apply stepD_cfg
            | apply stepG_cfg]
    | apply preserves_modify; done
    | apply preserves_bind; [..|intros ?]
    | match goal with
      | |- preserves _ (let (_, _) := ?p in _) => destruct p
      end ].

Ltac solve_preserves :=
  repeat first [ preserves_step | match goal with |- PreOrder _ => apply _ end ].

Section stability_lemmas.
Context {R Rng : Type} `{Scalar R, Random Rng, Models R, UtilOps R Rng}.
Context {AG : Autograd R gen_params} {AD : Autograd R dis_params}.
Implicit Types (s : GAN) (w : world (Rng := Rng)).

Lemma preserves_train_batch epoch batch_data :
  preserves (stable (Rng := Rng)) (train_batch epoch batch_data).
Proof.
  unfold train_batch, dis_zero_grad, incr_iters. solve_preserves.
Qed.

Lemma preserves_train_epoch dl epoch :
  preserves (stable (Rng := Rng)) (train_epoch dl epoch).
Proof.
  unfold train_epoch. solve_preserves. apply preserves_for; [apply _|].
  intros idxs _. apply preserves_bind; [apply _|apply preserves_with_rng|].
  intros batch_data. apply preserves_train_batch.
Qed.

(** Entering training mode twice is entering it once, and it commutes
    with the configuration. *)
Lemma train_mode_wf s : gan_wf s → gan_wf (train_mode s).
Proof. by intros (? & ? & ?). Qed.

Lemma train_mode_cfg s s' : s ≡c s' → train_mode s ≡c train_mode s'.
Proof. unfold train_mode. cfg_crush. Qed.

Lemma train_mode_idemp s : train_mode (train_mode s) ≡c train_mode s.
Proof. done. Qed.

(** [train_gan] as a whole keeps the configuration up to the training
    flags, which it sets. *)
Definition stable_mode w w' : Prop :=
  train_mode (self w') ≡c train_mode (self w) ∧ stdout w `prefix_of` stdout w'.

#[export] Instance stable_mode_preorder : PreOrder stable_mode.
Proof.
  split.
  - by intros w.
  - intros w1 w2 w3 [Hc1 Hp1] [Hc2 Hp2]. split; by etrans.
Qed.

Lemma stable_stable_mode w w' : stable w w' → stable_mode w w'.
Proof. intros [Hc Hp]. split; [by apply train_mode_cfg|done]. Qed.

Lemma preserves_train_gan (ds : dataset R Rng) : preserves stable_mode (train_gan ds).
Proof.
  unfold train_gan, gen_train, dis_train.
  apply preserves_bind; [apply _|apply preserves_gets; apply _|]. intros s.
  apply preserves_bind; [apply _|apply preserves_lift; apply _|]. intros dl.
  apply preserves_bind; [apply _|by apply preserves_modify|]. intros _.
  apply preserves_bind; [apply _|by apply preserves_modify|]. intros _.
  apply preserves_bind; [apply _|by apply preserves_modify|]. intros _.
  apply (preserves_mono _ stable); [apply stable_stable_mode|].
  solve_preserves. apply preserves_for; [apply _|]. intros epoch _.
  apply preserves_train_epoch.
Qed.
End stability_lemmas.

(** ** The iteration as an alternating update *)

Section refinement.
Context {R Rng : Type} `{Scalar R, Random Rng, Models R, UtilOps R Rng}.
Context {AG : Autograd R gen_params} {AD : Autograd R dis_params}.
Context `{!AutogradOk R gen_params, !AutogradOk R dis_params}.
Implicit Types (s : GAN) (w : world (Rng := Rng)).

(** The gradients a backward pass leaves depend on the loss as a
    function only. *)
Lemma accumulate_grads_ext L L' s :
  (∀ θg θd, L θg θd = L' θg θd) → accumulate_grads L s = accumulate_grads L' s.
Proof.
  intros HL. unfold accumulate_grads. cbv zeta.
  rewrite (derive_ext (λ θ, L θ (params (dis s))) (λ θ, L' θ (params (dis s))))
    by (intros; apply HL).
  by rewrite (derive_ext (λ θ, L (params (gen s)) θ) (λ θ, L' (params (gen s)) θ))
    by (intros; apply HL).
Qed.

(** The two halves of an iteration, seen on the abstract trainer: what
    was in the [.grad] buffers before does not matter, and the
    generator's half uses the discriminator's new parameters. *)
Lemma trainer_of_after Ld Lg s :
  trainer_of (after_G Lg (after_D Ld s)) = alternating_step Ld Lg (trainer_of s).
Proof.
  unfold alternating_step, after_G, after_D, trainer_of.
  destruct s as [dv dt [θg gg tg dg] [θd gd td dd] ne bs lr b1 b2 al rl fl oD oG].
  cbn. by destruct (adam_step oD θd _) as [oD' θd'], (adam_step oG θg _).
Qed.

(** The object an iteration leaves, with the losses written for the
    object the iteration started from. *)
Lemma it_self_eq s images it :
  it_self s images it =
    after_G (g_loss_fn s (to (device s) images) (it_mask it) (it_xin it))
      (after_D (d_loss_fn s (to (device s) images) (it_mask it) (it_xin it)) s).
Proof.
  unfold it_self, after_G.
  rewrite (accumulate_grads_ext (it_Lg s images it)
             (g_loss_fn s (to (device s) images) (it_mask it) (it_xin it))).
  - unfold it_sD, after_D.
    by rewrite (accumulate_grads_ext (it_Ld s images it)
                  (d_loss_fn s (to (device s) images) (it_mask it) (it_xin it)))
      by (intros; apply d_loss_fn_cfg, zero_dis_cfg).
  - intros. apply g_loss_fn_cfg. etrans; [apply zero_gen_cfg|apply it_sD_cfg].
Qed.
End refinement.

(** ** Theorems: one iteration *)

Section iteration_theorems.
Context {R Rng : Type} `{Scalar R, Random Rng, Models R, UtilOps R Rng}.
Context {AG : Autograd R gen_params} {AD : Autograd R dis_params}.
Context `{!RandomOk Rng, !ModelsOk R, !UtilOpsOk R Rng}.
Context `{!AutogradOk R gen_params, !AutogradOk R dis_params}.
Implicit Types (s : GAN) (w : world (Rng := Rng)).

(** C2 (refinement).  On a batch of [batch_size] images an iteration of
    [train_gan] (lines 47-89) returns normally and performs one
    alternating update of the abstract trainer: the discriminator's
    parameters take an Adam step along the gradient of the
    discriminator's loss, then the generator's parameters take an Adam
    step along the gradient of the generator's loss evaluated against
    the discriminator's new parameters.  Nothing of what the [.grad]
    buffers held before the iteration, and nothing of the generator's
    gradient of the discriminator's loss, enters the update; the
    configuration of the object is unchanged. *)
Theorem train_batch_alternating epoch w images labels :
  gan_wf (self w) → is_images Cpu (batch_size (self w)) images →
  ∃ it w',
    train_batch epoch [images; labels] w = (Ok (), w')
    ∧ is_iteration (self w) (rng w) images it
    ∧ trainer_of (self w') =
        alternating_step
          (d_loss_fn (self w) (to (device (self w)) images) (it_mask it) (it_xin it))
          (g_loss_fn (self w) (to (device (self w)) images) (it_mask it) (it_xin it))
          (trainer_of (self w))
    ∧ self w' ≡c self w.
Proof.
  intros Hwf Hi. destruct (train_batch_run epoch w images labels Hwf Hi)
    as (it & Hit & Hrun).
  exists it, (world_after epoch w images it). split_and!; [done..| |].
  - cbn [world_after self]. by rewrite it_self_eq, trainer_of_after.
  - apply it_self_cfg.
Qed.

(** C6 (functional).  What an iteration on a full batch records: one
    loss is appended to each list, [iters] grows by one, one progress
    line is printed and the graph is freed.  The value appended to
    [D_losses] is the discriminator's loss at the parameters the
    iteration started from.  The value appended to [G_losses] and
    printed as [g_loss] is the adversarial loss alone: the loss the
    generator is trained on, at the discriminator's new parameters, is
    that value plus the L1 loss of lines 73-74. *)
Theorem train_batch_records epoch w images labels :
  gan_wf (self w) → is_images Cpu (batch_size (self w)) images →
  ∃ it w',
    train_batch epoch [images; labels] w = (Ok (), w')
    ∧ is_iteration (self w) (rng w) images it
    ∧ locals w' = Frame (G_losses (locals w) ++ [it_g it])
                    (D_losses (locals w) ++ [it_d it]) (iters (locals w) + 1)
    ∧ stdout w' = stdout w ++ [Print (epoch + 1) (num_epochs (self w))
                                 (iters (locals w) + 1) (it_g it) (it_d it)]
    ∧ graph w' = Freed
    ∧ d_loss_fn (self w) (to (device (self w)) images) (it_mask it) (it_xin it)
        (params (gen (self w))) (params (dis (self w))) = Ok (it_d it)
    ∧ g_loss_fn (self w) (to (device (self w)) images) (it_mask it) (it_xin it)
        (params (gen (self w))) (params (dis (self w')))
      = Ok (it_g it + it_l1 it)%sc.
Proof.
  intros Hwf Hi. destruct (train_batch_run epoch w images labels Hwf Hi)
    as (it & Hit & Hrun).
  exists it, (world_after epoch w images it).
  split_and!; [done..|by eapply it_d_loss|].
  cbn [world_after self]. rewrite dis_it_self. by eapply it_g_loss.
Qed.

(** C5 (error).  On a batch of any other size the iteration raises
    [RuntimeError] (a size mismatch in the second [torch.cat] of line
    62, which repeats the mask [batch_size * 2] times whatever the
    batch holds).  Nothing was recorded or printed; the discriminator's
    [.grad] buffers were emptied and the graph of the generator's
    forward pass is still alive. *)
Theorem train_batch_wrong_size_raises epoch w batch_data b :
  gan_wf (self w) → is_batch b sample_shape batch_data →
  b ≠ batch_size (self w) →
  ∃ w', train_batch epoch batch_data w = (Err (RuntimeError SizeMismatch), w')
        ∧ self w' = zero_dis (self w) ∧ locals w' = locals w
        ∧ stdout w' = stdout w ∧ graph w' = Live.
Proof.
  intros Hwf (images & labels & -> & Hsh & Hdv & Hw) Hb.
  destruct (train_batch_short_run epoch w images labels b) as (g' & ->); [done..|].
  by eexists.
Qed.
End iteration_theorems.

(** ** Theorems: backward passes *)

Section backward_theorems.
Context {R Rng : Type} `{Scalar R, Random Rng, Models R, UtilOps R Rng}.
Context {AG : Autograd R gen_params} {AD : Autograd R dis_params}.
Implicit Types (s : GAN) (w : world (Rng := Rng)).


(** With [retain_graph=True] on the first pass both
    passes succeed, the gradients add up in the buffers in the order of
    the passes, and the graph is freed by the second. *)
Theorem backward_retained_accumulates x1 x2 dv1 dv2 L1 L2 w :
  graph w = Live →
  (backward true (Tensor [] [x1] dv1) L1 ≫= λ _,
   backward false (Tensor [] [x2] dv2) L2) w =
    (Ok (), set_graph Freed
              (set_self (accumulate_grads L2 (accumulate_grads L1 (self w))) w)).
Proof. destruct w as [s l g t out]. cbn. by intros ->. Qed.
End backward_theorems.

(** ** Theorems: the whole of [train_gan] *)

Section training_theorems.
Context {R Rng : Type} `{Scalar R, Random Rng, Models R, UtilOps R Rng}.
Context {AG : Autograd R gen_params} {AD : Autograd R dis_params}.
Context `{!RandomOk Rng, !ModelsOk R, !UtilOpsOk R Rng}.
Implicit Types (s : GAN) (w : world (Rng := Rng)) (ds : dataset R Rng).

(** C3 (termination).  When the batch size divides the length of the
    dataset, [train_gan] returns normally after
    [num_epochs * (len(dataset) / batch_size)] iterations: [iters] has
    that value, [G_losses] and [D_losses] hold one loss per iteration,
    one progress line was printed per iteration, and the last thing
    [train_gan] does is hand the two lists to [plot_losses].  The object
    keeps its configuration, in training mode. *)
Theorem train_gan_completes ds w :
  gan_wf (self w) → dataset_ok sample_shape ds →
  ds_len ds `mod` batch_size (self w) = 0 →
  ∃ w' evs,
    train_gan ds w = (Ok (), w')
    ∧ iters (locals w') = num_epochs (self w) * (ds_len ds / batch_size (self w))
    ∧ length (G_losses (locals w')) = iters (locals w')
    ∧ length (D_losses (locals w')) = iters (locals w')
    ∧ stdout w' = stdout w ++ evs
                  ++ [PlotLosses (G_losses (locals w')) (D_losses (locals w'))]
    ∧ length evs = iters (locals w') ∧ Forall is_print evs
    ∧ self w' ≡c train_mode (self w).
Proof. apply train_gan_run. Qed.

(** C4 (error).  When the batch size does not divide the length of the
    dataset, [train_gan] does not finish its first epoch: after the
    [len(dataset) / batch_size] full batches the last, shorter batch
    raises [RuntimeError] in line 62.  The losses of the full batches
    were recorded and printed, [plot_losses] is never called, and the
    object is left in the middle of an iteration: the discriminator's
    [.grad] buffers empty, the graph alive. *)
Theorem train_gan_short_batch_raises ds w :
  gan_wf (self w) → dataset_ok sample_shape ds → 0 < num_epochs (self w) →
  ds_len ds `mod` batch_size (self w) ≠ 0 →
  ∃ w' evs,
    train_gan ds w = (Err (RuntimeError SizeMismatch), w')
    ∧ iters (locals w') = ds_len ds / batch_size (self w)
    ∧ length (G_losses (locals w')) = iters (locals w')
    ∧ length (D_losses (locals w')) = iters (locals w')
    ∧ stdout w' = stdout w ++ evs
    ∧ length evs = iters (locals w') ∧ Forall is_print evs
    ∧ graph w' = Live ∧ grads (dis (self w')) = None.
Proof.
  destruct w as [s l g t out]. cbn [self stdout]. intros Hwf Hds Hne Hmod.
  rewrite train_gan_start by apply Hwf.
  destruct (num_epochs s) as [|n]; [lia|]. cbn [seq for_].
  destruct (epoch_short_raises (MkDataLoader ds (batch_size s) true) 0
              (config_of (train_mode s)) out 0 Hds eq_refl Hmod
              _ (loop_inv_start s g t out Hwf))
    as (w' & Hrun & (_ & _ & Hk & HG & HD & evs & Hout & Hlen & Hpr) & Hgr & Hgd).
  rewrite (run_bind_Err _ _ _ _ _ (run_bind_Err _ _ _ _ _ Hrun)).
  cbn [dl_dataset dl_batch_size] in *. rewrite Nat.add_0_r in *.
  exists w', evs. split_and!; try done; congruence.
Qed.
End training_theorems.

(** ** The theorems at concrete inputs

    The object and the batches are those of [Gan]; a dataset of [n]
    images of one row and two columns is added. *)

Import Toy.Toy.

Definition toy_sample (i : nat) : sample Z :=
  (Tensor [1; 1; 2] [Z.of_nat (2 * i + 1); Z.of_nat (2 * i + 2)] Cpu, 0).

Definition toy_dataset (n : nat) : dataset Z nat :=
  list_dataset (toy_sample <$> seq 0 n).

Lemma toy_dataset_ok n : dataset_ok sample_shape (toy_dataset n).
Proof. apply list_dataset_ok, Forall_fmap, Forall_true. by intros i. Qed.

Lemma train_batch_alternating_witness :
  ∃ it w',
    train_batch 0 [toy_images 4; toy_labels 4] toy_world = (Ok (), w')
    ∧ is_iteration toy_gan 0 (toy_images 4) it
    ∧ trainer_of (self w') =
        alternating_step
          (d_loss_fn toy_gan (toy_images 4) (it_mask it) (it_xin it))
          (g_loss_fn toy_gan (toy_images 4) (it_mask it) (it_xin it))
          (trainer_of toy_gan)
    ∧ self w' ≡c toy_gan.
Proof.
  exact (train_batch_alternating 0 toy_world (toy_images 4) (toy_labels 4)
           (GAN_init_wf Cpu 1%Z 1%Z) (toy_images_ok 4)).
Defined.

Lemma train_batch_records_witness :
  ∃ it w',
    train_batch 0 [toy_images 4; toy_labels 4] toy_world = (Ok (), w')
    ∧ is_iteration toy_gan 0 (toy_images 4) it
    ∧ locals w' = Frame [it_g it] [it_d it] 1
    ∧ stdout w' = [Print 1 10 1 (it_g it) (it_d it)]
    ∧ graph w' = Freed
    ∧ d_loss_fn toy_gan (toy_images 4) (it_mask it) (it_xin it) 1%Z 1%Z
      = Ok (it_d it)
    ∧ g_loss_fn toy_gan (toy_images 4) (it_mask it) (it_xin it) 1%Z
        (params (dis (self w')))
      = Ok (it_g it + it_l1 it)%Z.
Proof.
  exact (train_batch_records 0 toy_world (toy_images 4) (toy_labels 4)
           (GAN_init_wf Cpu 1%Z 1%Z) (toy_images_ok 4)).
Defined.

Lemma toy_batch_ok b : is_batch b sample_shape [toy_images b; toy_labels b].
Proof.
  exists (toy_images b), (toy_labels b). split; [done|]. repeat split.
  unfold wf, toy_images. cbn [data shape].
  rewrite length_fmap, length_seq, !numel_cons, numel_nil. lia.
Qed.

Lemma train_batch_wrong_size_raises_witness :
  ∃ w', train_batch 0 [toy_images 2; toy_labels 2] toy_world =
          (Err (RuntimeError SizeMismatch), w')
        ∧ self w' = zero_dis toy_gan ∧ locals w' = Frame [] [] 0
        ∧ stdout w' = [] ∧ graph w' = Live.
Proof.
  apply (train_batch_wrong_size_raises 0 toy_world _ 2).
  - apply GAN_init_wf.
  - apply toy_batch_ok.
  - discriminate.
Defined.


Lemma backward_retained_accumulates_witness :
  (backward true (Tensor [] [1%Z] Cpu) (λ θg θd, Ok (θg * θd)%Z) ≫= λ _,
   backward false (Tensor [] [2%Z] Cpu) (λ θg θd, Ok (θg + θd)%Z))
    (set_graph Live toy_world) =
  (Ok (),
   set_graph Freed
     (set_self (accumulate_grads (λ θg θd, Ok (θg + θd)%Z)
                  (accumulate_grads (λ θg θd, Ok (θg * θd)%Z) toy_gan))
        toy_world)).
Proof.
  exact (backward_retained_accumulates _ _ _ _ _ _ (set_graph Live toy_world) eq_refl).
Defined.

Lemma train_gan_completes_witness :
  ∃ w' evs,
    train_gan (toy_dataset 8) toy_world = (Ok (), w')
    ∧ iters (locals w') = 10 * (8 / 4)
    ∧ length (G_losses (locals w')) = iters (locals w')
    ∧ length (D_losses (locals w')) = iters (locals w')
    ∧ stdout w' = [] ++ evs
                  ++ [PlotLosses (G_losses (locals w')) (D_losses (locals w'))]
    ∧ length evs = iters (locals w') ∧ Forall is_print evs
    ∧ self w' ≡c train_mode toy_gan.
Proof.
  apply (train_gan_completes (toy_dataset 8) toy_world).
  - apply GAN_init_wf.
  - apply toy_dataset_ok.
  - reflexivity.
Defined.

Lemma train_gan_short_batch_raises_witness :
  ∃ w' evs,
    train_gan (toy_dataset 6) toy_world = (Err (RuntimeError SizeMismatch), w')
    ∧ iters (locals w') = 6 / 4
    ∧ length (G_losses (locals w')) = iters (locals w')
    ∧ length (D_losses (locals w')) = iters (locals w')
    ∧ stdout w' = [] ++ evs
    ∧ length evs = iters (locals w') ∧ Forall is_print evs
    ∧ graph w' = Live ∧ grads (dis (self w')) = None.
Proof.
  apply (train_gan_short_batch_raises (toy_dataset 6) toy_world).
  - apply GAN_init_wf.
  - apply toy_dataset_ok.
  - simpl. lia.
  - discriminate.
Defined.

(** ** Theorems: what training never changes *)

Section invariant_theorems.
Context {R Rng : Type} `{Scalar R, Random Rng, Models R, UtilOps R Rng}.
Context {AG : Autograd R gen_params} {AD : Autograd R dis_params}.
Implicit Types (s : GAN) (w : world (Rng := Rng)) (ds : dataset R Rng).

(** However an iteration ends, by returning or by
    raising at any of its steps, for any networks, any [util_ops] and
    any batch, it leaves the configuration of the object (the
    hyperparameters, the devices, the training flags) as it found it,
    and it only adds to what was printed. *)
Theorem train_batch_keeps_configuration epoch batch_data w :
  self (train_batch epoch batch_data w).2 ≡c self w
  ∧ stdout w `prefix_of` stdout (train_batch epoch batch_data w).2.
Proof. apply (preserves_run stable), preserves_train_batch. Qed.

End invariant_theorems.
