(* ===== verification/Counters.v ===== *)
(** * Counters: the lists of losses, the counter and the output,
    however [train_gan] ends

    [train_gan] appends to [D_losses], then to [G_losses], prints a
    line and adds one to [iters], in this order, once per iteration,
    and calls [plot_losses] after the loops.  This file shows what that
    order guarantees at every exit of the function, normal or by an
    exception raised anywhere, for any dataset, any networks and any
    [util_ops]: no contract of [Externals] is assumed.  The statements
    are safety triples ([ends] of [Prelude]); the operations that do
    not touch the locals or the output are dealt with by the relation
    [same_log], which they preserve. *)

From stdpp Require Import base tactics option list numbers.
From S2P Require Import Prelude Scalar Tensor Externals Toy DataLoader Gan Training.

Section counters.
Context {R Rng : Type} `{Scalar R, Random Rng, Models R, UtilOps R Rng}.
Context {AG : Autograd R gen_params} {AD : Autograd R dis_params}.
Implicit Types (s : GAN) (w : world (Rng := Rng)) (out : list (event (R := R))).

(** ** Specification *)

(** The locals and the output are the same. *)
Definition same_log w w' : Prop :=
  locals w' = locals w ∧ stdout w' = stdout w.

(** After [out] was printed: [d] and [g] losses are on the lists, [p]
    progress lines were printed and the counter is [i]. *)
Definition counters out (d g p i : nat) w : Prop :=
  length (D_losses (locals w)) = d ∧ length (G_losses (locals w)) = g
  ∧ iters (locals w) = i
  ∧ ∃ evs, stdout w = out ++ evs ∧ length evs = p ∧ Forall is_print evs.

(** Between two iterations. *)
Definition level out (k : nat) w : Prop := counters out k k k k w.

(** Anywhere in an iteration: the counter is at most one behind the
    lists, the discriminator's list at most one ahead of the
    generator's, and only progress lines were printed since [out], as
    many as the counter says or one more. *)
Definition ragged out w : Prop :=
  ∃ evs, stdout w = out ++ evs ∧ Forall is_print evs
    ∧ iters (locals w) ≤ length evs ≤ length (G_losses (locals w))
    ∧ length (G_losses (locals w)) ≤ length (D_losses (locals w))
      ≤ iters (locals w) + 1.

(** ** Lemmas *)

#[export] Instance same_log_preorder : PreOrder same_log.
Proof.
  split; [by intros w|].
  intros w1 w2 w3 [Hl1 Ho1] [Hl2 Ho2]. split; congruence.
Qed.

Lemma counters_same_log out d g p i w w' :
  counters out d g p i w → same_log w w' → counters out d g p i w'.
Proof. intros Hc [Hl Ho]. unfold counters. by rewrite Hl, Ho. Qed.

Lemma counters_ragged out d g p i w :
  i ≤ p ≤ g → g ≤ d ≤ i + 1 → counters out d g p i w → ragged out w.
Proof.
  intros Hp Hd (<- & <- & <- & evs & Ho & <- & Hpr). exists evs. split_and!; done || lia.
Qed.

Lemma same_log_modify_self (f : GAN → GAN) : preserves same_log (modify_self f).
Proof. by apply preserves_modify. Qed.

Lemma same_log_set_graph t : preserves same_log (modify (set_graph t)).
Proof. by apply preserves_modify. Qed.

Lemma same_log_with_rng {A} (m : stx Rng A) : preserves same_log (with_rng m).
Proof. by apply preserves_zoom. Qed.

Lemma same_log_backward retain loss L : preserves same_log (backward retain loss L).
Proof.
  intros [s l g t out] r w'. unfold backward. rewrite run_lift_bind.
  destruct (guard_ok _ _); [|by intros [= <- <-]]. rewrite run_get_bind.
  by destruct t; intros [= <- <-].
Qed.

(** An operation that keeps the log keeps the counters, however it
    ends. *)
Lemma ends_quiet {A} (m : stx world A) out d g p i :
  preserves same_log m → i ≤ p ≤ g → g ≤ d ≤ i + 1 →
  ends (counters out d g p i) m (λ _, counters out d g p i) (ragged out).
Proof.
  intros Hm Hp Hd. apply (ends_preserves same_log); [done|..].
  - intros w w'. apply counters_same_log.
  - intros w w' Hc Hl. apply (counters_ragged out d g p i); [done..|].
    by eapply counters_same_log.
Qed.

Lemma ends_append_D x out d g p i :
  ends (counters out d g p i) (append_D x) (λ _, counters out (S d) g p i)
    (ragged out).
Proof.
  apply ends_modify. intros w (<- & <- & <- & Hout). unfold counters. cbn.
  rewrite length_app. cbn. split_and!; done || lia.
Qed.

Lemma ends_append_G x out d g p i :
  ends (counters out d g p i) (append_G x) (λ _, counters out d (S g) p i)
    (ragged out).
Proof.
  apply ends_modify. intros w (<- & <- & <- & Hout). unfold counters. cbn.
  rewrite length_app. cbn. split_and!; done || lia.
Qed.

Lemma ends_print a b c x y out d g p i :
  ends (counters out d g p i) (emit (Print a b c x y))
    (λ _, counters out d g (S p) i) (ragged out).
Proof.
  apply ends_modify. intros w (<- & <- & <- & evs & Ho & <- & Hpr).
  unfold counters. cbn. split_and!; try done.
  exists (evs ++ [Print a b c x y]).
  rewrite Ho, (assoc_L (++)), length_app, Forall_app, Forall_singleton. cbn.
  split_and!; done || lia.
Qed.

Lemma ends_incr_iters out d g p i :
  ends (counters out d g p i) incr_iters (λ _, counters out d g p (S i))
    (ragged out).
Proof.
  apply ends_modify. intros w (<- & <- & <- & Hout). unfold counters. cbn.
  split_and!; done || lia.
Qed.
End counters.

(** Proves [preserves same_log m] for a computation built from
    operations that leave the locals and the output alone. *)
Ltac solve_quiet :=
  repeat first
    [ apply preserves_ret | apply preserves_lift | apply preserves_gets
    | apply same_log_with_rng | apply same_log_backward
    | apply same_log_modify_self | apply same_log_set_graph
    | apply preserves_bind; [| |intros ?]
    | match goal with |- PreOrder _ => apply _ end ].

(** One statement of an iteration: it moves a counter, or it is
    quiet. *)
Ltac ends_step :=
  first
    [ apply ends_append_D | apply ends_append_G | apply ends_print
    | apply ends_incr_iters
    | apply ends_quiet; [solve [solve_quiet]|lia|lia] ].

Ltac ends_run :=
  repeat first
    [ ends_step
    | eapply ends_bind; [ends_step|intros ?]
    | match goal with |- ends _ (let (_, _) := ?p in _) _ _ => destruct p end ].

Section counters_of_the_loops.
Context {R Rng : Type} `{Scalar R, Random Rng, Models R, UtilOps R Rng}.
Context {AG : Autograd R gen_params} {AD : Autograd R dis_params}.
Implicit Types (s : GAN) (w : world (Rng := Rng)) (out : list (event (R := R))).

(** Lines 61-70 append to [D_losses]. *)
Lemma ends_discriminator_step out k batch_real mask xin batch_fake :
  ends (level out k) (discriminator_step batch_real mask xin batch_fake)
    (λ _, counters out (S k) k k k) (ragged out).
Proof. unfold discriminator_step, optimizerD_step, level. ends_run. Qed.

(** Lines 72-85 append to [G_losses]. *)
Lemma ends_generator_step out k batch_real mask xin x1 x2 batch_fake :
  ends (counters out (S k) k k k)
    (generator_step (Rng := Rng) batch_real mask xin x1 x2 batch_fake)
    (λ _, counters out (S k) (S k) k k) (ragged out).
Proof. unfold generator_step, gen_zero_grad, optimizerG_step. ends_run. Qed.

(** An iteration, lines 47-89. *)
Lemma ends_train_batch out k epoch batch_data :
  ends (level out k) (train_batch epoch batch_data) (λ _, level out (S k))
    (ragged out).
Proof.
  unfold train_batch, dis_zero_grad, level.
  repeat first
    [ eapply ends_bind;
      [first [ ends_step | apply ends_discriminator_step
             | apply ends_generator_step ]|intros ?]
    | match goal with |- ends _ (let (_, _) := ?p in _) _ _ => destruct p end
    | ends_step ].
Qed.

(** A pass, lines 46-89: some number of iterations. *)
Lemma ends_train_epoch out dl epoch :
  ends (λ w, ∃ k, level out k w) (train_epoch dl epoch)
    (λ _ w, ∃ k, level out k w) (ragged out).
Proof.
  apply ends_exists. intros k. unfold train_epoch.
  eapply ends_bind; [unfold level; ends_step|]. intros batches.
  eapply ends_consequence; [| | |apply (ends_for (λ j, level out (k + j)))].
  - intros w. by rewrite Nat.add_0_r.
  - intros a w Hw. exists (k + length batches). exact Hw.
  - done.
  - intros j idxs _. eapply ends_bind; [unfold level; ends_step|].
    intros batch_data. rewrite Nat.add_succ_r. apply ends_train_batch.
Qed.

(** The loop over the epochs, line 45. *)
Lemma ends_epochs out dl n :
  ends (level out 0) (for_ (seq 0 n) (train_epoch dl))
    (λ _ w, ∃ k, level out k w) (ragged out).
Proof.
  eapply ends_consequence; [| | |apply (ends_for (λ _ w, ∃ k, level out k w))].
  - intros w Hw. by exists 0.
  - done.
  - done.
  - intros j epoch _. apply ends_train_epoch.
Qed.

(** Lines 43-91: the loops, then [plot_losses]. *)
Lemma ends_loops_and_plot out s dl :
  ends (level out 0)
    (_ ← gen_train; _ ← dis_train;
     _ ← for_ (seq 0 (num_epochs s)) (train_epoch dl);
     l ← gets locals; emit (PlotLosses (G_losses l) (D_losses l)))
    (λ _ w, ∃ evs,
       stdout w = out ++ evs
                  ++ [PlotLosses (G_losses (locals w)) (D_losses (locals w))]
       ∧ Forall is_print evs ∧ length evs = iters (locals w)
       ∧ length (G_losses (locals w)) = iters (locals w)
       ∧ length (D_losses (locals w)) = iters (locals w))
    (ragged out).
Proof.
  unfold gen_train, dis_train.
  do 2 (eapply ends_bind; [unfold level; ends_step|intros ?]).
  eapply ends_bind; [apply ends_epochs|]. intros [].
  apply ends_exists. intros k.
  eapply ends_bind; [apply ends_gets_eq|]. intros l.
  intros w [(HD & HG & Hi & evs & Hout & Hlen & Hpr) ->]. cbn.
  exists evs. rewrite Hout, (assoc_L (++)). split_and!; congruence.
Qed.

(** [train_gan], lines 37-91, from the world [w0]: line 39 may raise
    before anything is written. *)
Lemma ends_train_gan ds w0 :
  ends (λ w, w = w0) (train_gan ds)
    (λ _ w, ∃ evs,
       stdout w = stdout w0 ++ evs
                  ++ [PlotLosses (G_losses (locals w)) (D_losses (locals w))]
       ∧ Forall is_print evs ∧ length evs = iters (locals w)
       ∧ length (G_losses (locals w)) = iters (locals w)
       ∧ length (D_losses (locals w)) = iters (locals w))
    (λ w, w = w0 ∨ ragged (stdout w0) w).
Proof.
  unfold train_gan.
  eapply ends_bind; [apply ends_gets|]. intros s.
  eapply ends_bind.
  { eapply ends_consequence; [| | |apply (ends_lift (λ w, w = w0))];
      [done|done|by left]. }
  intros dl. eapply ends_bind.
  { apply (ends_modify _ _ (level (stdout w0) 0)). intros w ->.
    unfold level, counters. cbn. split_and!; try done.
    exists []. by rewrite app_nil_r. }
  intros [].
  eapply ends_consequence; [| | |apply (ends_loops_and_plot (stdout w0) s dl)];
    [done|done|by right].
Qed.
End counters_of_the_loops.

(** ** The lines of a complete run *)

Section lines.
Context {R Rng : Type} `{Scalar R, Random Rng, Models R, UtilOps R Rng}.
Context {AG : Autograd R gen_params} {AD : Autograd R dis_params}.
Context `{!RandomOk Rng, !ModelsOk R, !UtilOpsOk R Rng}.
Implicit Types (s : GAN) (w : world (Rng := Rng)) (out : list (event (R := R))).
Implicit Types (ds : dataset R Rng) (dl : dataloader R Rng) (c : config).

(** The progress lines of a run of [n] epochs with [nb] batches per
    pass, for the recorded losses: iteration [i], counted from 0, is in
    epoch [i / nb]. *)
Definition progress_lines (n nb : nat) (Gs Ds : list R) : list (event (R := R)) :=
  imap (λ i gd, Print (i / nb + 1) n (i + 1) gd.1 gd.2) (zip Gs Ds).

(** After the iterations on the batches [tr]: the invariant of the
    loops, and the output is the progress lines of the losses. *)
Definition lines_inv c out (nb : nat) (tr : list (list nat)) w : Prop :=
  loop_inv c out (length tr) w
  ∧ stdout w = out ++ progress_lines (c_num_epochs c) nb
                        (G_losses (locals w)) (D_losses (locals w)).

Lemma progress_lines_snoc n nb Gs Ds g d :
  length Gs = length Ds →
  progress_lines n nb (Gs ++ [g]) (Ds ++ [d])
  = progress_lines n nb Gs Ds ++ [Print (length Gs / nb + 1) n (length Gs + 1) g d].
Proof.
  intros Hlen. unfold progress_lines.
  rewrite zip_with_app, imap_app by done. cbn.
  by rewrite length_zip_with, <-Hlen, Nat.min_id, Nat.add_0_r.
Qed.

Lemma lines_inv_step dl c out nb tr epoch w idxs images it :
  lines_inv c out nb tr w → epoch = length tr / nb →
  lines_inv c out nb (tr ++ [idxs]) (world_after epoch w images it).
Proof.
  intros [Hinv Hout] ->. split.
  { rewrite length_app, Nat.add_1_r. by apply world_after_inv. }
  destruct Hinv as (_ & <- & Hk & HG & HD & _).
  cbn [world_after stdout locals G_losses D_losses].
  rewrite progress_lines_snoc, Hout, (assoc_L (++)), HG, Hk by congruence.
  done.
Qed.

(** The batches before batch [i] of a pass, after [passes] passes:
    the epoch is the number of the pass. *)
Lemma epoch_of_trace dl passes batches i :
  0 < dl_batch_size dl →
  Forall (is_pass dl) passes → is_pass dl batches → i < length batches →
  length passes
  = length (mjoin passes ++ take i batches)
    / (ds_len (dl_dataset dl) / dl_batch_size dl).
Proof.
  intros Hbs Hall Hpass Hi.
  rewrite length_app, length_take, (length_join_passes dl) by done.
  rewrite Nat.min_l by lia. rewrite (is_pass_length dl batches) in Hi by done.
  rewrite Nat.div_add_l, Nat.div_small by lia. lia.
Qed.

(** A complete run, lines 37-91, with its output. *)
Lemma train_gan_lines ds w :
  gan_wf (self w) → dataset_ok sample_shape ds →
  ds_len ds `mod` batch_size (self w) = 0 →
  ∃ w',
    train_gan ds w = (Ok (), w')
    ∧ stdout w'
      = stdout w
        ++ progress_lines (num_epochs (self w)) (ds_len ds / batch_size (self w))
             (G_losses (locals w')) (D_losses (locals w'))
        ++ [PlotLosses (G_losses (locals w')) (D_losses (locals w'))].
Proof.
  destruct w as [s l g t out]. cbn [self stdout]. intros Hwf Hds Hmod.
  set (dl := MkDataLoader ds (batch_size s) true).
  set (nb := ds_len ds / batch_size s).
  rewrite train_gan_start by apply Hwf. fold dl.
  destruct (epochs_hoare_inv (lines_inv (config_of (train_mode s)) out nb)
              (λ tr epoch, epoch = length tr / nb) dl) with
    (n := num_epochs s) (s := World (train_mode s) (Frame [] [] 0) g t out)
    as ([] & [s1 l1 g1 t1 out1] & Hrun & passes & _ & _ & _ & Hout).
  - intros tr w [Hinv _]. by apply loop_inv_wf in Hinv.
  - intros tr w g' [Hinv Hout]. split; [by apply loop_inv_rng|by destruct w].
  - intros tr epoch w idxs images it Hinv Hep _ _ _. by eapply lines_inv_step.
  - done.
  - intros passes batches i. apply (epoch_of_trace dl). apply Hwf.
  - done.
  - split; [by apply loop_inv_start|]. by rewrite app_nil_r.
  - rewrite (run_bind_Ok _ _ _ _ _ Hrun). stx_run. eexists. split; [done|].
    cbn [stdout locals] in *. by rewrite Hout, (assoc_L (++)).
Qed.
End lines.

(** ** Theorems *)

Section counters_theorems.
Context {R Rng : Type} `{Scalar R, Random Rng, Models R, UtilOps R Rng}.
Context {AG : Autograd R gen_params} {AD : Autograd R dis_params}.
Implicit Types (w : world (Rng := Rng)) (ds : dataset R Rng).

(** C11 (safety).  However [train_gan] ends, on any dataset and with
    any networks, optimizers and [util_ops].  When it returns, it has
    printed one progress line per iteration and called [plot_losses]
    last, with lists that hold one loss per iteration each.  When it
    raises, [plot_losses] was not called, and either nothing at all
    was changed (line 39 refused the batch size) or the exception
    came out of the loops with the counter at most one behind the
    lists: [iters <= lines printed <= len(G_losses) <= len(D_losses)
    <= iters + 1]. *)
Theorem train_gan_counters ds w :
  match train_gan ds w with
  | (Ok _, w') =>
      ∃ evs,
        stdout w' = stdout w ++ evs
                    ++ [PlotLosses (G_losses (locals w')) (D_losses (locals w'))]
        ∧ Forall is_print evs ∧ length evs = iters (locals w')
        ∧ length (G_losses (locals w')) = iters (locals w')
        ∧ length (D_losses (locals w')) = iters (locals w')
  | (Err _, w') => w' = w ∨ ragged (stdout w) w'
  end.
Proof. exact (ends_train_gan ds w w eq_refl). Qed.

Context `{!RandomOk Rng, !ModelsOk R, !UtilOpsOk R Rng}.

(** C12 (functional).  What a complete run prints: when [batch_size]
    divides [len(dataset)], the output of [train_gan] is, after what
    was printed before, one line per iteration, line [i] (from 0) with
    the epoch [i / (len(dataset) / batch_size) + 1], the number of
    epochs, the iteration [i + 1] and the entries [i] of [G_losses]
    and [D_losses], and then the call of [plot_losses]. *)
Theorem train_gan_prints ds w :
  gan_wf (self w) → dataset_ok sample_shape ds →
  ds_len ds `mod` batch_size (self w) = 0 →
  ∃ w',
    train_gan ds w = (Ok (), w')
    ∧ stdout w'
      = stdout w
        ++ progress_lines (num_epochs (self w)) (ds_len ds / batch_size (self w))
             (G_losses (locals w')) (D_losses (locals w'))
        ++ [PlotLosses (G_losses (locals w')) (D_losses (locals w'))].
Proof. apply train_gan_lines. Qed.
End counters_theorems.

(** ** The theorems at concrete inputs *)

Import Toy.Toy.

Lemma train_gan_prints_witness :
  ∃ w',
    train_gan (toy_dataset 8) toy_world = (Ok (), w')
    ∧ stdout w'
      = [] ++ progress_lines 10 (8 / 4) (G_losses (locals w')) (D_losses (locals w'))
        ++ [PlotLosses (G_losses (locals w')) (D_losses (locals w'))].
Proof.
  exact (train_gan_prints (toy_dataset 8) toy_world toy_gan_wf (toy_dataset_ok 8)
           eq_refl).
Defined.
