(* ===== verification/Refinement.v ===== *)
(** * Refinement: a run of [train_gan] as alternating gradient descent

    [trained s0 dl a0 tr Gs Ds a] is the algorithm [train_gan] is meant
    to implement, as an inductive relation on the abstract trainer of
    [Training]: starting from the parameters and optimizers [a0], one
    alternating update for each batch of [tr] (a batch is the list of
    the indices of its samples) leads to [a].  The update for a batch
    is on the collation of the samples of the dataset at those indices
    and on a mask; [Ds] lists the discriminator's losses at the
    parameters each update started from and [Gs] the adversarial
    losses of the generator against the discriminator each update
    produced.  The object [s0] supplies the configuration (devices,
    batch size, training mode), never the parameters.

    The theorem of this file states that a run of [train_gan] over a
    dataset the batch size divides is such a sequence, for
    [num_epochs] passes over the dataset, each of which uses every
    sample exactly once: lines 37-91 refine [trained].  Its proof runs
    the loops of [Training] with the invariant [run_inv], which adds
    the abstract run to [loop_inv].  Two more theorems follow from the
    same lemma: every sample is trained on in every epoch, and a
    second call of [train_gan] continues the run of the first. *)

From stdpp Require Import base tactics option list numbers.
From S2P Require Import Prelude Scalar Tensor Externals Toy DataLoader Gan Training.

(** ** The algorithm *)

Section algorithm.
Context {R Rng : Type} `{Scalar R, Random Rng, Models R, UtilOps R Rng}.
Context {AG : Autograd R gen_params} {AD : Autograd R dis_params}.
Implicit Types (s : GAN) (a : trainer) (Gs Ds : list R) (tr : list (list nat)).

Inductive trained (s0 : GAN) (dl : dataloader R Rng) (a0 : trainer) :
    list (list nat) → list R → list R → trainer → Prop :=
  | trained_start : trained s0 dl a0 [] [] [] a0
  | trained_update tr Gs Ds a idxs images mask xin d g l1 :
      trained s0 dl a0 tr Gs Ds a →
      fetched dl idxs images →
      is_images Cpu (batch_size s0) images →
      is_mask img_h img_w mask → dev mask = device s0 →
      erase s0 (to (device s0) images) mask = Ok xin →
      d_loss_fn s0 (to (device s0) images) mask xin (t_gen a) (t_dis a) = Ok d →
      g_loss_fn s0 (to (device s0) images) mask xin (t_gen a)
        (t_dis (alternating_step (d_loss_fn s0 (to (device s0) images) mask xin)
                  (g_loss_fn s0 (to (device s0) images) mask xin) a))
      = Ok (g + l1)%sc →
      trained s0 dl a0 (tr ++ [idxs]) (Gs ++ [g]) (Ds ++ [d])
        (alternating_step (d_loss_fn s0 (to (device s0) images) mask xin)
           (g_loss_fn s0 (to (device s0) images) mask xin) a).

(** After the iterations on the batches [tr]: the invariant of the
    loops, and the object holds what the updates for [tr] lead to, with
    their losses in the two lists. *)
Definition run_inv (s0 : GAN) (dl : dataloader R Rng) (a0 : trainer)
    (out : list event) tr (w : world (Rng := Rng)) : Prop :=
  loop_inv (config_of s0) out (length tr) w
  ∧ trained s0 dl a0 tr (G_losses (locals w)) (D_losses (locals w))
      (trainer_of (self w)).
End algorithm.

(** ** Lemmas: the algorithm *)

Section algorithm_lemmas.
Context {R Rng : Type} `{Scalar R, Random Rng, Models R, UtilOps R Rng}.
Context {AG : Autograd R gen_params} {AD : Autograd R dis_params}.
Implicit Types (s : GAN) (a : trainer) (Gs Ds : list R) (tr : list (list nat)).
Implicit Types (dl : dataloader R Rng).

(** One loss of each kind per update, one update per batch. *)
Lemma trained_lengths s0 dl a0 tr Gs Ds a :
  trained s0 dl a0 tr Gs Ds a → length Gs = length tr ∧ length Ds = length tr.
Proof. induction 1; [done|]. rewrite !length_app. simpl. lia. Qed.

(** Runs compose: training on from where a run ended is a run. *)
Lemma trained_app s0 dl a0 tr Gs Ds a tr' Gs' Ds' a' :
  trained s0 dl a0 tr Gs Ds a → trained s0 dl a tr' Gs' Ds' a' →
  trained s0 dl a0 (tr ++ tr') (Gs ++ Gs') (Ds ++ Ds') a'.
Proof.
  intros Hrun. induction 1 as [|tr' Gs' Ds' a' ????????? IH].
  - by rewrite !app_nil_r.
  - rewrite !(assoc_L (++)). by eapply trained_update.
Qed.

(** A run without batches changes nothing. *)
Lemma trained_nil_inv s0 dl a0 Gs Ds a :
  trained s0 dl a0 [] Gs Ds a → Gs = [] ∧ Ds = [] ∧ a = a0.
Proof.
  inversion 1 as [|tr ???????????? Htr]; [done|].
  by destruct tr.
Qed.
End algorithm_lemmas.

(** ** Lemmas: an iteration is an update *)

Section iteration_lemmas.
Context {R Rng : Type} `{Scalar R, Random Rng, Models R, UtilOps R Rng}.
Context {AG : Autograd R gen_params} {AD : Autograd R dis_params}.
Context `{!RandomOk Rng, !ModelsOk R, !UtilOpsOk R Rng}.
Context `{!AutogradOk R gen_params, !AutogradOk R dis_params}.
Implicit Types (s : GAN) (a : trainer) (w : world (Rng := Rng)).

(** An update depends on the two losses as functions only. *)
Lemma alternating_step_ext (Ld Ld' Lg Lg' : gen_params → dis_params → result R) a :
  (∀ θg θd, Ld θg θd = Ld' θg θd) → (∀ θg θd, Lg θg θd = Lg' θg θd) →
  alternating_step Ld Lg a = alternating_step Ld' Lg' a.
Proof.
  intros Hd Hg. unfold alternating_step.
  rewrite (derive_ext (λ θ, Ld (t_gen a) θ) (λ θ, Ld' (t_gen a) θ)) by done.
  destruct (adam_step _ _ _) as [oD θd].
  by rewrite (derive_ext (λ θ, Lg θ θd) (λ θ, Lg' θ θd)).
Qed.

(** The trainer an iteration leaves, with the losses written for any
    object of the same configuration. *)
Lemma trainer_of_it_self s0 s images it :
  s ≡c s0 →
  trainer_of (it_self s images it) =
    alternating_step
      (d_loss_fn s0 (to (device s0) images) (it_mask it) (it_xin it))
      (g_loss_fn s0 (to (device s0) images) (it_mask it) (it_xin it))
      (trainer_of s).
Proof.
  intros Hs. rewrite it_self_eq, trainer_of_after, (device_proper _ _ Hs).
  apply alternating_step_ext; intros;
    [by apply d_loss_fn_cfg|by apply g_loss_fn_cfg].
Qed.

(** The algorithm depends on the configuration of [s0] only. *)
Lemma trained_cfg s0 s0' dl a0 tr Gs Ds a :
  s0 ≡c s0' → trained s0 dl a0 tr Gs Ds a → trained s0' dl a0 tr Gs Ds a.
Proof.
  intros Hs. pose proof (device_proper _ _ Hs) as Hdev.
  pose proof (batch_size_proper _ _ Hs) as Hbs.
  induction 1 as [|tr Gs Ds a idxs images mask xin d g l1 _ IH Hf Hi Hm Hdm Her Hd Hg];
    [constructor|].
  assert (alternating_step (d_loss_fn s0 (to (device s0) images) mask xin)
            (g_loss_fn s0 (to (device s0) images) mask xin) a
          = alternating_step (d_loss_fn s0' (to (device s0') images) mask xin)
              (g_loss_fn s0' (to (device s0') images) mask xin) a) as Hstep.
  { rewrite Hdev. apply alternating_step_ext; intros;
      [by apply d_loss_fn_cfg|by apply g_loss_fn_cfg]. }
  rewrite Hstep in Hg |- *. rewrite Hs in Her.
  rewrite (d_loss_fn_cfg s0 s0') in Hd by done.
  rewrite (g_loss_fn_cfg s0 s0') in Hg by done.
  rewrite Hdev in Hdm, Hd, Hg. rewrite Hbs in Hi.
  by eapply trained_update.
Qed.

(** An iteration extends the abstract run by one update. *)
Lemma trained_iteration s0 dl a0 tr epoch w idxs images it :
  self w ≡c s0 → fetched dl idxs images →
  is_images Cpu (batch_size s0) images →
  is_iteration (self w) (rng w) images it →
  trained s0 dl a0 tr (G_losses (locals w)) (D_losses (locals w))
    (trainer_of (self w)) →
  trained s0 dl a0 (tr ++ [idxs])
    (G_losses (locals (world_after epoch w images it)))
    (D_losses (locals (world_after epoch w images it)))
    (trainer_of (self (world_after epoch w images it))).
Proof.
  intros Hs Hfetch Hi Hit Hrun.
  pose proof Hit as (_ & Hm & Hdm & Her & _).
  pose proof (device_proper _ _ Hs) as Hdev.
  rewrite Hs in Her. rewrite Hdev in Hdm.
  cbn [world_after self locals G_losses D_losses].
  rewrite (trainer_of_it_self s0) by done.
  eapply (trained_update s0 dl a0 _ _ _ _ _ _ _ _ _ _ (it_l1 it)); [done..| |].
  - rewrite <-(d_loss_fn_cfg (self w)), <-Hdev by done. by eapply it_d_loss.
  - rewrite <-(trainer_of_it_self s0 (self w)), <-(g_loss_fn_cfg (self w)), <-Hdev
      by done.
    cbn [trainer_of t_dis t_gen]. rewrite dis_it_self. by eapply it_g_loss.
Qed.

Lemma run_inv_step s0 dl a0 out tr epoch w idxs images it :
  run_inv s0 dl a0 out tr w → fetched dl idxs images →
  is_images Cpu (batch_size s0) images →
  is_iteration (self w) (rng w) images it →
  run_inv s0 dl a0 out (tr ++ [idxs]) (world_after epoch w images it).
Proof.
  intros [Hinv Hrun] Hf Hi Hit.
  split; [rewrite length_app, Nat.add_1_r; by apply world_after_inv|].
  apply trained_iteration; [|done..]. by destruct Hinv as (_ & ? & _).
Qed.

Lemma run_inv_wf s0 dl a0 out tr w :
  run_inv s0 dl a0 out tr w →
  gan_wf (self w) ∧ batch_size (self w) = batch_size s0.
Proof. intros [Hinv _]. exact (loop_inv_wf _ _ _ _ Hinv). Qed.

Lemma run_inv_rng s0 dl a0 out tr w g :
  run_inv s0 dl a0 out tr w → run_inv s0 dl a0 out tr (set_rng g w).
Proof. by destruct w. Qed.

(** The loops start from the empty run. *)
Lemma run_inv_start s dl g t out :
  gan_wf s →
  run_inv (train_mode s) dl (trainer_of s) out []
    (World (train_mode s) (Frame [] [] 0) g t out).
Proof. intros Hwf. split; [by apply loop_inv_start|]. constructor. Qed.

(** A run of [train_gan] over a dataset the batch size divides. *)
Lemma train_gan_trained (ds : dataset R Rng) w :
  gan_wf (self w) → dataset_ok sample_shape ds →
  ds_len ds `mod` batch_size (self w) = 0 →
  ∃ w' passes,
    train_gan ds w = (Ok (), w')
    ∧ length passes = num_epochs (self w)
    ∧ Forall (is_pass (MkDataLoader ds (batch_size (self w)) true)) passes
    ∧ trained (train_mode (self w)) (MkDataLoader ds (batch_size (self w)) true)
        (trainer_of (self w)) (mjoin passes)
        (G_losses (locals w')) (D_losses (locals w')) (trainer_of (self w')).
Proof.
  destruct w as [s l g t out]. cbn [self]. intros Hwf Hds Hmod.
  set (dl := MkDataLoader ds (batch_size s) true).
  rewrite train_gan_start by apply Hwf. fold dl.
  destruct (epochs_hoare_inv (run_inv (train_mode s) dl (trainer_of s) out)
              (λ _ _, True) dl
              (run_inv_wf _ _ _ _) (run_inv_rng _ _ _ _)
              (λ tr ep w i im it Hinv _, run_inv_step _ _ _ _ tr ep w i im it Hinv)
              Hds (λ _ _ _ _ _ _, I) (num_epochs s) Hmod
              _ (run_inv_start s dl g t out Hwf))
    as ([] & [s1 l1 g1 t1 out1] & Hrun & passes & Hlen & Hall & Hinv & Htr).
  rewrite (run_bind_Ok _ _ _ _ _ Hrun). stx_run.
  by eexists _, passes.
Qed.
End iteration_lemmas.

(** ** Theorem *)

Section refinement_theorem.
Context {R Rng : Type} `{Scalar R, Random Rng, Models R, UtilOps R Rng}.
Context {AG : Autograd R gen_params} {AD : Autograd R dis_params}.
Context `{!RandomOk Rng, !ModelsOk R, !UtilOpsOk R Rng}.
Context `{!AutogradOk R gen_params, !AutogradOk R dis_params}.
Implicit Types (s : GAN) (w : world (Rng := Rng)) (ds : dataset R Rng).

(** C1 (refinement).  Over a dataset the batch size divides, a call of
    [train_gan] is a run of the algorithm: it returns normally after
    [num_epochs] passes over the dataset, each of which cuts a
    permutation of the indices of the dataset into batches of
    [batch_size], so that every sample is used exactly once per epoch;
    and the parameters and optimizers it leaves in the object are what
    one alternating update per batch leads to from the ones it found,
    each update on the collated samples of its batch and a mask, for
    the configuration of the object in training mode.  [D_losses]
    holds the discriminator's loss of each update at the parameters the
    update started from, [G_losses] the adversarial part of the
    generator's loss of each update against the discriminator the
    update produced. *)
Theorem train_gan_refines_trained ds w :
  gan_wf (self w) → dataset_ok sample_shape ds →
  ds_len ds `mod` batch_size (self w) = 0 →
  ∃ w' passes,
    train_gan ds w = (Ok (), w')
    ∧ length passes = num_epochs (self w)
    ∧ Forall (is_pass (MkDataLoader ds (batch_size (self w)) true)) passes
    ∧ trained (train_mode (self w)) (MkDataLoader ds (batch_size (self w)) true)
        (trainer_of (self w)) (mjoin passes)
        (G_losses (locals w')) (D_losses (locals w')) (trainer_of (self w')).
Proof. apply train_gan_trained. Qed.


(** C9 (refinement).  Training can be resumed: a second call of
    [train_gan] on the object the first call left continues the run
    of the algorithm from the parameters and optimizers of the first,
    so that the two calls together are one run of twice as many
    passes.  The lists of losses start again: those of the second call
    hold the losses of its own updates only. *)
Theorem train_gan_resumed_refines_trained ds w :
  gan_wf (self w) → dataset_ok sample_shape ds →
  ds_len ds `mod` batch_size (self w) = 0 →
  ∃ w1 w2 passes,
    train_gan ds w = (Ok (), w1) ∧ train_gan ds w1 = (Ok (), w2)
    ∧ length passes = 2 * num_epochs (self w)
    ∧ Forall (is_pass (MkDataLoader ds (batch_size (self w)) true)) passes
    ∧ trained (train_mode (self w)) (MkDataLoader ds (batch_size (self w)) true)
        (trainer_of (self w)) (mjoin passes)
        (G_losses (locals w1) ++ G_losses (locals w2))
        (D_losses (locals w1) ++ D_losses (locals w2)) (trainer_of (self w2)).
Proof.
  intros Hwf Hds Hmod.
  destruct (train_gan_trained ds w Hwf Hds Hmod)
    as (w1 & p1 & Hrun1 & Hl1 & Hp1 & Ht1).
  destruct (train_gan_run ds w Hwf Hds Hmod)
    as (w1' & evs & Hrun1' & _ & _ & _ & _ & _ & _ & Hcfg).
  rewrite Hrun1 in Hrun1'. injection Hrun1' as <-.
  assert (gan_wf (self w1)) as Hwf1
    by (eapply gan_wf_cfg; [by symmetry|by apply train_mode_wf]).
  pose proof (batch_size_proper _ _ Hcfg) as Hbs. cbn in Hbs.
  pose proof (f_equal c_num_epochs Hcfg) as Hne. cbn in Hne.
  destruct (train_gan_trained ds w1 Hwf1 Hds)
    as (w2 & p2 & Hrun2 & Hl2 & Hp2 & Ht2); [by rewrite Hbs|].
  rewrite Hbs in Hp2, Ht2.
  apply (trained_cfg _ (train_mode (self w))) in Ht2;
    [|by rewrite (train_mode_cfg _ _ Hcfg)].
  exists w1, w2, (p1 ++ p2). rewrite length_app, Forall_app, join_app.
  split_and!; [done..|lia|done|done|]. by eapply trained_app.
Qed.
End refinement_theorem.

(** ** The theorem at a concrete input *)

Import Toy.Toy.

Lemma train_gan_refines_trained_witness :
  ∃ w' passes,
    train_gan (toy_dataset 8) toy_world = (Ok (), w')
    ∧ length passes = 10
    ∧ Forall (is_pass (MkDataLoader (toy_dataset 8) 4 true)) passes
    ∧ trained (train_mode toy_gan) (MkDataLoader (toy_dataset 8) 4 true)
        (trainer_of toy_gan) (mjoin passes)
        (G_losses (locals w')) (D_losses (locals w')) (trainer_of (self w')).
Proof.
  apply (train_gan_refines_trained (toy_dataset 8) toy_world).
  - apply toy_gan_wf.
  - apply toy_dataset_ok.
  - reflexivity.
Defined.


Lemma train_gan_resumed_refines_trained_witness :
  ∃ w1 w2 passes,
    train_gan (toy_dataset 8) toy_world = (Ok (), w1)
    ∧ train_gan (toy_dataset 8) w1 = (Ok (), w2)
    ∧ length passes = 2 * 10
    ∧ Forall (is_pass (MkDataLoader (toy_dataset 8) 4 true)) passes
    ∧ trained (train_mode toy_gan) (MkDataLoader (toy_dataset 8) 4 true)
        (trainer_of toy_gan) (mjoin passes)
        (G_losses (locals w1) ++ G_losses (locals w2))
        (D_losses (locals w1) ++ D_losses (locals w2)) (trainer_of (self w2)).
Proof.
  apply (train_gan_resumed_refines_trained (toy_dataset 8) toy_world).
  - apply toy_gan_wf.
  - apply toy_dataset_ok.
  - reflexivity.
Defined.
