(* ===== verification/Pipeline.v ===== *)
(** * Pipeline: the functions of the two modules, one after the other

    What holds across calls: [train_gan] on the dataset [preprocess]
    prepares, which completes or raises at the first image that is too
    small; [train_gan] on the folder [import_data] read from a disk,
    after [preprocess], without it, and with a file that is not a
    picture; [inpaint_image] on the object [train_gan] leaves;
    [inpaint_image] with a generator that went through [export_model]
    and [import_model]; and the boundary case of [train_gan] with a
    batch size of zero, which [DataLoader] refuses.  The theorems are
    proved from the lemmas of [Training], [OpsData] and [ImportData]. *)

From stdpp Require Import base tactics option list numbers strings gmap.
From Stdlib Require Import QArith Qcanon.
From S2P Require Import Prelude Scalar Tensor Externals Toy DataLoader Gan.
From S2P Require Import OpsData ImportData Training.
Close Scope Q_scope.
Close Scope Qc_scope.

(** ** Lemmas *)

Section pipeline_lemmas.
Context {R Rng : Type} `{Scalar R, Random Rng, Models R, UtilOps R Rng}.
Context {AG : Autograd R gen_params} {AD : Autograd R dis_params}.
Implicit Types (s : GAN) (w : world (Rng := Rng)) (ds : dataset R Rng).

(** What follows line 44 keeps the configuration. *)
Lemma preserves_epochs (dl : dataloader R Rng) n :
  preserves stable
    (for_ (seq 0 n) (train_epoch dl)
     ≫= λ _, l ← gets locals; emit (PlotLosses (G_losses l) (D_losses l))).
Proof.
  solve_preserves. apply preserves_for; [apply _|]. intros epoch _.
  apply preserves_train_epoch.
Qed.

(** A call of [train_gan] that returns had a positive batch size and
    leaves the object in training mode, otherwise configured as
    before. *)
Lemma train_gan_Ok_inv ds w w' :
  train_gan ds w = (Ok (), w') →
  0 < batch_size (self w) ∧ self w' ≡c train_mode (self w).
Proof.
  destruct w as [s l g t out]. cbn [self].
  destruct (decide (batch_size s = 0)) as [Hz|Hnz].
  { unfold train_gan. stx_run. by rewrite Hz, DataLoader_zero. }
  assert (0 < batch_size s) as Hbs by lia.
  rewrite train_gan_start by done. intros Hrun. split; [done|].
  by destruct (preserves_epochs _ _ _ _ _ Hrun).
Qed.

(** The generator of an object in training mode on its device is run
    in training mode by [inpaint_image]. *)
Lemma inpaint_image_training `{!ModelsOk R} s image mask b :
  gan_wf s → training (gen s) = true →
  is_images (device s) b image → is_mask img_h img_w mask →
  dev mask = device s →
  ∃ xin x1 x2 x3,
    erase s image mask = Ok xin
    ∧ gen_forward true (params (gen s)) xin mask = Ok (x1, x2, x3)
    ∧ inpaint_image s image mask = Ok x2.
Proof.
  intros Hwf Htr Hi Hm Hdm. rewrite (inpaint_image_erase s _ _ b) by done.
  destruct (erase_images s _ _ b Hi Hm Hdm) as (xin & Her & Hx & _).
  destruct (call_gen_Ok s xin mask b Hwf Hx Hm Hdm) as (x1 & x2 & x3 & Hg & _).
  exists xin, x1, x2, x3. rewrite Her. simpl. rewrite Hg. split; [done|].
  split; [|done]. rewrite <-Hg. unfold call_gen.
  destruct Hwf as (Hg' & _), Hx as (_ & Hdx & _).
  rewrite bool_decide_eq_true_2 by (split; congruence). simpl. by rewrite Htr.
Qed.

(** Training mode and device of the generator are part of the
    configuration. *)
Lemma cfg_equiv_train_mode s s' :
  s' ≡c train_mode s → training (gen s') = true ∧ device s' = device s
                       ∧ mdev (gen s') = mdev (gen s).
Proof. intros Hc. by cfg_crush. Qed.
End pipeline_lemmas.

(** ** Theorems *)

Section pipeline_theorems.
Context {R Rng : Type} `{Scalar R, Random Rng, Models R, UtilOps R Rng}.
Context {AG : Autograd R gen_params} {AD : Autograd R dis_params}.
Context `{!RandomOk Rng, !ModelsOk R, !UtilOpsOk R Rng}.
Implicit Types (s : GAN) (w : world (Rng := Rng)).

(** C7 (termination).  The two modules together: after
    [preprocess(dataset, image_size)] with the image size of the
    networks, [train_gan(dataset)] returns normally on a folder of RGB
    images none of which is smaller than that size, when the networks
    take three channels and the batch size divides the number of
    images.  It runs [num_epochs * (len(dataset) / batch_size)]
    iterations and ends with the call of [plot_losses]. *)
Theorem train_gan_on_preprocessed_folder (ds : image_folder R Rng) w :
  img_channels = 3 → (half : R) ≠ 0%sc → gan_wf (self w) →
  Forall (decoded (λ img, pil_wf img ∧ img_h ≤ pil_h img ∧ img_w ≤ pil_w img))
    (samples ds) →
  length (samples ds) `mod` batch_size (self w) = 0 →
  ∃ w' evs,
    train_gan (folder_dataset (preprocess (img_h, img_w) ds).2) w = (Ok (), w')
    ∧ iters (locals w')
      = num_epochs (self w) * (length (samples ds) / batch_size (self w))
    ∧ stdout w' = stdout w ++ evs
                  ++ [PlotLosses (G_losses (locals w')) (D_losses (locals w'))].
Proof.
  intros Hch Hhalf Hwf Hfits Hmod.
  destruct (train_gan_run (folder_dataset (preprocess (img_h, img_w) ds).2) w)
    as (w' & evs & Hrun & Hit & _ & _ & Hout & _); [done| |done|].
  { unfold sample_shape. rewrite Hch. by apply preprocess_fits. }
  by exists w', evs.
Qed.

(** C8 (error).  One image of the folder that is smaller than the
    image size of the networks makes [train_gan] raise [ValueError] in
    its first epoch, at the first batch that holds such an image:
    [RandomCrop] refuses it when the data loader fetches it, whatever
    the batch size and the number of images. *)
Theorem train_gan_small_image_raises (ds : image_folder R Rng) w :
  img_channels = 3 → (half : R) ≠ 0%sc →
  gan_wf (self w) → 0 < num_epochs (self w) →
  Forall (decoded pil_wf) (samples ds) →
  Exists (decoded (λ img, pil_h img < img_h ∨ pil_w img < img_w)) (samples ds) →
  ∃ w', train_gan (folder_dataset (preprocess (img_h, img_w) ds).2) w
        = (Err ValueError, w').
Proof.
  intros Hch Hhalf Hwf Hne Hall Hsmall.
  apply (train_gan_sample_raises _ w ValueError Hwf Hne);
    unfold sample_shape; rewrite ?Hch.
  - intros i Hi. cbn in Hi.
    destruct (lookup_lt_is_Some_2 (samples ds) i Hi) as [[[img|] target] Hs];
      pose proof (Forall_lookup_1 _ _ _ _ Hall Hs) as Himg; [|done].
    cbn in Himg. destruct (decide (pil_h img < img_h ∨ pil_w img < img_w)) as [Hs'|Hfit].
    + right. by eapply preprocess_sample_raises.
    + left. eapply preprocess_sample_ok; [done..|lia|lia].
  - apply list.Exists_exists in Hsmall as ([[img|] target] & Hin & Hs'); [|done].
    apply list_elem_of_lookup in Hin as [j Hj].
    exists j. split; [by eapply lookup_lt_Some|].
    by eapply preprocess_sample_raises.
Qed.

(** C35 (termination).  From the disk to the end of training: when
    every file with an image extension below the sub-directories of
    [data_root] is a picture that is not smaller than the image size
    of the networks, [train_gan] returns normally on the folder
    [import_data(data_root)] returned, after [preprocess], provided
    the batch size divides the number of its samples. *)
Theorem train_gan_on_imported_folder data_root fs entries (ds : image_folder R Rng) w :
  img_channels = 3 → (half : R) ≠ 0%sc → gan_wf (self w) →
  fs !! data_root = Some (Dir entries) → NoDup entries.*1 →
  Forall (λ e, is_dir e.2 →
               images_all
                 (from_option (λ img, pil_wf img ∧ img_h ≤ pil_h img
                                      ∧ img_w ≤ pil_w img) False)
                 (path_join data_root e.1) e.2) entries →
  import_data data_root fs = (Ok ds, fs) →
  length (samples ds) `mod` batch_size (self w) = 0 →
  ∃ w' evs,
    train_gan (folder_dataset (preprocess (img_h, img_w) ds).2) w = (Ok (), w')
    ∧ iters (locals w')
      = num_epochs (self w) * (length (samples ds) / batch_size (self w))
    ∧ stdout w' = stdout w ++ evs
                  ++ [PlotLosses (G_losses (locals w')) (D_losses (locals w'))].
Proof.
  intros Hch Hhalf Hwf Hfs Hnd Hfit Hrun Hmod.
  destruct (train_gan_run (folder_dataset (preprocess (img_h, img_w) ds).2) w)
    as (w' & evs & Htr & Hit & _ & _ & Hout & _); [done| |done|].
  { unfold sample_shape. rewrite Hch. apply preprocess_fits; [done|].
    by apply (import_data_all _ data_root fs entries ds fs). }
  by exists w', evs.
Qed.

(** C37 (error).  [train_gan] on the folder [import_data] returned,
    without [preprocess]: the first fetch raises [TypeError], since a
    picture is not a tensor.  No batch is trained on. *)
Theorem train_gan_unprocessed_folder_raises data_root fs entries
    (ds : image_folder R Rng) w :
  gan_wf (self w) → 0 < num_epochs (self w) →
  fs !! data_root = Some (Dir entries) → NoDup entries.*1 →
  Forall (λ e, is_dir e.2 → images_all is_Some (path_join data_root e.1) e.2)
    entries →
  import_data data_root fs = (Ok ds, fs) →
  ∃ w', train_gan (folder_dataset ds) w = (Err TypeError, w').
Proof.
  intros Hwf Hne Hfs Hnd Hpics Hrun.
  pose proof (import_data_all _ data_root fs entries ds fs Hfs Hnd Hpics Hrun)
    as Hall.
  pose proof (import_data_nonempty data_root fs entries ds fs Hfs Hnd Hrun) as Hlen.
  apply (import_data_Ok_inv data_root fs entries) in Hrun as (Hds & _); [|done..].
  assert (∀ i, i < length (samples ds) → sample_raises (folder_dataset ds) TypeError i)
    as Hraises.
  { intros i Hi.
    destruct (lookup_lt_is_Some_2 (samples ds) i Hi) as [[[img|] target] Hs];
      pose proof (Forall_lookup_1 _ _ _ _ Hall Hs) as [? [=]].
    eapply folder_sample_raw; [by rewrite Hds|done]. }
  apply (train_gan_sample_raises _ w TypeError Hwf Hne).
  - intros i Hi. right. by apply Hraises.
  - exists 0. split; [done|]. by apply Hraises.
Qed.

(** C36 (error).  A file with an image extension that is not a
    picture is a sample all the same: [import_data] returns, and
    [train_gan] raises [UnidentifiedImageError] in its first epoch, at
    the first batch that fetches the file. *)
Theorem train_gan_undecodable_file_raises data_root fs entries
    (ds : image_folder R Rng) w :
  img_channels = 3 → (half : R) ≠ 0%sc →
  gan_wf (self w) → 0 < num_epochs (self w) →
  fs !! data_root = Some (Dir entries) → NoDup entries.*1 →
  Forall (λ e, is_dir e.2 →
               images_all
                 (from_option (λ img, pil_wf img ∧ img_h ≤ pil_h img
                                      ∧ img_w ≤ pil_w img) True)
                 (path_join data_root e.1) e.2) entries →
  Exists (λ e, is_dir e.2 ∧ images_some (λ c, c = None) (path_join data_root e.1) e.2)
    entries →
  import_data data_root fs = (Ok ds, fs) →
  ∃ w', train_gan (folder_dataset (preprocess (img_h, img_w) ds).2) w
        = (Err UnidentifiedImageError, w').
Proof.
  intros Hch Hhalf Hwf Hne Hfs Hnd Hfit Hbad Hrun.
  pose proof (import_data_all _ data_root fs entries ds fs Hfs Hnd Hfit Hrun)
    as Hall.
  pose proof (import_data_some _ data_root fs entries ds fs Hfs Hnd Hbad Hrun)
    as Hsome.
  apply (train_gan_sample_raises _ w UnidentifiedImageError Hwf Hne);
    unfold sample_shape; rewrite ?Hch.
  - intros i Hi. cbn in Hi.
    destruct (lookup_lt_is_Some_2 (samples ds) i Hi) as [[[img|] target] Hs].
    + left. pose proof (Forall_lookup_1 _ _ _ _ Hall Hs) as (? & ? & ?).
      by eapply preprocess_sample_ok.
    + right. by eapply folder_sample_undecodable.
  - apply list.Exists_exists in Hsome as ([c target] & Hin & Hc).
    cbn in Hc. subst c. apply list_elem_of_lookup in Hin as [j Hj].
    exists j. split; [by eapply lookup_lt_Some|].
    by eapply folder_sample_undecodable.
Qed.


(** C22 (functional).  [inpaint_image] on the object a call of
    [train_gan] has returned from: the generator runs in training mode,
    in which [train_gan] left it (nothing in [gan.py] calls
    [eval()]), on the image erased under the mask, with the parameters
    training ended with. *)
Theorem inpaint_image_after_training (ds : dataset R Rng) w w' image mask b :
  train_gan ds w = (Ok (), w') → gan_wf (self w) →
  is_images (device (self w)) b image → is_mask img_h img_w mask →
  dev mask = device (self w) →
  ∃ xin x1 x2 x3,
    erase (self w) image mask = Ok xin
    ∧ gen_forward true (params (gen (self w'))) xin mask = Ok (x1, x2, x3)
    ∧ inpaint_image (self w') image mask = Ok x2.
Proof.
  intros Hrun Hwf Hi Hm Hdm.
  destruct (train_gan_Ok_inv ds w w' Hrun) as [_ Hc].
  destruct (cfg_equiv_train_mode _ _ Hc) as (Htr & Hdev & _).
  assert (erase (self w) image mask = erase (self w') image mask) as ->.
  { unfold erase. by rewrite Hdev. }
  apply (inpaint_image_training (self w') image mask b);
    [|done|by rewrite ?Hdev..].
  eapply gan_wf_cfg; [by symmetry|]. by apply train_mode_wf.
Qed.

(** C29 (equivalence).  A generator in training mode that is exported
    and imported again on its device, on a machine that has this
    device, inpaints as before: putting the imported generator in the
    place of the exported one changes no result of [inpaint_image],
    whatever the [.grad] buffers held and whatever the fresh
    [Generator()] was initialised with. *)
Theorem reloaded_generator_inpaints_alike s cuda_count θ0 model_path
    (fs : file_system) image mask :
  training (gen s) = true → available cuda_count (mdev (gen s)) = true →
  ∃ m fs',
    (_ ← export_model (GeneratorModel (gen s)) model_path;
     import_model cuda_count (mdev (gen s)) θ0 model_path) fs = (Ok m, fs')
    ∧ inpaint_image (set_gen m s) image mask = inpaint_image s image mask.
Proof.
  intros Htr Hdv. rewrite export_import_run. unfold loaded. cbn [state_dict_of saved_on].
  rewrite Hdv. eexists _, _. split; [done|].
  unfold inpaint_image, call_gen. destruct s as [? ? [θ gr tr dv] ?]. simpl in *.
  by rewrite Htr.
Qed.
End pipeline_theorems.

(** ** The theorems at concrete inputs *)

Import Toy.Toy Toy.ToyRgb.

(** The object [GAN(cpu)] over the networks of [ToyRgb], and a folder
    of four RGB images of two rows and three columns. *)
Definition rgb_gan : @GAN Qc _ _ _ := GAN_init Cpu 1%sc 1%sc.

Definition rgb_world : @world Qc nat _ _ _ :=
  World rgb_gan (Frame [] [] 0) 0 NoGraph [].

Definition rgb_folder4 : image_folder Qc nat :=
  ImageFolder ((λ v, (Some (rgb_image 2 3 (60 * v)), v `mod` 2)) <$> seq 0 4) None.

Lemma rgb_folder4_fits :
  Forall (decoded (λ img, pil_wf img ∧ 2 ≤ pil_h img ∧ 2 ≤ pil_w img))
    (samples rgb_folder4).
Proof.
  apply Forall_fmap, Forall_true. intros v.
  split; [apply rgb_image_wf|simpl; lia].
Qed.

Lemma train_gan_on_preprocessed_folder_witness :
  ∃ w' evs,
    train_gan (folder_dataset (preprocess (2, 2) rgb_folder4).2) rgb_world
    = (Ok (), w')
    ∧ iters (locals w') = 10 * (4 / 4)
    ∧ stdout w' = [] ++ evs
                  ++ [PlotLosses (G_losses (locals w')) (D_losses (locals w'))].
Proof.
  exact (train_gan_on_preprocessed_folder rgb_folder4 rgb_world eq_refl
           Qc_half_neq_0 (GAN_init_wf Cpu 1%sc 1%sc) rgb_folder4_fits eq_refl).
Defined.

Lemma photos_fit :
  Forall (λ e, is_dir e.2 →
               images_all
                 (from_option (λ img, pil_wf img ∧ 2 ≤ pil_h img ∧ 2 ≤ pil_w img)
                    False)
                 (path_join "data" e.1) e.2) photos.
Proof. by apply (bool_decide_unpack _); vm_compute. Qed.

Lemma train_gan_on_imported_folder_witness :
  ∃ w' evs,
    train_gan (folder_dataset (preprocess (2, 2) (folder_of "data" photos)).2)
      rgb_world = (Ok (), w')
    ∧ iters (locals w') = 10 * (4 / 4)
    ∧ stdout w' = [] ++ evs
                  ++ [PlotLosses (G_losses (locals w')) (D_losses (locals w'))].
Proof.
  exact (train_gan_on_imported_folder "data" toy_disk photos
           (folder_of "data" photos) rgb_world eq_refl Qc_half_neq_0
           (GAN_init_wf Cpu 1%sc 1%sc) eq_refl photos_NoDup photos_fit
           import_data_photos eq_refl).
Defined.

Lemma photos_decode :
  Forall (λ e, is_dir e.2 → images_all is_Some (path_join "data" e.1) e.2) photos.
Proof. by apply (bool_decide_unpack _); vm_compute. Qed.

Lemma train_gan_unprocessed_folder_raises_witness :
  ∃ w', train_gan (folder_dataset (folder_of "data" photos)) rgb_world
        = (Err TypeError, w').
Proof.
  apply (train_gan_unprocessed_folder_raises "data" toy_disk photos
           (folder_of "data" photos) rgb_world (GAN_init_wf Cpu 1%sc 1%sc));
    [cbn; lia|reflexivity|apply photos_NoDup|apply photos_decode
    |apply import_data_photos].
Defined.

Lemma scans_fit :
  Forall (λ e, is_dir e.2 →
               images_all
                 (from_option (λ img, pil_wf img ∧ 2 ≤ pil_h img ∧ 2 ≤ pil_w img)
                    True)
                 (path_join "broken" e.1) e.2) scans.
Proof. by apply (bool_decide_unpack _); vm_compute. Qed.

Lemma scans_broken :
  Exists (λ e, is_dir e.2 ∧ images_some (λ c, c = None) (path_join "broken" e.1) e.2)
    scans.
Proof. by apply (bool_decide_unpack _); vm_compute. Qed.

Lemma train_gan_undecodable_file_raises_witness :
  ∃ w', train_gan (folder_dataset (preprocess (2, 2) (folder_of "broken" scans)).2)
          rgb_world
        = (Err UnidentifiedImageError, w').
Proof.
  apply (train_gan_undecodable_file_raises "broken" toy_disk scans
           (folder_of "broken" scans) rgb_world eq_refl Qc_half_neq_0
           (GAN_init_wf Cpu 1%sc 1%sc));
    [cbn; lia|reflexivity|apply scans_NoDup|apply scans_fit|apply scans_broken
    |apply import_data_scans].
Defined.

(** [toy_gan] after [gan.batch_size = 0]. *)
Definition toy_gan0 : @GAN Z _ _ _ :=
  MkGAN (device toy_gan) (dtype toy_gan) (gen toy_gan) (dis toy_gan)
    (num_epochs toy_gan) 0 (lr toy_gan) (beta1 toy_gan) (beta2 toy_gan)
    (l1_loss_alpha toy_gan) (real_label toy_gan) (fake_label toy_gan)
    (optimizerD toy_gan) (optimizerG toy_gan).


Lemma toy_train_gan_Ok :
  train_gan (toy_dataset 8) toy_world
  = (Ok (), (train_gan (toy_dataset 8) toy_world).2).
Proof.
  destruct (train_gan_run (toy_dataset 8) toy_world) as (w' & evs & -> & _);
    [apply toy_gan_wf|apply toy_dataset_ok|done..].
Qed.

Lemma inpaint_image_after_training_witness :
  ∃ xin x1 x2 x3,
    erase toy_gan (toy_images 3) toy_mask = Ok xin
    ∧ gen_forward true
        (params (gen (self (train_gan (toy_dataset 8) toy_world).2))) xin toy_mask
      = Ok (x1, x2, x3)
    ∧ inpaint_image (self (train_gan (toy_dataset 8) toy_world).2)
        (toy_images 3) toy_mask = Ok x2.
Proof.
  exact (inpaint_image_after_training (toy_dataset 8) toy_world _
           (toy_images 3) toy_mask 3 toy_train_gan_Ok toy_gan_wf
           (toy_images_ok 3) toy_mask_ok eq_refl).
Defined.

Lemma reloaded_generator_inpaints_alike_witness :
  ∃ m fs',
    (_ ← export_model (GeneratorModel (gen toy_gan)) "generator.pth";
     import_model 0 Cpu (0%Z : @gen_params Z toy_models) "generator.pth") toy_fs
    = (Ok m, fs')
    ∧ inpaint_image (set_gen m toy_gan) (toy_images 3) toy_mask
      = inpaint_image toy_gan (toy_images 3) toy_mask.
Proof.
  exact (reloaded_generator_inpaints_alike toy_gan 0 (0%Z : @gen_params Z toy_models)
           "generator.pth" toy_fs (toy_images 3) toy_mask eq_refl eq_refl).
Defined.

(** The folder with a second image of one row only. *)
Definition rgb_folder_thin : image_folder Qc nat :=
  ImageFolder [(Some (rgb_image 2 3 0), 0); (Some (rgb_image 1 3 0), 0);
               (Some (rgb_image 2 3 7), 1); (Some (rgb_image 2 3 9), 1)] None.

Lemma train_gan_small_image_raises_witness :
  ∃ w', train_gan (folder_dataset (preprocess (2, 2) rgb_folder_thin).2) rgb_world
        = (Err ValueError, w').
Proof.
  apply (train_gan_small_image_raises rgb_folder_thin rgb_world eq_refl
           Qc_half_neq_0 (GAN_init_wf Cpu 1%sc 1%sc)).
  - simpl. lia.
  - repeat apply Forall_cons_2; [..|apply Forall_nil_2]; apply rgb_image_wf.
  - apply Exists_cons_tl, Exists_cons_hd. left. simpl. lia.
Defined.
