(* ===== verification/Adam.v ===== *)
(** * Adam: the optimizer of lines 34-35 and 70, 85 of [gan.py]

    [GAN.__init__] builds two [torch.optim.Adam] optimizers with
    [lr = 1e-4] and [betas = (0.5, 0.999)], and [train_gan] calls
    [step()] on each once per iteration.  This file gives the class
    [Autograd] of [Externals] the instance that follows the documented
    algorithm of [torch.optim.Adam] with its default arguments
    ([eps = 1e-8], no weight decay, no AMSGrad): the running averages
    of the gradient and of its square, the two bias corrections and the
    update, element by element on the parameters read as one vector
    ([Flat]).  The state of an optimizer is created at its first step,
    with averages zero.  PyTorch counts the steps per parameter and
    skips a parameter without gradient; here the count is one per
    optimizer, which is the same as long as each backward pass reaches
    every parameter of the network, as the losses of [train_gan] do.

    Arithmetic is over the real numbers; rounding is not modelled.  A
    gradient has the shape of its parameters; where the vector handed
    to [adam_update] is shorter, the missing elements count as zero.

    The theorems: the averages keep the invariant [moment_ok], which
    bounds the first average by the root of the second, and therefore
    no step moves an element of the parameters by more than
    [lr * sqrt (beta2 / ((beta2 - beta1^2) * (1 - beta2)))], whatever
    the gradients are; for the optimizers of [GAN.__init__] this is
    less than [0.0037]. *)

From Stdlib Require Import Reals Lra Psatz QArith Qreals.
From stdpp Require Import base tactics option list.
From S2P Require Import Prelude Scalar Tensor Externals.
Close Scope Q_scope.

(** ** The real numbers as elements of tensors *)

#[export] Instance R_eq_dec : EqDecision R := Req_dec_T.

#[export] Instance R_scalar : Scalar R := {|
  sc_zero := 0%R;
  sc_one := 1%R;
  sc_add := Rplus;
  sc_sub := Rminus;
  sc_mul := Rmult;
  sc_div := Rdiv;
  sc_neg := Ropp;
  sc_abs := Rabs;
  sc_max := Rmax;
  sc_of_nat := INR;
|}.

#[export] Instance R_mask_laws : MaskLaws R.
Proof. split; simpl; intros; lra. Qed.

(** ** Parameters as one vector *)

(** The elements of all parameter tensors of a module, one after the
    other ([torch.nn.utils.parameters_to_vector]), and the module's
    parameters with other elements. *)
Class Flat (Θ : Type) : Type := {
  flatten : Θ → list R;
  unflatten : Θ → list R → Θ;
  flatten_unflatten θ l :
    length l = length (flatten θ) → flatten (unflatten θ l) = l;
}.

(** ** [torch.optim.Adam] *)

Open Scope R_scope.

(** The hyperparameters, [state['step']] and, per element,
    [state['exp_avg']] and [state['exp_avg_sq']]. *)
Record adam : Type := Adam {
  a_lr : R;
  a_beta1 : R;
  a_beta2 : R;
  a_eps : R;
  a_steps : nat;
  a_moments : list (R * R);
}.

(** [optim.Adam(params, lr=lr, betas=betas)] *)
Definition adam_init (lr : Q) (betas : Q * Q) : adam :=
  Adam (Q2R lr) (Q2R betas.1) (Q2R betas.2) (1 / 100000000) 0 [].

(** The averages of one element after the gradient [g]:
    [exp_avg.lerp_(grad, 1 - beta1)] and
    [exp_avg_sq.mul_(beta2).addcmul_(grad, grad, value=1 - beta2)]. *)
Definition adam_moment (o : adam) (mv : R * R) (g : R) : R * R :=
  (a_beta1 o * mv.1 + (1 - a_beta1 o) * g,
   a_beta2 o * mv.2 + (1 - a_beta2 o) * (g * g)).

(** What step [t] subtracts from an element with the averages [mv]. *)
Definition adam_delta (o : adam) (t : nat) (mv : R * R) : R :=
  let bias_correction1 := 1 - a_beta1 o ^ t in
  let bias_correction2 := 1 - a_beta2 o ^ t in
  let step_size := a_lr o / bias_correction1 in
  let denom := sqrt mv.2 / sqrt bias_correction2 + a_eps o in
  step_size * (mv.1 / denom).

(** [optimizer.step()] on the parameters [θ] with the gradients [g]. *)
Definition adam_update (o : adam) (θ g : list R) : adam * list R :=
  let t := S (a_steps o) in
  let moments :=
    imap (λ i _, adam_moment o (default (0, 0) (a_moments o !! i))
                   (default 0 (g !! i))) θ in
  (Adam (a_lr o) (a_beta1 o) (a_beta2 o) (a_eps o) t moments,
   zip_with (λ x mv, x - adam_delta o t mv) θ moments).

(** The instance of [Autograd]: gradients are vectors, [backward]
    adds them element by element, and the optimizer is Adam. *)
Definition adam_autograd {Θ : Type} `{Flat Θ}
    (derive : (Θ → result R) → Θ → list R) : Autograd R Θ := {|
  grad_t := list R;
  grad_add := zip_with Rplus;
  Externals.derive := derive;
  opt_t := adam;
  adam_new := adam_init;
  adam_step := λ o θ g,
    let r := adam_update o (flatten θ) g in (r.1, unflatten θ r.2);
|}.

(** ** Specification *)

(** The hyperparameters [torch.optim.Adam] is meant for: a positive
    learning rate and [eps], decay rates below one, the second not
    below the square of the first. *)
Definition hyper_ok (o : adam) : Prop :=
  0 < a_lr o ∧ 0 <= a_beta1 o < 1 ∧ 0 < a_beta2 o < 1
  ∧ a_beta1 o * a_beta1 o < a_beta2 o ∧ 0 < a_eps o.

(** The first average is bounded by the root of the second:
    [m^2 <= K * v] with
    [K = (1 - beta1)^2 * beta2 / ((beta2 - beta1^2) * (1 - beta2))],
    written without division. *)
Definition moment_ok (o : adam) (mv : R * R) : Prop :=
  mv.1 * mv.1 * ((a_beta2 o - a_beta1 o * a_beta1 o) * (1 - a_beta2 o))
  <= (1 - a_beta1 o) * (1 - a_beta1 o) * a_beta2 o * mv.2.

Definition adam_ok (o : adam) : Prop :=
  hyper_ok o ∧ Forall (moment_ok o) (a_moments o).

(** [B] bounds a step: [B >= lr * sqrt (beta2 / ((beta2 - beta1^2) *
    (1 - beta2)))], written without root and division. *)
Definition step_bound (o : adam) (B : R) : Prop :=
  0 <= B
  ∧ a_lr o * a_lr o * a_beta2 o
    <= B * B * ((a_beta2 o - a_beta1 o * a_beta1 o) * (1 - a_beta2 o)).

(** Two vectors differ by at most [B] in every element. *)
Definition within (B : R) (θ θ' : list R) : Prop :=
  Forall2 (λ x x', Rabs (x' - x) <= B) θ θ'.

(** ** Lemmas: real numbers *)

Lemma pow_le_base (a : R) (t : nat) : 0 <= a < 1 → (0 < t)%nat → 0 <= a ^ t <= a.
Proof.
  intros Ha Ht. destruct t as [|t]; [lia|]. cbn [pow].
  pose proof (pow_le a t (proj1 Ha)) as H0.
  assert (a ^ t <= 1) as H1.
  { rewrite <-(pow1 t). apply pow_incr. lra. }
  split; [apply Rmult_le_pos; lra|].
  assert (a * a ^ t <= a * 1) by (apply Rmult_le_compat_l; lra). lra.
Qed.

(** Squares decide the order of numbers that are not negative. *)
Lemma Rle_of_squares (x y : R) : 0 <= y → x * x <= y * y → x <= y.
Proof. intros Hy Hxy. by apply Rsqr_incr_0_var. Qed.

(** The step of the weighted average, squared. *)
Lemma average_square (a b m g : R) :
  (a * m + (1 - a) * g) * (a * m + (1 - a) * g) * (b - a * a)
  <= b * (m * m) * (b - a * a) + (1 - a) * (1 - a) * (g * g) * b.
Proof.
  pose proof (Rle_0_sqr ((b - a * a) * m - a * (1 - a) * g)) as Hs.
  unfold Rsqr in Hs. lra.
Qed.

Lemma Rabs_square (x : R) : Rabs x * Rabs x = x * x.
Proof. rewrite <-Rabs_mult. apply Rabs_right. nra. Qed.

(** ** Lemmas: the averages *)

Section moments.
Variable o : adam.
Hypothesis Hhyper : hyper_ok o.

Local Notation "'a'" := (a_beta1 o) (only parsing).
Local Notation "'b'" := (a_beta2 o) (only parsing).

Lemma moment_ok_zero : moment_ok o (0, 0).
Proof. unfold moment_ok. cbn. lra. Qed.

Lemma moment_ok_nonneg m v : moment_ok o (m, v) → 0 <= v.
Proof.
  destruct Hhyper as (_ & Ha & Hb & Hab & _). unfold moment_ok. cbn. intros Hmv.
  assert (0 < (1 - a) * (1 - a) * b) as Hd
    by (repeat apply Rmult_lt_0_compat; lra).
  assert (0 <= m * m * ((b - a * a) * (1 - b))) as Hc
    by (apply Rmult_le_pos; [apply (Rle_0_sqr m)|apply Rmult_le_pos; lra]).
  apply (Rmult_le_reg_l ((1 - a) * (1 - a) * b)); lra.
Qed.

(** The averages keep their invariant, whatever the gradient. *)
Lemma adam_moment_ok mv g : moment_ok o mv → moment_ok o (adam_moment o mv g).
Proof.
  destruct Hhyper as (_ & Ha & Hb & Hab & _), mv as [m v].
  unfold moment_ok, adam_moment. cbn. intros Hmv.
  pose proof (average_square a b m g) as Hs.
  apply (Rmult_le_compat_r (1 - b)) in Hs; [|lra].
  apply (Rmult_le_compat_l b) in Hmv; [|lra]. lra.
Qed.
End moments.

(** ** Lemmas: one step *)

Section step.
Variables (o : adam) (B : R).
Hypotheses (Hhyper : hyper_ok o) (HB : step_bound o B).

Local Notation "'a'" := (a_beta1 o) (only parsing).
Local Notation "'b'" := (a_beta2 o) (only parsing).

(** The bias corrections of step [t]. *)
Lemma bias_corrections t :
  (0 < t)%nat → 1 - a <= 1 - a ^ t <= 1 ∧ 0 < 1 - b ^ t <= 1.
Proof.
  destruct Hhyper as (_ & Ha & Hb & _). intros Ht.
  pose proof (pow_le_base a t Ha Ht). pose proof (pow_le_base b t) as Hbt.
  split; [lra|]. destruct Hbt; [lra|done|lra].
Qed.

(** The numerator against the denominator, without the divisions:
    [lr * |m| * sqrt bc2 <= B * sqrt v * bc1]. *)
Lemma adam_delta_cross t m v :
  moment_ok o (m, v) → (0 < t)%nat →
  a_lr o * Rabs m * sqrt (1 - b ^ t) <= B * sqrt v * (1 - a ^ t).
Proof.
  intros Hmv Ht. pose proof (moment_ok_nonneg o Hhyper m v Hmv) as Hv.
  destruct (bias_corrections t Ht) as [H1 H2].
  destruct Hhyper as (Hlr & Ha & Hb & Hab & _), HB as [HB0 HBc].
  unfold moment_ok in Hmv. cbn [fst snd] in Hmv.
  set (c := (b - a * a) * (1 - b)) in *.
  assert (0 < c) as Hc by (apply Rmult_lt_0_compat; lra).
  pose proof (sqrt_pos v) as Hs. pose proof (sqrt_pos (1 - b ^ t)) as Hr.
  apply Rle_of_squares; [repeat apply Rmult_le_pos; lra|].
  apply (Rmult_le_reg_r c); [done|].
  replace (a_lr o * Rabs m * sqrt (1 - b ^ t) * (a_lr o * Rabs m * sqrt (1 - b ^ t)) * c)
    with (a_lr o * a_lr o * (m * m * c) * (1 - b ^ t))
    by (rewrite <-(Rabs_square m), <-(sqrt_sqrt (1 - b ^ t)) at 1 by lra; ring).
  replace (B * sqrt v * (1 - a ^ t) * (B * sqrt v * (1 - a ^ t)) * c)
    with (B * B * c * v * ((1 - a ^ t) * (1 - a ^ t)))
    by (rewrite <-(sqrt_sqrt v) at 1 by done; ring).
  assert (0 <= a_lr o * a_lr o) as Hlr2 by nra.
  assert (0 <= m * m * c) as Hm2
    by (apply Rmult_le_pos; [apply (Rle_0_sqr m)|lra]).
  assert ((1 - a) * (1 - a) <= (1 - a ^ t) * (1 - a ^ t)) as Hbc1 by nra.
  assert (0 <= B * B * c * v) as HBv
    by (repeat apply Rmult_le_pos; try lra; apply (Rle_0_sqr B)).
  transitivity (a_lr o * a_lr o * (m * m * c)).
  { rewrite <-(Rmult_1_r (a_lr o * a_lr o * (m * m * c))) at 2.
    apply Rmult_le_compat_l; [by apply Rmult_le_pos|lra]. }
  transitivity (a_lr o * a_lr o * ((1 - a) * (1 - a) * b * v)).
  { by apply Rmult_le_compat_l. }
  transitivity (B * B * c * v * ((1 - a) * (1 - a))).
  { assert (a_lr o * a_lr o * b * ((1 - a) * (1 - a) * v)
            <= B * B * c * ((1 - a) * (1 - a) * v)); [|lra].
    apply Rmult_le_compat_r; [|done]. apply Rmult_le_pos; [nra|done]. }
  by apply Rmult_le_compat_l.
Qed.

(** No step moves an element by more than [B]. *)
Lemma adam_delta_bounded t mv :
  moment_ok o mv → (0 < t)%nat → Rabs (adam_delta o t mv) <= B.
Proof.
  destruct mv as [m v]. intros Hmv Ht.
  pose proof (adam_delta_cross t m v Hmv Ht) as Hcross.
  pose proof (moment_ok_nonneg o Hhyper m v Hmv) as Hv.
  destruct (bias_corrections t Ht) as [H1 H2].
  destruct Hhyper as (Hlr & Ha & Hb & Hab & Heps), HB as [HB0 _].
  unfold adam_delta. cbn [fst snd].
  set (bc1 := 1 - a ^ t) in *. set (r := sqrt (1 - b ^ t)) in *.
  set (s := sqrt v) in *.
  assert (0 < r) as Hr by (apply sqrt_lt_R0; lra).
  assert (0 <= s) as Hs by apply sqrt_pos.
  assert (0 < bc1) as Hbc1 by lra.
  assert (0 <= s / r) as Hsr
    by (apply Rmult_le_pos; [done|]; left; by apply Rinv_0_lt_compat).
  set (denom := s / r + a_eps o). assert (0 < denom) as Hden by (unfold denom; lra).
  assert (a_lr o * Rabs m <= B * bc1 * denom) as Hnum.
  { apply (Rmult_le_reg_r r); [done|].
    replace (B * bc1 * denom * r) with (B * s * bc1 + B * bc1 * a_eps o * r)
      by (unfold denom; field; lra).
    assert (0 <= B * bc1 * a_eps o * r) by (repeat apply Rmult_le_pos; lra). lra. }
  replace (a_lr o / bc1 * (m / denom)) with (a_lr o * m * / (bc1 * denom))
    by (field; lra).
  assert (0 < bc1 * denom) as Hbd by (by apply Rmult_lt_0_compat).
  assert (0 < / (bc1 * denom)) as Hq by (by apply Rinv_0_lt_compat).
  rewrite !Rabs_mult, (Rabs_right (a_lr o)), (Rabs_right (/ _)) by lra.
  apply (Rmult_le_reg_r (bc1 * denom)); [done|].
  rewrite Rmult_assoc, Rinv_l by lra. lra.
Qed.
End step.

(** ** Lemmas: vectors *)

Lemma Forall_imap {A B} (P : B → Prop) (f : nat → A → B) (l : list A) :
  (∀ i x, l !! i = Some x → P (f i x)) → Forall P (imap f l).
Proof.
  revert f. induction l as [|x l IH]; intros f Hf; [constructor|].
  cbn. constructor; [by apply (Hf 0%nat)|]. apply IH. intros i y. apply (Hf (S i)).
Qed.

Lemma Forall2_zip_with_imap {A B C} (P : A → C → Prop) (h : A → B → C)
    (f : nat → A → B) (l : list A) :
  (∀ i x, l !! i = Some x → P x (h x (f i x))) →
  Forall2 P l (zip_with h l (imap f l)).
Proof.
  revert f. induction l as [|x l IH]; intros f Hf; [constructor|].
  cbn. constructor; [by apply (Hf 0%nat)|]. apply IH. intros i y. apply (Hf (S i)).
Qed.

Lemma within_refl B θ : 0 <= B → within B θ θ.
Proof.
  intros HB. apply Forall2_same_length_lookup_2; [done|]. intros i x y Hx Hy.
  simplify_eq. rewrite Rminus_diag, Rabs_R0. done.
Qed.

(** Steps add up. *)
Lemma within_trans B1 B2 θ1 θ2 θ3 :
  within B1 θ1 θ2 → within B2 θ2 θ3 → within (B1 + B2) θ1 θ3.
Proof.
  intros H12. revert θ3. induction H12 as [|x y θ1 θ2 Hxy _ IH]; intros θ3 H23;
    inversion H23 as [|? z ? θ3' Hyz H23']; simplify_eq; constructor; [|by apply IH].
  replace (z - x) with ((z - y) + (y - x)) by ring.
  etransitivity; [apply Rabs_triang|]. lra.
Qed.

Lemma within_mono B B' θ θ' : B <= B' → within B θ θ' → within B' θ θ'.
Proof.
  intros HB Hw. eapply Forall2_impl; [exact Hw|]. intros x y Hxy. cbn in *. lra.
Qed.

Lemma within_length B θ θ' : within B θ θ' → length θ' = length θ.
Proof. intros Hw. symmetry. by eapply Forall2_length. Qed.

(** ** Lemmas: [optimizer.step()] *)

Section update.
Variables (o : adam) (B : R).
Hypotheses (Hok : adam_ok o) (HB : step_bound o B).
Implicit Types θ g : list R.

Lemma adam_update_ok θ g : adam_ok (adam_update o θ g).1.
Proof.
  destruct Hok as [Hh Hm]. split; [done|]. cbn.
  apply Forall_imap. intros i x _.
  change (moment_ok o (adam_moment o (default (0, 0) (a_moments o !! i))
                          (default 0 (g !! i)))).
  apply adam_moment_ok; [done|].
  destruct (a_moments o !! i) as [mv|] eqn:Hi; [|by apply moment_ok_zero].
  by apply (proj1 (Forall_lookup _ _) Hm i).
Qed.

Lemma adam_update_steps θ g : a_steps (adam_update o θ g).1 = S (a_steps o).
Proof. done. Qed.

Lemma adam_update_hyper θ g (o' := (adam_update o θ g).1) :
  a_lr o' = a_lr o ∧ a_beta1 o' = a_beta1 o ∧ a_beta2 o' = a_beta2 o
  ∧ a_eps o' = a_eps o.
Proof. done. Qed.

(** A step moves no element by more than [B], whatever the
    gradients. *)
Lemma adam_update_within θ g : within B θ (adam_update o θ g).2.
Proof.
  destruct Hok as [Hh Hm]. cbn. apply Forall2_zip_with_imap. intros i x _.
  replace (x - _ - x) with (- adam_delta o (S (a_steps o))
    (adam_moment o (default (0, 0) (a_moments o !! i)) (default 0 (g !! i))))
    by ring.
  rewrite Rabs_Ropp. apply adam_delta_bounded; [done..| |lia].
  apply adam_moment_ok; [done|].
  destruct (a_moments o !! i) as [mv|] eqn:Hi; [|by apply moment_ok_zero].
  by apply (proj1 (Forall_lookup _ _) Hm i).
Qed.

Lemma step_bound_update θ g : step_bound (adam_update o θ g).1 B.
Proof. done. Qed.
End update.

(** ** Lemmas: the instance of [Autograd] *)

Lemma length_adam_update (o : adam) (θ g : list R) :
  length (adam_update o θ g).2 = length θ.
Proof. cbn. rewrite length_zip_with, length_imap. lia. Qed.

(** A step of the instance is a step of [adam_update] on the vector of
    the parameters. *)
Lemma adam_step_flatten {Θ : Type} `{Flat Θ} derive (o : adam) (θ : Θ) g :
  flatten (adam_step (Autograd := adam_autograd derive) o θ g).2
  = (adam_update o (flatten θ) g).2.
Proof. cbn [adam_step adam_autograd snd]. apply flatten_unflatten, length_adam_update. Qed.

(** ** Lemmas: the optimizers of [GAN.__init__] *)

(** A new optimizer has no averages yet. *)
Lemma adam_init_ok lr betas : hyper_ok (adam_init lr betas) → adam_ok (adam_init lr betas).
Proof. intros Hh. split; [done|]. apply Forall_nil_2. Qed.

Lemma gan_hyper_ok : hyper_ok (adam_init (1 # 10000)%Q ((1 # 2)%Q, (999 # 1000)%Q)).
Proof. unfold hyper_ok, adam_init, Q2R. cbn. lra. Qed.

Lemma gan_step_bound : step_bound (adam_init (1 # 10000)%Q ((1 # 2)%Q, (999 # 1000)%Q)) (37 / 10000).
Proof. unfold step_bound, adam_init, Q2R. cbn. lra. Qed.
