(* ===== verification/Drift.v ===== *)
(** * Drift: how far [train_gan] moves the parameters

    [train_gan] calls [optimizerD.step()] after it appended to
    [D_losses] and [optimizerG.step()] after it appended to
    [G_losses], once per iteration each (lines 68-70 and 82-85 of
    [gan.py]), and nothing else writes the parameters of the networks
    or the state of the optimizers.  So, however the function ends,
    the parameters of a network are as many steps of its optimizer
    away from where they were at the call as its list holds losses, at
    most.

    The first part states what this needs of an optimizer as the class
    [StepBounded] and proves the statement for every instance, with the
    safety triples of [Prelude] and in the way of [Counters].  The
    second part shows that Adam as modelled in [Adam] is an instance,
    a step being a move of every element by [B] at most; for the
    optimizers [GAN.__init__] builds, [B = 0.0037]. *)

From Stdlib Require Import Reals Lra QArith Qreals.
From stdpp Require Import base tactics option list numbers.
From S2P Require Import Prelude Scalar Tensor Externals Toy DataLoader Gan Adam.
Close Scope Q_scope.
Close Scope R_scope.

(** ** The contract of an optimizer *)

(** [reach n θ0 θ]: the parameters [θ] are at most [n] steps away from
    [θ0].  [opt_ok] is what the state of the optimizer has to satisfy
    for its steps to count as such. *)
Class StepBounded (R Θ : Type) {AG : Autograd R Θ} : Type := {
  opt_ok : opt_t → Prop;
  reach : nat → Θ → Θ → Prop;
  reach_refl θ : reach 0 θ θ;
  reach_mono n n' θ0 θ : n ≤ n' → reach n θ0 θ → reach n' θ0 θ;
  opt_ok_step o θ g : opt_ok o → opt_ok (adam_step o θ g).1;
  reach_step n o θ0 θ g :
    opt_ok o → reach n θ0 θ → reach (S n) θ0 (adam_step o θ g).2;
}.

Section drift.
Context {R Rng : Type} `{Scalar R, Random Rng, Models R, UtilOps R Rng}.
Context {AG : Autograd R gen_params} {AD : Autograd R dis_params}.
Context {BG : StepBounded R gen_params} {BD : StepBounded R dis_params}.
Variables (θg0 : gen_params) (θd0 : dis_params).
Implicit Types (s : GAN) (w : world (Rng := Rng)).

(** ** Specification *)

(** The discriminator is [d] steps and the generator [g] steps away
    from [θd0] and [θg0], at most. *)
Definition moved (d g : nat) s : Prop :=
  opt_ok (optimizerD s) ∧ opt_ok (optimizerG s)
  ∧ reach d θd0 (params (dis s)) ∧ reach g θg0 (params (gen s)).

(** The same, with [nd] and [ng] losses on the lists. *)
Definition drift (nd ng d g : nat) w : Prop :=
  length (D_losses (locals w)) = nd ∧ length (G_losses (locals w)) = ng
  ∧ moved d g (self w).

(** The networks are as many steps away as the lists hold losses, at
    most. *)
Definition drifted w : Prop :=
  moved (length (D_losses (locals w))) (length (G_losses (locals w))) (self w).

(** What [moved] reads of the object. *)
Definition weights s :
    dis_params * gen_params * opt_t (Autograd := AD) * opt_t (Autograd := AG) :=
  (params (dis s), params (gen s), optimizerD s, optimizerG s).

(** The lists of losses, the parameters and the optimizers are the
    same. *)
Definition same_weights w w' : Prop :=
  D_losses (locals w') = D_losses (locals w)
  ∧ G_losses (locals w') = G_losses (locals w)
  ∧ weights (self w') = weights (self w).

(** ** Lemmas *)

#[export] Instance same_weights_preorder : PreOrder same_weights.
Proof.
  split; [by intros w|].
  intros w1 w2 w3 (HD1 & HG1 & Hw1) (HD2 & HG2 & Hw2). split_and!; congruence.
Qed.

Lemma moved_weights d g s s' : weights s' = weights s → moved d g s → moved d g s'.
Proof. unfold moved. by intros [= -> -> -> ->]. Qed.

Lemma moved_mono d g d' g' s : d ≤ d' → g ≤ g' → moved d g s → moved d' g' s.
Proof.
  intros Hd Hg (? & ? & ? & ?). split_and!; [done..| |]; by eapply reach_mono.
Qed.

Lemma drift_same_weights nd ng d g w w' :
  drift nd ng d g w → same_weights w w' → drift nd ng d g w'.
Proof.
  intros (<- & <- & Hm) (HD & HG & Hw). unfold drift. rewrite HD, HG.
  split_and!; [done..|]. by eapply moved_weights.
Qed.

Lemma drift_drifted nd ng d g w : d ≤ nd → g ≤ ng → drift nd ng d g w → drifted w.
Proof. intros Hd Hg (<- & <- & Hm). by eapply moved_mono. Qed.

(** [stepD] and [stepG] are one step of their optimizer, or none. *)
Lemma moved_stepD d g s : moved d g s → moved (S d) g (stepD s).
Proof.
  intros (HoD & HoG & HrD & HrG). unfold stepD.
  destruct (grads (dis s)) as [gr|].
  - split_and!; [by apply opt_ok_step|done|by apply reach_step|done].
  - apply (moved_mono d g); [lia|done|done].
Qed.

Lemma moved_stepG d g s : moved d g s → moved d (S g) (stepG s).
Proof.
  intros (HoD & HoG & HrD & HrG). unfold stepG.
  destruct (grads (gen s)) as [gr|].
  - split_and!; [done|by apply opt_ok_step|done|by apply reach_step].
  - apply (moved_mono d g); [done|lia|done].
Qed.

(** The operations that leave the lists, the parameters and the
    optimizers alone. *)
Lemma same_weights_modify_self (f : GAN → GAN) :
  (∀ s, weights (f s) = weights s) → preserves same_weights (modify_self f).
Proof. intros Hf. apply preserves_modify. intros w. split_and!; [done..|apply Hf]. Qed.

Lemma same_weights_set_graph t : preserves same_weights (modify (set_graph t)).
Proof. by apply preserves_modify. Qed.

Lemma same_weights_with_rng {A} (m : stx Rng A) : preserves same_weights (with_rng m).
Proof. by apply preserves_zoom. Qed.

Lemma same_weights_emit e : preserves same_weights (emit e).
Proof. by apply preserves_modify. Qed.

Lemma same_weights_incr_iters : preserves same_weights incr_iters.
Proof. by apply preserves_modify. Qed.

Lemma same_weights_backward retain loss L :
  preserves same_weights (backward retain loss L).
Proof.
  intros [s l g t out] r w'. unfold backward. rewrite run_lift_bind.
  destruct (guard_ok _ _); [|by intros [= <- <-]]. rewrite run_get_bind.
  by destruct t; intros [= <- <-].
Qed.

(** An operation that keeps the weights keeps the drift, however it
    ends. *)
Lemma drift_quiet {A} (m : stx world A) nd ng d g :
  preserves same_weights m → d ≤ nd → g ≤ ng →
  ends (drift nd ng d g) m (λ _, drift nd ng d g) drifted.
Proof.
  intros Hm Hd Hg. apply (ends_preserves same_weights); [done|..].
  - intros w w'. apply drift_same_weights.
  - intros w w' Hw Hs. apply (drift_drifted nd ng d g); [done..|].
    by eapply drift_same_weights.
Qed.

Lemma drift_append_D x nd ng d g :
  ends (drift nd ng d g) (append_D x) (λ _, drift (S nd) ng d g) drifted.
Proof.
  apply ends_modify. intros w (<- & <- & Hm). unfold drift. cbn.
  rewrite length_app. cbn. split_and!; done || lia.
Qed.

Lemma drift_append_G x nd ng d g :
  ends (drift nd ng d g) (append_G x) (λ _, drift nd (S ng) d g) drifted.
Proof.
  apply ends_modify. intros w (<- & <- & Hm). unfold drift. cbn.
  rewrite length_app. cbn. split_and!; done || lia.
Qed.

Lemma drift_optimizerD_step nd ng d g :
  ends (drift nd ng d g) optimizerD_step (λ _, drift nd ng (S d) g) drifted.
Proof.
  apply ends_modify. intros w (<- & <- & Hm). split_and!; [done..|].
  by apply moved_stepD.
Qed.

Lemma drift_optimizerG_step nd ng d g :
  ends (drift nd ng d g) optimizerG_step (λ _, drift nd ng d (S g)) drifted.
Proof.
  apply ends_modify. intros w (<- & <- & Hm). split_and!; [done..|].
  by apply moved_stepG.
Qed.
End drift.

(** Proves [preserves same_weights m] for a computation built from
    operations that leave the lists, the parameters and the optimizers
    alone. *)
Ltac solve_still :=
  repeat first
    [ apply preserves_ret | apply preserves_lift | apply preserves_gets
    | apply same_weights_with_rng | apply same_weights_backward
    | apply same_weights_set_graph | apply same_weights_emit
    | apply same_weights_incr_iters
    | apply same_weights_modify_self; by intros ?
    | apply preserves_bind; [| |intros ?]
    | match goal with |- PreOrder _ => apply _ end ].

(** One statement of an iteration: it appends a loss, it steps an
    optimizer, or it is still. *)
Ltac drift_step :=
  first
    [ apply drift_append_D | apply drift_append_G
    | apply drift_optimizerD_step | apply drift_optimizerG_step
    | apply drift_quiet; [solve [solve_still]|lia|lia] ].

Ltac drift_run :=
  repeat first
    [ drift_step
    | eapply ends_bind; [drift_step|intros ?]
    | match goal with |- ends _ (let (_, _) := ?p in _) _ _ => destruct p end ].

Section drift_of_the_loops.
Context {R Rng : Type} `{Scalar R, Random Rng, Models R, UtilOps R Rng}.
Context {AG : Autograd R gen_params} {AD : Autograd R dis_params}.
Context {BG : StepBounded R gen_params} {BD : StepBounded R dis_params}.
Variables (θg0 : gen_params) (θd0 : dis_params).
Implicit Types (s : GAN) (w : world (Rng := Rng)).

Local Abbreviation drift := (drift θg0 θd0).
Local Abbreviation drifted := (drifted θg0 θd0).

(** Between two iterations, after [k] of them. *)
Definition even k w : Prop := drift k k k k w.

(** Lines 61-70: [optimizerD.step()] comes after the loss is on the
    list. *)
Lemma drift_discriminator_step k batch_real mask xin batch_fake :
  ends (even k) (discriminator_step batch_real mask xin batch_fake)
    (λ _, drift (S k) k (S k) k) drifted.
Proof. unfold discriminator_step, even. drift_run. Qed.

(** Lines 72-85: and so does [optimizerG.step()]. *)
Lemma drift_generator_step k batch_real mask xin x1 x2 batch_fake :
  ends (drift (S k) k (S k) k)
    (generator_step (Rng := Rng) batch_real mask xin x1 x2 batch_fake)
    (λ _, even (S k)) drifted.
Proof. unfold generator_step, gen_zero_grad, even. drift_run. Qed.

(** An iteration, lines 47-89. *)
Lemma drift_train_batch k epoch batch_data :
  ends (even k) (train_batch epoch batch_data) (λ _, even (S k)) drifted.
Proof.
  unfold train_batch, dis_zero_grad.
  repeat first
    [ eapply ends_bind;
      [first [ unfold even; drift_step | apply drift_discriminator_step
             | apply drift_generator_step ]|intros ?]
    | match goal with |- ends _ (let (_, _) := ?p in _) _ _ => destruct p end
    | unfold even; drift_step ].
Qed.

(** A pass, lines 46-89: some number of iterations. *)
Lemma drift_train_epoch dl epoch :
  ends (λ w, ∃ k, even k w) (train_epoch dl epoch) (λ _ w, ∃ k, even k w) drifted.
Proof.
  apply ends_exists. intros k. unfold train_epoch.
  eapply ends_bind; [unfold even; drift_step|]. intros batches.
  eapply ends_consequence; [| | |apply (ends_for (λ j, even (k + j)))].
  - intros w. by rewrite Nat.add_0_r.
  - intros a w Hw. exists (k + length batches). exact Hw.
  - done.
  - intros j idxs _. eapply ends_bind; [unfold even; drift_step|].
    intros batch_data. rewrite Nat.add_succ_r. apply drift_train_batch.
Qed.

(** [train_gan], lines 37-91: the lists are emptied before the first
    step, and line 39 may raise before that. *)
Lemma drift_train_gan ds :
  ends (λ w, moved θg0 θd0 0 0 (self w)) (train_gan ds) (λ _, drifted) drifted.
Proof.
  assert (∀ w, moved θg0 θd0 0 0 (self w) → drifted w) as Hstart.
  { intros w. apply moved_mono; lia. }
  assert (∀ w, (∃ k, even k w) → drifted w) as Hend.
  { intros w [k Hk]. by apply (drift_drifted _ _ k k k k). }
  unfold train_gan. eapply ends_bind; [apply ends_gets|]. intros s.
  eapply ends_bind.
  { eapply ends_consequence;
      [| | |apply (ends_lift (λ w, moved θg0 θd0 0 0 (self w)))];
      [done|done|exact Hstart]. }
  intros dl. eapply ends_bind.
  { apply (ends_modify _ _ (even 0)). by intros w Hw. }
  intros []. unfold gen_train, dis_train.
  do 2 (eapply ends_bind; [unfold even; drift_step|intros ?]).
  eapply ends_bind.
  { eapply ends_consequence; [| | |apply (ends_for (λ _ w, ∃ k, even k w))].
    - intros w Hw. by exists 0.
    - done.
    - done.
    - intros j epoch _. apply drift_train_epoch. }
  intros []. eapply ends_bind; [apply ends_gets|]. intros l.
  apply (ends_preserves (same_weights (Rng := Rng))).
  - apply same_weights_emit.
  - intros w w' [k Hk] Hs. apply Hend. exists k. by eapply drift_same_weights.
  - intros w w' [k Hk] Hs. apply Hend. exists k. by eapply drift_same_weights.
Qed.
End drift_of_the_loops.

(** ** Adam is an instance *)

Section adam_bounded.
Context {Θ : Type} `{Flat Θ}.
Variables (derive : (Θ → result R) → Θ → list R) (B : R).
Hypothesis HB : (0 <= B)%R.

(** Every element has moved by [n * B] at most. *)
Definition adam_reach (n : nat) (θ0 θ : Θ) : Prop :=
  within (B * INR n) (flatten θ0) (flatten θ).

(** The averages keep their invariant and [B] bounds a step. *)
Definition adam_opt_ok (o : adam) : Prop := adam_ok o ∧ step_bound o B.

Lemma adam_reach_refl θ : adam_reach 0 θ θ.
Proof. apply within_refl. cbn. lra. Qed.

Lemma adam_reach_mono n n' θ0 θ : n ≤ n' → adam_reach n θ0 θ → adam_reach n' θ0 θ.
Proof.
  intros Hn. apply within_mono, Rmult_le_compat_l; [done|]. by apply le_INR.
Qed.

Lemma adam_opt_ok_step o (θ : Θ) g :
  adam_opt_ok o → adam_opt_ok (adam_step (Autograd := adam_autograd derive) o θ g).1.
Proof.
  intros [Hok Hb]. split; [by apply adam_update_ok|by apply step_bound_update].
Qed.

Lemma adam_reach_step n o (θ0 θ : Θ) g :
  adam_opt_ok o → adam_reach n θ0 θ →
  adam_reach (S n) θ0 (adam_step (Autograd := adam_autograd derive) o θ g).2.
Proof.
  intros [Hok Hb] Hn. unfold adam_reach.
  rewrite S_INR, Rmult_plus_distr_l, Rmult_1_r, adam_step_flatten.
  eapply within_trans; [exact Hn|]. by apply adam_update_within.
Qed.

Definition adam_bounded : StepBounded R Θ (AG := adam_autograd derive) :=
  @Build_StepBounded R Θ (adam_autograd derive) adam_opt_ok adam_reach
    adam_reach_refl adam_reach_mono adam_opt_ok_step adam_reach_step.
End adam_bounded.

(** The bound of the optimizers of [GAN.__init__]. *)
Lemma gan_bound_nonneg : (0 <= 37 / 10000)%R.
Proof. lra. Qed.

Lemma gan_opt_ok : adam_opt_ok (37 / 10000) (adam_init (1 # 10000)%Q ((1 # 2)%Q, (999 # 1000)%Q)).
Proof. split; [apply adam_init_ok, gan_hyper_ok|apply gan_step_bound]. Qed.

(** ** Theorems *)

Section drift_theorems.
Context {R Rng : Type} `{Scalar R, Random Rng, Models R, UtilOps R Rng}.
Context {AG : Autograd R gen_params} {AD : Autograd R dis_params}.
Context {BG : StepBounded R gen_params} {BD : StepBounded R dis_params}.
Implicit Types (w : world (Rng := Rng)) (ds : dataset R Rng).

(** C13 (safety).  However [train_gan] ends, by returning or by an
    exception raised anywhere, on any dataset and with any networks
    and [util_ops]: when it is called with optimizers in a good state,
    it leaves them in a good state, the discriminator's parameters at
    most [len(D_losses)] steps of [optimizerD] away from where they
    were at the call and the generator's at most [len(G_losses)] steps
    of [optimizerG], for the lists as it leaves them. *)
Theorem train_gan_drift ds w (w' := (train_gan ds w).2) :
  opt_ok (optimizerD (self w)) → opt_ok (optimizerG (self w)) →
  opt_ok (optimizerD (self w')) ∧ opt_ok (optimizerG (self w'))
  ∧ reach (length (D_losses (locals w')))
      (params (dis (self w))) (params (dis (self w')))
  ∧ reach (length (G_losses (locals w')))
      (params (gen (self w))) (params (gen (self w'))).
Proof.
  intros HD HG.
  pose proof (drift_train_gan (params (gen (self w))) (params (dis (self w)))
                ds w) as Hrun.
  unfold w'. destruct (train_gan ds w) as [[[]|e] w1];
    apply Hrun; split_and!; done || apply reach_refl.
Qed.
End drift_theorems.

Section adam_theorems.
Context {Rng : Type} `{Random Rng, Models R, UtilOps R Rng}.
Context {FG : Flat gen_params} {FD : Flat dis_params}.
Variables (deriveG : (gen_params → result R) → gen_params → list R).
Variables (deriveD : (dis_params → result R) → dis_params → list R).

#[local] Instance adam_G : Autograd R gen_params := adam_autograd deriveG.
#[local] Instance adam_D : Autograd R dis_params := adam_autograd deriveD.
Implicit Types (s : GAN) (ds : dataset R Rng).

(** C15 (bounds).  [optimizerD.step()] with Adam moves no element of
    the discriminator's parameters by more than [B], whatever the
    gradients in the [.grad] buffer are, when the averages of the
    optimizer satisfy their invariant and
    [B >= lr * sqrt (beta2 / ((beta2 - beta1^2) * (1 - beta2)))]; the
    optimizer keeps the invariant and its hyperparameters. *)
Theorem stepD_bounded s B :
  adam_ok (optimizerD s) → step_bound (optimizerD s) B →
  within B (flatten (params (dis s))) (flatten (params (dis (stepD s))))
  ∧ adam_ok (optimizerD (stepD s)) ∧ step_bound (optimizerD (stepD s)) B.
Proof.
  intros Hok HB. unfold stepD. destruct (grads (dis s)) as [g|].
  - cbn [optimizerD set_optimizerD dis set_dis params set_params].
    unfold adam_D. rewrite adam_step_flatten. split_and!;
      [by apply adam_update_within|by apply adam_update_ok
      |by apply step_bound_update].
  - split_and!; [|done..]. apply within_refl, HB.
Qed.

(** C14 (bounds).  The object [GAN.__init__] builds, trained by
    [train_gan] on any dataset, with any networks, from any state of
    the random number generator: however the call ends, no element of
    the discriminator's parameters is further than
    [0.0037 * len(D_losses)] from its initial value, and no element of
    the generator's further than [0.0037 * len(G_losses)]. *)
Theorem train_gan_moves_parameters_slowly dv θg θd ds l g t out
    (w' := (train_gan ds (World (GAN_init dv θg θd) l g t out)).2) :
  within (37 / 10000 * INR (length (D_losses (locals w'))))
    (flatten θd) (flatten (params (dis (self w'))))
  ∧ within (37 / 10000 * INR (length (G_losses (locals w'))))
      (flatten θg) (flatten (params (gen (self w')))).
Proof.
  unshelve epose proof
    (drift_train_gan (BG := adam_bounded deriveG _ gan_bound_nonneg)
       (BD := adam_bounded deriveD _ gan_bound_nonneg) θg θd ds
       (World (GAN_init dv θg θd) l g t out) _) as Hrun.
  { split_and!; apply gan_opt_ok || apply adam_reach_refl. }
  unfold w'. by destruct (train_gan ds _) as [[[]|e] w1];
    destruct Hrun as (_ & _ & HD & HG).
Qed.
End adam_theorems.

(** ** The theorems at concrete inputs

    The networks of [Toy] over the real numbers, with one parameter
    each, trained by Adam with the gradients of [Toy]. *)

Module ToyReal.
#[export] Instance real_random : Random nat := Toy.toy_random.

Lemma real_flatten_unflatten (θ : R) (l : list R) :
  length l = length [θ] → [default θ (head l)] = l.
Proof. by destruct l as [|x [|y l]]. Qed.

#[export] Instance real_flat : Flat R := {|
  flatten := λ θ, [θ];
  unflatten := λ θ l, default θ (head l);
  flatten_unflatten := real_flatten_unflatten;
|}.

#[export] Instance real_models : Models R := small_models 1 1 2.
#[export] Instance real_util : UtilOps R nat := small_util 1 2.

Definition real_derive (L : R → result R) (θ : R) : list R := [small_derive L θ].

Definition real_gan : GAN (H1 := real_models) (AG := adam_autograd real_derive)
    (AD := adam_autograd real_derive) :=
  GAN_init (H1 := real_models) Cpu 1%R 1%R.

Definition real_world : world (R := R) (Rng := nat) := World real_gan (Frame [] [] 0) 0 NoGraph [].

Definition real_dataset : dataset R nat :=
  list_dataset (replicate 4 (Tensor [1; 1; 2] [1%R; 2%R] Cpu, 0)).

(** Its optimizers move an element by [0.0037] at most. *)
Definition real_bounded :
    StepBounded R (gen_params (Models := real_models))
      (AG := adam_autograd real_derive) :=
  adam_bounded real_derive (37 / 10000) gan_bound_nonneg.

(** The object after [d_loss.backward()] left the gradient [1/2]. *)
Definition real_gan_with_grads : GAN (H1 := real_models) :=
  set_dis (H1 := real_models) (AD := adam_autograd real_derive)
    (NnModule 1%R (Some [(1 / 2)%R]) true Cpu) real_gan.
End ToyReal.

Import ToyReal.

Lemma train_gan_drift_witness :
  adam_opt_ok (37 / 10000) (optimizerD (self (train_gan real_dataset real_world).2))
  ∧ adam_opt_ok (37 / 10000) (optimizerG (self (train_gan real_dataset real_world).2))
  ∧ adam_reach (37 / 10000)
      (length (D_losses (locals (train_gan real_dataset real_world).2)))
      1%R (params (dis (self (train_gan real_dataset real_world).2)))
  ∧ adam_reach (37 / 10000)
      (length (G_losses (locals (train_gan real_dataset real_world).2)))
      1%R (params (gen (self (train_gan real_dataset real_world).2))).
Proof.
  exact (train_gan_drift (BG := real_bounded) (BD := real_bounded)
           real_dataset real_world gan_opt_ok gan_opt_ok).
Defined.

Lemma stepD_bounded_witness :
  within (37 / 10000) [1%R] (flatten (params (dis (stepD real_gan_with_grads))))
  ∧ adam_ok (optimizerD (stepD real_gan_with_grads))
  ∧ step_bound (optimizerD (stepD real_gan_with_grads)) (37 / 10000).
Proof.
  exact (stepD_bounded real_derive real_derive real_gan_with_grads (37 / 10000)
           (adam_init_ok _ _ gan_hyper_ok) gan_step_bound).
Defined.
